(** * Record manager over a buffer pool: a shallow embedding

    The development follows the two C translation units of the repository:
    [buffer_mgr.c] (module [BufferMgr]) and [record_mgr.c] (module
    [RecordMgr]), and the client code of [test_assign3_2.c] (module
    [TestAssign3]).  The page file provider (storage_mgr.c) is external to
    them; module [Storage] models the part of its interface the units
    call.

    Conventions.
    - A C [int] is a [Z].  Counters that the code increments or decrements
      ([fixCount], [usage], [readIO], [writeIO], [numTuples], the
      [slotsUsed] page header) wrap around at 32 bits ([Int32.wrap]).
      Address arithmetic (page numbers, byte offsets in a page) is exact:
      the theorems that depend on it carry the range they need.
    - A byte is a [Byte.byte]; a buffer is a [list byte].
    - The pool and the table are threaded explicitly through every call,
      together with the file they are bound to. *)

From Stdlib Require Import ZArith Lia DecimalString DecimalPos.
From Stdlib.Strings Require Import Byte String.
From stdpp Require Import base list.

Local Open Scope Z_scope.

(** ** 32-bit integers and their byte image *)

Module Int32.

Definition modulus : Z := 4294967296.
Definition half : Z := 2147483648.
Definition max_int : Z := 2147483647.
Definition min_int : Z := -2147483648.

(** Two's complement wrap-around of a mathematical integer. *)
Definition wrap (z : Z) : Z := (z + half) mod modulus - half.

Definition add (a b : Z) : Z := wrap (a + b).
Definition sub (a b : Z) : Z := wrap (a - b).

Definition byte_of_Z (z : Z) : byte :=
  default x00 (Byte.of_N (Z.to_N (z mod 256))).

Definition Z_of_byte (b : byte) : Z := Z.of_N (Byte.to_N b).

(** [memcpy(dst, &i, sizeof(int))]: the four bytes of [i], least
    significant first. *)
Definition encode (z : Z) : list byte :=
  [byte_of_Z z; byte_of_Z (z / 256); byte_of_Z (z / 65536);
   byte_of_Z (z / 16777216)].

(** [memcpy(&i, src, sizeof(int))]. *)
Definition decode (l : list byte) : Z :=
  let b (i : nat) := Z_of_byte (default x00 (l !! i)) in
  wrap (b 0%nat + 256 * b 1%nat + 65536 * b 2%nat + 16777216 * b 3%nat).

End Int32.

(** ** Raw memory helpers *)

Module Mem.

Abbreviation buffer := (list byte) (only parsing).

(** [p[i]] for a buffer [p]; an index outside the buffer reads as 0. *)
Definition load (d : buffer) (i : Z) : byte :=
  if i <? 0 then x00 else default x00 (d !! Z.to_nat i).

(** [p[i] = b]; an index outside the buffer leaves it as it is. *)
Definition store (d : buffer) (i : Z) (b : byte) : buffer :=
  if i <? 0 then d else <[Z.to_nat i := b]> d.

(** [memcpy(dst + off, src, n)]. *)
Definition memcpy_to (dst : buffer) (off : Z) (src : buffer) (n : Z) : buffer :=
  if off <? 0 then dst
  else list_inserts (Z.to_nat off) (take (Z.to_nat n) src) dst.

(** The [n] bytes that [memcpy(dst, src + off, n)] reads. *)
Definition memcpy_from (src : buffer) (off : Z) (n : Z) : buffer :=
  if off <? 0 then [] else take (Z.to_nat n) (drop (Z.to_nat off) src).

(** [memset(dst + off, b, n)]. *)
Definition memset (dst : buffer) (off : Z) (b : byte) (n : Z) : buffer :=
  memcpy_to dst off (replicate (Z.to_nat n) b) n.

End Mem.

(** ** Return codes (dberror.h) *)

Inductive RC : Set :=
| RC_OK
| RC_FILE_NOT_FOUND
| RC_READ_NON_EXISTING_PAGE
| RC_MEMORY_ALLOCATION_ERROR
| RC_RM_NO_MORE_TUPLES
| RC_ERROR.

Definition rc_ok (rc : RC) : bool :=
match rc with RC_OK => true | _ => false end.

(** ** The page file provider *)

Module Storage.

Abbreviation page := (list byte) (only parsing).

(** Modelled from the spec: dberror.h is not part of the sources; the
    spec names 4096 as the canonical page size. *)
Definition PAGE_SIZE : Z := 4096.

Definition zeroPage : page := replicate (Z.to_nat PAGE_SIZE) x00.

(** Modelled from the spec: storage_mgr.c is not part of the sources.  A
    page file is a sequence of fixed-size blocks; [written] records, in
    order, the page numbers handed to the file for writing. *)
Record SM_File : Type := mkFile {
  blocks : list page;
  written : list Z
}.

(** Modelled from the spec: [createPageFile] creates a file of exactly
    one zeroed page. *)
Definition createPageFile : SM_File :=
  {| blocks := [zeroPage]; written := [] |}.

(** Modelled from the spec: the [totalNumPages] field of an open handle. *)
Definition totalNumPages (f : SM_File) : Z := Z.of_nat (length (blocks f)).

(** Modelled from the spec: [ensureCapacity] extends the file with zeroed
    pages so that [totalNumPages >= numPages]. *)
Definition ensureCapacity (numPages : Z) (f : SM_File) : SM_File :=
  {| blocks := blocks f ++ replicate (Z.to_nat (numPages - totalNumPages f)) zeroPage;
     written := written f |}.

(** [fseek] to [pageNum * PAGE_SIZE], [fread] of [PAGE_SIZE] bytes and the
    zero fill of what a short read leaves. *)
Definition readBlock (f : SM_File) (pageNum : Z) : page :=
  resize (Z.to_nat PAGE_SIZE) x00 (default [] (blocks f !! Z.to_nat pageNum)).

(** [fseek] to [pageNum * PAGE_SIZE] and [fwrite] of [PAGE_SIZE] bytes; a
    write past the end of the file leaves a hole of zeroes. *)
Definition writeBlock (f : SM_File) (pageNum : Z) (d : page) : SM_File :=
  let n := Z.to_nat pageNum in
  {| blocks := <[n := resize (Z.to_nat PAGE_SIZE) x00 d]>
                 (blocks f ++ replicate (S n - length (blocks f)) zeroPage);
     written := written f ++ [pageNum] |}.

End Storage.

(** ** buffer_mgr.c *)

Module BufferMgr.
Import Storage.

Inductive ReplacementStrategy : Set :=
| RS_FIFO | RS_LRU | RS_CLOCK | RS_LFU | RS_LRU_K.

Record PageFrame : Type := mkFrame {
  data : option page;      (* [None] is the NULL buffer of a fresh frame *)
  pageNum : Z;
  dirty : bool;
  fixCount : Z;
  usage : Z
}.

Record BM_MgmtData : Type := mkMgmt {
  frames : list PageFrame;
  readIO : Z;
  writeIO : Z;
  clockPointer : Z
}.

(** [pageFile] is the name of the file; its contents are the [SM_File]
    that every operation takes and returns. *)
Record BM_BufferPool : Type := mkPool {
  numPages : Z;
  strategy : ReplacementStrategy;
  mgmtData : option BM_MgmtData
}.

(** [h_data] is the pointer into the pool: the index of the frame whose
    buffer the handle aliases. *)
Record BM_PageHandle : Type := mkHandle {
  h_pageNum : Z;
  h_data : nat
}.

Definition NO_PAGE : Z := -1.

(** A handle that no [pinPage] has filled in yet. *)
Definition nullHandle : BM_PageHandle := {| h_pageNum := -1; h_data := 0%nat |}.

Definition set_frames (mgmt : BM_MgmtData) (fr : list PageFrame) : BM_MgmtData :=
  {| frames := fr; readIO := readIO mgmt; writeIO := writeIO mgmt;
     clockPointer := clockPointer mgmt |}.

Definition set_mgmt (bm : BM_BufferPool) (m : option BM_MgmtData) : BM_BufferPool :=
  {| numPages := numPages bm; strategy := strategy bm; mgmtData := m |}.

Definition set_dirty (pf : PageFrame) (b : bool) : PageFrame :=
  {| data := data pf; pageNum := pageNum pf; dirty := b;
     fixCount := fixCount pf; usage := usage pf |}.

Definition set_fixCount (pf : PageFrame) (n : Z) : PageFrame :=
  {| data := data pf; pageNum := pageNum pf; dirty := dirty pf;
     fixCount := n; usage := usage pf |}.

Definition set_data (pf : PageFrame) (d : page) : PageFrame :=
  {| data := Some d; pageNum := pageNum pf; dirty := dirty pf;
     fixCount := fixCount pf; usage := usage pf |}.

Definition initPageFrameArray (numPages : Z) : list PageFrame :=
  replicate (Z.to_nat numPages)
    {| data := None; pageNum := -1; dirty := false; fixCount := 0; usage := 0 |}.

(** The index of the first frame holding [pn], [None] for the C [-1]. *)
Fixpoint findPageFrame_from (i : nat) (fr : list PageFrame) (pn : Z) : option nat :=
  match fr with
  | [] => None
  | pf :: rest =>
      if pageNum pf =? pn then Some i else findPageFrame_from (S i) rest pn
  end.

Definition findPageFrame (mgmt : BM_MgmtData) (pn : Z) : option nat :=
  findPageFrame_from 0 (frames mgmt) pn.

Definition findFreeFrame (mgmt : BM_MgmtData) : option nat :=
  findPageFrame_from 0 (frames mgmt) (-1).

(** The loop of [findVictimFrame], with its two accumulators. *)
Fixpoint findVictim_from (i : nat) (fr : list PageFrame)
    (victimIndex : option nat) (leastUsage : Z) : option nat :=
  match fr with
  | [] => victimIndex
  | pf :: rest =>
      if (fixCount pf =? 0) && (usage pf <? leastUsage)
      then findVictim_from (S i) rest (Some i) (usage pf)
      else findVictim_from (S i) rest victimIndex leastUsage
  end.

Definition findVictimFrame (mgmt : BM_MgmtData) : nat :=
  match findVictim_from 0 (frames mgmt) None 2147483647 with
  | Some i => i
  | None => 0%nat   (* if all pinned => fallback to index 0 *)
  end.

(** Writes the frame's buffer at its page number and counts the write.
    The C code passes the buffer to [fwrite] unchecked; a frame without a
    buffer writes nothing and reports [RC_ERROR]. *)
Definition writeDirtyPageToDisk (fs : SM_File) (wio : Z) (pf : PageFrame)
    : RC * SM_File * Z :=
  match data pf with
  | Some d => (RC_OK, writeBlock fs (pageNum pf) d, Int32.add wio 1)
  | None => (RC_ERROR, fs, Int32.add wio 1)
  end.

(** The call on a page file that exists, with its two allocations
    granted: the returns of [RC_FILE_NOT_FOUND] and
    [RC_MEMORY_ALLOCATION_ERROR] depend on the file system and on the
    allocator, and are not part of the model. *)
Definition initBufferPool (numPages : Z) (strategy : ReplacementStrategy)
    : RC * BM_BufferPool :=
  (RC_OK,
   {| numPages := numPages; strategy := strategy;
      mgmtData := Some {| frames := initPageFrameArray numPages;
                          readIO := 0; writeIO := 0; clockPointer := 0 |} |}).

(** The loop of [forceFlushPool] over the frames in index order. *)
Fixpoint flushFrames (fs : SM_File) (wio : Z) (fr : list PageFrame)
    : RC * SM_File * Z * list PageFrame :=
  match fr with
  | [] => (RC_OK, fs, wio, [])
  | pf :: rest =>
      if dirty pf && (fixCount pf =? 0) then
        let '(rc, fs1, wio1) := writeDirtyPageToDisk fs wio pf in
        if rc_ok rc then
          let '(rc2, fs2, wio2, rest2) := flushFrames fs1 wio1 rest in
          (rc2, fs2, wio2, set_dirty pf false :: rest2)
        else (rc, fs1, wio1, pf :: rest)
      else
        let '(rc2, fs2, wio2, rest2) := flushFrames fs wio rest in
        (rc2, fs2, wio2, pf :: rest2)
  end.

Definition forceFlushPool (fs : SM_File) (bm : BM_BufferPool)
    : RC * SM_File * BM_BufferPool :=
  match mgmtData bm with
  | None => (RC_ERROR, fs, bm)
  | Some mgmt =>
      let '(rc, fs1, wio1, fr1) := flushFrames fs (writeIO mgmt) (frames mgmt) in
      (rc, fs1,
       set_mgmt bm (Some {| frames := fr1; readIO := readIO mgmt;
                            writeIO := wio1; clockPointer := clockPointer mgmt |}))
  end.

Definition shutdownBufferPool (fs : SM_File) (bm : BM_BufferPool)
    : RC * SM_File * BM_BufferPool :=
  match mgmtData bm with
  | None => (RC_ERROR, fs, bm)
  | Some _ =>
      let '(rc, fs1, bm1) := forceFlushPool fs bm in
      if rc_ok rc then
        match mgmtData bm1 with
        | None => (RC_ERROR, fs1, bm1)
        | Some mgmt1 =>
            if existsb (fun pf => 0 <? fixCount pf) (frames mgmt1)
            then (RC_ERROR, fs1, bm1)
            else (RC_OK, fs1, set_mgmt bm1 None)
        end
      else (rc, fs1, bm1)
  end.

Definition markDirty (bm : BM_BufferPool) (page : BM_PageHandle)
    : RC * BM_BufferPool :=
  match mgmtData bm with
  | None => (RC_ERROR, bm)
  | Some mgmt =>
      match findPageFrame mgmt (h_pageNum page) with
      | None => (RC_ERROR, bm)
      | Some index =>
          (RC_OK,
           set_mgmt bm (Some (set_frames mgmt
             (alter (fun pf => set_dirty pf true) index (frames mgmt)))))
      end
  end.

Definition unpinPage (bm : BM_BufferPool) (page : BM_PageHandle)
    : RC * BM_BufferPool :=
  match mgmtData bm with
  | None => (RC_ERROR, bm)
  | Some mgmt =>
      match findPageFrame mgmt (h_pageNum page) with
      | None => (RC_ERROR, bm)
      | Some index =>
          (RC_OK,
           set_mgmt bm (Some (set_frames mgmt
             (alter (fun pf => if 0 <? fixCount pf
                               then set_fixCount pf (fixCount pf - 1) else pf)
                    index (frames mgmt)))))
      end
  end.

Definition forcePage (fs : SM_File) (bm : BM_BufferPool) (page : BM_PageHandle)
    : RC * SM_File * BM_BufferPool :=
  match mgmtData bm with
  | None => (RC_ERROR, fs, bm)
  | Some mgmt =>
      match findPageFrame mgmt (h_pageNum page) with
      | None => (RC_ERROR, fs, bm)
      | Some index =>
          match frames mgmt !! index with
          | None => (RC_ERROR, fs, bm)
          | Some pf =>
              if dirty pf then
                let '(rc, fs1, wio1) := writeDirtyPageToDisk fs (writeIO mgmt) pf in
                let mgmt1 := {| frames := frames mgmt; readIO := readIO mgmt;
                                writeIO := wio1; clockPointer := clockPointer mgmt |} in
                if rc_ok rc then
                  (RC_OK, fs1,
                   set_mgmt bm (Some (set_frames mgmt1
                     (<[index := set_dirty pf false]> (frames mgmt)))))
                else (rc, fs1, set_mgmt bm (Some mgmt1))
              else (RC_OK, fs, bm)
          end
      end
  end.

(** The frame a page that is not resident is loaded into. *)
Definition replacementFrame (mgmt : BM_MgmtData) : nat :=
  match findFreeFrame mgmt with
  | Some i => i
  | None => findVictimFrame mgmt
  end.

(** [page] is the caller's handle; it is written on success only.  With
    no frame at all the C code indexes an empty array; the model reports
    [RC_ERROR] there. *)
Definition pinPage (fs : SM_File) (bm : BM_BufferPool) (page : BM_PageHandle)
    (pn : Z) : RC * SM_File * BM_BufferPool * BM_PageHandle :=
  match mgmtData bm with
  | None => (RC_ERROR, fs, bm, page)
  | Some mgmt =>
      if pn <? 0 then (RC_ERROR, fs, bm, page)
      else
        match findPageFrame mgmt pn with
        | Some idx =>
            (RC_OK, fs,
             set_mgmt bm (Some (set_frames mgmt
               (alter (fun pf =>
                         {| data := data pf; pageNum := pageNum pf;
                            dirty := dirty pf;
                            fixCount := Int32.add (fixCount pf) 1;
                            usage := Int32.add (usage pf) 1 |})
                      idx (frames mgmt)))),
             {| h_pageNum := pn; h_data := idx |})
        | None =>
            let freeIndex := replacementFrame mgmt in
            match frames mgmt !! freeIndex with
            | None => (RC_ERROR, fs, bm, page)
            | Some pf =>
                let '(rc, fs1, wio1) :=
                  if dirty pf then writeDirtyPageToDisk fs (writeIO mgmt) pf
                  else (RC_OK, fs, writeIO mgmt) in
                if rc_ok rc then
                  let fs2 := ensureCapacity (pn + 1) fs1 in
                  let pf' := {| data := Some (readBlock fs2 pn); pageNum := pn;
                                dirty := false; fixCount := 1; usage := 1 |} in
                  (RC_OK, fs2,
                   set_mgmt bm (Some
                     {| frames := <[freeIndex := pf']> (frames mgmt);
                        readIO := Int32.add (readIO mgmt) 1;
                        writeIO := wio1;
                        clockPointer := clockPointer mgmt |}),
                   {| h_pageNum := pn; h_data := freeIndex |})
                else
                  (rc, fs1,
                   set_mgmt bm (Some
                     {| frames := frames mgmt; readIO := readIO mgmt;
                        writeIO := wio1; clockPointer := clockPointer mgmt |}),
                   page)
            end
        end
  end.

(** [page->data] read through a handle: the buffer of the frame the handle
    points into. *)
Definition deref (bm : BM_BufferPool) (page : BM_PageHandle) : Storage.page :=
  match mgmtData bm with
  | None => []
  | Some mgmt =>
      match frames mgmt !! h_data page with
      | Some pf => default [] (data pf)
      | None => []
      end
  end.

(** A write through [page->data]: the bytes land in the frame's buffer. *)
Definition assign (bm : BM_BufferPool) (page : BM_PageHandle) (d : Storage.page)
    : BM_BufferPool :=
  match mgmtData bm with
  | None => bm
  | Some mgmt =>
      set_mgmt bm (Some (set_frames mgmt
        (alter (fun pf => set_data pf d) (h_data page) (frames mgmt))))
  end.

Definition getFrameContents (bm : BM_BufferPool) : option (list Z) :=
  match mgmtData bm with
  | None => None
  | Some mgmt =>
      Some (map (fun pf => if pageNum pf =? -1 then NO_PAGE else pageNum pf)
                (frames mgmt))
  end.

Definition getDirtyFlags (bm : BM_BufferPool) : option (list bool) :=
  match mgmtData bm with
  | None => None
  | Some mgmt => Some (map dirty (frames mgmt))
  end.

Definition getFixCounts (bm : BM_BufferPool) : option (list Z) :=
  match mgmtData bm with
  | None => None
  | Some mgmt => Some (map fixCount (frames mgmt))
  end.

Definition getNumReadIO (bm : BM_BufferPool) : Z :=
  match mgmtData bm with None => 0 | Some mgmt => readIO mgmt end.

Definition getNumWriteIO (bm : BM_BufferPool) : Z :=
  match mgmtData bm with None => 0 | Some mgmt => writeIO mgmt end.

(** *** Notions the statements about the pool use *)



(** The frames [forceFlushPool] writes, and what it leaves of a frame. *)
Definition flushable (pf : PageFrame) : bool :=
  dirty pf && (fixCount pf =? 0).

Definition flushFrame (pf : PageFrame) : PageFrame :=
  if flushable pf then set_dirty pf false else pf.

(** The file after the buffers of the frames [l] were written in order. *)
Definition writeAll (fs : SM_File) (l : list PageFrame) : SM_File :=
  fold_left (fun f pf => writeBlock f (pageNum pf) (default [] (data pf))) l fs.

(** Every dirty frame has a buffer to write. *)
Definition dirtyBuffered (fr : list PageFrame) : Prop :=
  forall j pf, fr !! j = Some pf -> dirty pf = true -> is_Some (data pf).

(** The current contents of page [q] as a client of the pool sees them: the
    buffer of the frame that holds [q], the block of the file otherwise. *)
Definition viewFrames (fs : SM_File) (fr : list PageFrame) (q : Z) : page :=
  match findPageFrame_from 0 fr q with
  | None => readBlock fs q
  | Some i =>
      match fr !! i with
      | Some pf => default [] (data pf)
      | None => []
      end
  end.

Definition view (fs : SM_File) (bm : BM_BufferPool) (q : Z) : page :=
  match mgmtData bm with
  | None => readBlock fs q
  | Some mgmt => viewFrames fs (frames mgmt) q
  end.

(** A frame is free and clean, or holds a page of the file in a buffer of
    [PAGE_SIZE] bytes that equals the block on file unless it is dirty. *)
Definition frame_ok (fs : SM_File) (pf : PageFrame) : Prop :=
  (pageNum pf = -1 /\ dirty pf = false)
  \/ (0 <= pageNum pf < totalNumPages fs /\
      exists d, data pf = Some d /\ length d = Z.to_nat PAGE_SIZE /\
                (dirty pf = false -> d = readBlock fs (pageNum pf))).

(** The pool has a frame, every frame is in order and no page is resident
    twice. *)
Definition frames_wf (fs : SM_File) (fr : list PageFrame) : Prop :=
  fr <> [] /\
  (forall i pf, fr !! i = Some pf -> frame_ok fs pf) /\
  (forall i j pfi pfj, fr !! i = Some pfi -> fr !! j = Some pfj ->
     pageNum pfi = pageNum pfj -> pageNum pfi <> -1 -> i = j).

Definition pool_wf (fs : SM_File) (bm : BM_BufferPool) : Prop :=
  exists mgmt, mgmtData bm = Some mgmt /\ frames_wf fs (frames mgmt).

(** [pn] is resident in frame [idx]. *)
Definition pinned_at (bm : BM_BufferPool) (pn : Z) (idx : nat) : Prop :=
  exists mgmt, mgmtData bm = Some mgmt /\ findPageFrame mgmt pn = Some idx.

(** What [markDirty] does to the frame it finds. *)
Definition setDirtyFrame (pf : PageFrame) : PageFrame := set_dirty pf true.

(** The pool with frame [idx] changed by [F]. *)
Definition touch (F : PageFrame -> PageFrame) (idx : nat) (bm : BM_BufferPool)
    : BM_BufferPool :=
  match mgmtData bm with
  | None => bm
  | Some mgmt => set_mgmt bm (Some (set_frames mgmt (alter F idx (frames mgmt))))
  end.

(** What [unpinPage] does to the frame it finds. *)
Definition unpinFrame (pf : PageFrame) : PageFrame :=
  if 0 <? fixCount pf then set_fixCount pf (fixCount pf - 1) else pf.

(** The client of scenario 4: a 3-frame FIFO pool, pages 0 to 3 pinned in
    order, each marked dirty and unpinned before the next pin. *)
Definition pinDirtyUnpin (fs : SM_File) (bm : BM_BufferPool) (pn : Z)
    : SM_File * BM_BufferPool :=
  let '(_, fs, bm, h) := pinPage fs bm nullHandle pn in
  let '(_, bm) := markDirty bm h in
  let '(_, bm) := unpinPage bm h in
  (fs, bm).

(** The pool after pages 0, 1 and 2 went through it. *)
Definition threeDirtyPages (fs : SM_File) : SM_File * BM_BufferPool :=
  let '(_, bm) := initBufferPool 3 RS_FIFO in
  let '(fs, bm) := pinDirtyUnpin fs bm 0 in
  let '(fs, bm) := pinDirtyUnpin fs bm 1 in
  pinDirtyUnpin fs bm 2.

Definition writeBackScenario (fs : SM_File) : SM_File * BM_BufferPool :=
  let '(fs, bm) := threeDirtyPages fs in
  let '(_, fs, bm, _) := pinPage fs bm nullHandle 3 in
  (fs, bm).


(** A client that leaks a pin: page 0 is pinned, marked dirty and never
    unpinned; page 1 is pinned, marked dirty and unpinned. *)
Definition leakedPinPool : SM_File * BM_BufferPool :=
  let fs := createPageFile in
  let '(_, bm) := initBufferPool 3 RS_FIFO in
  let '(_, fs, bm, h) := pinPage fs bm nullHandle 0 in
  let '(_, bm) := markDirty bm h in
  pinDirtyUnpin fs bm 1.

(** No client holds a pin on a page of the pool. *)
Definition noPins (bm : BM_BufferPool) : Prop :=
  forall mgmt j pf,
    mgmtData bm = Some mgmt -> frames mgmt !! j = Some pf -> fixCount pf = 0.

(** No client holds a pin on page [q]. *)
Definition unpinnedPage (bm : BM_BufferPool) (q : Z) : Prop :=
  forall mgmt j pf,
    mgmtData bm = Some mgmt -> frames mgmt !! j = Some pf ->
    pageNum pf = q -> fixCount pf = 0.

(** The management data of a pool that has not been shut down. *)
Definition mgmtOf (bm : BM_BufferPool) : BM_MgmtData :=
  default {| frames := []; readIO := 0; writeIO := 0; clockPointer := 0 |}
          (mgmtData bm).

End BufferMgr.

(** ** record_mgr.c *)

Module RecordMgr.

Module BM := BufferMgr.

(** Modelled from the spec: tables.h is not part of the sources.  The
    catalog stores a data type as the integer of its enumerator. *)
Inductive DataType : Set := DT_INT | DT_STRING | DT_FLOAT | DT_BOOL.

Definition DataType_to_int (dt : DataType) : Z :=
  match dt with DT_INT => 0 | DT_STRING => 1 | DT_FLOAT => 2 | DT_BOOL => 3 end.

(** A catalog written by [writeTableInfo] holds the codes 0 to 3 only. *)
Definition DataType_of_int (z : Z) : DataType :=
  match z with 1 => DT_STRING | 2 => DT_FLOAT | 3 => DT_BOOL | _ => DT_INT end.

(** A C string is the list of its bytes up to the terminator; a list that
    holds a zero byte ends there. *)
Fixpoint cstr (s : list byte) : list byte :=
  match s with
  | [] => []
  | c :: rest => if Byte.eqb c x00 then [] else c :: cstr rest
  end.

Record Schema : Type := mkSchema {
  numAttr : Z;
  attrNames : list (list byte);
  dataTypes : list DataType;
  typeLength : list Z;
  keyAttrs : list Z;
  keySize : Z
}.

Record RID : Set := mkRID { page : Z; slot : Z }.

Record Record_ : Type := mkRecord { id : RID; data : list byte }.

(** The tagged union [Value].  A float is carried as its 32-bit pattern; a
    string as the bytes of its buffer. *)
Inductive Value : Type :=
| V_INT (intV : Z)
| V_STRING (stringV : list byte)
| V_FLOAT (floatV : Z)
| V_BOOL (boolV : bool).

Definition dt (v : Value) : DataType :=
  match v with
  | V_INT _ => DT_INT | V_STRING _ => DT_STRING
  | V_FLOAT _ => DT_FLOAT | V_BOOL _ => DT_BOOL
  end.

Record RM_TableMgmtData : Type := mkTblData {
  bufferPool : BM.BM_BufferPool;
  numTuples : Z;
  nextFreePage : Z;
  recordSize : Z
}.

(** [name] is the name of the table's file; its contents are the
    [SM_File] that every operation takes and returns. *)
Record RM_TableData : Type := mkRel {
  schema : Schema;
  mgmtData : RM_TableMgmtData
}.

(** Modelled from the spec: expr.h is not part of the sources.  A scan
    treats the expression as true iff the evaluator yields boolean true. *)
Definition Expr : Type := Record_ -> Schema -> bool.

Record RM_ScanMgmtData : Type := mkScan {
  currentPage : Z;
  currentSlot : Z;
  cond : option Expr
}.

Definition set_pool (t : RM_TableMgmtData) (bm : BM.BM_BufferPool) : RM_TableMgmtData :=
  {| bufferPool := bm; numTuples := numTuples t;
     nextFreePage := nextFreePage t; recordSize := recordSize t |}.

Definition set_numTuples (t : RM_TableMgmtData) (n : Z) : RM_TableMgmtData :=
  {| bufferPool := bufferPool t; numTuples := n;
     nextFreePage := nextFreePage t; recordSize := recordSize t |}.

Definition set_nextFreePage (t : RM_TableMgmtData) (p : Z) : RM_TableMgmtData :=
  {| bufferPool := bufferPool t; numTuples := numTuples t;
     nextFreePage := p; recordSize := recordSize t |}.

Definition set_tbl (rel : RM_TableData) (t : RM_TableMgmtData) : RM_TableData :=
  {| schema := schema rel; mgmtData := t |}.

(** *** Helpers *)

(** The bytes one attribute occupies: the body of the [switch] that
    [computeRecordSize], [getAttr] and [setAttr] share. *)
Definition attrSize (sc : Schema) (i : nat) : Z :=
  match dataTypes sc !! i with
  | Some DT_INT => 4
  | Some DT_FLOAT => 4
  | Some DT_BOOL => 1
  | Some DT_STRING => default 0 (typeLength sc !! i)
  | None => 0
  end.

(** [for (i = 0; i < n; i++) offset += size of attribute i]. *)
Fixpoint attrOffset (sc : Schema) (n : nat) : Z :=
  match n with
  | O => 0
  | S n' => attrOffset sc n' + attrSize sc n'
  end.

Definition computeRecordSize (sc : Schema) : Z :=
  attrOffset sc (Z.to_nat (numAttr sc)).

(** Integer division of C truncates toward zero.  The quotient stands for
    the C division where the divisor [recSize + 1] is a non-zero [int]: at
    [recSize = -1] the C code divides by zero, and the statements about
    code that calls [computeMaxSlots] keep the record size off that
    value. *)
Definition computeMaxSlots (recSize : Z) : Z :=
  Z.quot (Storage.PAGE_SIZE - 4) (recSize + 1).

Definition getSlotFlag (d : Storage.page) (slotNum : Z) : Z :=
  Int32.Z_of_byte (Mem.load d (4 + slotNum)).

Definition setSlotFlag (d : Storage.page) (slotNum : Z) (val : Z) : Storage.page :=
  Mem.store d (4 + slotNum) (Int32.byte_of_Z val).

(** *** The catalog on page 0 *)

(** [sprintf("%d", z)]. *)
Definition sprintf_d (z : Z) : list byte :=
  list_byte_of_string (NilZero.string_of_int (Z.to_int z)).

(** [strcpy(dst + off, src)]: the bytes of [src] and its terminator. *)
Definition strcpy (dst : Storage.page) (off : Z) (src : list byte) : Storage.page :=
  Mem.memcpy_to dst off (src ++ [x00]) (Z.of_nat (length src) + 1).

(** The line [sprintf("%d %d %s\n", dataType, typeLength, attrName)]. *)
Definition attrLine (sc : Schema) (i : nat) : list byte :=
  sprintf_d (DataType_to_int (default DT_INT (dataTypes sc !! i)))
  ++ [x20] ++ sprintf_d (default 0 (typeLength sc !! i))
  ++ [x20] ++ cstr (default [] (attrNames sc !! i)) ++ [x0a].

Fixpoint writeAttrLines (sc : Schema) (n : nat) (i : nat)
    (d : Storage.page) (offset : Z) : Storage.page :=
  match n with
  | O => d
  | S n' =>
      let buffer := attrLine sc i in
      writeAttrLines sc n' (S i) (strcpy d offset buffer)
                     (offset + Z.of_nat (length buffer))
  end.

(** The text of page 0 for a table. *)
Definition catalogPage (d : Storage.page) (tblData : RM_TableMgmtData) (sc : Schema)
    : Storage.page :=
  let d := Mem.memset d 0 x00 Storage.PAGE_SIZE in
  let buffer := sprintf_d (numTuples tblData) ++ [x20]
                ++ sprintf_d (nextFreePage tblData) ++ [x0a] in
  let d := strcpy d 0 buffer in
  let offset := Z.of_nat (length buffer) in
  let buffer := sprintf_d (numAttr sc) ++ [x0a] in
  let d := strcpy d offset buffer in
  let offset := offset + Z.of_nat (length buffer) in
  writeAttrLines sc (Z.to_nat (numAttr sc)) 0 d offset.

Definition writeTableInfo (fs : Storage.SM_File) (rel : RM_TableData)
    : RC * Storage.SM_File * RM_TableData :=
  let tblData := mgmtData rel in
  let '(rc, fs, bm, page) := BM.pinPage fs (bufferPool tblData) BM.nullHandle 0 in
  if negb (rc_ok rc) then (rc, fs, set_tbl rel (set_pool tblData bm))
  else
    let bm := BM.assign bm page (catalogPage (BM.deref bm page) tblData (schema rel)) in
    let '(_, bm) := BM.markDirty bm page in
    let '(_, bm) := BM.unpinPage bm page in
    let '(_, fs, bm) := BM.forcePage fs bm page in
    (RC_OK, fs, set_tbl rel (set_pool tblData bm)).

Definition isspace (c : byte) : bool :=
  match c with
  | x20 | x09 | x0a | x0b | x0c | x0d => true
  | _ => false
  end.

Definition digit (c : byte) : option Z :=
  match c with
  | x30 => Some 0 | x31 => Some 1 | x32 => Some 2 | x33 => Some 3
  | x34 => Some 4 | x35 => Some 5 | x36 => Some 6 | x37 => Some 7
  | x38 => Some 8 | x39 => Some 9
  | _ => None
  end.

Fixpoint skip_ws (s : list byte) : list byte :=
  match s with
  | [] => []
  | c :: r => if isspace c then skip_ws r else s
  end.

Fixpoint scan_digits (acc : Z) (s : list byte) : Z * list byte :=
  match s with
  | [] => (acc, [])
  | c :: r =>
      match digit c with
      | Some v => scan_digits (10 * acc + v) r
      | None => (acc, s)
      end
  end.

(** The conversion [%d] of [sscanf]: white space, an optional sign, at least
    one digit.  [None] when the input does not match. *)
Definition scan_d (s : list byte) : option (Z * list byte) :=
  let s := skip_ws s in
  let '(neg, s1) :=
    match s with
    | x2d :: r => (true, r)
    | x2b :: r => (false, r)
    | _ => (false, s)
    end in
  match s1 with
  | [] => None
  | c :: _ =>
      match digit c with
      | None => None
      | Some _ =>
          let '(v, r) := scan_digits 0 s1 in
          Some (Int32.wrap (if neg then - v else v), r)
      end
  end.

Fixpoint scan_word (s : list byte) : list byte * list byte :=
  match s with
  | [] => ([], [])
  | c :: r =>
      if isspace c then ([], s)
      else let '(w, r') := scan_word r in (c :: w, r')
  end.

(** The conversion [%s]: white space, then the run of bytes up to the next
    white space. *)
Definition scan_s (s : list byte) : option (list byte * list byte) :=
  match scan_word (skip_ws s) with
  | ([], _) => None
  | (w, r) => Some (w, r)
  end.

(** What [%n] stores: the bytes consumed between [s] and its suffix [r]. *)
Definition consumed (s r : list byte) : Z :=
  Z.of_nat (length s - length r).

(** [sscanf(data, "%d %d\n%n", &numT, &freeP, &offset)].  A conversion that
    fails leaves the C variable unassigned; the model reads 0 for it. *)
Definition sscanf_d_d (s : list byte) : Z * Z * Z :=
  match scan_d s with
  | None => (0, 0, 0)
  | Some (a, s1) =>
      match scan_d s1 with
      | None => (a, 0, 0)
      | Some (b, s2) => (a, b, consumed s (skip_ws s2))
      end
  end.

(** [sscanf(data, "%d\n%n", &numAttr, &used)]. *)
Definition sscanf_d (s : list byte) : Z * Z :=
  match scan_d s with
  | None => (0, 0)
  | Some (a, s1) => (a, consumed s (skip_ws s1))
  end.

(** [sscanf(data, "%d %d %s\n%n", &dt, &tLen, nameBuf, &rLen)]. *)
Definition sscanf_d_d_s (s : list byte) : Z * Z * list byte * Z :=
  match scan_d s with
  | None => (0, 0, [], 0)
  | Some (a, s1) =>
      match scan_d s1 with
      | None => (a, 0, [], 0)
      | Some (b, s2) =>
          match scan_s s2 with
          | None => (a, b, [], 0)
          | Some (w, s3) => (a, b, w, consumed s (skip_ws s3))
          end
      end
  end.

(** The loop of [readTableInfo] over the attribute lines; the three arrays
    it fills are returned in index order. *)
Fixpoint readAttrLines (n : nat) (s : list byte)
    : list (list byte) * list DataType * list Z :=
  match n with
  | O => ([], [], [])
  | S n' =>
      let '(dt, tLen, nameBuf, rLen) := sscanf_d_d_s s in
      let '(names, types, lens) := readAttrLines n' (drop (Z.to_nat rLen) s) in
      (nameBuf :: names, DataType_of_int dt :: types, tLen :: lens)
  end.

Definition createSchema (numAttr : Z) (attrNames : list (list byte))
    (dataTypes : list DataType) (typeLength : list Z)
    (keySize : Z) (keys : list Z) : Schema :=
  {| numAttr := numAttr; attrNames := attrNames; dataTypes := dataTypes;
     typeLength := typeLength; keyAttrs := keys; keySize := keySize |}.

(** [rel] arrives with the pool set up by [openTable]; the catalog fields
    and the schema are filled in from page 0. *)
Definition readTableInfo (fs : Storage.SM_File) (bm : BM.BM_BufferPool)
    : RC * Storage.SM_File * BM.BM_BufferPool * option RM_TableData :=
  let '(rc, fs, bm, page) := BM.pinPage fs bm BM.nullHandle 0 in
  if negb (rc_ok rc) then (rc, fs, bm, None)
  else
    let s := cstr (BM.deref bm page) in
    let '(numT, freeP, offset) := sscanf_d_d s in
    let s := drop (Z.to_nat offset) s in
    let '(numAttr, used) := sscanf_d s in
    let s := drop (Z.to_nat used) s in
    let '(attrNames, dataTypes, typeLength) := readAttrLines (Z.to_nat numAttr) s in
    let sc := createSchema numAttr attrNames dataTypes typeLength 1 [0] in
    let '(_, bm) := BM.unpinPage bm page in
    (RC_OK, fs, bm,
     Some {| schema := sc;
             mgmtData := {| bufferPool := bm; numTuples := numT;
                            nextFreePage := freeP;
                            recordSize := computeRecordSize sc |} |}).

(** *** Record manager interface *)

Definition createTable (sc : Schema) : RC * Storage.SM_File :=
  let fs := Storage.createPageFile in
  let '(rc, bm) := BM.initBufferPool 3 BM.RS_FIFO in
  if negb (rc_ok rc) then (rc, fs)
  else
    let tmp := {| schema := sc;
                  mgmtData := {| bufferPool := bm; numTuples := 0;
                                 nextFreePage := -1;
                                 recordSize := computeRecordSize sc |} |} in
    let '(rc, fs, tmp) := writeTableInfo fs tmp in
    if negb (rc_ok rc) then (rc, fs)
    else
      let '(rc, fs, _) := BM.shutdownBufferPool fs (bufferPool (mgmtData tmp)) in
      (rc, fs).

Definition openTable (fs : Storage.SM_File)
    : RC * Storage.SM_File * option RM_TableData :=
  let '(rc, bm) := BM.initBufferPool 3 BM.RS_FIFO in
  if negb (rc_ok rc) then (rc, fs, None)
  else
    let '(rc, fs, _, rel) := readTableInfo fs bm in
    (rc, fs, rel).

(** On success the table is gone: both pointers of [rel] are reset. *)
Definition closeTable (fs : Storage.SM_File) (rel : RM_TableData)
    : RC * Storage.SM_File * option RM_TableData :=
  let '(rc, fs, rel) := writeTableInfo fs rel in
  if negb (rc_ok rc) then (rc, fs, Some rel)
  else
    let '(rc, fs, bm) := BM.shutdownBufferPool fs (bufferPool (mgmtData rel)) in
    if negb (rc_ok rc) then (rc, fs, Some (set_tbl rel (set_pool (mgmtData rel) bm)))
    else (RC_OK, fs, None).

Definition getNumTuples (rel : RM_TableData) : Z := numTuples (mgmtData rel).

Definition getRecordSize (sc : Schema) : Z := computeRecordSize sc.

Definition createRecord (sc : Schema) : RC * Record_ :=
  (RC_OK,
   {| id := {| page := -1; slot := -1 |};
      data := replicate (Z.to_nat (getRecordSize sc)) x00 |}).

(** *** Record-level operations *)

(** The search of [insertRecord] for the lowest slot whose flag is 0,
    started at slot [i] with [n] slots left to look at. *)
Fixpoint findFreeSlot_from (n : nat) (i : Z) (d : Storage.page) : option Z :=
  match n with
  | O => None
  | S n' =>
      if getSlotFlag d i =? 0 then Some i
      else findFreeSlot_from n' (i + 1) d
  end.

Definition findFreeSlot (d : Storage.page) (maxSlots : Z) : option Z :=
  findFreeSlot_from (Z.to_nat maxSlots) 0 d.

(** The first block of [insertRecord]: a new data page is appended to the
    file, zeroed through the pool and made the next free page. *)
Definition appendDataPage (fs : Storage.SM_File) (tblData : RM_TableMgmtData)
    : RC * Storage.SM_File * RM_TableMgmtData * Z :=
  let pageNum := Storage.totalNumPages fs in
  let fs := Storage.ensureCapacity (pageNum + 1) fs in
  let '(rc, fs, bm, page) := BM.pinPage fs (bufferPool tblData) BM.nullHandle pageNum in
  if negb (rc_ok rc) then (rc, fs, set_pool tblData bm, pageNum)
  else
    let d := Mem.memset (BM.deref bm page) 0 x00 Storage.PAGE_SIZE in
    let slotsUsed := 0 in
    let d := Mem.memcpy_to d 0 (Int32.encode slotsUsed) 4 in
    let bm := BM.assign bm page d in
    let '(_, bm) := BM.markDirty bm page in
    let '(_, bm) := BM.unpinPage bm page in
    (RC_OK, fs, set_nextFreePage (set_pool tblData bm) pageNum, pageNum).

(** [fuel] bounds the depth of the recursive retry; [None] when it runs
    out.  The writes through [page.data] are gathered in [d] and stored in
    the frame once. *)
Fixpoint insertRecord (fuel : nat) (fs : Storage.SM_File) (rel : RM_TableData)
    (record : Record_)
    : option (RC * Storage.SM_File * RM_TableData * Record_) :=
  match fuel with
  | O => None
  | S fuel' =>
      let tblData := mgmtData rel in
      let recSize := recordSize tblData in
      let pageNum := nextFreePage tblData in
      let '(rc, fs, tblData, pageNum) :=
        if pageNum <? 1 then appendDataPage fs tblData
        else (RC_OK, fs, tblData, pageNum) in
      if negb (rc_ok rc) then Some (rc, fs, set_tbl rel tblData, record)
      else
        let '(rc, fs, bm, page) :=
          BM.pinPage fs (bufferPool tblData) BM.nullHandle (nextFreePage tblData) in
        if negb (rc_ok rc) then Some (rc, fs, set_tbl rel (set_pool tblData bm), record)
        else
          let d := BM.deref bm page in
          let slotsUsed := Int32.decode (Mem.memcpy_from d 0 4) in
          let maxSlots := computeMaxSlots recSize in
          match findFreeSlot d maxSlots with
          | None =>
              let tblData := set_nextFreePage tblData (-1) in
              let '(_, bm) := BM.markDirty bm page in
              let '(_, bm) := BM.unpinPage bm page in
              insertRecord fuel' fs (set_tbl rel (set_pool tblData bm)) record
          | Some freeSlot =>
              let offset := 4 + maxSlots + freeSlot * recSize in
              let d := Mem.memcpy_to d offset (data record) recSize in
              let d := setSlotFlag d freeSlot 1 in
              let slotsUsed := Int32.add slotsUsed 1 in
              let d := Mem.memcpy_to d 0 (Int32.encode slotsUsed) 4 in
              let bm := BM.assign bm page d in
              let record :=
                {| id := {| page := nextFreePage tblData; slot := freeSlot |};
                   data := data record |} in
              let '(_, bm) := BM.markDirty bm page in
              let '(_, bm) := BM.unpinPage bm page in
              let tblData := set_numTuples (set_pool tblData bm)
                               (Int32.add (numTuples tblData) 1) in
              let tblData :=
                if slotsUsed =? maxSlots then set_nextFreePage tblData (-1)
                else set_nextFreePage tblData pageNum in
              Some (RC_OK, fs, set_tbl rel tblData, record)
          end
  end.

Definition deleteRecord (fs : Storage.SM_File) (rel : RM_TableData) (id : RID)
    : RC * Storage.SM_File * RM_TableData :=
  let tblData := mgmtData rel in
  let '(rc, fs, bm, pg) := BM.pinPage fs (bufferPool tblData) BM.nullHandle (page id) in
  let tblData := set_pool tblData bm in
  if negb (rc_ok rc) then (rc, fs, set_tbl rel tblData)
  else
    let d := BM.deref bm pg in
    let slotsUsed := Int32.decode (Mem.memcpy_from d 0 4) in
    let '(bm, tblData) :=
      if getSlotFlag d (slot id) =? 1 then
        let d := setSlotFlag d (slot id) 0 in
        let slotsUsed := Int32.sub slotsUsed 1 in
        let d := Mem.memcpy_to d 0 (Int32.encode slotsUsed) 4 in
        let bm := BM.assign bm pg d in
        let tblData := set_numTuples tblData (Int32.sub (numTuples tblData) 1) in
        let maxSlots := computeMaxSlots (recordSize tblData) in
        (bm,
         if slotsUsed =? maxSlots - 1 then set_nextFreePage tblData (page id)
         else tblData)
      else (bm, tblData) in
    let '(_, bm) := BM.markDirty bm pg in
    let '(_, bm) := BM.unpinPage bm pg in
    (RC_OK, fs, set_tbl rel (set_pool tblData bm)).

Definition updateRecord (fs : Storage.SM_File) (rel : RM_TableData) (record : Record_)
    : RC * Storage.SM_File * RM_TableData :=
  let tblData := mgmtData rel in
  let pageNum := page (id record) in
  let slotNum := slot (id record) in
  let '(rc, fs, bm, pg) := BM.pinPage fs (bufferPool tblData) BM.nullHandle pageNum in
  let tblData := set_pool tblData bm in
  if negb (rc_ok rc) then (rc, fs, set_tbl rel tblData)
  else if getSlotFlag (BM.deref bm pg) slotNum =? 0 then
    let '(_, bm) := BM.unpinPage bm pg in
    (RC_READ_NON_EXISTING_PAGE, fs, set_tbl rel (set_pool tblData bm))
  else
    let maxSlots := computeMaxSlots (recordSize tblData) in
    let offset := 4 + maxSlots + slotNum * recordSize tblData in
    let d := Mem.memcpy_to (BM.deref bm pg) offset (data record) (recordSize tblData) in
    let bm := BM.assign bm pg d in
    let '(_, bm) := BM.markDirty bm pg in
    let '(_, bm) := BM.unpinPage bm pg in
    (RC_OK, fs, set_tbl rel (set_pool tblData bm)).

(** [record] is the caller's record; its buffer receives the payload. *)
Definition getRecord (fs : Storage.SM_File) (rel : RM_TableData) (id : RID)
    (record : Record_)
    : RC * Storage.SM_File * RM_TableData * Record_ :=
  let tblData := mgmtData rel in
  let '(rc, fs, bm, pg) := BM.pinPage fs (bufferPool tblData) BM.nullHandle (page id) in
  let tblData := set_pool tblData bm in
  if negb (rc_ok rc) then (rc, fs, set_tbl rel tblData, record)
  else if getSlotFlag (BM.deref bm pg) (slot id) =? 0 then
    let '(_, bm) := BM.unpinPage bm pg in
    (RC_RM_NO_MORE_TUPLES, fs, set_tbl rel (set_pool tblData bm), record)
  else
    let maxSlots := computeMaxSlots (recordSize tblData) in
    let offset := 4 + maxSlots + slot id * recordSize tblData in
    let record :=
      {| id := {| page := page id; slot := slot id |};
         data := Mem.memcpy_to (data record) 0
                   (Mem.memcpy_from (BM.deref bm pg) offset (recordSize tblData))
                   (recordSize tblData) |} in
    let '(_, bm) := BM.unpinPage bm pg in
    (RC_OK, fs, set_tbl rel (set_pool tblData bm), record).

(** *** Scans *)

Definition startScan (cond : option Expr) : RC * RM_ScanMgmtData :=
  (RC_OK, {| currentPage := 1; currentSlot := 0; cond := cond |}).

(** The page fetch of [next]. *)
Definition scanFetch (fs : Storage.SM_File) (rel : RM_TableData) (sdata : RM_ScanMgmtData)
    : RC * Storage.SM_File * BM.BM_BufferPool * BM.BM_PageHandle :=
  BM.pinPage fs (bufferPool (mgmtData rel)) BM.nullHandle (currentPage sdata).

(** The inner loop of [next] over the slots of the pinned page; [n] bounds
    the slots left. *)
Fixpoint scanSlots (n : nat) (d : Storage.page) (maxSlots recSize : Z)
    (sc : Schema) (sdata : RM_ScanMgmtData) (record : Record_)
    : bool * RM_ScanMgmtData * Record_ :=
  match n with
  | O => (false, sdata, record)
  | S n' =>
      if currentSlot sdata <? maxSlots then
        let advance :=
          {| currentPage := currentPage sdata;
             currentSlot := currentSlot sdata + 1; cond := cond sdata |} in
        if getSlotFlag d (currentSlot sdata) =? 1 then
          let offset := 4 + maxSlots + currentSlot sdata * recSize in
          let record :=
            {| id := {| page := currentPage sdata; slot := currentSlot sdata |};
               data := Mem.memcpy_to (data record) 0
                         (Mem.memcpy_from d offset recSize) recSize |} in
          let pass :=
            match cond sdata with
            | Some e => e record sc
            | None => true
            end in
          if pass then (true, advance, record)
          else scanSlots n' d maxSlots recSize sc advance record
        else scanSlots n' d maxSlots recSize sc advance record
      else (false, sdata, record)
  end.

(** [fuel] bounds the pages the outer loop visits; [None] when it runs out. *)
Fixpoint next (fuel : nat) (fs : Storage.SM_File) (rel : RM_TableData)
    (sdata : RM_ScanMgmtData) (record : Record_)
    : option (RC * Storage.SM_File * RM_TableData * RM_ScanMgmtData * Record_) :=
  match fuel with
  | O => None
  | S fuel' =>
      let tblData := mgmtData rel in
      let recSize := recordSize tblData in
      let maxSlots := computeMaxSlots recSize in
      if currentPage sdata <? 1 then
        Some (RC_RM_NO_MORE_TUPLES, fs, rel, sdata, record)
      else
        let '(rc, fs, bm, pg) := scanFetch fs rel sdata in
        let rel := set_tbl rel (set_pool tblData bm) in
        if negb (rc_ok rc) then Some (RC_RM_NO_MORE_TUPLES, fs, rel, sdata, record)
        else
          let '(found, sdata, record) :=
            scanSlots (Z.to_nat (maxSlots - currentSlot sdata)) (BM.deref bm pg)
                      maxSlots recSize (schema rel) sdata record in
          let '(_, bm) := BM.unpinPage bm pg in
          let rel := set_tbl rel (set_pool tblData bm) in
          if found then Some (RC_OK, fs, rel, sdata, record)
          else
            let sdata := {| currentPage := currentPage sdata + 1;
                            currentSlot := 0; cond := cond sdata |} in
            if Storage.totalNumPages fs <=? currentPage sdata
            then Some (RC_RM_NO_MORE_TUPLES, fs, rel, sdata, record)
            else next fuel' fs rel sdata record
  end.

Definition closeScan (sdata : RM_ScanMgmtData) : RC * option RM_ScanMgmtData :=
  (RC_OK, None).

(** *** Attributes *)

(** [strncpy(dst, src, n)]: the [n] bytes it writes. *)
Fixpoint strncpy (src : list byte) (n : nat) : list byte :=
  match n with
  | O => []
  | S n' =>
      match src with
      | [] => replicate n x00
      | c :: rest =>
          if Byte.eqb c x00 then replicate n x00
          else c :: strncpy rest n'
      end
  end.

Definition getAttr (record : Record_) (sc : Schema) (attrNum : Z) : RC * Value :=
  let base := data record in
  let offset := attrOffset sc (Z.to_nat attrNum) in
  match default DT_INT (dataTypes sc !! Z.to_nat attrNum) with
  | DT_INT => (RC_OK, V_INT (Int32.decode (Mem.memcpy_from base offset 4)))
  | DT_FLOAT => (RC_OK, V_FLOAT (Int32.decode (Mem.memcpy_from base offset 4)))
  | DT_BOOL => (RC_OK, V_BOOL (negb (Byte.eqb (Mem.load base offset) x00)))
  | DT_STRING =>
      let len := default 0 (typeLength sc !! Z.to_nat attrNum) in
      (RC_OK, V_STRING (Mem.memcpy_from base offset len ++ [x00]))
  end.

Definition setAttr (record : Record_) (sc : Schema) (attrNum : Z) (value : Value)
    : RC * Record_ :=
  let base := data record in
  let offset := attrOffset sc (Z.to_nat attrNum) in
  let base :=
    match value with
    | V_INT intV => Mem.memcpy_to base offset (Int32.encode intV) 4
    | V_FLOAT floatV => Mem.memcpy_to base offset (Int32.encode floatV) 4
    | V_BOOL boolV => Mem.memcpy_to base offset [if boolV then x01 else x00] 1
    | V_STRING stringV =>
        let len := default 0 (typeLength sc !! Z.to_nat attrNum) in
        let base := Mem.memset base offset x00 len in
        Mem.memcpy_to base offset (strncpy stringV (Z.to_nat len)) len
    end in
  (RC_OK, {| id := id record; data := base |}).

(** *** Notions the statements about tables use *)





Definition table_wf (fs : Storage.SM_File) (rel : RM_TableData) : Prop :=
  BM.pool_wf fs (bufferPool (mgmtData rel)).

(** The current contents of page [q] of the table. *)
Definition pageView (fs : Storage.SM_File) (rel : RM_TableData) (q : Z)
    : Storage.page :=
  BM.view fs (bufferPool (mgmtData rel)) q.

(** The table is as before: same pages, same catalog fields. *)
Definition same_table (fs : Storage.SM_File) (rel : RM_TableData)
    (fs' : Storage.SM_File) (rel' : RM_TableData) : Prop :=
  (forall q, 0 <= q -> pageView fs' rel' q = pageView fs rel q) /\
  numTuples (mgmtData rel') = numTuples (mgmtData rel) /\
  nextFreePage (mgmtData rel') = nextFreePage (mgmtData rel) /\
  recordSize (mgmtData rel') = recordSize (mgmtData rel) /\
  schema rel' = schema rel.

(** The [slotsUsed] header of a data page. *)
Definition slotsUsedOf (d : Storage.page) : Z :=
  Int32.decode (Mem.memcpy_from d 0 4).

(** The payload bytes of slot [s] in a page of a table of record size [R]. *)
Definition payloadOf (R : Z) (d : Storage.page) (s : Z) : list byte :=
  Mem.memcpy_from d (4 + computeMaxSlots R + s * R) R.

Fixpoint sumZ (f : nat -> Z) (n : nat) : Z :=
  match n with
  | O => 0
  | S n' => sumZ f n' + f n'
  end.

(** The number of usage bytes with value 1 among the slots of a page. *)
Definition usedCount (R : Z) (d : Storage.page) : Z :=
  sumZ (fun s => if getSlotFlag d (Z.of_nat s) =? 1 then 1 else 0)
       (Z.to_nat (computeMaxSlots R)).

(** The sum of [g] over the data pages 1, ..., totalNumPages - 1. *)
Definition dataPagesSum (g : Storage.page -> Z)
    (fs : Storage.SM_File) (rel : RM_TableData) : Z :=
  sumZ (fun i => g (pageView fs rel (Z.of_nat (S i))))
       (Z.to_nat (Storage.totalNumPages fs - 1)).

(** A data page in order: the usage byte of every slot is 0 or 1, and the
    header counts the 1s. *)
Definition page_ok (R : Z) (d : Storage.page) : Prop :=
  (forall s, 0 <= s < computeMaxSlots R ->
     getSlotFlag d s = 0 \/ getSlotFlag d s = 1) /\
  slotsUsedOf d = usedCount R d.

(** The invariant of an open table. *)
Definition table_inv (fs : Storage.SM_File) (rel : RM_TableData) : Prop :=
  table_wf fs rel /\
  1 <= Storage.totalNumPages fs /\
  (forall q, 1 <= q -> page_ok (recordSize (mgmtData rel)) (pageView fs rel q)) /\
  numTuples (mgmtData rel)
  = Int32.wrap (dataPagesSum (usedCount (recordSize (mgmtData rel))) fs rel).

(** The tables a client reaches from [createTable] (and [openTable]) by
    [insertRecord], [deleteRecord] and [updateRecord]; the RIDs it passes
    name a slot within the capacity of a page, and a delete names a page
    other than the catalog page. *)
Inductive reachable : Storage.SM_File -> RM_TableData -> Prop :=
| reach_open sc fs0 fs rel :
    createTable sc = (RC_OK, fs0) ->
    openTable fs0 = (RC_OK, fs, Some rel) ->
    reachable fs rel
| reach_insert fs rel fuel rec rc fs' rel' rec' :
    reachable fs rel ->
    insertRecord fuel fs rel rec = Some (rc, fs', rel', rec') ->
    reachable fs' rel'
| reach_delete fs rel rid rc fs' rel' :
    reachable fs rel ->
    0 <= slot rid < computeMaxSlots (recordSize (mgmtData rel)) ->
    page rid <> 0 ->
    deleteRecord fs rel rid = (rc, fs', rel') ->
    reachable fs' rel'
| reach_update fs rel rec rc fs' rel' :
    reachable fs rel ->
    0 <= slot (id rec) < computeMaxSlots (recordSize (mgmtData rel)) ->
    updateRecord fs rel rec = (rc, fs', rel') ->
    reachable fs' rel'.

(** The page [insertRecord] leaves when it places [rdata] in slot [s]. *)
Definition placeRecord (R : Z) (d : Storage.page) (s : Z) (rdata : list byte)
    : Storage.page :=
  let d1 := Mem.memcpy_to d (4 + computeMaxSlots R + s * R) rdata R in
  let d2 := setSlotFlag d1 s 1 in
  Mem.memcpy_to d2 0 (Int32.encode (Int32.add (slotsUsedOf d) 1)) 4.

(** The page [deleteRecord] leaves when it frees slot [s]. *)
Definition clearSlot (d : Storage.page) (s : Z) : Storage.page :=
  Mem.memcpy_to (setSlotFlag d s 0) 0
    (Int32.encode (Int32.sub (slotsUsedOf d) 1)) 4.

(** The page [updateRecord] leaves when it overwrites slot [s]. *)
Definition overwriteSlot (R : Z) (d : Storage.page) (s : Z) (rdata : list byte)
    : Storage.page :=
  Mem.memcpy_to d (4 + computeMaxSlots R + s * R) rdata R.

(** *** Notions the statements about the catalog use *)

(** The text [writeTableInfo] puts on page 0: the two counters, the number
    of attributes, and one line for each attribute. *)
Definition catalogText (tblData : RM_TableMgmtData) (sc : Schema) : list byte :=
  (sprintf_d (numTuples tblData) ++ [x20]
   ++ sprintf_d (nextFreePage tblData) ++ [x0a])
  ++ (sprintf_d (numAttr sc) ++ [x0a])
  ++ concat (map (attrLine sc) (seq 0 (Z.to_nat (numAttr sc)))).

(** An attribute name the catalog can hold: a non-empty C string without
    white space, short enough for the 128 bytes of [nameBuf]. *)
Definition catalogName (name : list byte) : Prop :=
  name <> [] /\
  Forall (fun c => c <> x00 /\ isspace c = false) name /\
  (length name < 128)%nat.

(** A schema the catalog can hold: the three arrays have [numAttr]
    entries, the names are catalog names. *)
Definition catalogSchema (sc : Schema) : Prop :=
  0 <= numAttr sc <= Int32.max_int /\
  length (attrNames sc) = Z.to_nat (numAttr sc) /\
  length (dataTypes sc) = Z.to_nat (numAttr sc) /\
  length (typeLength sc) = Z.to_nat (numAttr sc) /\
  Forall catalogName (attrNames sc) /\
  Forall (fun l => Int32.min_int <= l <= Int32.max_int) (typeLength sc).

(** The schema as the catalog keeps it: the key is not stored, and
    [readTableInfo] makes attribute 0 the key. *)
Definition storedSchema (sc : Schema) : Schema :=
  createSchema (numAttr sc) (attrNames sc) (dataTypes sc) (typeLength sc) 1 [0].

(** *** Notions the statements about scans use *)

(** The record a scan hands out for slot [s] of page [p], whose contents
    are [d]. *)
Definition recordAt (R : Z) (d : Storage.page) (p s : Z) : Record_ :=
  {| id := {| page := p; slot := s |}; data := payloadOf R d s |}.

(** A scan stops at slot [s] of page [p]: the usage byte is 1 and the
    condition, when there is one, holds of the record of the slot. *)
Definition scanMatch (sc : Schema) (cond : option Expr) (R : Z)
    (d : Storage.page) (p s : Z) : bool :=
  (getSlotFlag d s =? 1)
  && match cond with
     | Some e => e (recordAt R d p s) sc
     | None => true
     end.

(** In the order of a scan, slot [s] of page [p] is at or after slot [cs]
    of page [cp]. *)
Definition scanPosLe (cp cs p s : Z) : Prop :=
  cp < p \/ (p = cp /\ cs <= s).

(** The number of slots among the first [n] of page [p] that a scan hands
    out. *)
Definition slotMatches (cond : option Expr) (fs : Storage.SM_File)
    (rel : RM_TableData) (p : Z) (n : nat) : Z :=
  sumZ (fun s => if scanMatch (schema rel) cond (recordSize (mgmtData rel))
                      (pageView fs rel p) p (Z.of_nat s)
                 then 1 else 0) n.

(** The same over all slots of the first [n] data pages. *)
Definition pageMatches (cond : option Expr) (fs : Storage.SM_File)
    (rel : RM_TableData) (n : nat) : Z :=
  sumZ (fun i => slotMatches cond fs rel (Z.of_nat (S i))
                   (Z.to_nat (computeMaxSlots (recordSize (mgmtData rel))))) n.

(** The number of slots of the table that a scan with [cond] hands out. *)
Definition tableMatches (cond : option Expr) (fs : Storage.SM_File)
    (rel : RM_TableData) : Z :=
  pageMatches cond fs rel (Z.to_nat (Storage.totalNumPages fs - 1)).

(** The number of those before slot [s] of page [p]. *)
Definition matchesBefore (cond : option Expr) (fs : Storage.SM_File)
    (rel : RM_TableData) (p s : Z) : Z :=
  pageMatches cond fs rel (Z.to_nat (p - 1)) + slotMatches cond fs rel p (Z.to_nat s).

(** *** Clients *)

(** A call of a client on an open table. *)
Inductive TableOp : Type :=
| OpInsert (record : Record_)
| OpDelete (id : RID)
| OpUpdate (record : Record_)
| OpGet (id : RID) (record : Record_).

(** The table after the call, whatever code it returned; [None] when the
    recursion of [insertRecord] runs out of [fuel]. *)
Definition runOp (fuel : nat) (fs : Storage.SM_File) (rel : RM_TableData)
    (op : TableOp) : option (Storage.SM_File * RM_TableData) :=
  match op with
  | OpInsert record =>
      match insertRecord fuel fs rel record with
      | Some (_, fs, rel, _) => Some (fs, rel)
      | None => None
      end
  | OpDelete id => let '(_, fs, rel) := deleteRecord fs rel id in Some (fs, rel)
  | OpUpdate record => let '(_, fs, rel) := updateRecord fs rel record in Some (fs, rel)
  | OpGet id record => let '(_, fs, rel, _) := getRecord fs rel id record in Some (fs, rel)
  end.

Fixpoint runOps (fuel : nat) (fs : Storage.SM_File) (rel : RM_TableData)
    (ops : list TableOp) : option (Storage.SM_File * RM_TableData) :=
  match ops with
  | [] => Some (fs, rel)
  | op :: rest =>
      match runOp fuel fs rel op with
      | Some (fs, rel) => runOps fuel fs rel rest
      | None => None
      end
  end.

Definition RID_eqb (a b : RID) : bool :=
  (page a =? page b) && (slot a =? slot b).

(** The call is made with RIDs and buffers that are valid for a table of
    record size [R] (a page that is not negative, a slot within the
    capacity of a page, a buffer of [R] bytes), and it is no delete of
    [r]. *)
Definition opKeeps (R : Z) (r : RID) (op : TableOp) : Prop :=
  match op with
  | OpInsert record => length (data record) = Z.to_nat R
  | OpDelete id =>
      0 <= page id /\ 0 <= slot id < computeMaxSlots R /\ RID_eqb id r = false
  | OpUpdate record =>
      0 <= page (id record) /\ 0 <= slot (id record) < computeMaxSlots R /\
      length (data record) = Z.to_nat R
  | OpGet id record =>
      0 <= page id /\ 0 <= slot id < computeMaxSlots R /\
      length (data record) = Z.to_nat R
  end.

(** The bytes last written to [r] by a run of calls that started with [d]
    in its slot: those of the latest [updateRecord] of [r], if any. *)
Fixpoint lastWritten (r : RID) (d : list byte) (ops : list TableOp) : list byte :=
  match ops with
  | [] => d
  | OpUpdate record :: rest =>
      if RID_eqb (id record) r then lastWritten r (data record) rest
      else lastWritten r d rest
  | _ :: rest => lastWritten r d rest
  end.

(** No call of the run is an [updateRecord] of [r]. *)
Definition noUpdateOf (r : RID) (ops : list TableOp) : Prop :=
  forall record, In (OpUpdate record) ops -> RID_eqb (id record) r = false.

(** Slot [s] of page [p] is used and holds [d], in a table in order of
    record size [R]. *)
Definition holds (fs : Storage.SM_File) (rel : RM_TableData) (R p s : Z) (d : list byte)
    : Prop :=
  table_wf fs rel /\ 1 <= Storage.totalNumPages fs /\
  recordSize (mgmtData rel) = R /\
  getSlotFlag (pageView fs rel p) s = 1 /\
  payloadOf R (pageView fs rel p) s = d.

(** *** Tables the examples use *)

(** The catalog fields of a table that [createTable] has just made. *)
Definition freshCatalog (sc : Schema) (bm : BM.BM_BufferPool) : RM_TableMgmtData :=
  {| bufferPool := bm; numTuples := 0; nextFreePage := -1;
     recordSize := computeRecordSize sc |}.

(** The pool of [openTable] once [readTableInfo] has read page 0. *)
Definition openedPool (fs : Storage.SM_File) : BM.BM_BufferPool :=
  {| BM.numPages := 3; BM.strategy := BM.RS_FIFO;
     BM.mgmtData := Some
       {| BM.frames :=
            [ {| BM.data := Some (Storage.readBlock (Storage.ensureCapacity 1 fs) 0);
                 BM.pageNum := 0; BM.dirty := false;
                 BM.fixCount := 0; BM.usage := 1 |};
              {| BM.data := None; BM.pageNum := -1; BM.dirty := false;
                 BM.fixCount := 0; BM.usage := 0 |};
              {| BM.data := None; BM.pageNum := -1; BM.dirty := false;
                 BM.fixCount := 0; BM.usage := 0 |} ];
          BM.readIO := 1; BM.writeIO := 0; BM.clockPointer := 0 |} |}.

(** [createTable] followed by [openTable]. *)
Definition openNew (sc : Schema) : Storage.SM_File * RM_TableData :=
  let '(_, fs0) := createTable sc in
  match openTable fs0 with
  | (_, fs, Some rel) => (fs, rel)
  | (_, fs, None) =>
      (fs, {| schema := sc;
              mgmtData := freshCatalog sc (snd (BM.initBufferPool 3 BM.RS_FIFO)) |})
  end.

(** A record of the schema with every byte equal to [b]. *)
Definition filledRecord (sc : Schema) (b : byte) : Record_ :=
  {| id := {| page := -1; slot := -1 |};
     data := replicate (Z.to_nat (getRecordSize sc)) b |}.

Definition insertInto (st : Storage.SM_File * RM_TableData) (rec : Record_)
    : Storage.SM_File * RM_TableData :=
  match insertRecord 2 (fst st) (snd st) rec with
  | Some (_, fs, rel, _) => (fs, rel)
  | None => st
  end.

Definition deleteFrom (st : Storage.SM_File * RM_TableData) (rid : RID)
    : Storage.SM_File * RM_TableData :=
  let '(_, fs, rel) := deleteRecord (fst st) (snd st) rid in (fs, rel).

(** Schema (a:INT). *)
Definition intSchema : Schema :=
  createSchema 1 [[x61]] [DT_INT] [0] 1 [0].


(** Schema (a:STRING(2045)): a page holds two records. *)
Definition wideSchema : Schema :=
  createSchema 1 [[x61]] [DT_STRING] [2045] 1 [0].

(** Schema (a:STRING(5000)): a record is larger than a page. *)
Definition hugeSchema : Schema :=
  createSchema 1 [[x61]] [DT_STRING] [5000] 1 [0].

(** Schema of one INT attribute whose name is the single byte 1. *)
Definition ctlSchema : Schema :=
  createSchema 1 [[x01]] [DT_INT] [0] 1 [0].

(** One record in a table of [intSchema]. *)
Definition oneRecordTable : Storage.SM_File * RM_TableData :=
  insertInto (openNew intSchema) (filledRecord intSchema x2a).

(** Three records in a table of [wideSchema], page 1 full and page 2 with
    one record, then the record of slot 0 of page 1 deleted. *)
Definition twoPageTable : Storage.SM_File * RM_TableData :=
  let st := openNew wideSchema in
  let st := insertInto st (filledRecord wideSchema x41) in
  let st := insertInto st (filledRecord wideSchema x42) in
  let st := insertInto st (filledRecord wideSchema x43) in
  deleteFrom st {| page := 1; slot := 0 |}.

(** Two records in a table of [wideSchema]: page 1 is full. *)
Definition fullPageTable : Storage.SM_File * RM_TableData :=
  let st := openNew wideSchema in
  let st := insertInto st (filledRecord wideSchema x41) in
  insertInto st (filledRecord wideSchema x42).

End RecordMgr.

(** ** test_assign3_2.c *)

Module TestAssign3.
Import RecordMgr.

(** The schema of [simpleTableTest]: one attribute, a:INT. *)
Definition simpleSchema : Schema :=
  createSchema 1 [[x61]] [DT_INT] [0] 1 [0].

(** [simpleTableTest], with [v] for the value 42 that the test stores: the
    value of attribute a of the record it reads back, [None] when a
    [TEST_CHECK] fails.  The recursion of [insertRecord] is given depth
    2. *)
Definition simpleTableTest (v : Z) : option Value :=
  let schema := simpleSchema in
  match createTable schema with
  | (RC_OK, fs) =>
      match openTable fs with
      | (RC_OK, fs, Some table) =>
          let '(_, record) := createRecord schema in
          match setAttr record schema 0 (V_INT v) with
          | (RC_OK, record) =>
              match insertRecord 2 fs table record with
              | Some (RC_OK, fs, table, record) =>
                  let '(_, fetched) := createRecord schema in
                  match getRecord fs table (id record) fetched with
                  | (RC_OK, fs, table, fetched) =>
                      match getAttr fetched schema 0 with
                      | (RC_OK, fetchedVal) =>
                          match closeTable fs table with
                          | (RC_OK, _, _) => Some fetchedVal
                          | _ => None
                          end
                      | _ => None
                      end
                  | _ => None
                  end
              | _ => None
              end
          | _ => None
          end
      | _ => None
      end
  | _ => None
  end.

(** The schema of [testRandomInsertsAndDeletes]: a:INT, b:INT. *)
Definition randSchema : Schema :=
  createSchema 2 [[x61]; [x62]] [DT_INT; DT_INT] [0; 0] 1 [0].

(** The record the insertion loop builds from the two values it draws. *)
Definition randRecord (schema : Schema) (a b : Z) : option Record_ :=
  let '(_, r) := createRecord schema in
  match setAttr r schema 0 (V_INT a) with
  | (RC_OK, r) =>
      match setAttr r schema 1 (V_INT b) with
      | (RC_OK, r) => Some r
      | _ => None
      end
  | _ => None
  end.

(** The insertion loop of [testRandomInsertsAndDeletes], with the values
    that the test draws by [rand] given in [vals]: the table after the
    inserts and the RIDs collected in [rids], [None] when a [TEST_CHECK]
    fails. *)
Fixpoint insertLoop (schema : Schema) (fs : Storage.SM_File) (table : RM_TableData)
    (vals : list (Z * Z))
    : option (Storage.SM_File * RM_TableData * list RID) :=
  match vals with
  | [] => Some (fs, table, [])
  | (a, b) :: rest =>
      match randRecord schema a b with
      | Some r =>
          match insertRecord 2 fs table r with
          | Some (RC_OK, fs, table, r) =>
              match insertLoop schema fs table rest with
              | Some (fs, table, rids) => Some (fs, table, id r :: rids)
              | None => None
              end
          | _ => None
          end
      | None => None
      end
  end.

(** The counting loop of [testConditionalUpdates],
    [while (next(&scan, temp) == RC_OK) count++]: the count, a C int, when
    [next] returns another code.  [fuel] bounds the iterations, [pages] the
    pages a call of [next] visits. *)
Fixpoint countLoop (fuel pages : nat) (fs : Storage.SM_File) (table : RM_TableData)
    (scan : RM_ScanMgmtData) (temp : Record_) (count : Z)
    : option (Z * Storage.SM_File * RM_TableData * RM_ScanMgmtData) :=
  match fuel with
  | O => None
  | S fuel' =>
      match next pages fs table scan temp with
      | Some (RC_OK, fs, table, scan, temp) =>
          countLoop fuel' pages fs table scan temp (Int32.add count 1)
      | Some (_, fs, table, scan, _) => Some (count, fs, table, scan)
      | None => None
      end
  end.

(** A scan as [testConditionalUpdates] runs it: [startScan],
    [createRecord], the counting loop and [closeScan]; [None] when a
    [TEST_CHECK] fails. *)
Definition countScan (fuel pages : nat) (fs : Storage.SM_File) (table : RM_TableData)
    (schema : Schema) (cond : option Expr)
    : option (Z * Storage.SM_File * RM_TableData) :=
  match startScan cond with
  | (RC_OK, scan) =>
      match createRecord schema with
      | (RC_OK, temp) =>
          match countLoop fuel pages fs table scan temp 0 with
          | Some (count, fs, table, scan) =>
              match closeScan scan with
              | (RC_OK, _) => Some (count, fs, table)
              | _ => None
              end
          | None => None
          end
      | _ => None
      end
  | _ => None
  end.

End TestAssign3.

(** * 32-bit integers: wrap-around and the byte image *)

Module Int32Facts.
Import Int32.

Lemma wrap_small z : min_int <= z <= max_int -> wrap z = z.
Proof.
  unfold wrap, min_int, max_int, half, modulus. intros H.
  rewrite Z.mod_small; lia.
Qed.

Lemma wrap_range z : min_int <= wrap z <= max_int.
Proof.
  unfold wrap, min_int, max_int, half, modulus.
  pose proof (Z.mod_pos_bound (z + 2147483648) 4294967296). lia.
Qed.

Lemma wrap_mod z k : wrap (z + k * modulus) = wrap z.
Proof.
  unfold wrap. replace (z + k * modulus + half) with (z + half + k * modulus) by lia.
  now rewrite Z_mod_plus_full.
Qed.

Lemma wrap_wrap_add a b : wrap (wrap a + b) = wrap (a + b).
Proof.
  unfold wrap at 2.
  pose proof (Z.div_mod (a + half) modulus ltac:(unfold modulus; lia)) as H.
  replace ((a + half) mod modulus - half + b)
    with (a + b + (- ((a + half) / modulus)) * modulus) by lia.
  apply wrap_mod.
Qed.

Lemma Z_of_byte_range b : 0 <= Z_of_byte b <= 255.
Proof.
  unfold Z_of_byte. pose proof (Byte.to_N_bounded b). lia.
Qed.

Lemma Z_of_byte_of_Z z : Z_of_byte (byte_of_Z z) = z mod 256.
Proof.
  unfold Z_of_byte, byte_of_Z.
  pose proof (Z.mod_pos_bound z 256 ltac:(lia)) as Hb.
  destruct (Byte.of_N (Z.to_N (z mod 256))) as [b|] eqn:E.
  - apply Byte.to_of_N in E. simpl. rewrite E. lia.
  - apply Byte.of_N_None_iff in E. lia.
Qed.

Lemma byte_of_Z_of_byte b : byte_of_Z (Z_of_byte b) = b.
Proof.
  unfold byte_of_Z. pose proof (Z_of_byte_range b).
  rewrite Z.mod_small by lia. unfold Z_of_byte.
  rewrite N2Z.id, Byte.of_to_N. reflexivity.
Qed.

Lemma Z_of_byte_inj a b : Z_of_byte a = Z_of_byte b -> a = b.
Proof.
  intros H. rewrite <- (byte_of_Z_of_byte a), <- (byte_of_Z_of_byte b). now rewrite H.
Qed.

Lemma decode_encode z : decode (encode z) = wrap z.
Proof.
  unfold decode, encode. cbn [lookup list_lookup default].
  simpl. rewrite !Z_of_byte_of_Z.
  pose proof (Z.div_mod z 256 ltac:(lia)) as H0.
  pose proof (Z.div_mod (z / 256) 256 ltac:(lia)) as H1.
  pose proof (Z.div_mod (z / 65536) 256 ltac:(lia)) as H2.
  pose proof (Z.div_mod (z / 16777216) 256 ltac:(lia)) as H3.
  replace (z / 65536) with (z / 256 / 256) in * by (rewrite Z.div_div by lia; reflexivity).
  replace (z / 16777216) with (z / 256 / 256 / 256) in * by (rewrite !Z.div_div by lia; reflexivity).
  set (q := z / 256 / 256 / 256 / 256) in *.
  replace (z mod 256 + 256 * ((z / 256) mod 256) + 65536 * ((z / 256 / 256) mod 256)
           + 16777216 * ((z / 256 / 256 / 256) mod 256))
    with (z + (- q) * modulus) by (unfold modulus; lia).
  apply wrap_mod.
Qed.

Lemma length_encode z : length (encode z) = 4%nat.
Proof. reflexivity. Qed.

End Int32Facts.

(** * Loads, stores and copies on buffers *)

Module MemFacts.
Import Mem.

Lemma load_nonneg d i : 0 <= i -> load d i = default x00 (d !! Z.to_nat i).
Proof. intros H. unfold load. destruct (i <? 0) eqn:E; [apply Z.ltb_lt in E; lia | reflexivity]. Qed.

Lemma load_out d i : Z.of_nat (length d) <= i -> load d i = x00.
Proof.
  intros H. rewrite load_nonneg by lia.
  rewrite (lookup_ge_None_2 d (Z.to_nat i)) by lia. reflexivity.
Qed.

Lemma buffer_ext (d d' : buffer) :
  length d = length d' ->
  (forall j, 0 <= j < Z.of_nat (length d) -> load d j = load d' j) ->
  d = d'.
Proof.
  intros Hlen H. apply list_eq. intros i.
  destruct (decide (i < length d)%nat) as [Hi|Hi].
  - specialize (H (Z.of_nat i) ltac:(lia)).
    rewrite !load_nonneg, Nat2Z.id in H by lia.
    destruct (lookup_lt_is_Some_2 d i Hi) as [x Hx].
    destruct (lookup_lt_is_Some_2 d' i ltac:(lia)) as [y Hy].
    rewrite Hx, Hy in *. simpl in H. congruence.
  - rewrite !lookup_ge_None_2 by lia. reflexivity.
Qed.

Lemma length_store d i b : length (store d i b) = length d.
Proof. unfold store. destruct (i <? 0); [reflexivity | apply length_insert]. Qed.

Lemma length_memcpy_to d off src n : length (memcpy_to d off src n) = length d.
Proof. unfold memcpy_to. destruct (off <? 0); [reflexivity | apply length_inserts]. Qed.

Lemma load_store_eq d i b :
  0 <= i < Z.of_nat (length d) -> load (store d i b) i = b.
Proof.
  intros H. unfold store. destruct (i <? 0) eqn:E; [apply Z.ltb_lt in E; lia|].
  rewrite load_nonneg, list_lookup_insert_eq by lia. reflexivity.
Qed.

Lemma load_store_ne d i j b : i <> j -> load (store d i b) j = load d j.
Proof.
  intros H. unfold store. destruct (i <? 0) eqn:E; [reflexivity|].
  apply Z.ltb_ge in E. unfold load. destruct (j <? 0) eqn:Ej; [reflexivity|].
  apply Z.ltb_ge in Ej. rewrite list_lookup_insert_ne by lia. reflexivity.
Qed.

Lemma load_memcpy_to_out d off src n j :
  j < off \/ off + n <= j ->
  load (memcpy_to d off src n) j = load d j.
Proof.
  intros H. unfold memcpy_to. destruct (off <? 0) eqn:E; [reflexivity|].
  apply Z.ltb_ge in E. unfold load. destruct (j <? 0) eqn:Ej; [reflexivity|].
  apply Z.ltb_ge in Ej. f_equal.
  destruct (decide (j < off)) as [Hlt|Hge].
  - apply list_lookup_inserts_lt. lia.
  - apply list_lookup_inserts_ge. rewrite length_take. lia.
Qed.

Lemma load_memcpy_to_in d off src n j :
  0 <= off -> off <= j < off + n -> j < Z.of_nat (length d) ->
  (Z.to_nat n <= length src)%nat ->
  load (memcpy_to d off src n) j = load src (j - off).
Proof.
  intros Hoff Hj Hd Hs. unfold memcpy_to.
  destruct (off <? 0) eqn:E; [apply Z.ltb_lt in E; lia|].
  rewrite !load_nonneg by lia.
  rewrite list_lookup_inserts by (rewrite ?length_take; lia).
  rewrite lookup_take_lt by lia. do 2 f_equal. lia.
Qed.

Lemma length_memcpy_from d off n :
  0 <= off -> 0 <= n -> off + n <= Z.of_nat (length d) ->
  length (memcpy_from d off n) = Z.to_nat n.
Proof.
  intros. unfold memcpy_from. destruct (off <? 0) eqn:E; [apply Z.ltb_lt in E; lia|].
  rewrite length_take, length_drop. lia.
Qed.

Lemma load_memcpy_from d off n k :
  0 <= off -> 0 <= k < n ->
  load (memcpy_from d off n) k = load d (off + k).
Proof.
  intros Hoff Hk. unfold memcpy_from.
  destruct (off <? 0) eqn:E; [apply Z.ltb_lt in E; lia|].
  rewrite !load_nonneg by lia.
  rewrite lookup_take_lt, lookup_drop by lia. do 2 f_equal. lia.
Qed.

Lemma memcpy_from_ext d d' off n :
  0 <= off -> off + n <= Z.of_nat (length d) -> off + n <= Z.of_nat (length d') ->
  (forall j, off <= j < off + n -> load d j = load d' j) ->
  memcpy_from d off n = memcpy_from d' off n.
Proof.
  intros Hoff Hd Hd' H.
  destruct (decide (n <= 0)) as [Hn|Hn].
  { unfold memcpy_from. destruct (off <? 0); [reflexivity|].
    replace (Z.to_nat n) with 0%nat by lia. reflexivity. }
  apply buffer_ext.
  - rewrite !length_memcpy_from by lia. reflexivity.
  - rewrite length_memcpy_from by lia. intros j Hj.
    rewrite !load_memcpy_from by lia. apply H. lia.
Qed.

Lemma memcpy_from_memcpy_to d off src n :
  0 <= off -> 0 <= n -> off + n <= Z.of_nat (length d) ->
  length src = Z.to_nat n ->
  memcpy_from (memcpy_to d off src n) off n = src.
Proof.
  intros Hoff Hn Hd Hs. apply buffer_ext.
  - rewrite length_memcpy_from by (rewrite ?length_memcpy_to; lia). lia.
  - rewrite length_memcpy_from by (rewrite ?length_memcpy_to; lia).
    intros j Hj. rewrite load_memcpy_from by lia.
    rewrite load_memcpy_to_in by lia. f_equal. lia.
Qed.

Lemma memcpy_to_all d src n :
  length d = Z.to_nat n -> length src = Z.to_nat n ->
  memcpy_to d 0 src n = src.
Proof.
  intros Hd Hs. apply buffer_ext.
  - rewrite length_memcpy_to. lia.
  - rewrite length_memcpy_to. intros j Hj.
    rewrite load_memcpy_to_in by lia. f_equal. lia.
Qed.

End MemFacts.

(** * The page file: growth, reads and writes of blocks *)

Module StorageFacts.
Import Storage.

Lemma PAGE_SIZE_eq : PAGE_SIZE = 4096.
Proof. reflexivity. Qed.

#[local] Opaque PAGE_SIZE.

Lemma length_zeroPage : length zeroPage = Z.to_nat PAGE_SIZE.
Proof. apply length_replicate. Qed.

Lemma length_readBlock fs q : length (readBlock fs q) = Z.to_nat PAGE_SIZE.
Proof. apply length_resize. Qed.

Lemma readBlock_beyond fs q :
  totalNumPages fs <= q -> readBlock fs q = zeroPage.
Proof.
  intros H. unfold readBlock, totalNumPages in *.
  rewrite lookup_ge_None_2 by lia. apply resize_nil.
Qed.

Lemma resize_zeroPage : resize (Z.to_nat PAGE_SIZE) x00 zeroPage = zeroPage.
Proof. apply resize_replicate. Qed.

(** Blocks appended as zero pages read like the end of the file did. *)
Lemma readBlock_app_zero bl k w w' q :
  readBlock (mkFile (bl ++ replicate k zeroPage) w) q = readBlock (mkFile bl w') q.
Proof.
  unfold readBlock. simpl blocks.
  destruct (decide (Z.to_nat q < length bl)%nat) as [Hlt|Hge].
  - now rewrite lookup_app_l by lia.
  - rewrite lookup_app_r by lia.
    rewrite (lookup_ge_None_2 bl) by lia.
    destruct (decide (Z.to_nat q - length bl < k)%nat) as [Hk|Hk].
    + rewrite lookup_replicate_2 by lia. simpl.
      rewrite resize_zeroPage, resize_nil. reflexivity.
    + rewrite (lookup_ge_None_2 (replicate k zeroPage))
        by (rewrite length_replicate; lia). reflexivity.
Qed.

Lemma readBlock_ensureCapacity n fs q :
  readBlock (ensureCapacity n fs) q = readBlock fs q.
Proof.
  destruct fs as [bl w]. unfold ensureCapacity. simpl blocks. simpl written.
  apply readBlock_app_zero.
Qed.

Lemma totalNumPages_ensureCapacity n fs :
  totalNumPages (ensureCapacity n fs) = Z.max (totalNumPages fs) n.
Proof.
  unfold totalNumPages, ensureCapacity. simpl blocks.
  rewrite length_app, length_replicate. unfold totalNumPages. lia.
Qed.

Lemma totalNumPages_writeBlock fs q d :
  totalNumPages (writeBlock fs q d) = Z.max (totalNumPages fs) (Z.of_nat (Z.to_nat q) + 1).
Proof.
  unfold totalNumPages, writeBlock. simpl blocks.
  rewrite length_insert, length_app, length_replicate. lia.
Qed.

Lemma readBlock_writeBlock_eq fs q d :
  0 <= q -> length d = Z.to_nat PAGE_SIZE ->
  readBlock (writeBlock fs q d) q = d.
Proof.
  intros Hq Hd. unfold readBlock, writeBlock. simpl blocks.
  rewrite list_lookup_insert_eq by (rewrite length_app, length_replicate; lia).
  simpl. rewrite resize_idemp. now apply resize_all_alt.
Qed.

Lemma readBlock_writeBlock_ne fs q q' d :
  0 <= q -> 0 <= q' -> q <> q' ->
  readBlock (writeBlock fs q d) q' = readBlock fs q'.
Proof.
  intros Hq Hq' Hne. unfold writeBlock.
  transitivity (readBlock (mkFile (blocks fs ++ replicate (S (Z.to_nat q) - length (blocks fs)) zeroPage) (written fs)) q').
  - unfold readBlock. simpl blocks. rewrite list_lookup_insert_ne by lia. reflexivity.
  - destruct fs as [bl w]. apply readBlock_app_zero.
Qed.

End StorageFacts.

(** * Properties of the buffer pool *)

Module BufferMgrFacts.
Import Storage BufferMgr.

Lemma findPageFrame_from_Some fr : forall i pn k,
  findPageFrame_from i fr pn = Some k ->
  (i <= k)%nat /\ exists pf, fr !! (k - i)%nat = Some pf /\ pageNum pf = pn
  /\ forall j pf', (j < k - i)%nat -> fr !! j = Some pf' -> pageNum pf' <> pn.
Proof.
  induction fr as [|pf fr IH]; intros i pn k H; simpl in H; [discriminate|].
  destruct (pageNum pf =? pn) eqn:E.
  - injection H as <-. apply Z.eqb_eq in E. split; [lia|].
    exists pf. rewrite Nat.sub_diag. repeat split; auto. intros j pf' Hj; lia.
  - apply IH in H as (Hle & pf0 & Hl & Hp & Hmin).
    split; [lia|]. exists pf0.
    replace (k - i)%nat with (S (k - S i)) by lia. repeat split; auto.
    intros [|j] pf' Hj Hl'; simpl in Hl'.
    + injection Hl' as <-. apply Z.eqb_neq in E. exact E.
    + apply (Hmin j); [lia | exact Hl'].
Qed.

Lemma findPageFrame_from_None fr : forall i pn,
  findPageFrame_from i fr pn = None <->
  forall j pf, fr !! j = Some pf -> pageNum pf <> pn.
Proof.
  induction fr as [|pf fr IH]; intros i pn; simpl.
  - split; [intros _ j pf' H; discriminate | auto].
  - destruct (pageNum pf =? pn) eqn:E.
    + split; [discriminate|]. intros H. apply Z.eqb_eq in E.
      exfalso. apply (H 0%nat pf); auto.
    + rewrite IH. apply Z.eqb_neq in E. split.
      * intros H [|j] pf' Hl; simpl in Hl; [injection Hl as <-; auto | eauto].
      * intros H j pf' Hl. apply (H (S j)). exact Hl.
Qed.

(** The invariant of the victim loop: the result is either the incoming
    candidate, kept because no frame beat it, or a frame of the list that is
    unpinned, strictly below the incoming bound, of least usage among the
    unpinned frames, and the first such. *)
Lemma findVictim_from_spec fr : forall i v lu,
  match findVictim_from i fr v lu with
  | None =>
      v = None /\
      forall j pf, fr !! j = Some pf -> fixCount pf = 0 -> lu <= usage pf
  | Some k =>
      (v = Some k /\
       forall j pf, fr !! j = Some pf -> fixCount pf = 0 -> lu <= usage pf)
      \/ (exists pf, (i <= k)%nat /\ fr !! (k - i)%nat = Some pf /\
           fixCount pf = 0 /\ usage pf < lu /\
           forall j pf', fr !! j = Some pf' -> fixCount pf' = 0 ->
             usage pf <= usage pf' /\ (usage pf' = usage pf -> (k - i <= j)%nat))
  end.
Proof.
  induction fr as [|pf fr IH]; intros i v lu; simpl.
  - destruct v; [left|]; split; auto; intros j pf H; discriminate.
  - destruct ((fixCount pf =? 0) && (usage pf <? lu)) eqn:E.
    + apply andb_true_iff in E as [Ef Eu].
      apply Z.eqb_eq in Ef. apply Z.ltb_lt in Eu.
      specialize (IH (S i) (Some i) (usage pf)).
      destruct (findVictim_from (S i) fr (Some i) (usage pf)) as [k|].
      * right. destruct IH as [[Hk Hall] | (pf2 & Hle & Hl & Hf & Hu & Hmin)].
        -- injection Hk as <-. exists pf. rewrite Nat.sub_diag.
           do 4 (split; [auto; lia|]).
           intros [|j] pf' H Hf'; simpl in H.
           ++ injection H as <-. split; [lia | intros _; lia].
           ++ split; [eauto | intros _; lia].
        -- exists pf2. replace (k - i)%nat with (S (k - S i)) by lia.
           do 4 (split; [auto; lia|]).
           intros [|j] pf' H Hf'; simpl in H.
           ++ injection H as <-. split; lia.
           ++ destruct (Hmin j pf' H Hf') as [H1 H2]. split; [exact H1|].
              intros Heq. apply H2 in Heq. lia.
      * destruct IH as [IH _]. discriminate.
    + assert (Hpf : fixCount pf = 0 -> lu <= usage pf).
      { intros Hf. apply andb_false_iff in E as [E|E].
        - apply Z.eqb_neq in E. contradiction.
        - apply Z.ltb_ge in E. exact E. }
      specialize (IH (S i) v lu).
      destruct (findVictim_from (S i) fr v lu) as [k|].
      * destruct IH as [[Hk Hall] | (pf2 & Hle & Hl & Hf & Hu & Hmin)].
        -- left. split; auto. intros [|j] pf' H Hf'; simpl in H;
             [injection H as <-; auto | eauto].
        -- right. exists pf2. replace (k - i)%nat with (S (k - S i)) by lia.
           do 4 (split; [auto; lia|]).
           intros [|j] pf' H Hf'; simpl in H.
           ++ injection H as <-. split; lia.
           ++ destruct (Hmin j pf' H Hf') as [H1 H2]. split; [exact H1|].
              intros Heq. apply H2 in Heq. lia.
      * destruct IH as [Hv Hall]. split; auto.
        intros [|j] pf' H Hf'; simpl in H; [injection H as <-; auto | eauto].
Qed.








Lemma written_ensureCapacity n fs : written (ensureCapacity n fs) = written fs.
Proof. reflexivity. Qed.

Lemma written_writeBlock fs pn d : written (writeBlock fs pn d) = written fs ++ [pn].
Proof. reflexivity. Qed.

(** C4: over any existing file, the scenario ends with four reads and one
    write; the only page handed to the file for writing is page 0, whose
    frame now holds page 3. *)
Theorem writeBackScenario_counts fs :
  let '(fs', bm') := writeBackScenario fs in
  getNumReadIO bm' = 4 /\
  getNumWriteIO bm' = 1 /\
  written fs' = written fs ++ [0] /\
  getFrameContents bm' = Some [3; 1; 2] /\
  getDirtyFlags bm' = Some [false; true; true].
Proof.
  unfold writeBackScenario, pinDirtyUnpin, pinPage, markDirty, unpinPage,
    initBufferPool, writeDirtyPageToDisk.
  cbn -[readBlock ensureCapacity writeBlock].
  repeat split.
Qed.

Lemma flushFrames_ok fr : forall fs wio,
  dirtyBuffered fr ->
  flushFrames fs wio fr
  = (RC_OK, writeAll fs (filter (fun pf => flushable pf = true) fr),
     Nat.iter (length (filter (fun pf => flushable pf = true) fr))
              (fun w => Int32.add w 1) wio,
     map flushFrame fr).
Proof.
  induction fr as [|pf fr IH]; intros fs wio Hb; [reflexivity|].
  assert (Hb' : dirtyBuffered fr) by (intros j pf' H; apply (Hb (S j)); exact H).
  simpl flushFrames. simpl map. rewrite filter_cons.
  change (dirty pf && (fixCount pf =? 0)) with (flushable pf).
  unfold flushFrame at 1.
  destruct (flushable pf) eqn:E.
  - destruct (decide (true = true)) as [_|n]; [|congruence].
    destruct (Hb 0%nat pf eq_refl) as [d Hd].
    { unfold flushable in E. apply andb_true_iff in E. tauto. }
    unfold writeDirtyPageToDisk. rewrite Hd. simpl rc_ok. cbv iota.
    rewrite IH by exact Hb'. simpl length. rewrite Nat.iter_succ_r.
    unfold writeAll at 2. simpl fold_left. rewrite Hd. reflexivity.
  - destruct (decide (false = true)) as [n|_]; [congruence|].
    rewrite IH by exact Hb'. reflexivity.
Qed.

Lemma existsb_flushFrame fr :
  existsb (fun pf => 0 <? fixCount pf) (map flushFrame fr)
  = existsb (fun pf => 0 <? fixCount pf) fr.
Proof.
  induction fr as [|pf fr IH]; [reflexivity|]. simpl. rewrite IH. f_equal.
  unfold flushFrame. now destruct (flushable pf).
Qed.

(** C8: with a pin outstanding, [shutdownBufferPool] writes the buffer of
    every dirty frame of pin count 0, in frame order, clears those dirty
    bits, and then fails with [RC_ERROR], the code this unit has for the
    failure; the management data and every frame stay in the pool, with
    their buffers, page numbers and pin counts. *)
Theorem shutdownBufferPool_pinned fs bm mgmt j pf :
  mgmtData bm = Some mgmt ->
  dirtyBuffered (frames mgmt) ->
  frames mgmt !! j = Some pf -> 0 < fixCount pf ->
  shutdownBufferPool fs bm
  = (RC_ERROR,
     writeAll fs (filter (fun pf => flushable pf = true) (frames mgmt)),
     set_mgmt bm (Some
       {| frames := map flushFrame (frames mgmt);
          readIO := readIO mgmt;
          writeIO := Nat.iter
                       (length (filter (fun pf => flushable pf = true) (frames mgmt)))
                       (fun w => Int32.add w 1) (writeIO mgmt);
          clockPointer := clockPointer mgmt |})).
Proof.
  intros Hm Hb Hl Hfix. unfold shutdownBufferPool, forceFlushPool.
  rewrite Hm, flushFrames_ok by exact Hb. simpl.
  rewrite existsb_flushFrame.
  assert (E : existsb (fun pf => 0 <? fixCount pf) (frames mgmt) = true).
  { apply existsb_exists. exists pf. split.
    - apply list_elem_of_In, list_elem_of_lookup. eauto.
    - now apply Z.ltb_lt. }
  now rewrite E.
Qed.

(** In [leakedPinPool] the shutdown writes page 1, keeps page 0 dirty and
    pinned, and fails. *)
Lemma shutdownBufferPool_pinned_witness :
  fst (fst (shutdownBufferPool (fst leakedPinPool) (snd leakedPinPool))) = RC_ERROR /\
  written (snd (fst (shutdownBufferPool (fst leakedPinPool) (snd leakedPinPool))))
  = [1] /\
  getFixCounts (snd (shutdownBufferPool (fst leakedPinPool) (snd leakedPinPool)))
  = Some [1; 0; 0] /\
  getDirtyFlags (snd (shutdownBufferPool (fst leakedPinPool) (snd leakedPinPool)))
  = Some [true; false; false].
Proof.
  rewrite (shutdownBufferPool_pinned
             (fst leakedPinPool) (snd leakedPinPool) (mgmtOf (snd leakedPinPool))
             0%nat
             {| data := Some zeroPage; pageNum := 0; dirty := true;
                fixCount := 1; usage := 1 |}).
  - vm_compute. repeat split.
  - vm_compute. reflexivity.
  - intros [|[|[|j]]] pf H; vm_compute in H; try discriminate;
      injection H as <-; simpl; intros; try discriminate; eauto.
  - vm_compute. reflexivity.
  - simpl. lia.
Defined.

End BufferMgrFacts.

(** * The pool as a cache: the page contents a client sees

    [view] is the page a client reads through the pool.  [pinPage] on a
    well-formed pool succeeds and changes no page; writes through a handle,
    [markDirty] and [unpinPage] are changes of one frame. *)

Module PoolFacts.
Import Storage BufferMgr StorageFacts BufferMgrFacts.
#[local] Opaque PAGE_SIZE.

Lemma findPageFrame_from_ext fr : forall fr' i pn,
  map pageNum fr = map pageNum fr' ->
  findPageFrame_from i fr pn = findPageFrame_from i fr' pn.
Proof.
  induction fr as [|pf fr IH]; intros [|pf' fr'] i pn H; try discriminate; auto.
  simpl in H. injection H as H1 H2. simpl. rewrite H1.
  destruct (pageNum pf' =? pn); auto.
Qed.

Lemma map_pageNum_alter F idx fr :
  (forall pf, pageNum (F pf) = pageNum pf) ->
  map pageNum (alter F idx fr) = map pageNum fr.
Proof.
  intros HF. revert idx. induction fr as [|pf fr IH]; intros [|idx]; simpl; auto.
  - now rewrite HF.
  - f_equal. apply IH.
Qed.

Lemma find_unique fs fr i pf q :
  frames_wf fs fr -> fr !! i = Some pf -> pageNum pf = q -> q <> -1 ->
  findPageFrame_from 0 fr q = Some i.
Proof.
  intros (_ & _ & Huniq) Hl Hp Hq.
  destruct (findPageFrame_from 0 fr q) as [k|] eqn:E.
  - apply findPageFrame_from_Some in E as (_ & pf' & Hl' & Hp' & _).
    rewrite Nat.sub_0_r in Hl'. f_equal.
    apply (Huniq k i pf' pf); auto; congruence.
  - exfalso. rewrite findPageFrame_from_None in E. exact (E i pf Hl Hp).
Qed.

Lemma viewFrames_resident fs fr i pf q :
  frames_wf fs fr -> fr !! i = Some pf -> pageNum pf = q -> q <> -1 ->
  viewFrames fs fr q = default [] (data pf).
Proof.
  intros Hwf Hl Hp Hq. unfold viewFrames.
  now rewrite (find_unique fs fr i pf q), Hl.
Qed.

Lemma viewFrames_absent fs fr q :
  (forall j pf, fr !! j = Some pf -> pageNum pf <> q) ->
  viewFrames fs fr q = readBlock fs q.
Proof.
  intros H. unfold viewFrames.
  apply (findPageFrame_from_None fr 0%nat q) in H. now rewrite H.
Qed.

(** Frame [idx] is replaced by [pf'] while the file goes from [fs] to
    [fs']: the file did not shrink, blocks other than the old page of the
    frame read as before, the new frame is in order and its page is either
    the old one or was not resident. *)
Lemma frames_wf_replace fs fs' fr idx pf pf' :
  frames_wf fs fr ->
  fr !! idx = Some pf ->
  totalNumPages fs <= totalNumPages fs' ->
  (forall q, 0 <= q -> q <> pageNum pf -> readBlock fs' q = readBlock fs q) ->
  frame_ok fs' pf' ->
  (pageNum pf' = pageNum pf \/
   forall j pfj, fr !! j = Some pfj -> pageNum pfj <> pageNum pf') ->
  frames_wf fs' (<[idx := pf']> fr).
Proof.
  intros (Hne & Hok & Huniq) Hl Htot Hrd Hok' Hpn.
  assert (Hidx : (idx < length fr)%nat) by (apply lookup_lt_is_Some; eauto).
  split; [|split].
  - intros E. apply (f_equal length) in E. rewrite length_insert in E.
    destruct fr; [congruence | discriminate].
  - intros i pfi Hi. destruct (decide (i = idx)) as [->|Hne'].
    + rewrite list_lookup_insert_eq in Hi by exact Hidx. now injection Hi as <-.
    + rewrite list_lookup_insert_ne in Hi by congruence.
      destruct (Hok i pfi Hi) as [Hfree | (Hr & d & Hd & Hlen & Hcl)]; [left; exact Hfree|].
      right. split; [lia|]. exists d. repeat split; auto.
      intros Hc. rewrite Hrd; auto; [lia|].
      intros E. apply Hne'. apply (Huniq i idx pfi pf); auto. lia.
  - intros i j pfi pfj Hi Hj Heq Hn1.
    destruct (decide (i = idx)) as [->|Hi'], (decide (j = idx)) as [->|Hj']; auto.
    + rewrite list_lookup_insert_eq in Hi by exact Hidx. injection Hi as <-.
      rewrite list_lookup_insert_ne in Hj by congruence.
      destruct Hpn as [Hsame | Hfresh].
      * symmetry. apply (Huniq j idx pfj pf); auto; congruence.
      * exfalso. apply (Hfresh j pfj Hj). congruence.
    + rewrite list_lookup_insert_eq in Hj by exact Hidx. injection Hj as <-.
      rewrite list_lookup_insert_ne in Hi by congruence.
      destruct Hpn as [Hsame | Hfresh].
      * apply (Huniq i idx pfi pf); auto; congruence.
      * exfalso. apply (Hfresh i pfi Hi). congruence.
    + rewrite list_lookup_insert_ne in Hi, Hj by congruence.
      apply (Huniq i j pfi pfj); auto.
Qed.

Lemma viewFrames_replace fs fs' fr idx pf pf' q :
  frames_wf fs fr ->
  frames_wf fs' (<[idx := pf']> fr) ->
  fr !! idx = Some pf ->
  (forall q, 0 <= q -> q <> pageNum pf -> readBlock fs' q = readBlock fs q) ->
  0 <= q ->
  viewFrames fs' (<[idx := pf']> fr) q
  = if q =? pageNum pf' then default [] (data pf')
    else if q =? pageNum pf then readBlock fs' q
    else viewFrames fs fr q.
Proof.
  intros Hwf Hwf' Hl Hrd Hq.
  assert (Hidx : (idx < length fr)%nat) by (apply lookup_lt_is_Some; eauto).
  destruct (q =? pageNum pf') eqn:E1.
  { apply Z.eqb_eq in E1.
    apply (viewFrames_resident fs' _ idx pf' q); auto; [|lia].
    now apply list_lookup_insert_eq. }
  apply Z.eqb_neq in E1.
  destruct (q =? pageNum pf) eqn:E2.
  { apply Z.eqb_eq in E2. apply viewFrames_absent.
    intros j pfj Hj Hpj. destruct (decide (j = idx)) as [->|Hne].
    - rewrite list_lookup_insert_eq in Hj by exact Hidx. injection Hj as <-. lia.
    - rewrite list_lookup_insert_ne in Hj by congruence.
      apply Hne. destruct Hwf as (_ & _ & Huniq).
      apply (Huniq j idx pfj pf); auto; lia. }
  apply Z.eqb_neq in E2.
  destruct (findPageFrame_from 0 fr q) as [k|] eqn:Ek.
  - apply findPageFrame_from_Some in Ek as Hk. destruct Hk as (_ & pfk & Hlk & Hpk & _).
    rewrite Nat.sub_0_r in Hlk.
    assert (k <> idx) by (intros ->; congruence).
    rewrite (viewFrames_resident fs' _ k pfk q); auto; [|now rewrite list_lookup_insert_ne by congruence | lia].
    unfold viewFrames. now rewrite Ek, Hlk.
  - unfold viewFrames at 2. rewrite Ek.
    rewrite viewFrames_absent; [apply Hrd; auto|].
    rewrite findPageFrame_from_None in Ek.
    intros j pfj Hj. destruct (decide (j = idx)) as [->|Hne].
    + rewrite list_lookup_insert_eq in Hj by exact Hidx. injection Hj as <-. lia.
    + rewrite list_lookup_insert_ne in Hj by congruence. eauto.
Qed.

Lemma alter_as_insert (F : PageFrame -> PageFrame) (idx : nat)
    (fr : list PageFrame) pf :
  fr !! idx = Some pf -> alter F idx fr = <[idx := F pf]> fr.
Proof.
  intros Hl. apply list_eq. intros i.
  assert (Hidx : (idx < length fr)%nat) by (apply lookup_lt_is_Some; eauto).
  destruct (decide (i = idx)) as [->|Hne].
  - rewrite list_lookup_alter_eq, Hl, list_lookup_insert_eq by exact Hidx. reflexivity.
  - rewrite list_lookup_alter_ne, list_lookup_insert_ne by congruence. reflexivity.
Qed.

Lemma pinned_at_touch F idx' bm pn idx :
  (forall pf, pageNum (F pf) = pageNum pf) ->
  pinned_at bm pn idx -> pinned_at (touch F idx' bm) pn idx.
Proof.
  intros HF (mgmt & Hm & Hf). unfold touch. rewrite Hm.
  eexists. split; [reflexivity|]. unfold findPageFrame in *. simpl frames.
  rewrite <- Hf. apply findPageFrame_from_ext. now apply map_pageNum_alter.
Qed.

Lemma assign_eq bm h d : assign bm h d = touch (fun pf => set_data pf d) (h_data h) bm.
Proof. reflexivity. Qed.

Lemma markDirty_eq bm pn idx i :
  pinned_at bm pn idx ->
  markDirty bm {| h_pageNum := pn; h_data := i |}
  = (RC_OK, touch (fun pf => set_dirty pf true) idx bm).
Proof.
  intros (mgmt & Hm & Hf). unfold markDirty, touch. simpl h_pageNum.
  now rewrite Hm, Hf.
Qed.

Lemma unpinPage_eq bm pn idx i :
  pinned_at bm pn idx ->
  unpinPage bm {| h_pageNum := pn; h_data := i |} = (RC_OK, touch unpinFrame idx bm).
Proof.
  intros (mgmt & Hm & Hf). unfold unpinPage, touch. simpl h_pageNum.
  now rewrite Hm, Hf.
Qed.

Lemma touch_touch F G idx bm :
  touch G idx (touch F idx bm) = touch (G ∘ F) idx bm.
Proof.
  unfold touch. destruct (mgmtData bm) as [mgmt|] eqn:E; simpl; [|now rewrite E].
  unfold set_mgmt, set_frames. simpl. now rewrite list_alter_alter_eq.
Qed.

Lemma unpinFrame_keeps pf :
  pageNum (unpinFrame pf) = pageNum pf /\ data (unpinFrame pf) = data pf
  /\ dirty (unpinFrame pf) = dirty pf.
Proof. unfold unpinFrame. destruct (0 <? fixCount pf); auto. Qed.

Lemma frame_ok_resident fs pf :
  frame_ok fs pf -> 0 <= pageNum pf ->
  pageNum pf < totalNumPages fs /\
  exists d, data pf = Some d /\ length d = Z.to_nat PAGE_SIZE /\
            (dirty pf = false -> d = readBlock fs (pageNum pf)).
Proof. intros [[H _] | [H H']] Hp; [lia|]. split; [lia | exact H']. Qed.

Lemma touch_wf fs bm mgmt idx pf F d' :
  pool_wf fs bm -> mgmtData bm = Some mgmt -> frames mgmt !! idx = Some pf ->
  0 <= pageNum pf ->
  pageNum (F pf) = pageNum pf -> data (F pf) = Some d' ->
  length d' = Z.to_nat PAGE_SIZE ->
  (dirty (F pf) = false -> d' = readBlock fs (pageNum pf)) ->
  pool_wf fs (touch F idx bm) /\
  forall q, 0 <= q ->
    view fs (touch F idx bm) q = if q =? pageNum pf then d' else view fs bm q.
Proof.
  intros (mgmt0 & Hm0 & Hwf) Hm Hl Hp HFp HFd Hlen Hcl.
  rewrite Hm in Hm0. injection Hm0 as <-.
  assert (Hok : frame_ok fs pf) by (destruct Hwf as (_ & Hok & _); eauto).
  destruct (frame_ok_resident fs pf Hok Hp) as (Hlt & _).
  assert (Hwf' : frames_wf fs (<[idx := F pf]> (frames mgmt))).
  { apply (frames_wf_replace fs fs (frames mgmt) idx pf); auto; try lia.
    right. rewrite HFp. split; [lia|]. exists d'. rewrite <- HFp at 1. auto.
    rewrite HFp in *. auto. }
  unfold touch, view. rewrite Hm. simpl mgmtData. simpl frames.
  rewrite (alter_as_insert F idx (frames mgmt) pf Hl). split.
  - eexists. split; [reflexivity|]. exact Hwf'.
  - intros q Hq. unfold set_frames. simpl frames.
    rewrite (viewFrames_replace fs fs (frames mgmt) idx pf (F pf) q); auto.
    rewrite HFp, HFd. simpl. destruct (q =? pageNum pf); reflexivity.
Qed.

Lemma pinned_at_frame fs bm pn idx :
  pool_wf fs bm -> pinned_at bm pn idx ->
  exists mgmt pf, mgmtData bm = Some mgmt /\ frames_wf fs (frames mgmt) /\
                  frames mgmt !! idx = Some pf /\ pageNum pf = pn.
Proof.
  intros (mgmt & Hm & Hwf) (mgmt' & Hm' & Hf).
  rewrite Hm in Hm'. injection Hm' as <-.
  apply findPageFrame_from_Some in Hf as (_ & pf & Hl & Hp & _).
  rewrite Nat.sub_0_r in Hl. eauto 10.
Qed.

Lemma view_pinned fs bm pn idx :
  pool_wf fs bm -> pinned_at bm pn idx -> 0 <= pn ->
  deref bm {| h_pageNum := pn; h_data := idx |} = view fs bm pn /\
  length (view fs bm pn) = Z.to_nat PAGE_SIZE.
Proof.
  intros Hwf Hp Hpn.
  destruct (pinned_at_frame fs bm pn idx Hwf Hp) as (mgmt & pf & Hm & Hfw & Hl & Hpf).
  unfold deref, view. simpl h_data. rewrite Hm, Hl.
  rewrite (viewFrames_resident fs _ idx pf pn) by (auto; lia).
  split; [reflexivity|].
  destruct Hfw as (_ & Hok & _).
  destruct (frame_ok_resident fs pf (Hok _ _ Hl) ltac:(lia)) as (_ & d & Hd & Hlen & _).
  now rewrite Hd.
Qed.

Lemma view_length fs bm q :
  pool_wf fs bm -> 0 <= q -> length (view fs bm q) = Z.to_nat PAGE_SIZE.
Proof.
  intros Hwf Hq. destruct Hwf as (mgmt & Hm & Hfw).
  unfold view. rewrite Hm. unfold viewFrames.
  destruct (findPageFrame_from 0 (frames mgmt) q) as [k|] eqn:E.
  - apply findPageFrame_from_Some in E as (_ & pf & Hl & Hp & _).
    rewrite Nat.sub_0_r in Hl. rewrite Hl.
    destruct Hfw as (_ & Hok & _).
    destruct (frame_ok_resident fs pf (Hok _ _ Hl) ltac:(lia)) as (_ & d & Hd & Hlen & _).
    now rewrite Hd.
  - apply length_readBlock.
Qed.

(** A change of the pinned frame that writes [d'] and leaves it dirty. *)
Lemma touch_pinned_write fs bm pn idx F d' :
  pool_wf fs bm -> pinned_at bm pn idx -> 0 <= pn ->
  (forall pf, pageNum (F pf) = pageNum pf /\ data (F pf) = Some d'
              /\ dirty (F pf) = true) ->
  length d' = Z.to_nat PAGE_SIZE ->
  pool_wf fs (touch F idx bm) /\
  forall q, 0 <= q ->
    view fs (touch F idx bm) q = if q =? pn then d' else view fs bm q.
Proof.
  intros Hwf Hp Hpn HF Hlen.
  destruct (pinned_at_frame fs bm pn idx Hwf Hp) as (mgmt & pf & Hm & Hfw & Hl & Hpf).
  destruct (HF pf) as (H1 & H2 & H3). subst pn.
  apply (touch_wf fs bm mgmt idx pf F d'); auto. congruence.
Qed.

(** A change of the pinned frame that keeps its buffer and does not clear
    the dirty bit. *)
Lemma touch_pinned_keep fs bm pn idx F :
  pool_wf fs bm -> pinned_at bm pn idx -> 0 <= pn ->
  (forall pf, pageNum (F pf) = pageNum pf /\ data (F pf) = data pf
              /\ (dirty (F pf) = dirty pf \/ dirty (F pf) = true)) ->
  pool_wf fs (touch F idx bm) /\
  forall q, 0 <= q -> view fs (touch F idx bm) q = view fs bm q.
Proof.
  intros Hwf Hp Hpn HF.
  destruct (pinned_at_frame fs bm pn idx Hwf Hp) as (mgmt & pf & Hm & Hfw & Hl & Hpf).
  destruct (HF pf) as (H1 & H2 & H3). subst pn.
  pose proof Hfw as (_ & Hok & _).
  destruct (frame_ok_resident fs pf (Hok _ _ Hl) Hpn) as (_ & d & Hd & Hlen & Hcl).
  destruct (touch_wf fs bm mgmt idx pf F d) as [Hw Hv]; auto; try congruence.
  { intros Hc. apply Hcl. destruct H3; congruence. }
  split; [exact Hw|]. intros q Hq. rewrite Hv by exact Hq.
  destruct (q =? pageNum pf) eqn:E; [|reflexivity].
  apply Z.eqb_eq in E. subst q. unfold view. rewrite Hm.
  rewrite (viewFrames_resident fs _ idx pf (pageNum pf)) by (auto; lia).
  now rewrite Hd.
Qed.

Lemma replacementFrame_lt mgmt :
  frames mgmt <> [] -> (replacementFrame mgmt < length (frames mgmt))%nat.
Proof.
  intros Hne. unfold replacementFrame, findFreeFrame.
  destruct (findPageFrame_from 0 (frames mgmt) (-1)) as [i|] eqn:E.
  - apply findPageFrame_from_Some in E as (_ & pf & Hl & _).
    rewrite Nat.sub_0_r in Hl. apply lookup_lt_is_Some. eauto.
  - unfold findVictimFrame.
    pose proof (findVictim_from_spec (frames mgmt) 0 None 2147483647) as H.
    destruct (findVictim_from 0 (frames mgmt) None 2147483647) as [k|].
    + destruct H as [[H _] | (pf & _ & Hl & _)]; [discriminate|].
      rewrite Nat.sub_0_r in Hl. apply lookup_lt_is_Some. eauto.
    + destruct (frames mgmt); [congruence | simpl; lia].
Qed.

(** On a well-formed pool [pinPage] of a non-negative page succeeds; the
    page is then resident in the frame of the handle, the pool is still
    well formed, no page changed its contents, and the file has grown to
    hold the page. *)
Lemma pinPage_wf fs bm page pn :
  pool_wf fs bm -> 0 <= pn ->
  exists fs' bm' idx,
    pinPage fs bm page pn
    = (RC_OK, fs', bm', {| h_pageNum := pn; h_data := idx |}) /\
    pool_wf fs' bm' /\ pinned_at bm' pn idx /\
    (forall q, 0 <= q -> view fs' bm' q = view fs bm q) /\
    totalNumPages fs' = Z.max (totalNumPages fs) (pn + 1).
Proof.
  intros Hwf Hpn. pose proof Hwf as (mgmt & Hm & Hfw).
  unfold pinPage. rewrite Hm.
  destruct (pn <? 0) eqn:E; [apply Z.ltb_lt in E; lia|]. clear E.
  destruct (findPageFrame mgmt pn) as [idx|] eqn:Ef.
  - (* the page is resident *)
    set (F := fun pf : PageFrame =>
           {| data := data pf; pageNum := pageNum pf; dirty := dirty pf;
              fixCount := Int32.add (fixCount pf) 1;
              usage := Int32.add (usage pf) 1 |}).
    assert (Hp : pinned_at bm pn idx) by (exists mgmt; auto).
    destruct (touch_pinned_keep fs bm pn idx F Hwf Hp Hpn) as [Hw Hv].
    { intros pf. simpl. auto. }
    exists fs, (touch F idx bm), idx.
    split; [unfold touch; now rewrite Hm|].
    split; [exact Hw|].
    split; [apply pinned_at_touch; auto|].
    split; [exact Hv|].
    destruct (pinned_at_frame fs bm pn idx Hwf Hp) as (m & pf & Hm' & _ & Hl & Hpf).
    rewrite Hm in Hm'. injection Hm' as <-.
    destruct Hfw as (_ & Hok & _).
    destruct (frame_ok_resident fs pf (Hok _ _ Hl) ltac:(lia)) as (Hlt & _). lia.
  - (* the page is loaded into the replacement frame *)
    unfold findPageFrame in Ef.
    pose proof (proj1 (findPageFrame_from_None _ _ _) Ef) as Habs.
    set (idx := replacementFrame mgmt).
    assert (Hidx : (idx < length (frames mgmt))%nat)
      by (apply replacementFrame_lt; destruct Hfw; auto).
    destruct (lookup_lt_is_Some_2 _ _ Hidx) as [pf Hl]. rewrite Hl.
    assert (Hok : frame_ok fs pf) by (destruct Hfw as (_ & Hok & _); eauto).
    assert (Hfs1 : exists fs1 wio1,
      (if dirty pf then writeDirtyPageToDisk fs (writeIO mgmt) pf
       else (RC_OK, fs, writeIO mgmt)) = (RC_OK, fs1, wio1) /\
      totalNumPages fs1 = totalNumPages fs /\
      (forall q, 0 <= q -> q <> pageNum pf -> readBlock fs1 q = readBlock fs q) /\
      (0 <= pageNum pf -> readBlock fs1 (pageNum pf) = view fs bm (pageNum pf))).
    { assert (Hview : 0 <= pageNum pf ->
                view fs bm (pageNum pf) = default [] (data pf)).
      { intros H0. unfold view. rewrite Hm.
        apply (viewFrames_resident fs _ idx pf); auto. lia. }
      destruct (dirty pf) eqn:Ed.
      - destruct Hok as [[_ Hc] | (Hr & d & Hd & Hlen & _)]; [congruence|].
        unfold writeDirtyPageToDisk. rewrite Hd.
        exists (writeBlock fs (pageNum pf) d), (Int32.add (writeIO mgmt) 1).
        split; [reflexivity|]. split; [rewrite totalNumPages_writeBlock; lia|].
        split.
        + intros q Hq Hne. apply readBlock_writeBlock_ne; lia.
        + intros H0. rewrite Hview, Hd by exact H0.
          now apply readBlock_writeBlock_eq.
      - exists fs, (writeIO mgmt). split; [reflexivity|]. split; [reflexivity|].
        split; [auto|]. intros H0. rewrite Hview by exact H0.
        destruct (frame_ok_resident fs pf Hok H0) as (_ & d & Hd & _ & Hcl).
        rewrite Hd. simpl. symmetry. now apply Hcl. }
    destruct Hfs1 as (fs1 & wio1 & -> & Htot1 & Hrd1 & Hvic). simpl rc_ok. cbv iota.
    set (fs2 := ensureCapacity (pn + 1) fs1).
    set (pf' := {| data := Some (readBlock fs2 pn); pageNum := pn; dirty := false;
                   fixCount := 1; usage := 1 |}).
    assert (Htot2 : totalNumPages fs2 = Z.max (totalNumPages fs) (pn + 1)).
    { unfold fs2. rewrite totalNumPages_ensureCapacity. lia. }
    assert (Hrd2 : forall q, 0 <= q -> q <> pageNum pf ->
                     readBlock fs2 q = readBlock fs q).
    { intros q Hq Hne. unfold fs2. rewrite readBlock_ensureCapacity. auto. }
    assert (Hwf2 : frames_wf fs2 (<[idx := pf']> (frames mgmt))).
    { apply (frames_wf_replace fs fs2 (frames mgmt) idx pf pf'); auto; try lia.
      right. simpl. split; [lia|]. eexists. split; [reflexivity|].
      split; [apply length_readBlock | auto]. }
    eexists fs2, _, idx. split; [reflexivity|].
    split; [eexists; split; [reflexivity | exact Hwf2]|].
    split.
    { eexists. split; [reflexivity|]. unfold findPageFrame. simpl frames.
      apply (find_unique fs2 _ idx pf' pn); auto; [|lia].
      now apply list_lookup_insert_eq. }
    split; [|exact Htot2].
    intros q Hq. unfold view at 1. simpl mgmtData. cbv iota beta. simpl frames.
    rewrite (viewFrames_replace fs fs2 (frames mgmt) idx pf pf' q); auto.
    simpl pageNum. simpl data.
    destruct (q =? pn) eqn:E1.
    + apply Z.eqb_eq in E1. subst q. unfold view. rewrite Hm.
      rewrite viewFrames_absent by exact Habs.
      apply Hrd2; auto. intros E. apply (Habs idx pf Hl). congruence.
    + destruct (q =? pageNum pf) eqn:E2.
      * apply Z.eqb_eq in E2. subst q. unfold fs2.
        rewrite readBlock_ensureCapacity. now apply Hvic.
      * unfold view. now rewrite Hm.
Qed.

Lemma pinPage_negative fs bm page pn :
  pn < 0 -> exists rc, rc <> RC_OK /\ pinPage fs bm page pn = (rc, fs, bm, page).
Proof.
  intros H. unfold pinPage. exists RC_ERROR. split; [discriminate|].
  destruct (mgmtData bm); [|reflexivity].
  apply Z.ltb_lt in H. now rewrite H.
Qed.

(** The file changes but every block reads as before. *)
Lemma pool_wf_file fs fs' bm :
  pool_wf fs bm ->
  totalNumPages fs <= totalNumPages fs' ->
  (forall q, readBlock fs' q = readBlock fs q) ->
  pool_wf fs' bm /\ forall q, view fs' bm q = view fs bm q.
Proof.
  intros (mgmt & Hm & Hne & Hok & Huniq) Htot Hrd. split.
  - exists mgmt. split; [exact Hm|]. split; [exact Hne|]. split; [|exact Huniq].
    intros i pf Hl. destruct (Hok i pf Hl) as [Hfree | (Hr & d & Hd & Hlen & Hcl)].
    + left. exact Hfree.
    + right. split; [lia|]. exists d. rewrite Hrd. auto.
  - intros q. unfold view, viewFrames. rewrite Hm.
    destruct (findPageFrame_from 0 (frames mgmt) q); [reflexivity | apply Hrd].
Qed.

Lemma view_beyond fs bm q :
  pool_wf fs bm -> totalNumPages fs <= q -> 0 <= q -> view fs bm q = zeroPage.
Proof.
  intros (mgmt & Hm & _ & Hok & _) Hq H0. unfold view. rewrite Hm.
  rewrite viewFrames_absent; [now apply readBlock_beyond|].
  intros j pf Hl Hp.
  destruct (frame_ok_resident fs pf (Hok _ _ Hl) ltac:(lia)) as [Hlt _]. lia.
Qed.

End PoolFacts.

(** * The record operations in terms of the page contents *)

Module RecordMgrFacts.
Import Storage RecordMgr StorageFacts PoolFacts Int32Facts MemFacts.
#[local] Opaque PAGE_SIZE.

Lemma keep_unpin fs bm pn idx :
  BM.pool_wf fs bm -> BM.pinned_at bm pn idx -> 0 <= pn ->
  BM.pool_wf fs (BM.touch BM.unpinFrame idx bm) /\
  forall q, 0 <= q -> BM.view fs (BM.touch BM.unpinFrame idx bm) q = BM.view fs bm q.
Proof.
  intros. apply (touch_pinned_keep fs bm pn idx); auto.
  intros pf. destruct (unpinFrame_keeps pf) as (? & ? & ?). auto.
Qed.

Lemma keep_dirty_unpin fs bm pn idx :
  BM.pool_wf fs bm -> BM.pinned_at bm pn idx -> 0 <= pn ->
  BM.pool_wf fs (BM.touch (BM.unpinFrame ∘ BM.setDirtyFrame) idx bm) /\
  forall q, 0 <= q ->
    BM.view fs (BM.touch (BM.unpinFrame ∘ BM.setDirtyFrame) idx bm) q = BM.view fs bm q.
Proof.
  intros. apply (touch_pinned_keep fs bm pn idx); auto.
  intros pf. unfold compose.
  destruct (unpinFrame_keeps (BM.setDirtyFrame pf)) as (-> & -> & ->). simpl. auto.
Qed.

Lemma write_dirty_unpin fs bm pn idx d :
  BM.pool_wf fs bm -> BM.pinned_at bm pn idx -> 0 <= pn ->
  length d = Z.to_nat PAGE_SIZE ->
  BM.pool_wf fs (BM.touch (BM.unpinFrame ∘ BM.setDirtyFrame ∘ (fun pf => BM.set_data pf d)) idx bm) /\
  forall q, 0 <= q ->
    BM.view fs (BM.touch (BM.unpinFrame ∘ BM.setDirtyFrame ∘ (fun pf => BM.set_data pf d)) idx bm) q
    = if q =? pn then d else BM.view fs bm q.
Proof.
  intros. apply (touch_pinned_write fs bm pn idx); auto.
  intros pf. unfold compose.
  destruct (unpinFrame_keeps (BM.setDirtyFrame (BM.set_data pf d))) as (-> & -> & ->).
  simpl. auto.
Qed.

(** The calls that follow a successful [pinPage], as changes of the frame. *)
Lemma unpin_eq bm pn idx :
  BM.pinned_at bm pn idx ->
  BM.unpinPage bm (BM.mkHandle pn idx) = (RC_OK, BM.touch BM.unpinFrame idx bm).
Proof. apply unpinPage_eq. Qed.

Lemma dirty_unpin_eq bm pn idx :
  BM.pinned_at bm pn idx ->
  (let '(_, bm1) := BM.markDirty bm (BM.mkHandle pn idx) in
   BM.unpinPage bm1 (BM.mkHandle pn idx))
  = (RC_OK, BM.touch (BM.unpinFrame ∘ BM.setDirtyFrame) idx bm).
Proof.
  intros H. rewrite (markDirty_eq bm pn idx idx H).
  rewrite (unpinPage_eq _ pn idx idx) by (apply pinned_at_touch; auto).
  now rewrite touch_touch.
Qed.

Lemma write_dirty_unpin_eq bm pn idx d :
  BM.pinned_at bm pn idx ->
  (let '(_, bm1) := BM.markDirty (BM.assign bm (BM.mkHandle pn idx) d) (BM.mkHandle pn idx) in
   BM.unpinPage bm1 (BM.mkHandle pn idx))
  = (RC_OK, BM.touch (BM.unpinFrame ∘ BM.setDirtyFrame ∘ (fun pf => BM.set_data pf d)) idx bm).
Proof.
  intros H. rewrite assign_eq. simpl BM.h_data.
  rewrite (markDirty_eq _ pn idx idx) by (apply pinned_at_touch; auto).
  rewrite (unpinPage_eq _ pn idx idx) by (repeat apply pinned_at_touch; auto).
  now rewrite !touch_touch.
Qed.

Lemma getRecord_spec fs rel rid rec :
  table_wf fs rel -> 0 <= page rid ->
  exists fs' rel',
    getRecord fs rel rid rec
    = (if getSlotFlag (pageView fs rel (page rid)) (slot rid) =? 0
       then (RC_RM_NO_MORE_TUPLES, fs', rel', rec)
       else (RC_OK, fs', rel',
             {| id := {| page := page rid; slot := slot rid |};
                data := Mem.memcpy_to (data rec) 0
                          (payloadOf (recordSize (mgmtData rel))
                             (pageView fs rel (page rid)) (slot rid))
                          (recordSize (mgmtData rel)) |})) /\
    table_wf fs' rel' /\ same_table fs rel fs' rel' /\
    totalNumPages fs' = Z.max (totalNumPages fs) (page rid + 1).
Proof.
  intros Hwf Hp. unfold getRecord.
  destruct (pinPage_wf fs (bufferPool (mgmtData rel)) BM.nullHandle (page rid) Hwf Hp)
    as (fs' & bm' & idx & Hpin & Hwf' & Hat & Hv & Htot).
  rewrite Hpin. simpl rc_ok. simpl negb. cbv iota.
  destruct (view_pinned fs' bm' (page rid) idx Hwf' Hat Hp) as [Hderef _].
  rewrite Hderef, (Hv _ Hp), (unpin_eq bm' (page rid) idx Hat).
  destruct (keep_unpin fs' bm' (page rid) idx Hwf' Hat Hp) as [Hw Hk].
  exists fs'. eexists.
  split; [destruct (getSlotFlag _ _ =? 0); reflexivity|].
  split; [exact Hw|]. split; [|exact Htot].
  split; [|simpl; auto].
  intros q Hq. unfold pageView. simpl. rewrite Hk, Hv by exact Hq. reflexivity.
Qed.

Ltac solve_pinned :=
  repeat (apply pinned_at_touch; [intros ?; reflexivity|]); assumption.

Lemma length_placeRecord R d s rdata :
  length (placeRecord R d s rdata) = length d.
Proof.
  unfold placeRecord, setSlotFlag.
  now rewrite length_memcpy_to, length_store, length_memcpy_to.
Qed.

Lemma length_clearSlot d s : length (clearSlot d s) = length d.
Proof.
  unfold clearSlot, setSlotFlag. now rewrite length_memcpy_to, length_store.
Qed.

Lemma length_overwriteSlot R d s rdata :
  length (overwriteSlot R d s rdata) = length d.
Proof. apply length_memcpy_to. Qed.

Lemma updateRecord_spec fs rel rec :
  table_wf fs rel -> 0 <= page (id rec) ->
  exists fs' rel',
    updateRecord fs rel rec
    = (if getSlotFlag (pageView fs rel (page (id rec))) (slot (id rec)) =? 0
       then RC_READ_NON_EXISTING_PAGE else RC_OK, fs', rel') /\
    table_wf fs' rel' /\
    (forall q, 0 <= q ->
       pageView fs' rel' q
       = if (q =? page (id rec))
            && negb (getSlotFlag (pageView fs rel (page (id rec))) (slot (id rec)) =? 0)
         then overwriteSlot (recordSize (mgmtData rel))
                (pageView fs rel (page (id rec))) (slot (id rec)) (data rec)
         else pageView fs rel q) /\
    numTuples (mgmtData rel') = numTuples (mgmtData rel) /\
    nextFreePage (mgmtData rel') = nextFreePage (mgmtData rel) /\
    recordSize (mgmtData rel') = recordSize (mgmtData rel) /\
    schema rel' = schema rel /\
    totalNumPages fs' = Z.max (totalNumPages fs) (page (id rec) + 1).
Proof.
  intros Hwf Hp. unfold updateRecord.
  destruct (pinPage_wf fs (bufferPool (mgmtData rel)) BM.nullHandle (page (id rec)) Hwf Hp)
    as (fs' & bm' & idx & Hpin & Hwf' & Hat & Hv & Htot).
  rewrite Hpin. simpl rc_ok. simpl negb. cbv iota.
  destruct (view_pinned fs' bm' (page (id rec)) idx Hwf' Hat Hp) as [Hderef Hlen].
  rewrite Hderef, (Hv _ Hp) in *. simpl recordSize.
  fold (pageView fs rel (page (id rec))) in *.
  destruct (getSlotFlag _ _ =? 0) eqn:Eflag.
  - rewrite (unpin_eq bm' _ idx Hat).
    destruct (keep_unpin fs' bm' _ idx Hwf' Hat Hp) as [Hw Hk].
    exists fs'. eexists. split; [reflexivity|]. split; [exact Hw|].
    split; [|simpl; auto].
    intros q Hq. rewrite andb_false_r. unfold pageView. simpl.
    rewrite Hk, Hv by exact Hq. reflexivity.
  - fold (overwriteSlot (recordSize (mgmtData rel)) (pageView fs rel (page (id rec)))
            (slot (id rec)) (data rec)).
    set (d := overwriteSlot _ _ _ _).
    rewrite assign_eq. simpl BM.h_data.
    rewrite (markDirty_eq _ (page (id rec)) idx idx) by solve_pinned. cbv iota beta.
    rewrite (unpinPage_eq _ (page (id rec)) idx idx) by solve_pinned. cbv iota beta.
    rewrite !touch_touch.
    destruct (write_dirty_unpin fs' bm' _ idx d Hwf' Hat Hp) as [Hw Hk].
    { unfold d. now rewrite length_overwriteSlot. }
    exists fs'. eexists. split; [reflexivity|]. split; [exact Hw|].
    split; [|simpl; auto].
    intros q Hq. rewrite andb_true_r. unfold pageView at 1. simpl.
    unfold BM.setDirtyFrame in Hk. rewrite Hk by exact Hq.
    destruct (q =? page (id rec)); [reflexivity|]. apply Hv. exact Hq.
Qed.

Lemma deleteRecord_spec fs rel rid :
  table_wf fs rel -> 0 <= page rid ->
  exists fs' rel',
    deleteRecord fs rel rid = (RC_OK, fs', rel') /\
    table_wf fs' rel' /\
    recordSize (mgmtData rel') = recordSize (mgmtData rel) /\
    schema rel' = schema rel /\
    totalNumPages fs' = Z.max (totalNumPages fs) (page rid + 1) /\
    if getSlotFlag (pageView fs rel (page rid)) (slot rid) =? 1
    then
      (forall q, 0 <= q ->
         pageView fs' rel' q
         = if q =? page rid then clearSlot (pageView fs rel (page rid)) (slot rid)
           else pageView fs rel q) /\
      numTuples (mgmtData rel') = Int32.sub (numTuples (mgmtData rel)) 1 /\
      nextFreePage (mgmtData rel')
      = (if Int32.sub (slotsUsedOf (pageView fs rel (page rid))) 1
            =? computeMaxSlots (recordSize (mgmtData rel)) - 1
         then page rid else nextFreePage (mgmtData rel))
    else
      (forall q, 0 <= q -> pageView fs' rel' q = pageView fs rel q) /\
      numTuples (mgmtData rel') = numTuples (mgmtData rel) /\
      nextFreePage (mgmtData rel') = nextFreePage (mgmtData rel).
Proof.
  intros Hwf Hp. unfold deleteRecord.
  destruct (pinPage_wf fs (bufferPool (mgmtData rel)) BM.nullHandle (page rid) Hwf Hp)
    as (fs' & bm' & idx & Hpin & Hwf' & Hat & Hv & Htot).
  rewrite Hpin. simpl rc_ok. simpl negb. cbv iota.
  destruct (view_pinned fs' bm' (page rid) idx Hwf' Hat Hp) as [Hderef Hlen].
  rewrite Hderef, (Hv _ Hp) in *.
  fold (pageView fs rel (page rid)) in *.
  destruct (getSlotFlag _ _ =? 1) eqn:Eflag.
  - fold (slotsUsedOf (pageView fs rel (page rid))).
    fold (clearSlot (pageView fs rel (page rid)) (slot rid)).
    set (d := clearSlot _ _).
    rewrite assign_eq. simpl BM.h_data.
    rewrite (markDirty_eq _ (page rid) idx idx) by solve_pinned. cbv iota beta.
    rewrite (unpinPage_eq _ (page rid) idx idx) by solve_pinned. cbv iota beta.
    rewrite !touch_touch.
    destruct (write_dirty_unpin fs' bm' _ idx d Hwf' Hat Hp) as [Hw Hk].
    { unfold d. now rewrite length_clearSlot. }
    assert (Hview : forall q, 0 <= q ->
              BM.view fs' (BM.touch (BM.unpinFrame ∘ BM.setDirtyFrame
                             ∘ (fun pf => BM.set_data pf d)) idx bm') q
              = if q =? page rid then d else pageView fs rel q).
    { intros q Hq. rewrite Hk by exact Hq.
      destruct (q =? page rid); [reflexivity|]. apply Hv. exact Hq. }
    simpl recordSize. simpl numTuples.
    destruct (Int32.sub _ _ =? _ - 1);
      (exists fs'; eexists; split; [reflexivity|]; split; [exact Hw|];
       split; [reflexivity|]; split; [reflexivity|]; split; [exact Htot|];
       split; [exact Hview|]; split; reflexivity).
  - rewrite (markDirty_eq _ (page rid) idx idx) by solve_pinned. cbv iota beta.
    rewrite (unpinPage_eq _ (page rid) idx idx) by solve_pinned. cbv iota beta.
    rewrite !touch_touch.
    destruct (keep_dirty_unpin fs' bm' _ idx Hwf' Hat Hp) as [Hw Hk].
    exists fs'. eexists. split; [reflexivity|]. split; [exact Hw|].
    split; [reflexivity|]. split; [reflexivity|]. split; [exact Htot|].
    split; [|simpl; auto].
    intros q Hq. unfold pageView at 1. simpl.
    unfold BM.setDirtyFrame in Hk. rewrite Hk, Hv by exact Hq. reflexivity.
Qed.

Lemma memset_zero d :
  length d = Z.to_nat PAGE_SIZE -> Mem.memset d 0 x00 PAGE_SIZE = zeroPage.
Proof.
  intros H. unfold Mem.memset. apply memcpy_to_all; [exact H|].
  apply length_replicate.
Qed.

Lemma encode_zero : Int32.encode 0 = [x00; x00; x00; x00].
Proof. reflexivity. Qed.

Lemma zeroPage_header : Mem.memcpy_to zeroPage 0 (Int32.encode 0) 4 = zeroPage.
Proof.
  rewrite encode_zero. unfold Mem.memcpy_to, zeroPage. simpl.
  now rewrite !insert_replicate.
Qed.

Lemma appendDataPage_spec fs tbl :
  BM.pool_wf fs (bufferPool tbl) -> 0 <= totalNumPages fs ->
  exists fs' tbl',
    appendDataPage fs tbl = (RC_OK, fs', tbl', totalNumPages fs) /\
    BM.pool_wf fs' (bufferPool tbl') /\
    (forall q, 0 <= q ->
       BM.view fs' (bufferPool tbl') q = BM.view fs (bufferPool tbl) q) /\
    totalNumPages fs' = totalNumPages fs + 1 /\
    numTuples tbl' = numTuples tbl /\
    nextFreePage tbl' = totalNumPages fs /\
    recordSize tbl' = recordSize tbl.
Proof.
  intros Hwf Htot. unfold appendDataPage.
  set (pn := totalNumPages fs) in *.
  destruct (pool_wf_file fs (ensureCapacity (pn + 1) fs) (bufferPool tbl) Hwf)
    as [Hwf1 Hv1].
  { rewrite totalNumPages_ensureCapacity. lia. }
  { intros q. apply readBlock_ensureCapacity. }
  destruct (pinPage_wf _ (bufferPool tbl) BM.nullHandle pn Hwf1 Htot)
    as (fs' & bm' & idx & Hpin & Hwf' & Hat & Hv & Htot').
  rewrite Hpin. simpl rc_ok. simpl negb. cbv iota.
  destruct (view_pinned fs' bm' pn idx Hwf' Hat Htot) as [Hderef Hlen].
  rewrite Hderef, memset_zero, zeroPage_header by exact Hlen.
  rewrite assign_eq. simpl BM.h_data.
  rewrite (markDirty_eq _ pn idx idx) by solve_pinned. cbv iota beta.
  rewrite (unpinPage_eq _ pn idx idx) by solve_pinned. cbv iota beta.
  rewrite !touch_touch.
  destruct (write_dirty_unpin fs' bm' pn idx zeroPage Hwf' Hat Htot) as [Hw Hk].
  { apply length_zeroPage. }
  exists fs'. eexists. split; [reflexivity|]. split; [exact Hw|].
  split; [|split; [|simpl; auto]].
  - intros q Hq. simpl bufferPool. unfold BM.setDirtyFrame in Hk.
    rewrite Hk, Hv, Hv1 by exact Hq.
    destruct (q =? pn) eqn:E; [|reflexivity]. apply Z.eqb_eq in E. subst q.
    symmetry. apply (view_beyond fs); auto. unfold pn. lia.
  - rewrite Htot', totalNumPages_ensureCapacity. lia.
Qed.

Lemma findFreeSlot_from_spec n : forall i d,
  match findFreeSlot_from n i d with
  | Some s => i <= s < i + Z.of_nat n /\ getSlotFlag d s = 0 /\
              forall s', i <= s' < s -> getSlotFlag d s' <> 0
  | None => forall s', i <= s' < i + Z.of_nat n -> getSlotFlag d s' <> 0
  end.
Proof.
  induction n as [|n IH]; intros i d; simpl findFreeSlot_from.
  - intros s' Hs'. lia.
  - destruct (getSlotFlag d i =? 0) eqn:E.
    + apply Z.eqb_eq in E. split; [lia|]. split; [exact E|]. intros s' Hs'. lia.
    + apply Z.eqb_neq in E. specialize (IH (i + 1) d).
      destruct (findFreeSlot_from n (i + 1) d) as [s|].
      * destruct IH as (Hr & Hf & Hmin). split; [lia|]. split; [exact Hf|].
        intros s' Hs'. destruct (decide (s' = i)) as [->|Hne]; [exact E|].
        apply Hmin. lia.
      * intros s' Hs'. destruct (decide (s' = i)) as [->|Hne]; [exact E|].
        apply IH. lia.
Qed.

Lemma findFreeSlot_Some d N s :
  findFreeSlot d N = Some s ->
  0 <= s < N /\ getSlotFlag d s = 0 /\
  forall s', 0 <= s' < s -> getSlotFlag d s' <> 0.
Proof.
  unfold findFreeSlot. intros H.
  pose proof (findFreeSlot_from_spec (Z.to_nat N) 0 d) as Hs. rewrite H in Hs.
  destruct Hs as (Hr & Hf & Hmin). split; [lia|]. auto.
Qed.

Lemma findFreeSlot_None d N :
  findFreeSlot d N = None ->
  forall s', 0 <= s' < N -> getSlotFlag d s' <> 0.
Proof.
  unfold findFreeSlot. intros H.
  pose proof (findFreeSlot_from_spec (Z.to_nat N) 0 d) as Hs. rewrite H in Hs.
  intros s' Hs'. apply Hs. lia.
Qed.

(** The first block of [insertRecord]: afterwards the next free page is a
    page to pin, and the table reads as before. *)
Lemma insert_prepare fs rel :
  table_wf fs rel ->
  exists fs1 tbl1 pn,
    (if nextFreePage (mgmtData rel) <? 1 then appendDataPage fs (mgmtData rel)
     else (RC_OK, fs, mgmtData rel, nextFreePage (mgmtData rel)))
    = (RC_OK, fs1, tbl1, pn) /\
    nextFreePage tbl1 = pn /\ (1 <= pn \/ totalNumPages fs <= pn) /\
    BM.pool_wf fs1 (bufferPool tbl1) /\
    (forall q, 0 <= q ->
       BM.view fs1 (bufferPool tbl1) q = pageView fs rel q) /\
    totalNumPages fs <= totalNumPages fs1 /\
    numTuples tbl1 = numTuples (mgmtData rel) /\
    recordSize tbl1 = recordSize (mgmtData rel).
Proof.
  intros Hwf. destruct (nextFreePage (mgmtData rel) <? 1) eqn:E.
  - destruct (appendDataPage_spec fs (mgmtData rel) Hwf)
      as (fs' & tbl' & Heq & Hwf' & Hv & Htot & Hn & Hnf & Hr).
    { unfold totalNumPages. lia. }
    exists fs', tbl', (totalNumPages fs). repeat split; auto; lia.
  - apply Z.ltb_ge in E. exists fs, (mgmtData rel), (nextFreePage (mgmtData rel)).
    repeat split; auto; lia.
Qed.

Lemma insertRecord_spec fuel : forall fs rel rec out,
  table_wf fs rel ->
  insertRecord fuel fs rel rec = Some out ->
  exists fs' rel' p s,
    out = (RC_OK, fs', rel', {| id := {| page := p; slot := s |}; data := data rec |}) /\
    table_wf fs' rel' /\
    0 <= p /\ (1 <= p \/ totalNumPages fs <= p) /\
    0 <= s < computeMaxSlots (recordSize (mgmtData rel)) /\
    getSlotFlag (pageView fs rel p) s = 0 /\
    (forall q, 0 <= q ->
       pageView fs' rel' q
       = if q =? p
         then placeRecord (recordSize (mgmtData rel)) (pageView fs rel p) s (data rec)
         else pageView fs rel q) /\
    numTuples (mgmtData rel') = Int32.add (numTuples (mgmtData rel)) 1 /\
    nextFreePage (mgmtData rel')
    = (if Int32.add (slotsUsedOf (pageView fs rel p)) 1
          =? computeMaxSlots (recordSize (mgmtData rel))
       then -1 else p) /\
    recordSize (mgmtData rel') = recordSize (mgmtData rel) /\
    schema rel' = schema rel /\
    totalNumPages fs <= totalNumPages fs' /\ p < totalNumPages fs'.
Proof.
  induction fuel as [|fuel IH]; intros fs rel rec out Hwf Hins; [discriminate|].
  simpl insertRecord in Hins.
  destruct (insert_prepare fs rel Hwf)
    as (fs1 & tbl1 & pn & Heq & Hnf & Hpn & Hwf1 & Hv1 & Htot1 & Hn1 & Hr1).
  rewrite Heq in Hins. simpl rc_ok in Hins. simpl negb in Hins. cbv iota in Hins.
  assert (Hpn0 : 0 <= pn) by (unfold totalNumPages in Hpn; lia).
  rewrite Hnf in Hins.
  destruct (pinPage_wf fs1 (bufferPool tbl1) BM.nullHandle pn Hwf1 Hpn0)
    as (fs' & bm' & idx & Hpin & Hwf' & Hat & Hv & Htot).
  rewrite Hpin in Hins. simpl rc_ok in Hins. simpl negb in Hins. cbv iota in Hins.
  destruct (view_pinned fs' bm' pn idx Hwf' Hat Hpn0) as [Hderef Hlen].
  rewrite Hderef, (Hv _ Hpn0), (Hv1 _ Hpn0) in *.
  destruct (findFreeSlot (pageView fs rel pn)
              (computeMaxSlots (recordSize (mgmtData rel)))) as [s|] eqn:Efree.
  - (* a free slot: the record is placed *)
    apply findFreeSlot_Some in Efree as (Hs & Hflag & _).
    fold (slotsUsedOf (pageView fs rel pn)) in Hins.
    fold (placeRecord (recordSize (mgmtData rel)) (pageView fs rel pn) s (data rec)) in Hins.
    set (d := placeRecord _ _ _ _) in *.
    rewrite assign_eq in Hins. simpl BM.h_data in Hins.
    rewrite (markDirty_eq _ pn idx idx) in Hins by solve_pinned. cbv iota beta in Hins.
    rewrite (unpinPage_eq _ pn idx idx) in Hins by solve_pinned. cbv iota beta in Hins.
    rewrite !touch_touch in Hins.
    destruct (write_dirty_unpin fs' bm' pn idx d Hwf' Hat Hpn0) as [Hw Hk].
    { unfold d. now rewrite length_placeRecord. }
    rewrite Hn1 in Hins. injection Hins as <-.
    assert (Hview : forall q, 0 <= q ->
              BM.view fs' (BM.touch (BM.unpinFrame ∘ BM.setDirtyFrame
                             ∘ (fun pf => BM.set_data pf d)) idx bm') q
              = if q =? pn then d else pageView fs rel q).
    { intros q Hq. rewrite Hk by exact Hq.
      destruct (q =? pn); [reflexivity|]. rewrite Hv, Hv1 by exact Hq. reflexivity. }
    exists fs'. eexists. exists pn, s. split; [reflexivity|].
    destruct (Int32.add _ _ =? _);
      (split; [exact Hw|]; split; [exact Hpn0|]; split; [exact Hpn|];
       split; [exact Hs|]; split; [exact Hflag|]; split; [exact Hview|];
       simpl; repeat split; auto; lia).
  - (* the page is full: retry on a table without a free page *)
    rewrite (markDirty_eq _ pn idx idx) in Hins by solve_pinned. cbv iota beta in Hins.
    rewrite (unpinPage_eq _ pn idx idx) in Hins by solve_pinned. cbv iota beta in Hins.
    rewrite !touch_touch in Hins.
    destruct (keep_dirty_unpin fs' bm' pn idx Hwf' Hat Hpn0) as [Hw Hk].
    apply IH in Hins; [|exact Hw].
    destruct Hins as (fs2 & rel2 & p & s & Hout & Hwf2 & Hp0 & Hp & Hs & Hflag
                      & Hview & Hnum & Hnext & Hrec & Hsch & Htot2 & Hplt).
    assert (Hsame : forall q, 0 <= q ->
              pageView fs' (set_tbl rel (set_pool (set_nextFreePage tbl1 (-1))
                 (BM.touch (BM.unpinFrame ∘ (fun pf => BM.set_dirty pf true)) idx bm'))) q
              = pageView fs rel q).
    { intros q Hq. unfold pageView at 1. simpl. unfold BM.setDirtyFrame in Hk.
      rewrite Hk, Hv, Hv1 by exact Hq. reflexivity. }
    simpl recordSize in *. simpl numTuples in *. simpl schema in *.
    rewrite Hr1, ?Hn1 in *. rewrite (Hsame _ Hp0) in *.
    exists fs2, rel2, p, s. split; [exact Hout|]. split; [exact Hwf2|].
    split; [exact Hp0|]. split; [lia|]. split; [exact Hs|]. split; [exact Hflag|].
    split.
    { intros q Hq. rewrite Hview by exact Hq.
      destruct (q =? p); [reflexivity | apply Hsame; exact Hq]. }
    repeat split; auto; lia.
Qed.

End RecordMgrFacts.

(** * The bytes of a data page: header, usage bytes, payload *)

Module PageFacts.
Import Storage RecordMgr StorageFacts Int32Facts MemFacts RecordMgrFacts.

(** A table with a slot has a non-negative record size, and the slots of a
    page end within the page. *)
Lemma slot_geometry R s :
  0 <= s < computeMaxSlots R ->
  0 <= R /\ 0 < computeMaxSlots R <= PAGE_SIZE - 4 /\
  4 + computeMaxSlots R + s * R + R <= PAGE_SIZE.
Proof.
  unfold computeMaxSlots. rewrite PAGE_SIZE_eq. intros Hs.
  assert (HR : 0 < R + 1).
  { destruct (decide (0 < R + 1)) as [H|H]; [exact H|].
    destruct (decide (R + 1 = 0)) as [E|E].
    - rewrite E, Z.quot_0_r_ext in Hs by reflexivity. lia.
    - pose proof (Z.quot_opp_r (4096 - 4) (- (R + 1)) ltac:(lia)) as Hq.
      rewrite Z.opp_involutive in Hq.
      pose proof (Z.quot_pos (4096 - 4) (- (R + 1)) ltac:(lia) ltac:(lia)). lia. }
  rewrite Z.quot_div_nonneg in * by lia.
  pose proof (Z.mul_div_le (4096 - 4) (R + 1) HR) as Hle.
  pose proof (Z.div_le_upper_bound (4096 - 4) (R + 1) (4096 - 4) HR ltac:(nia)).
  split; [lia|]. split; [lia|]. nia.
Qed.

Lemma flag_byte_one : Int32.Z_of_byte (Int32.byte_of_Z 1) = 1.
Proof. reflexivity. Qed.

Lemma flag_byte_zero : Int32.Z_of_byte (Int32.byte_of_Z 0) = 0.
Proof. reflexivity. Qed.

Lemma slotsUsedOf_header d0 v :
  (4 <= length d0)%nat ->
  slotsUsedOf (Mem.memcpy_to d0 0 (Int32.encode v) 4) = Int32.wrap v.
Proof.
  intros H. unfold slotsUsedOf.
  rewrite memcpy_from_memcpy_to by (try reflexivity; lia).
  apply decode_encode.
Qed.

Lemma slotsUsedOf_ext d1 d2 :
  (4 <= length d1)%nat -> (4 <= length d2)%nat ->
  (forall j, 0 <= j < 4 -> Mem.load d1 j = Mem.load d2 j) ->
  slotsUsedOf d1 = slotsUsedOf d2.
Proof.
  intros H1 H2 H. unfold slotsUsedOf. f_equal. apply memcpy_from_ext; auto; lia.
Qed.

Section PageBytes.
Variable d : list byte.
Hypothesis Hlen : length d = Z.to_nat PAGE_SIZE.

Lemma page_len : Z.of_nat (length d) = 4096.
Proof. rewrite Hlen, PAGE_SIZE_eq. reflexivity. Qed.

Lemma clearSlot_header s :
  slotsUsedOf (clearSlot d s) = Int32.sub (slotsUsedOf d) 1.
Proof.
  pose proof page_len as Hl. unfold clearSlot.
  rewrite slotsUsedOf_header.
  - unfold Int32.sub. apply wrap_small, wrap_range.
  - unfold setSlotFlag. rewrite length_store. lia.
Qed.

Lemma clearSlot_load s j :
  ~ (0 <= j < 4) -> j <> 4 + s ->
  Mem.load (clearSlot d s) j = Mem.load d j.
Proof.
  intros H1 H2. unfold clearSlot, setSlotFlag.
  rewrite load_memcpy_to_out by lia. now rewrite load_store_ne by lia.
Qed.

End PageBytes.

Section Page.
Variables (R : Z) (d : list byte).
Hypothesis Hlen : length d = Z.to_nat PAGE_SIZE.

Let N := computeMaxSlots R.




(** placeRecord *)

Lemma placeRecord_flag s x s' :
  0 <= s < N -> 0 <= s' < N ->
  getSlotFlag (placeRecord R d s x) s' = if s' =? s then 1 else getSlotFlag d s'.
Proof.
  intros Hs Hs'. destruct (slot_geometry R s Hs) as (HR & HN & Hend).
  pose proof (page_len d Hlen) as Hl. rewrite PAGE_SIZE_eq in *.
  unfold getSlotFlag, placeRecord, setSlotFlag. fold N.
  rewrite load_memcpy_to_out by lia.
  destruct (s' =? s) eqn:E.
  - apply Z.eqb_eq in E. subst s'.
    rewrite load_store_eq by (rewrite length_memcpy_to; lia). reflexivity.
  - apply Z.eqb_neq in E. rewrite load_store_ne by lia.
    rewrite load_memcpy_to_out by nia. reflexivity.
Qed.

Lemma placeRecord_header s x :
  slotsUsedOf (placeRecord R d s x) = Int32.add (slotsUsedOf d) 1.
Proof.
  pose proof (page_len d Hlen) as Hl. unfold placeRecord.
  rewrite slotsUsedOf_header.
  - unfold Int32.add. apply wrap_small, wrap_range.
  - unfold setSlotFlag. rewrite length_store, length_memcpy_to. lia.
Qed.

Lemma placeRecord_payload s x :
  0 <= s < N -> length x = Z.to_nat R ->
  payloadOf R (placeRecord R d s x) s = x.
Proof.
  intros Hs Hx. destruct (slot_geometry R s Hs) as (HR & HN & Hend).
  pose proof (page_len d Hlen) as Hl. rewrite PAGE_SIZE_eq in *.
  unfold payloadOf, placeRecord, setSlotFlag. fold N.
  rewrite <- (memcpy_from_memcpy_to d (4 + N + s * R) x R) at 2 by (fold N in Hend; lia).
  fold N in Hend. apply memcpy_from_ext.
  - lia.
  - rewrite length_memcpy_to, length_store, length_memcpy_to. lia.
  - rewrite length_memcpy_to. lia.
  - intros j Hj. rewrite load_memcpy_to_out by lia.
    rewrite load_store_ne by lia. reflexivity.
Qed.

(** clearSlot *)

Lemma clearSlot_flag s s' :
  0 <= s < N -> 0 <= s' < N ->
  getSlotFlag (clearSlot d s) s' = if s' =? s then 0 else getSlotFlag d s'.
Proof.
  intros Hs Hs'. destruct (slot_geometry R s Hs) as (HR & HN & Hend).
  pose proof (page_len d Hlen) as Hl. rewrite PAGE_SIZE_eq in *.
  unfold getSlotFlag, clearSlot, setSlotFlag. fold N in HN.
  rewrite load_memcpy_to_out by lia.
  destruct (s' =? s) eqn:E.
  - apply Z.eqb_eq in E. subst s'. rewrite load_store_eq by lia. reflexivity.
  - apply Z.eqb_neq in E. rewrite load_store_ne by lia. reflexivity.
Qed.



(** overwriteSlot *)

Lemma overwriteSlot_load s x j :
  0 <= s < N -> (Z.to_nat R <= length x)%nat -> 0 <= j < PAGE_SIZE ->
  Mem.load (overwriteSlot R d s x) j
  = if (4 + N + s * R <=? j) && (j <? 4 + N + s * R + R)
    then Mem.load x (j - (4 + N + s * R)) else Mem.load d j.
Proof.
  intros Hs Hx Hj. destruct (slot_geometry R s Hs) as (HR & HN & Hend).
  pose proof (page_len d Hlen) as Hl. rewrite PAGE_SIZE_eq in *. fold N in Hend, HN.
  unfold overwriteSlot. fold N.
  destruct ((4 + N + s * R <=? j) && (j <? 4 + N + s * R + R)) eqn:E.
  - apply andb_true_iff in E as [E1 E2]. apply Z.leb_le in E1. apply Z.ltb_lt in E2.
    apply load_memcpy_to_in; lia.
  - apply load_memcpy_to_out.
    apply andb_false_iff in E as [E|E];
      [apply Z.leb_gt in E | apply Z.ltb_ge in E]; lia.
Qed.

Lemma overwriteSlot_flag s x s' :
  0 <= s < N -> 0 <= s' < N ->
  getSlotFlag (overwriteSlot R d s x) s' = getSlotFlag d s'.
Proof.
  intros Hs Hs'. destruct (slot_geometry R s Hs) as (HR & HN & Hend).
  fold N in HN, Hend. unfold getSlotFlag, overwriteSlot. fold N.
  rewrite load_memcpy_to_out by nia. reflexivity.
Qed.

Lemma overwriteSlot_header s x :
  0 <= s < N -> slotsUsedOf (overwriteSlot R d s x) = slotsUsedOf d.
Proof.
  intros Hs. destruct (slot_geometry R s Hs) as (HR & HN & Hend).
  pose proof (page_len d Hlen) as Hl. fold N in HN, Hend.
  apply slotsUsedOf_ext; rewrite ?length_overwriteSlot; try lia.
  intros j Hj. unfold overwriteSlot. fold N. apply load_memcpy_to_out. nia.
Qed.

Lemma overwriteSlot_payload s x :
  0 <= s < N -> length x = Z.to_nat R ->
  payloadOf R (overwriteSlot R d s x) s = x.
Proof.
  intros Hs Hx. destruct (slot_geometry R s Hs) as (HR & HN & Hend).
  pose proof (page_len d Hlen) as Hl. rewrite PAGE_SIZE_eq in *. fold N in HN, Hend.
  unfold payloadOf, overwriteSlot. fold N.
  apply memcpy_from_memcpy_to; lia.
Qed.

Lemma overwriteSlot_other s x s' :
  0 <= s < N -> 0 <= s' < N -> s' <> s ->
  payloadOf R (overwriteSlot R d s x) s' = payloadOf R d s'.
Proof.
  intros Hs Hs' Hne. destruct (slot_geometry R s Hs) as (HR & HN & Hend).
  destruct (slot_geometry R s' Hs') as (_ & _ & Hend').
  pose proof (page_len d Hlen) as Hl. rewrite PAGE_SIZE_eq in *. fold N in HN, Hend, Hend'.
  unfold payloadOf, overwriteSlot. fold N.
  apply memcpy_from_ext; rewrite ?length_memcpy_to; try lia.
  intros j Hj. apply load_memcpy_to_out. nia.
Qed.

End Page.

End PageFacts.

(** * Insert, get, delete and update on a table *)

Module TableFacts.
Import Storage RecordMgr StorageFacts PoolFacts Int32Facts MemFacts RecordMgrFacts PageFacts.
#[local] Opaque PAGE_SIZE.

Lemma pageView_length fs rel q :
  table_wf fs rel -> 0 <= q -> length (pageView fs rel q) = Z.to_nat PAGE_SIZE.
Proof. apply view_length. Qed.

Lemma pageView_beyond fs rel q :
  table_wf fs rel -> totalNumPages fs <= q -> 0 <= q -> pageView fs rel q = zeroPage.
Proof. apply view_beyond. Qed.

Lemma getSlotFlag_zeroPage s : getSlotFlag zeroPage s = 0.
Proof.
  unfold getSlotFlag, Mem.load, zeroPage. destruct (4 + s <? 0); [reflexivity|].
  destruct (replicate _ _ !! _) as [b|] eqn:E; [|reflexivity].
  apply lookup_replicate_1 in E as [-> _]. reflexivity.
Qed.

Lemma findFreeSlot_zeroPage N : 0 < N -> findFreeSlot zeroPage N = Some 0.
Proof.
  intros HN. unfold findFreeSlot.
  destruct (Z.to_nat N) as [|n] eqn:E; [lia|].
  simpl. now rewrite getSlotFlag_zeroPage.
Qed.

(** With no free page recorded, one round of [insertRecord] places the
    record in a fresh page. *)
Lemma insertRecord_fresh fuel fs rel rec :
  table_wf fs rel ->
  nextFreePage (mgmtData rel) < 1 ->
  0 < computeMaxSlots (recordSize (mgmtData rel)) ->
  is_Some (insertRecord (S fuel) fs rel rec).
Proof.
  intros Hwf Hnf HN. simpl insertRecord.
  apply Z.ltb_lt in Hnf. rewrite Hnf.
  destruct (appendDataPage_spec fs (mgmtData rel) Hwf)
    as (fs1 & tbl1 & Heq & Hwf1 & Hv1 & Htot1 & _ & Hnf1 & _).
  { unfold totalNumPages. lia. }
  rewrite Heq. simpl rc_ok. simpl negb. cbv iota. rewrite Hnf1.
  assert (Hp0 : 0 <= totalNumPages fs) by (unfold totalNumPages; lia).
  destruct (pinPage_wf fs1 (bufferPool tbl1) BM.nullHandle _ Hwf1 Hp0)
    as (fs' & bm' & idx & Hpin & Hwf' & Hat & Hv & Htot).
  rewrite Hpin. simpl rc_ok. simpl negb. cbv iota.
  destruct (view_pinned fs' bm' _ idx Hwf' Hat Hp0) as [Hderef _].
  rewrite Hderef, (Hv _ Hp0), (Hv1 _ Hp0).
  rewrite (view_beyond fs _ _ Hwf) by lia.
  rewrite findFreeSlot_zeroPage by exact HN.
  rewrite assign_eq. simpl BM.h_data.
  rewrite (markDirty_eq _ _ idx idx) by solve_pinned. cbv iota beta.
  rewrite (unpinPage_eq _ _ idx idx) by solve_pinned. cbv iota beta.
  eauto.
Qed.

(** [insertRecord] returns: on a well-formed table whose pages have a slot,
    two rounds are enough. *)
Lemma insertRecord_total fuel fs rel rec :
  table_wf fs rel ->
  0 < computeMaxSlots (recordSize (mgmtData rel)) ->
  is_Some (insertRecord (S (S fuel)) fs rel rec).
Proof.
  intros Hwf HN. remember (S fuel) as fuel' eqn:Efuel.
  destruct (insertRecord (S fuel') fs rel rec) eqn:Hins; [eauto|exfalso].
  simpl insertRecord in Hins.
  destruct (insert_prepare fs rel Hwf)
    as (fs1 & tbl1 & pn & Heq & Hnf & Hpn & Hwf1 & Hv1 & Htot1 & Hn1 & Hr1).
  rewrite Heq in Hins. simpl rc_ok in Hins. simpl negb in Hins. cbv iota in Hins.
  assert (Hpn0 : 0 <= pn) by (unfold totalNumPages in Hpn; lia).
  rewrite Hnf in Hins.
  destruct (pinPage_wf fs1 (bufferPool tbl1) BM.nullHandle pn Hwf1 Hpn0)
    as (fs' & bm' & idx & Hpin & Hwf' & Hat & Hv & Htot).
  rewrite Hpin in Hins. simpl rc_ok in Hins. simpl negb in Hins. cbv iota in Hins.
  destruct (findFreeSlot _ _) as [s|] eqn:Efree.
  - rewrite assign_eq in Hins. simpl BM.h_data in Hins.
    rewrite (markDirty_eq _ pn idx idx) in Hins by solve_pinned. cbv iota beta in Hins.
    rewrite (unpinPage_eq _ pn idx idx) in Hins by solve_pinned. cbv iota beta in Hins.
    discriminate.
  - rewrite (markDirty_eq _ pn idx idx) in Hins by solve_pinned. cbv iota beta in Hins.
    rewrite (unpinPage_eq _ pn idx idx) in Hins by solve_pinned. cbv iota beta in Hins.
    rewrite !touch_touch in Hins.
    destruct (keep_dirty_unpin fs' bm' pn idx Hwf' Hat Hpn0) as [Hw Hk].
    subst fuel'.
    match type of Hins with insertRecord (S fuel) ?f ?r ?c = None =>
      destruct (insertRecord_fresh fuel f r c) as [x Hx] end.
    + exact Hw.
    + simpl. lia.
    + simpl. rewrite Hr1. exact HN.
    + congruence.
Qed.

(** [getRecord] on the very table that [insertRecord] returned, with the
    RID it assigned: it returns ok and hands back the payload that was
    inserted. *)
Lemma insert_then_get fuel fs rel rec out fs1 rel1 rec1 :
  table_wf fs rel ->
  length (data rec) = Z.to_nat (recordSize (mgmtData rel)) ->
  length (data out) = Z.to_nat (recordSize (mgmtData rel)) ->
  insertRecord fuel fs rel rec = Some (RC_OK, fs1, rel1, rec1) ->
  exists fs2 rel2,
    getRecord fs1 rel1 (id rec1) out
    = (RC_OK, fs2, rel2, {| id := id rec1; data := data rec |}).
Proof.
  intros Hwf Hrec Hout Hins.
  destruct (insertRecord_spec fuel fs rel rec _ Hwf Hins)
    as (fs' & rel' & p & s & Heq & Hwf' & Hp0 & _ & Hs & _ & Hview & _ & _ & HR & _).
  injection Heq as <- <- ->. simpl id.
  destruct (getRecord_spec fs1 rel1 {| page := p; slot := s |} out Hwf' Hp0)
    as (fs2 & rel2 & Hget & _).
  simpl page in Hget. simpl slot in Hget.
  rewrite (Hview p Hp0), Z.eqb_refl, HR in Hget.
  pose proof (pageView_length fs rel p Hwf Hp0) as Hlen.
  rewrite (placeRecord_flag _ _ Hlen) in Hget by exact Hs.
  rewrite Z.eqb_refl in Hget. simpl in Hget.
  rewrite (placeRecord_payload _ _ Hlen) in Hget by auto.
  rewrite memcpy_to_all in Hget by auto.
  eauto.
Qed.

(** C5: [deleteRecord] of a valid RID returns ok.  On a used slot it clears
    the usage byte, decrements the [slotsUsed] header of the page and
    [numTuples] (32-bit decrements), leaves every other usage byte, every
    payload byte and every other page as it was, and sets [nextFreePage]
    to the page exactly when the header became N - 1.  On a free slot
    nothing changes. *)
Theorem deleteRecord_effect fs rel rid :
  table_wf fs rel ->
  0 <= page rid ->
  0 <= slot rid < computeMaxSlots (recordSize (mgmtData rel)) ->
  exists fs' rel',
    deleteRecord fs rel rid = (RC_OK, fs', rel') /\
    let N := computeMaxSlots (recordSize (mgmtData rel)) in
    let d := pageView fs rel (page rid) in
    let d' := pageView fs' rel' (page rid) in
    (getSlotFlag d (slot rid) = 1 ->
       getSlotFlag d' (slot rid) = 0 /\
       slotsUsedOf d' = Int32.sub (slotsUsedOf d) 1 /\
       numTuples (mgmtData rel') = Int32.sub (numTuples (mgmtData rel)) 1 /\
       (slotsUsedOf d' = N - 1 -> nextFreePage (mgmtData rel') = page rid) /\
       (slotsUsedOf d' <> N - 1 ->
          nextFreePage (mgmtData rel') = nextFreePage (mgmtData rel)) /\
       (forall s, 0 <= s < N -> s <> slot rid -> getSlotFlag d' s = getSlotFlag d s) /\
       (forall j, 4 + N <= j -> Mem.load d' j = Mem.load d j) /\
       (forall q, 0 <= q -> q <> page rid -> pageView fs' rel' q = pageView fs rel q)) /\
    (getSlotFlag d (slot rid) = 0 ->
       (forall q, 0 <= q -> pageView fs' rel' q = pageView fs rel q) /\
       numTuples (mgmtData rel') = numTuples (mgmtData rel) /\
       nextFreePage (mgmtData rel') = nextFreePage (mgmtData rel)).
Proof.
  intros Hwf Hp Hs.
  destruct (deleteRecord_spec fs rel rid Hwf Hp)
    as (fs' & rel' & Heq & _ & _ & _ & _ & Hcase).
  exists fs', rel'. split; [exact Heq|]. cbv zeta.
  pose proof (pageView_length fs rel _ Hwf Hp) as Hlen.
  destruct (getSlotFlag (pageView fs rel (page rid)) (slot rid) =? 1) eqn:E.
  - apply Z.eqb_eq in E. destruct Hcase as (Hview & Hnum & Hnext).
    split; [|intros H0; lia]. intros _.
    rewrite (Hview _ Hp), Z.eqb_refl.
    rewrite (clearSlot_flag _ _ Hlen) by exact Hs. rewrite Z.eqb_refl.
    rewrite (clearSlot_header _ Hlen).
    split; [reflexivity|]. split; [reflexivity|]. split; [exact Hnum|].
    split; [|split; [|split; [|split]]].
    + intros H. rewrite Hnext. rewrite (proj2 (Z.eqb_eq _ _) H). reflexivity.
    + intros H. rewrite Hnext. rewrite (proj2 (Z.eqb_neq _ _) H). reflexivity.
    + intros s Hs' Hne.
      rewrite (clearSlot_flag (recordSize (mgmtData rel)) _ Hlen) by auto.
      rewrite (proj2 (Z.eqb_neq _ _) Hne). reflexivity.
    + intros j Hj. destruct (slot_geometry _ _ Hs) as (_ & HN & _).
      apply clearSlot_load; lia.
    + intros q Hq Hne. rewrite Hview by exact Hq.
      rewrite (proj2 (Z.eqb_neq _ _) Hne). reflexivity.
  - apply Z.eqb_neq in E. split; [intros H1; lia|]. intros _. exact Hcase.
Qed.

(** C6, as the code has it: the delete that takes the [slotsUsed] header of
    a page from 1 to 0 sets [nextFreePage] to the page when the slot
    capacity of a page is 1, and leaves [nextFreePage] as it was
    otherwise. *)
Theorem delete_last_used_slot fs rel rid :
  table_wf fs rel ->
  0 <= page rid ->
  0 <= slot rid < computeMaxSlots (recordSize (mgmtData rel)) ->
  getSlotFlag (pageView fs rel (page rid)) (slot rid) = 1 ->
  slotsUsedOf (pageView fs rel (page rid)) = 1 ->
  exists fs' rel',
    deleteRecord fs rel rid = (RC_OK, fs', rel') /\
    slotsUsedOf (pageView fs' rel' (page rid)) = 0 /\
    nextFreePage (mgmtData rel')
    = if computeMaxSlots (recordSize (mgmtData rel)) =? 1
      then page rid else nextFreePage (mgmtData rel).
Proof.
  intros Hwf Hp Hs Hflag Hused.
  destruct (deleteRecord_spec fs rel rid Hwf Hp)
    as (fs' & rel' & Heq & _ & _ & _ & _ & Hcase).
  exists fs', rel'. split; [exact Heq|].
  pose proof (pageView_length fs rel _ Hwf Hp) as Hlen.
  rewrite Hflag in Hcase. simpl in Hcase. destruct Hcase as (Hview & _ & Hnext).
  rewrite (Hview _ Hp), Z.eqb_refl, (clearSlot_header _ Hlen), Hused.
  split; [reflexivity|]. rewrite Hnext, Hused.
  change (Int32.sub 1 1) with 0.
  destruct (computeMaxSlots (recordSize (mgmtData rel)) =? 1) eqn:E.
  - apply Z.eqb_eq in E. rewrite E. reflexivity.
  - apply Z.eqb_neq in E.
    destruct (0 =? computeMaxSlots (recordSize (mgmtData rel)) - 1) eqn:E'; [|reflexivity].
    apply Z.eqb_eq in E'. lia.
Qed.

(** C7: on a free slot [updateRecord] returns the non-existing code and
    the table reads as before.  On a used slot it returns ok and the page
    holds the new payload in the [recordSize] bytes of the slot; every
    other byte of the page, hence the usage array, the [slotsUsed] header
    and the other slots, every other page, [numTuples] and [nextFreePage]
    are as before, and the record is found under the same RID. *)
Theorem updateRecord_effect fs rel rec out :
  table_wf fs rel ->
  0 <= page (id rec) ->
  0 <= slot (id rec) < computeMaxSlots (recordSize (mgmtData rel)) ->
  length (data rec) = Z.to_nat (recordSize (mgmtData rel)) ->
  length (data out) = Z.to_nat (recordSize (mgmtData rel)) ->
  exists fs' rel',
    let R := recordSize (mgmtData rel) in
    let N := computeMaxSlots R in
    let p := page (id rec) in
    let s := slot (id rec) in
    let d := pageView fs rel p in
    let d' := pageView fs' rel' p in
    numTuples (mgmtData rel') = numTuples (mgmtData rel) /\
    nextFreePage (mgmtData rel') = nextFreePage (mgmtData rel) /\
    (forall q, 0 <= q -> q <> p -> pageView fs' rel' q = pageView fs rel q) /\
    (getSlotFlag d s = 0 ->
       updateRecord fs rel rec = (RC_READ_NON_EXISTING_PAGE, fs', rel') /\ d' = d) /\
    (getSlotFlag d s <> 0 ->
       updateRecord fs rel rec = (RC_OK, fs', rel') /\
       payloadOf R d' s = data rec /\
       (forall j, 0 <= j < PAGE_SIZE ->
          ~ (4 + N + s * R <= j < 4 + N + s * R + R) ->
          Mem.load d' j = Mem.load d j) /\
       (forall s', 0 <= s' < N -> getSlotFlag d' s' = getSlotFlag d s') /\
       slotsUsedOf d' = slotsUsedOf d /\
       (forall s', 0 <= s' < N -> s' <> s -> payloadOf R d' s' = payloadOf R d s') /\
       exists fs2 rel2,
         getRecord fs' rel' (id rec) out
         = (RC_OK, fs2, rel2, {| id := id rec; data := data rec |})).
Proof.
  intros Hwf Hp Hs Hrec Hout.
  destruct (updateRecord_spec fs rel rec Hwf Hp)
    as (fs' & rel' & Heq & Hwf' & Hview & Hnum & Hnext & HR & _ & _).
  exists fs', rel'. cbv zeta.
  pose proof (pageView_length fs rel _ Hwf Hp) as Hlen.
  split; [exact Hnum|]. split; [exact Hnext|].
  split.
  { intros q Hq Hne. rewrite Hview by exact Hq.
    rewrite (proj2 (Z.eqb_neq _ _) Hne). reflexivity. }
  rewrite (Hview _ Hp), Z.eqb_refl. simpl andb.
  destruct (getSlotFlag (pageView fs rel (page (id rec))) (slot (id rec)) =? 0) eqn:E.
  - apply Z.eqb_eq in E. split; [|intros H; lia]. intros _. simpl. auto.
  - destruct (getRecord_spec fs' rel' (id rec) out Hwf' Hp)
      as (fs2 & rel2 & Hget & _).
    rewrite (Hview _ Hp), Z.eqb_refl, HR in Hget.
    simpl negb in Hget. simpl andb in Hget. cbv iota in Hget.
    apply Z.eqb_neq in E. split; [intros H; lia|]. intros _. simpl negb. cbv iota.
    set (R := recordSize (mgmtData rel)) in *.
    set (d := pageView fs rel (page (id rec))) in *.
    rewrite (overwriteSlot_flag R d Hlen) in Hget by auto.
    rewrite (proj2 (Z.eqb_neq _ _) E) in Hget.
    rewrite (overwriteSlot_payload R d Hlen) in Hget by auto.
    rewrite memcpy_to_all in Hget by auto.
    split; [exact Heq|].
    split; [apply (overwriteSlot_payload R d Hlen); auto|].
    split.
    { intros j Hj Hout'. rewrite (overwriteSlot_load R d Hlen) by (auto; lia).
      destruct ((_ <=? j) && (j <? _)) eqn:Ej; [|reflexivity].
      apply andb_true_iff in Ej as [E1 E2].
      apply Z.leb_le in E1. apply Z.ltb_lt in E2. lia. }
    split; [intros s' Hs'; apply (overwriteSlot_flag R d Hlen); auto|].
    split; [apply (overwriteSlot_header R d Hlen); auto|].
    split; [intros s' Hs' Hne; apply (overwriteSlot_other R d Hlen); auto|].
    exists fs2, rel2. rewrite Hget. destruct (id rec). reflexivity.
Qed.

(** C10: a RID whose page lies at or beyond the end of the file (at a byte
    offset a C int can hold, the flag byte of the slot inside the page) is
    not rejected: [getRecord] returns the no-more-tuples code,
    [updateRecord] the non-existing code and [deleteRecord] ok, each
    leaving the table as it reads but the file extended up to that page;
    and the page fetch of a scan succeeds for every non-negative page. *)
Theorem rid_beyond_end_of_file fs rel rid rec :
  table_wf fs rel ->
  totalNumPages fs <= page rid ->
  (page rid + 1) * PAGE_SIZE <= Int32.max_int ->
  0 <= slot rid < PAGE_SIZE - 4 ->
  (exists fs' rel',
     getRecord fs rel rid rec = (RC_RM_NO_MORE_TUPLES, fs', rel', rec) /\
     totalNumPages fs' = page rid + 1 /\ same_table fs rel fs' rel') /\
  (exists fs' rel',
     updateRecord fs rel {| id := rid; data := data rec |}
     = (RC_READ_NON_EXISTING_PAGE, fs', rel') /\
     totalNumPages fs' = page rid + 1 /\ same_table fs rel fs' rel') /\
  (exists fs' rel',
     deleteRecord fs rel rid = (RC_OK, fs', rel') /\
     totalNumPages fs' = page rid + 1 /\ same_table fs rel fs' rel') /\
  (forall sdata, 0 <= currentPage sdata ->
     exists fs' bm' h, scanFetch fs rel sdata = (RC_OK, fs', bm', h)).
Proof.
  intros Hwf Hbeyond _ _.
  assert (Hp : 0 <= page rid) by (unfold totalNumPages in Hbeyond; lia).
  pose proof (pageView_beyond fs rel _ Hwf Hbeyond Hp) as Hzero.
  split; [|split; [|split]].
  - destruct (getRecord_spec fs rel rid rec Hwf Hp)
      as (fs' & rel' & Heq & _ & Hsame & Htot).
    rewrite Hzero, getSlotFlag_zeroPage in Heq. simpl in Heq.
    exists fs', rel'. split; [exact Heq|]. split; [lia | exact Hsame].
  - destruct (updateRecord_spec fs rel {| id := rid; data := data rec |} Hwf Hp)
      as (fs' & rel' & Heq & _ & Hview & Hnum & Hnext & HR & Hsch & Htot).
    simpl id in *. rewrite Hzero, getSlotFlag_zeroPage in *. simpl in Heq.
    exists fs', rel'. split; [exact Heq|]. split; [lia|].
    split; [|auto]. intros q Hq. rewrite Hview by exact Hq.
    now rewrite andb_false_r.
  - destruct (deleteRecord_spec fs rel rid Hwf Hp)
      as (fs' & rel' & Heq & _ & HR & Hsch & Htot & Hcase).
    rewrite Hzero, getSlotFlag_zeroPage in Hcase. simpl in Hcase.
    exists fs', rel'. split; [exact Heq|]. split; [lia|].
    destruct Hcase as (Hv & Hn & Hnf). split; auto.
  - intros sdata Hc. unfold scanFetch.
    destruct (pinPage_wf fs (bufferPool (mgmtData rel)) BM.nullHandle
                (currentPage sdata) Hwf Hc)
      as (fs' & bm' & idx & Heq & _).
    eauto.
Qed.

End TableFacts.

(** * Attribute access in a record *)

Module AttrFacts.
Import RecordMgr Int32Facts MemFacts.



Lemma cstr_no_zero s : Forall (fun c => c <> x00) (cstr s).
Proof.
  induction s as [|c s IH]; simpl; [constructor|].
  destruct (Byte.eqb c x00) eqn:E; [constructor|].
  constructor; [|exact IH]. intros ->. discriminate.
Qed.

Lemma cstr_app_zero l rest :
  Forall (fun c => c <> x00) l -> cstr (l ++ x00 :: rest) = l.
Proof.
  induction 1 as [|c l Hc _ IH]; simpl; [reflexivity|].
  destruct (Byte.eqb c x00) eqn:E.
  - apply Byte.byte_dec_bl in E. contradiction.
  - now rewrite IH.
Qed.







End AttrFacts.

(** * The counting invariant of a table and its preservation *)

Module InvFacts.
Import Storage RecordMgr StorageFacts PoolFacts Int32Facts MemFacts RecordMgrFacts PageFacts TableFacts.
#[local] Opaque PAGE_SIZE.

Lemma sumZ_ext n : forall f g,
  (forall i, (i < n)%nat -> f i = g i) -> sumZ f n = sumZ g n.
Proof.
  induction n as [|n IH]; intros f g H; simpl; [reflexivity|].
  rewrite (IH f g), (H n) by (intros; try apply H; lia). reflexivity.
Qed.

Lemma sumZ_update n : forall f g k,
  (k < n)%nat ->
  (forall i, (i < n)%nat -> i <> k -> g i = f i) ->
  sumZ g n = sumZ f n + (g k - f k).
Proof.
  induction n as [|n IH]; intros f g k Hk H; [lia|]. simpl.
  destruct (decide (k = n)) as [->|Hne].
  - rewrite (sumZ_ext n g f) by (intros; apply H; lia). lia.
  - rewrite (IH f g k), (H n) by (intros; try apply H; lia). lia.
Qed.

Lemma sumZ_tail n m f :
  (n <= m)%nat ->
  (forall i, (n <= i < m)%nat -> f i = 0) ->
  sumZ f m = sumZ f n.
Proof.
  intros Hle. induction Hle as [|m Hle IH]; intros H; [reflexivity|].
  simpl. rewrite IH, (H m) by (intros; try apply H; lia). lia.
Qed.

Lemma sumZ_bounds n f b :
  (forall i, (i < n)%nat -> 0 <= f i <= b) ->
  0 <= sumZ f n <= Z.of_nat n * b.
Proof.
  induction n as [|n IH]; intros H; simpl; [lia|].
  pose proof (H n ltac:(lia)). specialize (IH ltac:(intros; apply H; lia)). nia.
Qed.

(** usedCount *)

Lemma usedCount_bounds R d :
  0 <= usedCount R d <= Z.max 0 (computeMaxSlots R).
Proof.
  unfold usedCount.
  pose proof (sumZ_bounds (Z.to_nat (computeMaxSlots R))
    (fun s => if getSlotFlag d (Z.of_nat s) =? 1 then 1 else 0) 1) as H.
  destruct H; [|lia]. intros i _. destruct (_ =? 1); lia.
Qed.

Lemma usedCount_ext R d d' :
  (forall s, 0 <= s < computeMaxSlots R -> getSlotFlag d' s = getSlotFlag d s) ->
  usedCount R d' = usedCount R d.
Proof.
  intros H. unfold usedCount. apply sumZ_ext. intros i Hi. rewrite H by lia. reflexivity.
Qed.

Lemma usedCount_update R d d' s v :
  0 <= s < computeMaxSlots R ->
  getSlotFlag d' s = v ->
  (forall s', 0 <= s' < computeMaxSlots R -> s' <> s ->
     getSlotFlag d' s' = getSlotFlag d s') ->
  usedCount R d' = usedCount R d
    + ((if v =? 1 then 1 else 0) - (if getSlotFlag d s =? 1 then 1 else 0)).
Proof.
  intros Hs Hv H. unfold usedCount.
  rewrite (sumZ_update _ (fun s => if getSlotFlag d (Z.of_nat s) =? 1 then 1 else 0)
             _ (Z.to_nat s)).
  - rewrite Z2Nat.id, Hv by lia. reflexivity.
  - lia.
  - intros i Hi Hne. rewrite H by lia. reflexivity.
Qed.

Lemma usedCount_zeroPage R : usedCount R zeroPage = 0.
Proof.
  unfold usedCount.
  rewrite (sumZ_ext _ _ (fun _ => 0)).
  - generalize (Z.to_nat (computeMaxSlots R)). induction n; simpl; lia.
  - intros i _. now rewrite getSlotFlag_zeroPage.
Qed.

Lemma slotsUsedOf_zeroPage : slotsUsedOf zeroPage = 0.
Proof.
  rewrite <- zeroPage_header. rewrite slotsUsedOf_header; [reflexivity|].
  rewrite length_zeroPage, PAGE_SIZE_eq. lia.
Qed.

Lemma page_ok_zeroPage R : page_ok R zeroPage.
Proof.
  split.
  - intros s _. left. apply getSlotFlag_zeroPage.
  - now rewrite slotsUsedOf_zeroPage, usedCount_zeroPage.
Qed.

Lemma maxSlots_small R : computeMaxSlots R <= 4092.
Proof.
  destruct (decide (0 < computeMaxSlots R)) as [H|H]; [|lia].
  destruct (slot_geometry R 0 ltac:(lia)) as (_ & HN & _).
  rewrite PAGE_SIZE_eq in HN. lia.
Qed.

Section PageOk.
Variables (R : Z) (d : list byte).
Hypothesis Hlen : length d = Z.to_nat PAGE_SIZE.
Hypothesis Hok : page_ok R d.

Lemma page_ok_place s x :
  0 <= s < computeMaxSlots R -> getSlotFlag d s = 0 ->
  page_ok R (placeRecord R d s x) /\
  usedCount R (placeRecord R d s x) = usedCount R d + 1.
Proof.
  intros Hs Hflag. destruct Hok as [Hflags Hhdr].
  assert (Hcount : usedCount R (placeRecord R d s x) = usedCount R d + 1).
  { rewrite (usedCount_update R d _ s 1 Hs).
    - rewrite Hflag. reflexivity.
    - rewrite (placeRecord_flag R d Hlen) by auto. now rewrite Z.eqb_refl.
    - intros s' Hs' Hne. rewrite (placeRecord_flag R d Hlen) by auto.
      now rewrite (proj2 (Z.eqb_neq _ _) Hne). }
  split; [|exact Hcount]. split.
  - intros s' Hs'. rewrite (placeRecord_flag R d Hlen) by auto.
    destruct (s' =? s); [right; reflexivity | auto].
  - rewrite (placeRecord_header R d Hlen), Hcount, Hhdr.
    pose proof (usedCount_bounds R d). pose proof (maxSlots_small R).
    apply wrap_small. unfold Int32.min_int, Int32.max_int. lia.
Qed.

Lemma page_ok_clear s :
  0 <= s < computeMaxSlots R -> getSlotFlag d s = 1 ->
  page_ok R (clearSlot d s) /\
  usedCount R (clearSlot d s) = usedCount R d - 1.
Proof.
  intros Hs Hflag. destruct Hok as [Hflags Hhdr].
  assert (Hcount : usedCount R (clearSlot d s) = usedCount R d - 1).
  { rewrite (usedCount_update R d _ s 0 Hs).
    - rewrite Hflag. reflexivity.
    - rewrite (clearSlot_flag R d Hlen) by auto. now rewrite Z.eqb_refl.
    - intros s' Hs' Hne. rewrite (clearSlot_flag R d Hlen) by auto.
      now rewrite (proj2 (Z.eqb_neq _ _) Hne). }
  split; [|exact Hcount]. split.
  - intros s' Hs'. rewrite (clearSlot_flag R d Hlen) by auto.
    destruct (s' =? s); [left; reflexivity | auto].
  - rewrite (clearSlot_header d Hlen), Hcount, Hhdr.
    pose proof (usedCount_bounds R d). pose proof (maxSlots_small R).
    pose proof (usedCount_bounds R (clearSlot d s)).
    apply wrap_small. unfold Int32.min_int, Int32.max_int. lia.
Qed.

Lemma page_ok_overwrite s x :
  0 <= s < computeMaxSlots R ->
  page_ok R (overwriteSlot R d s x) /\
  usedCount R (overwriteSlot R d s x) = usedCount R d.
Proof.
  intros Hs. destruct Hok as [Hflags Hhdr].
  assert (Hcount : usedCount R (overwriteSlot R d s x) = usedCount R d).
  { apply usedCount_ext. intros s' Hs'. apply (overwriteSlot_flag R d Hlen); auto. }
  split; [|exact Hcount]. split.
  - intros s' Hs'. rewrite (overwriteSlot_flag R d Hlen) by auto. auto.
  - rewrite (overwriteSlot_header R d Hlen), Hcount by auto. exact Hhdr.
Qed.

End PageOk.

(** Sums over the data pages *)

Lemma dataPagesSum_step g fs rel fs' rel' p delta :
  1 <= totalNumPages fs <= totalNumPages fs' ->
  (forall q, 1 <= q -> totalNumPages fs <= q -> g (pageView fs rel q) = 0) ->
  (forall q, 1 <= q -> q <> p -> g (pageView fs' rel' q) = g (pageView fs rel q)) ->
  1 <= p < totalNumPages fs' ->
  g (pageView fs' rel' p) = g (pageView fs rel p) + delta ->
  dataPagesSum g fs' rel' = dataPagesSum g fs rel + delta.
Proof.
  intros Htot Hzero Hsame Hp Hdelta. unfold dataPagesSum.
  rewrite (sumZ_update _ (fun i => g (pageView fs rel (Z.of_nat (S i))))
             _ (Z.to_nat (p - 1))).
  - replace (Z.of_nat (S (Z.to_nat (p - 1)))) with p by lia.
    rewrite Hdelta.
    rewrite (sumZ_tail (Z.to_nat (totalNumPages fs - 1)) (Z.to_nat (totalNumPages fs' - 1))).
    + lia.
    + lia.
    + intros i Hi. apply Hzero; lia.
  - lia.
  - intros i Hi Hne. apply Hsame; lia.
Qed.

Lemma dataPagesSum_same g fs rel fs' rel' :
  1 <= totalNumPages fs <= totalNumPages fs' ->
  (forall q, 1 <= q -> totalNumPages fs <= q -> g (pageView fs rel q) = 0) ->
  (forall q, 1 <= q -> g (pageView fs' rel' q) = g (pageView fs rel q)) ->
  dataPagesSum g fs' rel' = dataPagesSum g fs rel.
Proof.
  intros Htot Hzero Hsame. unfold dataPagesSum.
  rewrite (sumZ_ext _ _ (fun i => g (pageView fs rel (Z.of_nat (S i)))))
    by (intros; apply Hsame; lia).
  apply sumZ_tail; [lia|]. intros i Hi. apply Hzero; lia.
Qed.

Lemma usedCount_beyond fs rel R q :
  table_wf fs rel -> 1 <= q -> totalNumPages fs <= q ->
  usedCount R (pageView fs rel q) = 0.
Proof.
  intros Hwf H1 Hq. rewrite pageView_beyond by (auto; lia). apply usedCount_zeroPage.
Qed.

Lemma dataPagesSum_headers fs rel :
  (forall q, 1 <= q -> page_ok (recordSize (mgmtData rel)) (pageView fs rel q)) ->
  dataPagesSum slotsUsedOf fs rel
  = dataPagesSum (usedCount (recordSize (mgmtData rel))) fs rel.
Proof.
  intros H. unfold dataPagesSum. apply sumZ_ext. intros i _.
  apply (H (Z.of_nat (S i))). lia.
Qed.

Lemma dataPagesSum_bound fs rel :
  1 <= totalNumPages fs ->
  0 <= dataPagesSum (usedCount (recordSize (mgmtData rel))) fs rel
    <= (totalNumPages fs - 1) * 4092.
Proof.
  intros Htot. unfold dataPagesSum.
  pose proof (sumZ_bounds (Z.to_nat (totalNumPages fs - 1))
    (fun i => usedCount (recordSize (mgmtData rel)) (pageView fs rel (Z.of_nat (S i))))
    4092) as H.
  destruct H; [|lia]. intros i _.
  pose proof (usedCount_bounds (recordSize (mgmtData rel)) (pageView fs rel (Z.of_nat (S i)))).
  pose proof (maxSlots_small (recordSize (mgmtData rel))). lia.
Qed.

(** Preservation of the invariant *)

Lemma inv_insert fuel fs rel rec rc fs' rel' rec' :
  table_inv fs rel ->
  insertRecord fuel fs rel rec = Some (rc, fs', rel', rec') ->
  table_inv fs' rel'.
Proof.
  intros (Hwf & Htot & Hpages & Hnum) Hins.
  destruct (insertRecord_spec fuel fs rel rec _ Hwf Hins)
    as (fs1 & rel1 & p & s & Heq & Hwf' & Hp0 & Hp & Hs & Hflag & Hview
        & Hnum' & _ & HR & _ & Htot' & Hplt).
  injection Heq as _ <- <- _.
  assert (Hp1 : 1 <= p) by lia.
  pose proof (pageView_length fs rel p Hwf Hp0) as Hlen.
  destruct (page_ok_place _ _ Hlen (Hpages p Hp1) s (data rec) Hs Hflag) as [Hok Hcount].
  split; [exact Hwf'|]. split; [lia|]. rewrite HR. split.
  - intros q Hq. rewrite Hview by lia.
    destruct (q =? p); [exact Hok | apply Hpages; exact Hq].
  - rewrite Hnum', Hnum. unfold Int32.add. rewrite wrap_wrap_add. f_equal.
    symmetry. apply (dataPagesSum_step _ fs rel fs' rel' p 1).
    + lia.
    + intros q H1 Hq. now apply usedCount_beyond.
    + intros q H1 Hne. rewrite Hview by lia.
      rewrite (proj2 (Z.eqb_neq _ _) Hne). reflexivity.
    + lia.
    + rewrite Hview, Z.eqb_refl by lia. exact Hcount.
Qed.

Lemma inv_delete fs rel rid rc fs' rel' :
  table_inv fs rel ->
  0 <= slot rid < computeMaxSlots (recordSize (mgmtData rel)) ->
  page rid <> 0 ->
  deleteRecord fs rel rid = (rc, fs', rel') ->
  table_inv fs' rel'.
Proof.
  intros (Hwf & Htot & Hpages & Hnum) Hs Hne Hdel.
  destruct (decide (page rid < 0)) as [Hneg|Hpos].
  { unfold deleteRecord in Hdel.
    destruct (pinPage_negative fs (bufferPool (mgmtData rel)) BM.nullHandle _ Hneg)
      as (rc0 & Hrc & Hpin).
    rewrite Hpin in Hdel. destruct rc0; [congruence| | | | |];
      simpl in Hdel; injection Hdel as _ <- <-;
      (split; [exact Hwf|]; split; [exact Htot|]; split; [exact Hpages | exact Hnum]). }
  assert (Hp : 0 <= page rid) by lia. assert (Hp1 : 1 <= page rid) by lia.
  destruct (deleteRecord_spec fs rel rid Hwf Hp)
    as (fs1 & rel1 & Heq & Hwf' & HR & _ & Htot' & Hcase).
  rewrite Heq in Hdel. injection Hdel as _ <- <-.
  pose proof (pageView_length fs rel _ Hwf Hp) as Hlen.
  split; [exact Hwf'|]. split; [lia|]. rewrite HR.
  destruct (getSlotFlag (pageView fs rel (page rid)) (slot rid) =? 1) eqn:E.
  - apply Z.eqb_eq in E. destruct Hcase as (Hview & Hnum' & _).
    destruct (page_ok_clear _ _ Hlen (Hpages _ Hp1) (slot rid) Hs E) as [Hok Hcount].
    split.
    + intros q Hq. rewrite Hview by lia.
      destruct (q =? page rid); [exact Hok | apply Hpages; exact Hq].
    + rewrite Hnum', Hnum. unfold Int32.sub.
      replace (Int32.wrap (dataPagesSum (usedCount (recordSize (mgmtData rel))) fs rel) - 1)
        with (Int32.wrap (dataPagesSum (usedCount (recordSize (mgmtData rel))) fs rel) + (-1))
        by lia.
      rewrite wrap_wrap_add. f_equal.
      symmetry. apply (dataPagesSum_step _ fs rel fs1 rel1 (page rid) (-1)).
      * lia.
      * intros q H1 Hq. now apply usedCount_beyond.
      * intros q H1 Hne'. rewrite Hview by lia.
        rewrite (proj2 (Z.eqb_neq _ _) Hne'). reflexivity.
      * lia.
      * rewrite Hview, Z.eqb_refl by lia. rewrite Hcount. lia.
  - destruct Hcase as (Hview & Hnum' & _). split.
    + intros q Hq. rewrite Hview by lia. apply Hpages; exact Hq.
    + rewrite Hnum', Hnum. f_equal. symmetry. apply dataPagesSum_same.
      * lia.
      * intros q H1 Hq. now apply usedCount_beyond.
      * intros q Hq. rewrite Hview by lia. reflexivity.
Qed.

Lemma inv_update fs rel rec rc fs' rel' :
  table_inv fs rel ->
  0 <= slot (id rec) < computeMaxSlots (recordSize (mgmtData rel)) ->
  updateRecord fs rel rec = (rc, fs', rel') ->
  table_inv fs' rel'.
Proof.
  intros (Hwf & Htot & Hpages & Hnum) Hs Hupd.
  destruct (decide (page (id rec) < 0)) as [Hneg|Hpos].
  { unfold updateRecord in Hupd.
    destruct (pinPage_negative fs (bufferPool (mgmtData rel)) BM.nullHandle _ Hneg)
      as (rc0 & Hrc & Hpin).
    rewrite Hpin in Hupd. destruct rc0; [congruence| | | | |];
      simpl in Hupd; injection Hupd as _ <- <-;
      (split; [exact Hwf|]; split; [exact Htot|]; split; [exact Hpages | exact Hnum]). }
  assert (Hp : 0 <= page (id rec)) by lia.
  destruct (updateRecord_spec fs rel rec Hwf Hp)
    as (fs1 & rel1 & Heq & Hwf' & Hview & Hnum' & _ & HR & _ & Htot').
  rewrite Heq in Hupd. injection Hupd as _ <- <-.
  pose proof (pageView_length fs rel _ Hwf Hp) as Hlen.
  assert (Hpage : forall q, 1 <= q ->
            page_ok (recordSize (mgmtData rel)) (pageView fs1 rel1 q) /\
            usedCount (recordSize (mgmtData rel)) (pageView fs1 rel1 q)
            = usedCount (recordSize (mgmtData rel)) (pageView fs rel q)).
  { intros q Hq. rewrite Hview by lia.
    destruct (q =? page (id rec)) eqn:E; simpl; [|auto].
    apply Z.eqb_eq in E. subst q.
    destruct (negb _); [|auto].
    apply page_ok_overwrite; auto. }
  split; [exact Hwf'|]. split; [lia|]. rewrite HR. split.
  - intros q Hq. apply Hpage; exact Hq.
  - rewrite Hnum', Hnum. f_equal. symmetry. apply dataPagesSum_same.
    + lia.
    + intros q H1 Hq. now apply usedCount_beyond.
    + intros q Hq. apply Hpage; exact Hq.
Qed.

End InvFacts.

(** * A created and opened table, and the tables reached from it *)

Module OpenFacts.
Import Storage RecordMgr StorageFacts PoolFacts Int32Facts MemFacts RecordMgrFacts PageFacts TableFacts InvFacts.

Lemma createTable_eq sc :
  createTable sc
  = (RC_OK,
     writeBlock (ensureCapacity 1 createPageFile) 0
       (catalogPage (readBlock (ensureCapacity 1 createPageFile) 0)
          (freshCatalog sc (snd (BM.initBufferPool 3 BM.RS_FIFO))) sc)).
Proof.
  cbv -[readBlock ensureCapacity writeBlock catalogPage createPageFile computeRecordSize].
  reflexivity.
Qed.

Lemma pinPage_fresh fs :
  BM.pinPage fs (snd (BM.initBufferPool 3 BM.RS_FIFO)) BM.nullHandle 0
  = (RC_OK, ensureCapacity 1 fs,
     {| BM.numPages := 3; BM.strategy := BM.RS_FIFO;
        BM.mgmtData := Some
          {| BM.frames :=
               [ {| BM.data := Some (readBlock (ensureCapacity 1 fs) 0);
                    BM.pageNum := 0; BM.dirty := false;
                    BM.fixCount := 1; BM.usage := 1 |};
                 {| BM.data := None; BM.pageNum := -1; BM.dirty := false;
                    BM.fixCount := 0; BM.usage := 0 |};
                 {| BM.data := None; BM.pageNum := -1; BM.dirty := false;
                    BM.fixCount := 0; BM.usage := 0 |} ];
             BM.readIO := 1; BM.writeIO := 0; BM.clockPointer := 0 |} |},
     BM.mkHandle 0 0).
Proof. reflexivity. Qed.

Lemma openTable_eq fs0 :
  exists rel,
    openTable fs0 = (RC_OK, ensureCapacity 1 fs0, Some rel) /\
    bufferPool (mgmtData rel) = openedPool fs0 /\
    numTuples (mgmtData rel)
    = (sscanf_d_d (cstr (readBlock (ensureCapacity 1 fs0) 0))).1.1.
Proof.
  unfold openTable, readTableInfo.
  change (BM.initBufferPool 3 BM.RS_FIFO)
    with (RC_OK, snd (BM.initBufferPool 3 BM.RS_FIFO)).
  cbv beta iota. simpl rc_ok. simpl negb. cbv iota.
  rewrite pinPage_fresh. simpl rc_ok. simpl negb. cbv iota.
  change (BM.deref _ _) with (readBlock (ensureCapacity 1 fs0) 0).
  destruct (sscanf_d_d _) as [[numT freeP] offset].
  destruct (sscanf_d _) as [nA used].
  destruct (readAttrLines _ _) as [[names types] lens].
  change (BM.unpinPage _ _) with (RC_OK, openedPool fs0).
  eexists. split; [reflexivity|]. split; reflexivity.
Qed.

#[local] Opaque PAGE_SIZE.

Lemma openedPool_wf fs : BM.pool_wf (ensureCapacity 1 fs) (openedPool fs).
Proof.
  eexists. split; [reflexivity|]. simpl BM.frames. split; [discriminate|]. split.
  - intros [|[|[|i]]] pf H; simpl in H; try discriminate; injection H as <-.
    + right. simpl. rewrite totalNumPages_ensureCapacity.
      split; [unfold totalNumPages; lia|]. eexists. split; [reflexivity|].
      split; [apply length_readBlock | reflexivity].
    + left. auto.
    + left. auto.
  - intros [|[|[|i]]] [|[|[|j]]] pfi pfj Hi Hj; simpl in Hi, Hj; try discriminate;
      injection Hi as <-; injection Hj as <-; simpl; intros; auto; try lia.
Qed.

(** The catalog text *)

Lemma prefix_by_load (l p : list byte) :
  (length p <= length l)%nat ->
  (forall j, 0 <= j < Z.of_nat (length p) -> Mem.load l j = Mem.load p j) ->
  l = p ++ drop (length p) l.
Proof.
  intros Hlen H. rewrite <- (take_drop (length p) l) at 1. f_equal.
  apply buffer_ext.
  - rewrite length_take. lia.
  - rewrite length_take. intros j Hj. rewrite <- H by lia.
    rewrite !load_nonneg by lia. now rewrite lookup_take_lt by lia.
Qed.

Lemma length_strcpy d off src : length (strcpy d off src) = length d.
Proof. apply length_memcpy_to. Qed.

Lemma load_strcpy_before d off src j :
  j < off -> Mem.load (strcpy d off src) j = Mem.load d j.
Proof. intros H. apply load_memcpy_to_out. lia. Qed.

Lemma writeAttrLines_spec sc n : forall i d off,
  length (writeAttrLines sc n i d off) = length d /\
  forall j, j < off -> Mem.load (writeAttrLines sc n i d off) j = Mem.load d j.
Proof.
  induction n as [|n IH]; intros i d off; simpl; [auto|].
  destruct (IH (S i) (strcpy d off (attrLine sc i))
              (off + Z.of_nat (length (attrLine sc i)))) as [Hl Hld].
  split; [now rewrite Hl, length_strcpy|].
  intros j Hj. rewrite Hld by lia. now apply load_strcpy_before.
Qed.

Lemma length_catalogPage d tbl sc : length (catalogPage d tbl sc) = length d.
Proof.
  unfold catalogPage.
  rewrite (proj1 (writeAttrLines_spec _ _ _ _ _)), !length_strcpy.
  apply length_memcpy_to.
Qed.

Lemma catalogPage_fresh d bm sc :
  length d = Z.to_nat PAGE_SIZE ->
  exists rest,
    catalogPage d (freshCatalog sc bm) sc = [x30; x20; x2d; x31; x0a] ++ rest.
Proof.
  intros Hlen. eexists.
  apply (prefix_by_load _ [x30; x20; x2d; x31; x0a]).
  - rewrite length_catalogPage, Hlen, PAGE_SIZE_eq. simpl. lia.
  - simpl length. intros j Hj. unfold catalogPage.
    rewrite (proj2 (writeAttrLines_spec _ _ _ _ _)) by (simpl; lia).
    rewrite load_strcpy_before by (simpl; lia).
    simpl numTuples. simpl nextFreePage.
    change (sprintf_d 0 ++ [x20] ++ sprintf_d (-1) ++ [x0a])
      with [x30; x20; x2d; x31; x0a].
    unfold strcpy. rewrite load_memcpy_to_in.
    + rewrite Z.sub_0_r. rewrite !load_nonneg by lia.
      destruct (Z.to_nat j) as [|[|[|[|[|k]]]]] eqn:E; try reflexivity. lia.
    + lia.
    + simpl. lia.
    + unfold Mem.memset. rewrite length_memcpy_to, Hlen, PAGE_SIZE_eq. lia.
    + simpl. lia.
Qed.

Lemma sscanf_fresh rest :
  (sscanf_d_d (cstr ([x30; x20; x2d; x31; x0a] ++ rest))).1.1 = 0.
Proof. reflexivity. Qed.

(** The table that [openTable] hands out right after [createTable]
    satisfies the invariant. *)
Lemma open_inv sc fs0 fs rel :
  createTable sc = (RC_OK, fs0) ->
  openTable fs0 = (RC_OK, fs, Some rel) ->
  table_inv fs rel.
Proof.
  intros Hc Ho. rewrite createTable_eq in Hc.
  destruct (catalogPage_fresh (readBlock (ensureCapacity 1 createPageFile) 0)
              (snd (BM.initBufferPool 3 BM.RS_FIFO)) sc) as [rest Hrest].
  { apply length_readBlock. }
  pose proof (length_catalogPage (readBlock (ensureCapacity 1 createPageFile) 0)
                (freshCatalog sc (snd (BM.initBufferPool 3 BM.RS_FIFO))) sc) as Hlc.
  rewrite length_readBlock in Hlc. rewrite Hrest in Hc, Hlc. injection Hc as <-.
  match type of Ho with openTable ?f = _ => set (fs0 := f) in * end.
  destruct (openTable_eq fs0) as (rel0 & Heq & Hpool & Hnum).
  rewrite Heq in Ho. injection Ho as <- <-.
  assert (Htot0 : totalNumPages fs0 = 1).
  { unfold fs0. rewrite totalNumPages_writeBlock, totalNumPages_ensureCapacity.
    change (totalNumPages createPageFile) with 1. lia. }
  assert (Htot : totalNumPages (ensureCapacity 1 fs0) = 1).
  { rewrite totalNumPages_ensureCapacity. lia. }
  assert (Hwf : table_wf (ensureCapacity 1 fs0) rel0).
  { unfold table_wf. rewrite Hpool. apply openedPool_wf. }
  split; [exact Hwf|]. split; [lia|]. split.
  - intros q Hq. rewrite pageView_beyond by (auto; lia). apply page_ok_zeroPage.
  - unfold dataPagesSum. rewrite Htot. simpl sumZ.
    change (Int32.wrap 0) with 0. rewrite Hnum.
    rewrite readBlock_ensureCapacity. unfold fs0.
    rewrite readBlock_writeBlock_eq by (lia || exact Hlc).
    apply sscanf_fresh.
Qed.

(** Every table a client reaches satisfies the invariant. *)
Lemma reachable_inv fs rel : reachable fs rel -> table_inv fs rel.
Proof.
  induction 1 as [sc fs0 fs rel Hc Ho
                 | fs rel fuel rec rc fs' rel' rec' _ IH Hins
                 | fs rel rid rc fs' rel' _ IH Hs Hp Hdel
                 | fs rel rec rc fs' rel' _ IH Hs Hupd].
  - exact (open_inv sc fs0 fs rel Hc Ho).
  - exact (inv_insert fuel fs rel rec rc fs' rel' rec' IH Hins).
  - exact (inv_delete fs rel rid rc fs' rel' IH Hs Hp Hdel).
  - exact (inv_update fs rel rec rc fs' rel' IH Hs Hupd).
Qed.

Lemma reachable_openNew sc : reachable (fst (openNew sc)) (snd (openNew sc)).
Proof.
  unfold openNew. rewrite createTable_eq.
  match goal with |- context [openTable ?f] => set (fs0 := f) end.
  destruct (openTable_eq fs0) as (rel0 & Heq & _). rewrite Heq. simpl.
  exact (reach_open sc fs0 _ rel0 (createTable_eq sc) Heq).
Qed.

Lemma reachable_insertInto st rec :
  reachable (fst st) (snd st) ->
  reachable (fst (insertInto st rec)) (snd (insertInto st rec)).
Proof.
  intros H. unfold insertInto.
  destruct (insertRecord 2 (fst st) (snd st) rec) as [[[[rc fs] rel] rec']|] eqn:E.
  - exact (reach_insert _ _ _ _ _ _ _ _ H E).
  - exact H.
Qed.

Lemma reachable_deleteFrom st rid :
  reachable (fst st) (snd st) ->
  0 <= slot rid < computeMaxSlots (recordSize (mgmtData (snd st))) ->
  page rid <> 0 ->
  reachable (fst (deleteFrom st rid)) (snd (deleteFrom st rid)).
Proof.
  intros H Hs Hp. unfold deleteFrom.
  destruct (deleteRecord (fst st) (snd st) rid) as [[rc fs] rel] eqn:E.
  exact (reach_delete _ _ _ _ _ _ H Hs Hp E).
Qed.

(** C2, as the code has it: in every table reached from [createTable] by
    inserts, deletes and updates whose RIDs name a slot within the capacity
    of a page (and, for a delete, a page other than the catalog page 0),
    the [slotsUsed] headers of the data pages sum to the number of usage
    bytes with value 1 on the data pages, and [numTuples] is that number as
    a 32-bit integer: the very number whenever the byte length of the file
    fits a C int. *)
Theorem numTuples_counts_used_slots fs rel :
  reachable fs rel ->
  dataPagesSum slotsUsedOf fs rel
  = dataPagesSum (usedCount (recordSize (mgmtData rel))) fs rel /\
  numTuples (mgmtData rel)
  = Int32.wrap (dataPagesSum (usedCount (recordSize (mgmtData rel))) fs rel) /\
  (totalNumPages fs * PAGE_SIZE <= Int32.max_int + 1 ->
   numTuples (mgmtData rel) = dataPagesSum slotsUsedOf fs rel).
Proof.
  intros Hreach.
  pose proof (reachable_inv fs rel Hreach) as Hinv.
  destruct Hinv as (Hwf & Htot & Hpages & Hnum).
  pose proof (dataPagesSum_headers fs rel Hpages) as Hhdr.
  split; [exact Hhdr|]. split; [exact Hnum|].
  intros Hfit. rewrite Hnum, Hhdr.
  pose proof (dataPagesSum_bound fs rel Htot) as Hb.
  rewrite PAGE_SIZE_eq in Hfit.
  apply wrap_small. unfold Int32.min_int, Int32.max_int in *. lia.
Qed.

End OpenFacts.

(** * The operations on concrete tables *)

Module Examples.
Import Storage RecordMgr StorageFacts PoolFacts RecordMgrFacts TableFacts AttrFacts InvFacts OpenFacts.

Lemma openNew_wf sc : table_wf (fst (openNew sc)) (snd (openNew sc)).
Proof. exact (proj1 (reachable_inv _ _ (reachable_openNew sc))). Qed.

Lemma oneRecordTable_reachable :
  reachable (fst oneRecordTable) (snd oneRecordTable).
Proof. apply reachable_insertInto, reachable_openNew. Qed.

Lemma oneRecordTable_wf : table_wf (fst oneRecordTable) (snd oneRecordTable).
Proof. exact (proj1 (reachable_inv _ _ oneRecordTable_reachable)). Qed.

Lemma oneRecordTable_recordSize : recordSize (mgmtData (snd oneRecordTable)) = 4.
Proof. vm_compute. reflexivity. Qed.

Lemma twoPageTable_reachable :
  reachable (fst twoPageTable) (snd twoPageTable).
Proof.
  apply reachable_deleteFrom.
  - do 3 apply reachable_insertInto. apply reachable_openNew.
  - vm_compute. split; [discriminate|reflexivity].
  - discriminate.
Qed.

Lemma twoPageTable_wf : table_wf (fst twoPageTable) (snd twoPageTable).
Proof. exact (proj1 (reachable_inv _ _ twoPageTable_reachable)). Qed.

Lemma twoPageTable_recordSize : recordSize (mgmtData (snd twoPageTable)) = 2045.
Proof. vm_compute. reflexivity. Qed.

Lemma twoPageTable_totalNumPages : totalNumPages (fst twoPageTable) = 3.
Proof. vm_compute. reflexivity. Qed.

(** The record inserted into the fresh table of [intSchema] is read back
    from slot 0 of page 1. *)
Lemma insert_then_get_at_once :
  exists fs2 rel2,
    getRecord (fst oneRecordTable) (snd oneRecordTable)
      {| page := 1; slot := 0 |} (filledRecord intSchema x00)
    = (RC_OK, fs2, rel2,
       {| id := {| page := 1; slot := 0 |};
          data := data (filledRecord intSchema x2a) |}).
Proof.
  apply (insert_then_get 2 (fst (openNew intSchema)) (snd (openNew intSchema))
           (filledRecord intSchema x2a) (filledRecord intSchema x00)
           (fst oneRecordTable) (snd oneRecordTable)
           {| id := {| page := 1; slot := 0 |};
              data := data (filledRecord intSchema x2a) |}).
  - apply openNew_wf.
  - vm_compute. reflexivity.
  - vm_compute. reflexivity.
  - vm_compute. reflexivity.
Qed.

(** [twoPageTable] holds two records, one on each data page. *)
Lemma numTuples_counts_used_slots_witness :
  numTuples (mgmtData (snd twoPageTable))
  = dataPagesSum slotsUsedOf (fst twoPageTable) (snd twoPageTable) /\
  numTuples (mgmtData (snd twoPageTable)) = 2.
Proof.
  destruct (numTuples_counts_used_slots (fst twoPageTable) (snd twoPageTable))
    as (_ & _ & H).
  - apply twoPageTable_reachable.
  - split; [|vm_compute; reflexivity].
    apply H. rewrite twoPageTable_totalNumPages. vm_compute. discriminate.
Defined.

(** C2, as stated, fails: in the table of [ctlSchema], byte 11 of the
    catalog page is the attribute name, the byte 1; [deleteRecord] of slot 7
    of page 0 (a slot within the capacity of 818) takes it for a usage byte,
    and [numTuples] is -1 in a table that has no data page. *)
Lemma delete_on_catalog_page :
  let st := openNew ctlSchema in
  let r := deleteRecord (fst st) (snd st) {| page := 0; slot := 7 |} in
  fst (createTable ctlSchema) = RC_OK /\
  fst (fst (openTable (snd (createTable ctlSchema)))) = RC_OK /\
  computeMaxSlots (recordSize (mgmtData (snd st))) = 818 /\
  numTuples (mgmtData (snd st)) = 0 /\
  fst (fst r) = RC_OK /\
  numTuples (mgmtData (snd r)) = -1 /\
  totalNumPages (snd (fst r)) = 1 /\
  dataPagesSum slotsUsedOf (snd (fst r)) (snd r) = 0 /\
  dataPagesSum (usedCount (recordSize (mgmtData (snd r)))) (snd (fst r)) (snd r) = 0.
Proof. vm_compute. repeat split. Qed.

(** The delete of the only record of [oneRecordTable]. *)
Lemma deleteRecord_effect_witness :
  exists fs' rel',
    deleteRecord (fst oneRecordTable) (snd oneRecordTable) {| page := 1; slot := 0 |}
    = (RC_OK, fs', rel') /\
    getSlotFlag (pageView fs' rel' 1) 0 = 0 /\
    slotsUsedOf (pageView fs' rel' 1) = 0 /\
    numTuples (mgmtData rel') = 0 /\
    nextFreePage (mgmtData rel') = 1.
Proof.
  destruct (deleteRecord_effect (fst oneRecordTable) (snd oneRecordTable)
              {| page := 1; slot := 0 |})
    as (fs' & rel' & Heq & Hused & _).
  - apply oneRecordTable_wf.
  - simpl. lia.
  - rewrite oneRecordTable_recordSize. vm_compute. split; [discriminate|reflexivity].
  - exists fs', rel'. split; [exact Heq|].
    destruct Hused as (Hflag & Hhdr & Hnum & _ & Hnext & _).
    { vm_compute. reflexivity. }
    simpl page in *. simpl slot in *.
    split; [exact Hflag|]. split; [rewrite Hhdr; vm_compute; reflexivity|].
    split; [rewrite Hnum; vm_compute; reflexivity|].
    rewrite Hnext; [vm_compute; reflexivity|].
    rewrite Hhdr. vm_compute. discriminate.
Defined.

(** The delete of the only record on page 2 of [twoPageTable], whose pages
    hold two slots. *)
Lemma delete_last_used_slot_witness :
  exists fs' rel',
    deleteRecord (fst twoPageTable) (snd twoPageTable) {| page := 2; slot := 0 |}
    = (RC_OK, fs', rel') /\
    slotsUsedOf (pageView fs' rel' 2) = 0 /\
    nextFreePage (mgmtData rel') = 1.
Proof.
  destruct (delete_last_used_slot (fst twoPageTable) (snd twoPageTable)
              {| page := 2; slot := 0 |})
    as (fs' & rel' & Heq & Hhdr & Hnext).
  - apply twoPageTable_wf.
  - simpl. lia.
  - rewrite twoPageTable_recordSize. vm_compute. split; [discriminate|reflexivity].
  - vm_compute. reflexivity.
  - vm_compute. reflexivity.
  - exists fs', rel'. split; [exact Heq|]. split; [exact Hhdr|].
    rewrite Hnext. vm_compute. reflexivity.
Defined.

(** C6, as stated, fails: in [twoPageTable] (two slots a page) page 2 holds
    one record and [nextFreePage] is 1; the delete of that record takes
    [slotsUsed] of page 2 from 1 to 0 and leaves [nextFreePage] at 1. *)
Lemma delete_to_empty_keeps_nextFreePage :
  let st := twoPageTable in
  let r := deleteRecord (fst st) (snd st) {| page := 2; slot := 0 |} in
  computeMaxSlots (recordSize (mgmtData (snd st))) = 2 /\
  getSlotFlag (pageView (fst st) (snd st) 2) 0 = 1 /\
  slotsUsedOf (pageView (fst st) (snd st) 2) = 1 /\
  nextFreePage (mgmtData (snd st)) = 1 /\
  fst (fst r) = RC_OK /\
  getSlotFlag (pageView (snd (fst r)) (snd r) 2) 0 = 0 /\
  slotsUsedOf (pageView (snd (fst r)) (snd r) 2) = 0 /\
  nextFreePage (mgmtData (snd r)) = 1 /\
  nextFreePage (mgmtData (snd r)) <> 2.
Proof. vm_compute. repeat split. discriminate. Qed.

(** The update of the only record of [oneRecordTable]. *)
Lemma updateRecord_effect_witness :
  exists fs' rel',
    updateRecord (fst oneRecordTable) (snd oneRecordTable)
      {| id := {| page := 1; slot := 0 |}; data := [x01; x02; x03; x04] |}
    = (RC_OK, fs', rel') /\
    payloadOf 4 (pageView fs' rel' 1) 0 = [x01; x02; x03; x04] /\
    numTuples (mgmtData rel') = 1.
Proof.
  destruct (updateRecord_effect (fst oneRecordTable) (snd oneRecordTable)
              {| id := {| page := 1; slot := 0 |}; data := [x01; x02; x03; x04] |}
              (filledRecord intSchema x00))
    as (fs' & rel' & Hnum & _ & _ & _ & Hused).
  - apply oneRecordTable_wf.
  - simpl. lia.
  - rewrite oneRecordTable_recordSize. vm_compute. split; [discriminate|reflexivity].
  - vm_compute. reflexivity.
  - vm_compute. reflexivity.
  - exists fs', rel'. simpl id in *. simpl page in *. simpl slot in *.
    destruct Hused as (Heq & Hpay & _).
    { vm_compute. discriminate. }
    split; [exact Heq|]. rewrite oneRecordTable_recordSize in Hpay.
    split; [exact Hpay|]. rewrite Hnum. vm_compute. reflexivity.
Defined.


(** [getRecord] at page 5 of a table whose file has one page. *)
Lemma rid_beyond_end_of_file_witness :
  totalNumPages (fst (openNew intSchema)) = 1 /\
  exists fs' rel',
    getRecord (fst (openNew intSchema)) (snd (openNew intSchema))
      {| page := 5; slot := 0 |} (filledRecord intSchema x00)
    = (RC_RM_NO_MORE_TUPLES, fs', rel', filledRecord intSchema x00) /\
    totalNumPages fs' = 6.
Proof.
  assert (Htot : totalNumPages (fst (openNew intSchema)) = 1)
    by (vm_compute; reflexivity).
  split; [exact Htot|].
  destruct (rid_beyond_end_of_file (fst (openNew intSchema)) (snd (openNew intSchema))
              {| page := 5; slot := 0 |} (filledRecord intSchema x00))
    as ((fs' & rel' & Heq & Hlen & _) & _).
  - apply openNew_wf.
  - rewrite Htot. simpl. lia.
  - vm_compute. discriminate.
  - vm_compute. split; [discriminate|reflexivity].
  - exists fs', rel'. split; [exact Heq|exact Hlen].
Defined.

End Examples.

(** * Write-back: what the pool puts on the file *)

Module FlushFacts.
Import Storage BufferMgr StorageFacts BufferMgrFacts PoolFacts.
#[local] Opaque PAGE_SIZE.

Lemma totalNumPages_writeBlock_in fs q d :
  0 <= q < totalNumPages fs -> totalNumPages (writeBlock fs q d) = totalNumPages fs.
Proof. intros H. rewrite totalNumPages_writeBlock. lia. Qed.

Lemma writeAll_out fr : forall fs q,
  0 <= q ->
  (forall i pf, fr !! i = Some pf -> flushable pf = true -> 0 <= pageNum pf) ->
  (forall i pf, fr !! i = Some pf -> pageNum pf = q -> flushable pf = false) ->
  readBlock (writeAll fs (filter (fun pf => flushable pf = true) fr)) q
  = readBlock fs q.
Proof.
  induction fr as [|pf fr IH]; intros fs q Hq Hpos Hout; [reflexivity|].
  rewrite filter_cons.
  assert (Hpos' : forall i pf', fr !! i = Some pf' -> flushable pf' = true ->
                                0 <= pageNum pf')
    by (intros i pf' H; exact (Hpos (S i) pf' H)).
  assert (Hout' : forall i pf', fr !! i = Some pf' -> pageNum pf' = q ->
                                flushable pf' = false)
    by (intros i pf' H; exact (Hout (S i) pf' H)).
  destruct (decide (flushable pf = true)) as [Hf|Hf].
  - unfold writeAll. simpl fold_left. fold (writeAll
      (writeBlock fs (pageNum pf) (default [] (data pf)))
      (filter (fun pf => flushable pf = true) fr)).
    rewrite IH by auto.
    apply readBlock_writeBlock_ne; auto.
    + exact (Hpos 0%nat pf eq_refl Hf).
    + intros E. specialize (Hout 0%nat pf eq_refl E). congruence.
  - apply IH; auto.
Qed.

Lemma writeAll_in fr : forall fs i pf d,
  (forall i pf, fr !! i = Some pf -> flushable pf = true -> 0 <= pageNum pf) ->
  (forall i j pfi pfj, fr !! i = Some pfi -> fr !! j = Some pfj ->
     pageNum pfi = pageNum pfj -> pageNum pfi <> -1 -> i = j) ->
  fr !! i = Some pf -> flushable pf = true ->
  data pf = Some d -> length d = Z.to_nat PAGE_SIZE ->
  readBlock (writeAll fs (filter (fun pf => flushable pf = true) fr)) (pageNum pf) = d.
Proof.
  induction fr as [|pf0 fr IH]; intros fs i pf d Hpos Huniq Hi Hf Hd Hlen;
    [discriminate|].
  rewrite filter_cons.
  assert (Hpos' : forall i pf', fr !! i = Some pf' -> flushable pf' = true ->
                                0 <= pageNum pf')
    by (intros k pf' H; exact (Hpos (S k) pf' H)).
  assert (Huniq' : forall i j pfi pfj, fr !! i = Some pfi -> fr !! j = Some pfj ->
     pageNum pfi = pageNum pfj -> pageNum pfi <> -1 -> i = j).
  { intros a b pfa pfb Ha Hb E Hne.
    pose proof (Huniq (S a) (S b) pfa pfb Ha Hb E Hne). lia. }
  pose proof (Hpos i pf Hi Hf) as Hpn.
  destruct i as [|i].
  - injection Hi as ->.
    destruct (decide (flushable pf = true)) as [_|Hn]; [|congruence].
    unfold writeAll. simpl fold_left. fold (writeAll
      (writeBlock fs (pageNum pf) (default [] (data pf)))
      (filter (fun pf => flushable pf = true) fr)).
    rewrite writeAll_out; auto.
    + rewrite Hd. simpl. now apply readBlock_writeBlock_eq.
    + intros k pf' Hk E. exfalso.
      assert (S k = 0%nat); [|lia].
      apply (Huniq (S k) 0%nat pf' pf Hk eq_refl E). lia.
  - destruct (decide (flushable pf0 = true)) as [Hf0|Hf0].
    + unfold writeAll. simpl fold_left. fold (writeAll
        (writeBlock fs (pageNum pf0) (default [] (data pf0)))
        (filter (fun pf => flushable pf = true) fr)).
      eapply IH; eauto.
    + eapply IH; eauto.
Qed.

Lemma writeAll_total fr : forall fs,
  (forall i pf, fr !! i = Some pf -> flushable pf = true ->
     0 <= pageNum pf < totalNumPages fs) ->
  totalNumPages (writeAll fs (filter (fun pf => flushable pf = true) fr))
  = totalNumPages fs.
Proof.
  induction fr as [|pf fr IH]; intros fs H; [reflexivity|].
  rewrite filter_cons.
  assert (H' : forall fs', totalNumPages fs' = totalNumPages fs ->
            forall i pf', fr !! i = Some pf' -> flushable pf' = true ->
                          0 <= pageNum pf' < totalNumPages fs').
  { intros fs' E i pf' Hi Hf. rewrite E. exact (H (S i) pf' Hi Hf). }
  destruct (decide (flushable pf = true)) as [Hf|Hf].
  - unfold writeAll. simpl fold_left. fold (writeAll
      (writeBlock fs (pageNum pf) (default [] (data pf)))
      (filter (fun pf => flushable pf = true) fr)).
    pose proof (totalNumPages_writeBlock_in fs (pageNum pf) (default [] (data pf))
                  (H 0%nat pf eq_refl Hf)) as E.
    rewrite IH; [exact E | apply H'; exact E].
  - apply IH. apply H'. reflexivity.
Qed.

Lemma flushable_frame fs pf :
  frame_ok fs pf -> flushable pf = true ->
  0 <= pageNum pf < totalNumPages fs /\
  exists d, data pf = Some d /\ length d = Z.to_nat PAGE_SIZE.
Proof.
  intros [[_ Hd]|[Hr (d & Hd & Hl & _)]] Hf.
  - unfold flushable in Hf. rewrite Hd in Hf. discriminate.
  - split; [exact Hr|]. eauto.
Qed.

Lemma frames_dirtyBuffered fs fr : frames_wf fs fr -> dirtyBuffered fr.
Proof.
  intros (_ & Hok & _) j pf Hj Hd.
  destruct (Hok j pf Hj) as [[_ E]|[_ (d & E & _)]]; [congruence|].
  rewrite E. eauto.
Qed.

Lemma flushFrame_keeps pf :
  pageNum (flushFrame pf) = pageNum pf /\ data (flushFrame pf) = data pf /\
  fixCount (flushFrame pf) = fixCount pf /\ usage (flushFrame pf) = usage pf /\
  dirty (flushFrame pf) = dirty pf && negb (fixCount pf =? 0).
Proof.
  unfold flushFrame, flushable.
  destruct (dirty pf) eqn:Ed, (fixCount pf =? 0) eqn:Ef; simpl;
    rewrite ?Ed; auto.
Qed.

(** [forceFlushPool] on a pool in order, as an equation. *)
Lemma forceFlushPool_eq fs bm mgmt :
  mgmtData bm = Some mgmt -> frames_wf fs (frames mgmt) ->
  forceFlushPool fs bm
  = (RC_OK,
     writeAll fs (filter (fun pf => flushable pf = true) (frames mgmt)),
     set_mgmt bm (Some
       {| frames := map flushFrame (frames mgmt);
          readIO := readIO mgmt;
          writeIO := Nat.iter
                       (length (filter (fun pf => flushable pf = true) (frames mgmt)))
                       (fun w => Int32.add w 1) (writeIO mgmt);
          clockPointer := clockPointer mgmt |})).
Proof.
  intros Hm Hwf. unfold forceFlushPool. rewrite Hm.
  rewrite flushFrames_ok by (eapply frames_dirtyBuffered; eauto). reflexivity.
Qed.

(** What the flush leaves on the file and in the pool. *)
Lemma flush_frames_wf fs fr :
  frames_wf fs fr ->
  let fs' := writeAll fs (filter (fun pf => flushable pf = true) fr) in
  totalNumPages fs' = totalNumPages fs /\
  frames_wf fs' (map flushFrame fr) /\
  (forall q, 0 <= q -> viewFrames fs' (map flushFrame fr) q = viewFrames fs fr q) /\
  (forall q, 0 <= q ->
     (forall j pf, fr !! j = Some pf -> pageNum pf = q -> fixCount pf = 0) ->
     readBlock fs' q = viewFrames fs fr q).
Proof.
  intros Hwf fs'. pose proof Hwf as (Hne & Hok & Huniq).
  assert (Hpos : forall i pf, fr !! i = Some pf -> flushable pf = true ->
                              0 <= pageNum pf < totalNumPages fs).
  { intros i pf Hi Hf. exact (proj1 (flushable_frame fs pf (Hok i pf Hi) Hf)). }
  assert (Hpos0 : forall i pf, fr !! i = Some pf -> flushable pf = true ->
                               0 <= pageNum pf).
  { intros i pf Hi Hf. exact (proj1 (Hpos i pf Hi Hf)). }
  assert (Htot : totalNumPages fs' = totalNumPages fs)
    by (apply writeAll_total; exact Hpos).
  (* the block of a resident page after the flush *)
  assert (Hblock : forall i pf, fr !! i = Some pf -> 0 <= pageNum pf ->
            readBlock fs' (pageNum pf)
            = if flushable pf then default [] (data pf)
              else readBlock fs (pageNum pf)).
  { intros i pf Hi Hpn. destruct (flushable pf) eqn:Hf.
    - destruct (flushable_frame fs pf (Hok i pf Hi) Hf) as (_ & d & Hd & Hl).
      rewrite Hd. simpl. unfold fs'. eapply writeAll_in; eauto.
    - unfold fs'. apply writeAll_out; auto.
      intros j pf' Hj E.
      assert (j = i) as -> by (apply (Huniq j i pf' pf Hj Hi E); lia).
      congruence. }
  assert (Habsent : forall q, 0 <= q ->
            (forall j pf, fr !! j = Some pf -> pageNum pf <> q) ->
            readBlock fs' q = readBlock fs q).
  { intros q Hq Hno. unfold fs'. apply writeAll_out; auto.
    intros j pf Hj E. exfalso. exact (Hno j pf Hj E). }
  assert (Hfind : forall q, findPageFrame_from 0 (map flushFrame fr) q
                            = findPageFrame_from 0 fr q).
  { intros q. apply findPageFrame_from_ext. rewrite map_map.
    apply map_ext. intros pf. apply flushFrame_keeps. }
  assert (Hview : forall q, 0 <= q ->
            viewFrames fs' (map flushFrame fr) q = viewFrames fs fr q).
  { intros q Hq. unfold viewFrames. rewrite Hfind.
    destruct (findPageFrame_from 0 fr q) as [i|] eqn:E.
    - change (map flushFrame fr) with (flushFrame <$> fr).
      rewrite list_lookup_fmap.
      destruct (fr !! i) as [pf|]; simpl; [|reflexivity].
      now rewrite (proj1 (proj2 (flushFrame_keeps pf))).
    - apply Habsent; auto. intros j pf Hj Epn.
      pose proof (proj1 (findPageFrame_from_None fr 0 q) E) as Hnone.
      apply (Hnone j pf Hj Epn). }
  split; [exact Htot|]. split; [|split; [exact Hview|]].
  - split; [|split].
    + destruct fr; [congruence|discriminate].
    + intros i pf' Hi. change (map flushFrame fr) with (flushFrame <$> fr) in Hi.
      rewrite list_lookup_fmap in Hi.
      destruct (fr !! i) as [pf|] eqn:Ei; [|discriminate].
      injection Hi as <-.
      destruct (flushFrame_keeps pf) as (Epn & Ed & _ & _ & Edirty).
      destruct (Hok i pf Ei) as [[Hfree Hclean]|[Hr (d & Hd & Hl & Hsame)]].
      * left. rewrite Epn, Edirty, Hclean. auto.
      * right. rewrite Epn, Ed, Htot. split; [exact Hr|].
        exists d. split; [exact Hd|]. split; [exact Hl|].
        intros Hc. rewrite (Hblock i pf Ei) by lia.
        unfold flushable. rewrite Edirty in Hc.
        destruct (dirty pf) eqn:Edp; simpl in *.
        -- destruct (fixCount pf =? 0); [now rewrite Hd|discriminate].
        -- now apply Hsame.
    + intros i j pfi pfj Hi Hj.
      change (map flushFrame fr) with (flushFrame <$> fr) in Hi, Hj.
      rewrite list_lookup_fmap in Hi, Hj.
      destruct (fr !! i) as [pi|] eqn:Ei; [|discriminate].
      destruct (fr !! j) as [pj|] eqn:Ej; [|discriminate].
      injection Hi as <-. injection Hj as <-.
      rewrite (proj1 (flushFrame_keeps pi)), (proj1 (flushFrame_keeps pj)).
      apply (Huniq i j pi pj Ei Ej).
  - intros q Hq Hunpinned. unfold viewFrames.
    destruct (findPageFrame_from 0 fr q) as [i|] eqn:E.
    + destruct (findPageFrame_from_Some fr 0 q i E) as (_ & pf & Hi & Epn & _).
      rewrite Nat.sub_0_r in Hi. rewrite Hi. subst q.
      rewrite (Hblock i pf Hi Hq). unfold flushable.
      rewrite (Hunpinned i pf Hi eq_refl). simpl. rewrite andb_true_r.
      destruct (dirty pf) eqn:Ed; [reflexivity|].
      destruct (Hok i pf Hi) as [[Hfree _]|[_ (d & Hd & _ & Hsame)]]; [lia|].
      rewrite Hd. simpl. symmetry. now apply Hsame.
    + apply Habsent; auto. intros j pf Hj Epn.
      apply (proj1 (findPageFrame_from_None fr 0 q) E j pf Hj Epn).
Qed.

End FlushFacts.

(** * The operations of the pool, one by one *)

Module PoolOps.
Import Storage BufferMgr StorageFacts BufferMgrFacts PoolFacts FlushFacts.
#[local] Opaque PAGE_SIZE.

(** On a pool in order [pinPage] of a non-negative page number succeeds;
    the handle it fills in reads the current contents of the page, a buffer
    of [PAGE_SIZE] bytes; no page changes its contents, whatever frame was
    replaced; the file is extended to hold the page. *)
Theorem pinPage_keeps_pages fs bm page pn :
  pool_wf fs bm -> 0 <= pn ->
  exists fs' bm' h,
    pinPage fs bm page pn = (RC_OK, fs', bm', h) /\
    h_pageNum h = pn /\
    deref bm' h = view fs bm pn /\
    length (deref bm' h) = Z.to_nat PAGE_SIZE /\
    pool_wf fs' bm' /\
    (forall q, 0 <= q -> view fs' bm' q = view fs bm q) /\
    totalNumPages fs' = Z.max (totalNumPages fs) (pn + 1).
Proof.
  intros Hwf Hpn.
  destruct (pinPage_wf fs bm page pn Hwf Hpn)
    as (fs' & bm' & idx & Hpin & Hwf' & Hat & Hv & Htot).
  destruct (view_pinned fs' bm' pn idx Hwf' Hat Hpn) as [Hderef Hlen].
  exists fs', bm', {| h_pageNum := pn; h_data := idx |}.
  split; [exact Hpin|]. split; [reflexivity|].
  rewrite Hderef, (Hv pn Hpn) in *. auto.
Qed.

(** The I/O of a successful [pinPage]: a resident page costs none and the
    file is the same; a page that is not resident costs one read, and one
    write exactly when the frame it replaces is dirty, the page written
    being the one that frame held. *)
Theorem pinPage_io fs bm mgmt page pn fs' bm' h :
  mgmtData bm = Some mgmt ->
  pinPage fs bm page pn = (RC_OK, fs', bm', h) ->
  match findPageFrame mgmt pn with
  | Some idx =>
      h_data h = idx /\ fs' = fs /\
      getNumReadIO bm' = readIO mgmt /\ getNumWriteIO bm' = writeIO mgmt
  | None =>
      h_data h = replacementFrame mgmt /\
      getNumReadIO bm' = Int32.add (readIO mgmt) 1 /\
      exists victim,
        frames mgmt !! replacementFrame mgmt = Some victim /\
        getNumWriteIO bm'
        = (if dirty victim then Int32.add (writeIO mgmt) 1 else writeIO mgmt) /\
        written fs'
        = written fs ++ (if dirty victim then [pageNum victim] else [])
  end.
Proof.
  intros Hm Hpin. unfold pinPage in Hpin. rewrite Hm in Hpin.
  destruct (pn <? 0); [discriminate|].
  destruct (findPageFrame mgmt pn) as [idx|].
  - injection Hpin as <- <- <-. simpl. auto.
  - destruct (frames mgmt !! replacementFrame mgmt) as [pf|]; [|discriminate].
    destruct (dirty pf) eqn:Ed.
    + unfold writeDirtyPageToDisk in Hpin.
      destruct (data pf) as [d|]; simpl in Hpin; [|discriminate].
      injection Hpin as <- <- <-. simpl.
      split; [reflexivity|]. split; [reflexivity|].
      exists pf. rewrite Ed. auto.
    + simpl in Hpin. injection Hpin as <- <- <-. simpl.
      split; [reflexivity|]. split; [reflexivity|].
      exists pf. rewrite Ed, app_nil_r. auto.
Qed.

(** [markDirty], [unpinPage] and [forcePage] look the page of the handle
    up by number: for a page that is not in the pool each of them returns
    [RC_ERROR] and changes nothing, whatever frame the handle points to. *)
Theorem handle_not_resident fs bm mgmt h :
  mgmtData bm = Some mgmt ->
  (forall j pf, frames mgmt !! j = Some pf -> pageNum pf <> h_pageNum h) ->
  markDirty bm h = (RC_ERROR, bm) /\
  unpinPage bm h = (RC_ERROR, bm) /\
  forcePage fs bm h = (RC_ERROR, fs, bm).
Proof.
  intros Hm Hno.
  assert (E : findPageFrame mgmt (h_pageNum h) = None)
    by (apply findPageFrame_from_None; exact Hno).
  unfold markDirty, unpinPage, forcePage. rewrite Hm, E. auto.
Qed.

(** The fix counts after a successful [pinPage]: the frame of the handle
    holds one pin more than the page had (one pin when it was loaded), the
    other frames are as they were. *)
Lemma pinPage_fixCounts fs bm mgmt page pn fs' bm' h :
  mgmtData bm = Some mgmt ->
  pinPage fs bm page pn = (RC_OK, fs', bm', h) ->
  exists mgmt',
    mgmtData bm' = Some mgmt' /\
    forall j pf', frames mgmt' !! j = Some pf' ->
      (j = h_data h /\
       (fixCount pf' = 1 \/
        exists pf, frames mgmt !! j = Some pf /\
                   fixCount pf' = Int32.add (fixCount pf) 1))
      \/ (j <> h_data h /\ frames mgmt !! j = Some pf').
Proof.
  intros Hm Hpin. unfold pinPage in Hpin. rewrite Hm in Hpin.
  destruct (pn <? 0); [discriminate|].
  destruct (findPageFrame mgmt pn) as [idx|].
  - injection Hpin as <- <- <-. eexists. split; [reflexivity|].
    simpl. intros j pf' Hj. destruct (decide (j = idx)) as [->|Hne].
    + left. split; [reflexivity|]. right.
      rewrite list_lookup_alter_eq in Hj.
      destruct (frames mgmt !! idx) as [pf|]; simpl in Hj; [|discriminate].
      injection Hj as <-. exists pf. auto.
    + right. split; [exact Hne|].
      now rewrite list_lookup_alter_ne in Hj by auto.
  - destruct (frames mgmt !! replacementFrame mgmt) as [pf|] eqn:El; [|discriminate].
    assert (Hlt : (replacementFrame mgmt < length (frames mgmt))%nat)
      by (eapply lookup_lt_Some; eauto).
    destruct (if dirty pf then _ else _) as [[rc fs1] wio1].
    destruct rc; simpl in Hpin; try discriminate.
    injection Hpin as _ <- <-. eexists. split; [reflexivity|].
    simpl. intros j pf' Hj.
    destruct (decide (j = replacementFrame mgmt)) as [->|Hne].
    + left. split; [reflexivity|]. left.
      rewrite list_lookup_insert_eq in Hj by exact Hlt. now injection Hj as <-.
    + right. split; [exact Hne|].
      now rewrite list_lookup_insert_ne in Hj by auto.
Qed.

(** A pin taken on a pool without pins is the only one; a change of the
    frame that gives the pin back, as the unpin that every operation of the
    record manager ends with does, leaves the pool without pins. *)
Lemma pin_touch_noPins fs bm page pn fs' bm' idx G :
  noPins bm ->
  pinPage fs bm page pn = (RC_OK, fs', bm', {| h_pageNum := pn; h_data := idx |}) ->
  (forall pf, fixCount (G pf) = fixCount (unpinFrame pf)) ->
  noPins (touch G idx bm').
Proof.
  intros Hno Hpin HG.
  destruct (mgmtData bm) as [mgmt|] eqn:Hm.
  2:{ unfold pinPage in Hpin. rewrite Hm in Hpin. discriminate. }
  destruct (pinPage_fixCounts fs bm mgmt page pn fs' bm' _ Hm Hpin)
    as (mgmt' & Hm' & Hfix).
  intros m j pf Hmt Hj. unfold touch in Hmt. rewrite Hm' in Hmt.
  injection Hmt as <-. simpl in Hj.
  destruct (decide (j = idx)) as [->|Hne].
  - rewrite list_lookup_alter_eq in Hj.
    destruct (frames mgmt' !! idx) as [pf'|] eqn:E; simpl in Hj; [|discriminate].
    injection Hj as <-.
    assert (Hone : fixCount pf' = 1).
    { destruct (Hfix idx pf' E) as [[_ [H1|(pf0 & H0 & H1)]]|[Hc _]].
      - exact H1.
      - rewrite H1, (Hno mgmt idx pf0 Hm H0). reflexivity.
      - simpl in Hc. congruence. }
    rewrite HG. unfold unpinFrame. rewrite Hone. reflexivity.
  - rewrite list_lookup_alter_ne in Hj by auto.
    destruct (Hfix j pf Hj) as [[Hc _]|[_ H0]]; [simpl in Hc; congruence|].
    exact (Hno mgmt j pf Hm H0).
Qed.

(** Closes a goal [noPins (touch G idx bm')] for a frame change [G] made
    of writes, [markDirty] and the final [unpinPage]. *)
Ltac pins_returned Hno Hpin :=
  apply (pin_touch_noPins _ _ _ _ _ _ _ _ Hno Hpin);
  let pf := fresh "pf" in
  intros pf; unfold compose, unpinFrame, setDirtyFrame; simpl;
  destruct (0 <? fixCount pf); reflexivity.

(** [pinPage] followed by [unpinPage] of the handle it filled in leaves a
    pool that had no pins without pins, with every page as it was. *)
Theorem pin_unpin_balanced fs bm page pn :
  pool_wf fs bm -> noPins bm -> 0 <= pn ->
  exists fs' bm' h bm'',
    pinPage fs bm page pn = (RC_OK, fs', bm', h) /\
    unpinPage bm' h = (RC_OK, bm'') /\
    pool_wf fs' bm'' /\ noPins bm'' /\
    getFrameContents bm'' = getFrameContents bm' /\
    (forall q, 0 <= q -> view fs' bm'' q = view fs bm q).
Proof.
  intros Hwf Hno Hpn.
  destruct (pinPage_wf fs bm page pn Hwf Hpn)
    as (fs' & bm' & idx & Hpin & Hwf' & Hat & Hv & Htot).
  destruct (RecordMgrFacts.keep_unpin fs' bm' pn idx Hwf' Hat Hpn) as [Hw Hk].
  exists fs', bm', {| h_pageNum := pn; h_data := idx |}, (touch unpinFrame idx bm').
  split; [exact Hpin|]. split; [exact (unpinPage_eq bm' pn idx idx Hat)|].
  split; [exact Hw|]. split.
  - pins_returned Hno Hpin.
  - split.
    + destruct Hat as (mgmt' & Hm' & _). unfold getFrameContents, touch.
      rewrite Hm'. simpl. f_equal.
      rewrite <- !(map_map pageNum (fun z => if z =? -1 then NO_PAGE else z)).
      f_equal. apply map_pageNum_alter. intros pf. apply unpinFrame_keeps.
    + intros q Hq. now rewrite Hk, Hv.
Qed.

End PoolOps.

(** * Durability: flush, force and shutdown *)

Module Durability.
Import Storage BufferMgr StorageFacts BufferMgrFacts PoolFacts FlushFacts.
#[local] Opaque PAGE_SIZE.

(** [forceFlushPool] on a pool in order succeeds; afterwards the file
    holds the current contents of every page that no client has pinned,
    the pool shows every page as before, and a frame is dirty only if it
    was dirty and is pinned.  The file keeps its length, the frames their
    pages and fix counts. *)
Theorem forceFlushPool_durable fs bm :
  pool_wf fs bm ->
  exists fs' bm',
    forceFlushPool fs bm = (RC_OK, fs', bm') /\
    pool_wf fs' bm' /\
    totalNumPages fs' = totalNumPages fs /\
    (forall q, 0 <= q -> view fs' bm' q = view fs bm q) /\
    (forall q, 0 <= q -> unpinnedPage bm q -> readBlock fs' q = view fs bm q) /\
    getFrameContents bm' = getFrameContents bm /\
    getFixCounts bm' = getFixCounts bm /\
    getDirtyFlags bm'
    = Some (map (fun pf => dirty pf && negb (fixCount pf =? 0))
                (frames (mgmtOf bm))).
Proof.
  intros (mgmt & Hm & Hwf).
  destruct (flush_frames_wf fs (frames mgmt) Hwf) as (Htot & Hwf' & Hview & Hdisk).
  rewrite (forceFlushPool_eq fs bm mgmt Hm Hwf).
  eexists. eexists. split; [reflexivity|].
  split; [eexists; split; [reflexivity|exact Hwf']|].
  split; [exact Htot|].
  split; [intros q Hq; unfold view; rewrite Hm; simpl; auto|].
  split.
  { intros q Hq Hun. unfold view. rewrite Hm. apply Hdisk; auto.
    intros j pf Hj E. exact (Hun mgmt j pf Hm Hj E). }
  unfold getFrameContents, getFixCounts, getDirtyFlags, mgmtOf.
  rewrite Hm. simpl. rewrite !map_map.
  repeat split; f_equal; apply map_ext; intros pf;
    destruct (flushFrame_keeps pf) as (E1 & _ & E2 & _ & E3);
    rewrite ?E1, ?E2, ?E3; reflexivity.
Qed.

(** [shutdownBufferPool] without a pin outstanding, as an equation. *)
Lemma shutdownBufferPool_eq fs bm mgmt :
  mgmtData bm = Some mgmt -> frames_wf fs (frames mgmt) -> noPins bm ->
  exists bm',
    shutdownBufferPool fs bm
    = (RC_OK, writeAll fs (filter (fun pf => flushable pf = true) (frames mgmt)), bm') /\
    mgmtData bm' = None.
Proof.
  intros Hm Hwf Hno.
  unfold shutdownBufferPool. rewrite Hm, (forceFlushPool_eq fs bm mgmt Hm Hwf).
  simpl. rewrite existsb_flushFrame.
  assert (E : existsb (fun pf => 0 <? fixCount pf) (frames mgmt) = false).
  { apply not_true_is_false. intros Hex. apply existsb_exists in Hex.
    destruct Hex as (pf & Hin & Hpos).
    apply list_elem_of_In, list_elem_of_lookup in Hin. destruct Hin as [j Hj].
    rewrite (Hno mgmt j pf Hm Hj) in Hpos. discriminate. }
  rewrite E. eexists. split; reflexivity.
Qed.

Lemma shutdownBufferPool_spec fs bm :
  pool_wf fs bm -> noPins bm ->
  exists fs' bm',
    shutdownBufferPool fs bm = (RC_OK, fs', bm') /\
    mgmtData bm' = None /\
    totalNumPages fs' = totalNumPages fs /\
    (forall q, 0 <= q -> readBlock fs' q = view fs bm q).
Proof.
  intros (mgmt & Hm & Hwf) Hno.
  destruct (flush_frames_wf fs (frames mgmt) Hwf) as (Htot & Hwf' & Hview & Hdisk).
  destruct (shutdownBufferPool_eq fs bm mgmt Hm Hwf Hno) as (bm' & Heq & Hnone).
  eexists. exists bm'. split; [exact Heq|]. split; [exact Hnone|].
  split; [exact Htot|].
  intros q Hq. unfold view. rewrite Hm. apply Hdisk; auto.
  intros j pf Hj _. exact (Hno mgmt j pf Hm Hj).
Qed.

(** [shutdownBufferPool] on a pool in order that no client has a pin on
    succeeds and releases the management data; the file then holds the
    current contents of every page.  The pool is gone: a later call of any
    operation on it returns [RC_ERROR], the statistics read 0. *)
Theorem shutdownBufferPool_unpinned fs bm :
  pool_wf fs bm -> noPins bm ->
  exists fs' bm',
    shutdownBufferPool fs bm = (RC_OK, fs', bm') /\
    mgmtData bm' = None /\
    totalNumPages fs' = totalNumPages fs /\
    (forall q, 0 <= q -> readBlock fs' q = view fs bm q) /\
    (forall page pn, pinPage fs' bm' page pn = (RC_ERROR, fs', bm', page)) /\
    (forall h, markDirty bm' h = (RC_ERROR, bm') /\
               unpinPage bm' h = (RC_ERROR, bm') /\
               forcePage fs' bm' h = (RC_ERROR, fs', bm')) /\
    forceFlushPool fs' bm' = (RC_ERROR, fs', bm') /\
    shutdownBufferPool fs' bm' = (RC_ERROR, fs', bm') /\
    getFrameContents bm' = None /\
    getNumReadIO bm' = 0 /\ getNumWriteIO bm' = 0.
Proof.
  intros Hwf Hno.
  destruct (shutdownBufferPool_spec fs bm Hwf Hno)
    as (fs' & bm' & Heq & Hnone & Htot & Hdisk).
  exists fs', bm'. split; [exact Heq|]. split; [exact Hnone|].
  split; [exact Htot|]. split; [exact Hdisk|].
  unfold pinPage, markDirty, unpinPage, forcePage, forceFlushPool,
    shutdownBufferPool, getFrameContents, getNumReadIO, getNumWriteIO.
  rewrite Hnone. repeat split.
Qed.

Lemma forcePage_spec fs bm pn idx i :
  pool_wf fs bm -> pinned_at bm pn idx -> 0 <= pn ->
  exists fs' bm',
    forcePage fs bm {| h_pageNum := pn; h_data := i |} = (RC_OK, fs', bm') /\
    pool_wf fs' bm' /\
    readBlock fs' pn = view fs bm pn /\
    (forall q, 0 <= q -> q <> pn -> readBlock fs' q = readBlock fs q) /\
    (forall q, 0 <= q -> view fs' bm' q = view fs bm q) /\
    totalNumPages fs' = totalNumPages fs /\
    getFixCounts bm' = getFixCounts bm.
Proof.
  intros Hwf Hat Hpn.
  destruct (pinned_at_frame fs bm pn idx Hwf Hat) as (mgmt & pf & Hm & Hfr & Hl & Epn).
  destruct Hat as (mgmt0 & Hm0 & Hfind).
  assert (mgmt0 = mgmt) as -> by congruence.
  pose proof Hfr as (_ & Hok & _).
  destruct (frame_ok_resident fs pf (Hok idx pf Hl)) as (Hlt & d & Hd & Hlen & Hsame);
    [lia|].
  assert (Hv : view fs bm pn = d).
  { unfold view. rewrite Hm.
    rewrite (viewFrames_resident fs (frames mgmt) idx pf pn Hfr Hl Epn) by lia.
    now rewrite Hd. }
  unfold forcePage. rewrite Hm. simpl h_pageNum. rewrite Hfind, Hl.
  destruct (dirty pf) eqn:Ed.
  - unfold writeDirtyPageToDisk. rewrite Hd. simpl rc_ok. cbv iota.
    set (fs' := writeBlock fs (pageNum pf) d).
    set (pf' := set_dirty pf false).
    assert (Htot : totalNumPages fs' = totalNumPages fs).
    { unfold fs'. apply totalNumPages_writeBlock_in. lia. }
    assert (Hother : forall q, 0 <= q -> q <> pageNum pf ->
                       readBlock fs' q = readBlock fs q).
    { intros q Hq Hne. unfold fs'. apply readBlock_writeBlock_ne; lia. }
    assert (Hwf' : frames_wf fs' (<[idx := pf']> (frames mgmt))).
    { apply (frames_wf_replace fs fs' (frames mgmt) idx pf pf'); auto.
      - lia.
      - right. unfold pf'. simpl. rewrite Htot. split; [lia|].
        exists d. split; [exact Hd|]. split; [exact Hlen|].
        intros _. unfold fs'. symmetry. apply readBlock_writeBlock_eq; [lia|exact Hlen]. }
    eexists. eexists. split; [reflexivity|].
    split; [eexists; split; [reflexivity|exact Hwf']|].
    split.
    { rewrite Hv, <- Epn. unfold fs'. apply readBlock_writeBlock_eq; [lia|exact Hlen]. }
    split; [intros q Hq Hne; apply Hother; [exact Hq|congruence]|].
    split.
    { intros q Hq. unfold view at 1. simpl.
      rewrite (viewFrames_replace fs fs' (frames mgmt) idx pf pf' q Hfr Hwf' Hl Hother Hq).
      unfold pf'. simpl pageNum. simpl data.
      destruct (q =? pageNum pf) eqn:E.
      - apply Z.eqb_eq in E. subst q. rewrite Epn, Hv, Hd. reflexivity.
      - unfold view. now rewrite Hm. }
    split; [exact Htot|].
    unfold getFixCounts. rewrite Hm. simpl. f_equal. unfold pf'.
    rewrite <- (alter_as_insert (fun pf => set_dirty pf false) idx (frames mgmt) pf Hl).
    clear. revert idx. induction (frames mgmt) as [|x l IH]; intros [|idx]; simpl;
      f_equal; auto. apply IH.
  - exists fs, bm. split; [reflexivity|]. split; [exists mgmt; auto|].
    split; [rewrite Hv, <- Epn; symmetry; now apply Hsame|].
    repeat split; auto.
Qed.

(** [forcePage] of a resident page writes its buffer whether the page is
    pinned or not: afterwards the block of the page on the file is the
    current contents of the page, the other blocks are as before, and the
    pool shows every page as before. *)
Theorem forcePage_effect fs bm pn idx i :
  pool_wf fs bm -> pinned_at bm pn idx -> 0 <= pn ->
  exists fs' bm',
    forcePage fs bm {| h_pageNum := pn; h_data := i |} = (RC_OK, fs', bm') /\
    pool_wf fs' bm' /\
    readBlock fs' pn = view fs bm pn /\
    (forall q, 0 <= q -> q <> pn -> readBlock fs' q = readBlock fs q) /\
    (forall q, 0 <= q -> view fs' bm' q = view fs bm q) /\
    totalNumPages fs' = totalNumPages fs /\
    getFixCounts bm' = getFixCounts bm.
Proof. exact (forcePage_spec fs bm pn idx i). Qed.

End Durability.

(** * Records: what an operation leaves of the others *)

Module RecordOps.
Import Storage RecordMgr StorageFacts PoolFacts Int32Facts MemFacts RecordMgrFacts PageFacts TableFacts.
#[local] Opaque PAGE_SIZE.

Lemma placeRecord_other R d s x s' :
  length d = Z.to_nat PAGE_SIZE ->
  0 <= s < computeMaxSlots R -> 0 <= s' < computeMaxSlots R -> s' <> s ->
  payloadOf R (placeRecord R d s x) s' = payloadOf R d s'.
Proof.
  intros Hlen Hs Hs' Hne. destruct (slot_geometry R s Hs) as (HR & HN & Hend).
  destruct (slot_geometry R s' Hs') as (_ & _ & Hend').
  pose proof (page_len d Hlen) as Hl. rewrite PAGE_SIZE_eq in *.
  unfold payloadOf, placeRecord, setSlotFlag.
  apply memcpy_from_ext;
    rewrite ?length_memcpy_to, ?length_store, ?length_memcpy_to; try lia.
  intros j Hj. rewrite load_memcpy_to_out by lia.
  rewrite load_store_ne by lia. apply load_memcpy_to_out. nia.
Qed.

Lemma clearSlot_other R d s s' :
  length d = Z.to_nat PAGE_SIZE ->
  0 <= s < computeMaxSlots R -> 0 <= s' < computeMaxSlots R ->
  payloadOf R (clearSlot d s) s' = payloadOf R d s'.
Proof.
  intros Hlen Hs Hs'. destruct (slot_geometry R s Hs) as (HR & HN & Hend).
  destruct (slot_geometry R s' Hs') as (_ & _ & Hend').
  pose proof (page_len d Hlen) as Hl. rewrite PAGE_SIZE_eq in *.
  unfold payloadOf.
  apply memcpy_from_ext; rewrite ?length_clearSlot; try lia.
  intros j Hj. apply clearSlot_load; [exact Hlen|nia|nia].
Qed.

(** What [insertRecord] does to its slot and to the others. *)
Lemma insertRecord_frame fuel fs rel rec :
  table_wf fs rel -> 1 <= totalNumPages fs ->
  0 < computeMaxSlots (recordSize (mgmtData rel)) ->
  length (data rec) = Z.to_nat (recordSize (mgmtData rel)) ->
  exists fs' rel' p s,
    insertRecord (S (S fuel)) fs rel rec
    = Some (RC_OK, fs', rel',
            {| id := {| page := p; slot := s |}; data := data rec |}) /\
    let R := recordSize (mgmtData rel) in
    let N := computeMaxSlots R in
    table_wf fs' rel' /\
    recordSize (mgmtData rel') = R /\
    totalNumPages fs <= totalNumPages fs' /\
    1 <= p < totalNumPages fs' /\ 0 <= s < N /\
    getSlotFlag (pageView fs rel p) s = 0 /\
    getSlotFlag (pageView fs' rel' p) s = 1 /\
    payloadOf R (pageView fs' rel' p) s = data rec /\
    slotsUsedOf (pageView fs' rel' p) = Int32.add (slotsUsedOf (pageView fs rel p)) 1 /\
    numTuples (mgmtData rel') = Int32.add (numTuples (mgmtData rel)) 1 /\
    forall q s', 0 <= q -> 0 <= s' < N -> (q, s') <> (p, s) ->
      getSlotFlag (pageView fs' rel' q) s' = getSlotFlag (pageView fs rel q) s' /\
      payloadOf R (pageView fs' rel' q) s' = payloadOf R (pageView fs rel q) s'.
Proof.
  intros Hwf Htot HN Hrec.
  destruct (insertRecord_total fuel fs rel rec Hwf HN) as [out Hins].
  destruct (insertRecord_spec _ fs rel rec out Hwf Hins)
    as (fs' & rel' & p & s & -> & Hwf' & Hp0 & Hp & Hs & Hflag & Hview
        & Hnum & _ & HR & _ & Hmono & Hplt).
  exists fs', rel', p, s. split; [exact Hins|]. cbv zeta.
  pose proof (pageView_length fs rel p Hwf Hp0) as Hlen.
  split; [exact Hwf'|]. split; [exact HR|]. split; [exact Hmono|].
  split; [lia|]. split; [exact Hs|]. split; [exact Hflag|].
  rewrite (Hview p Hp0), Z.eqb_refl.
  split; [rewrite (placeRecord_flag _ _ Hlen) by auto; now rewrite Z.eqb_refl|].
  split; [apply (placeRecord_payload _ _ Hlen); auto|].
  split; [apply (placeRecord_header _ _ Hlen)|].
  split; [exact Hnum|].
  intros q s' Hq Hs' Hne. rewrite (Hview q Hq).
  destruct (q =? p) eqn:E; [|auto].
  apply Z.eqb_eq in E. subst q.
  assert (s' <> s) by congruence.
  rewrite (placeRecord_flag _ _ Hlen) by auto.
  replace (s' =? s) with false by (symmetry; apply Z.eqb_neq; auto).
  split; [reflexivity|]. apply placeRecord_other; auto.
Qed.

(** [insertRecord] on a table whose pages hold at least one slot returns
    [RC_OK] after at most one retry.  The RID it assigns names a slot of a
    data page that was free; afterwards the slot is used and holds the
    record, the header of the page and [numTuples] count one more, and
    every other slot of every page has the usage byte and the payload it
    had.  The table stays in order, with its record size. *)
Theorem insertRecord_effect fuel fs rel rec :
  table_wf fs rel -> 1 <= totalNumPages fs ->
  0 < computeMaxSlots (recordSize (mgmtData rel)) ->
  length (data rec) = Z.to_nat (recordSize (mgmtData rel)) ->
  exists fs' rel' p s,
    insertRecord (S (S fuel)) fs rel rec
    = Some (RC_OK, fs', rel',
            {| id := {| page := p; slot := s |}; data := data rec |}) /\
    let R := recordSize (mgmtData rel) in
    let N := computeMaxSlots R in
    table_wf fs' rel' /\
    recordSize (mgmtData rel') = R /\
    totalNumPages fs <= totalNumPages fs' /\
    1 <= p < totalNumPages fs' /\ 0 <= s < N /\
    getSlotFlag (pageView fs rel p) s = 0 /\
    getSlotFlag (pageView fs' rel' p) s = 1 /\
    payloadOf R (pageView fs' rel' p) s = data rec /\
    slotsUsedOf (pageView fs' rel' p) = Int32.add (slotsUsedOf (pageView fs rel p)) 1 /\
    numTuples (mgmtData rel') = Int32.add (numTuples (mgmtData rel)) 1 /\
    forall q s', 0 <= q -> 0 <= s' < N -> (q, s') <> (p, s) ->
      getSlotFlag (pageView fs' rel' q) s' = getSlotFlag (pageView fs rel q) s' /\
      payloadOf R (pageView fs' rel' q) s' = payloadOf R (pageView fs rel q) s'.
Proof. exact (insertRecord_frame fuel fs rel rec). Qed.

(** A record too large for a page (no slot fits): [insertRecord] finds no
    free slot on the page it appended, drops the page and calls itself
    again, and so on without end; whatever the bound on the depth of the
    recursion, it has not returned.  The record size is a non-negative
    [int] below [INT_MAX], so that [computeMaxSlots] divides by a positive
    [int]. *)
Theorem insertRecord_no_room fuel : forall fs rel rec,
  table_wf fs rel ->
  0 <= recordSize (mgmtData rel) < Int32.max_int ->
  computeMaxSlots (recordSize (mgmtData rel)) <= 0 ->
  insertRecord fuel fs rel rec = None.
Proof.
  induction fuel as [|fuel IH]; intros fs rel rec Hwf HR HN; [reflexivity|].
  simpl insertRecord.
  destruct (insert_prepare fs rel Hwf)
    as (fs1 & tbl1 & pn & Heq & Hnf & Hpn & Hwf1 & Hv1 & Htot1 & Hn1 & Hr1).
  rewrite Heq. simpl rc_ok. simpl negb. cbv iota.
  assert (Hpn0 : 0 <= pn) by (unfold totalNumPages in Hpn; lia).
  rewrite Hnf.
  destruct (pinPage_wf fs1 (bufferPool tbl1) BM.nullHandle pn Hwf1 Hpn0)
    as (fs' & bm' & idx & Hpin & Hwf' & Hat & Hv & Htot).
  rewrite Hpin. simpl rc_ok. simpl negb. cbv iota.
  assert (Efree : forall d, findFreeSlot d (computeMaxSlots (recordSize (mgmtData rel)))
                            = None).
  { intros d. unfold findFreeSlot.
    replace (Z.to_nat (computeMaxSlots (recordSize (mgmtData rel)))) with 0%nat by lia.
    reflexivity. }
  rewrite Efree.
  rewrite (markDirty_eq _ pn idx idx) by solve_pinned. cbv iota beta.
  rewrite (unpinPage_eq _ pn idx idx) by solve_pinned. cbv iota beta.
  rewrite !touch_touch.
  destruct (keep_dirty_unpin fs' bm' pn idx Hwf' Hat Hpn0) as [Hw Hk].
  apply IH; [exact Hw| |]; simpl; now rewrite Hr1.
Qed.

(** A deleted record is gone: after [deleteRecord] of a slot (used or
    free), [getRecord] of the RID returns [RC_RM_NO_MORE_TUPLES] and leaves
    the caller's record alone, [updateRecord] returns
    [RC_READ_NON_EXISTING_PAGE], and a second [deleteRecord] changes
    neither a page nor a counter. *)
Theorem deleted_record_is_gone fs rel rid out :
  table_wf fs rel ->
  0 <= page rid ->
  0 <= slot rid < computeMaxSlots (recordSize (mgmtData rel)) ->
  getSlotFlag (pageView fs rel (page rid)) (slot rid) = 0 \/
  getSlotFlag (pageView fs rel (page rid)) (slot rid) = 1 ->
  exists fs1 rel1,
    deleteRecord fs rel rid = (RC_OK, fs1, rel1) /\
    table_wf fs1 rel1 /\
    (exists fs2 rel2,
       getRecord fs1 rel1 rid out = (RC_RM_NO_MORE_TUPLES, fs2, rel2, out)) /\
    (exists fs2 rel2,
       updateRecord fs1 rel1 {| id := rid; data := data out |}
       = (RC_READ_NON_EXISTING_PAGE, fs2, rel2)) /\
    (exists fs2 rel2,
       deleteRecord fs1 rel1 rid = (RC_OK, fs2, rel2) /\
       same_table fs1 rel1 fs2 rel2).
Proof.
  intros Hwf Hp Hs Hflag.
  destruct (deleteRecord_spec fs rel rid Hwf Hp)
    as (fs1 & rel1 & Heq & Hwf1 & HR & Hsch & Htot & Hcase).
  pose proof (pageView_length fs rel _ Hwf Hp) as Hlen.
  assert (Hgone : getSlotFlag (pageView fs1 rel1 (page rid)) (slot rid) = 0).
  { destruct Hflag as [E|E]; rewrite E in Hcase; simpl in Hcase;
      destruct Hcase as (Hview & _); rewrite (Hview _ Hp).
    - exact E.
    - rewrite Z.eqb_refl.
      rewrite (clearSlot_flag (recordSize (mgmtData rel)) _ Hlen) by auto.
      now rewrite Z.eqb_refl. }
  exists fs1, rel1. split; [exact Heq|]. split; [exact Hwf1|].
  split; [|split].
  - destruct (getRecord_spec fs1 rel1 rid out Hwf1 Hp) as (fs2 & rel2 & Hget & _).
    rewrite Hgone in Hget. change (0 =? 0) with true in Hget. cbv iota in Hget.
    eauto.
  - destruct (updateRecord_spec fs1 rel1 {| id := rid; data := data out |} Hwf1 Hp)
      as (fs2 & rel2 & Hupd & _).
    simpl id in Hupd. rewrite Hgone in Hupd.
    change (0 =? 0) with true in Hupd. cbv iota in Hupd. eauto.
  - destruct (deleteRecord_spec fs1 rel1 rid Hwf1 Hp)
      as (fs2 & rel2 & Heq2 & _ & HR2 & Hsch2 & _ & Hcase2).
    rewrite Hgone in Hcase2. simpl in Hcase2.
    destruct Hcase2 as (Hv & Hn & Hnf).
    exists fs2, rel2. split; [exact Heq2|]. repeat split; auto.
Qed.

(** [getRecord] after a successful [updateRecord] returns the bytes the
    update stored, under the RID of the record. *)
Theorem update_then_get fs rel rec out :
  table_wf fs rel ->
  0 <= page (id rec) ->
  0 <= slot (id rec) < computeMaxSlots (recordSize (mgmtData rel)) ->
  getSlotFlag (pageView fs rel (page (id rec))) (slot (id rec)) <> 0 ->
  length (data rec) = Z.to_nat (recordSize (mgmtData rel)) ->
  length (data out) = Z.to_nat (recordSize (mgmtData rel)) ->
  exists fs1 rel1 fs2 rel2,
    updateRecord fs rel rec = (RC_OK, fs1, rel1) /\
    getRecord fs1 rel1 (id rec) out = (RC_OK, fs2, rel2, rec).
Proof.
  intros Hwf Hp Hs Hflag Hrec Hout.
  destruct (updateRecord_spec fs rel rec Hwf Hp)
    as (fs1 & rel1 & Hupd & Hwf1 & Hview & _ & _ & HR & _).
  apply Z.eqb_neq in Hflag. rewrite Hflag in Hupd, Hview.
  destruct (getRecord_spec fs1 rel1 (id rec) out Hwf1 Hp)
    as (fs2 & rel2 & Hget & _).
  pose proof (pageView_length fs rel _ Hwf Hp) as Hlen.
  rewrite (Hview _ Hp), Z.eqb_refl in Hget. simpl andb in Hget. cbv iota in Hget.
  rewrite (overwriteSlot_flag _ _ Hlen) in Hget by auto.
  rewrite Hflag, HR in Hget.
  rewrite (overwriteSlot_payload _ _ Hlen) in Hget by auto.
  rewrite memcpy_to_all in Hget by auto.
  exists fs1, rel1, fs2, rel2. split; [exact Hupd|].
  rewrite Hget. destruct rec as [[p s] x]. reflexivity.
Qed.

(** [getRecord] only reads: whatever the slot, the table has the pages and
    the counters it had; for a page of the file the file keeps its
    length.  The outcome is decided by the usage byte alone: any value
    other than 0 makes the slot readable. *)
Theorem getRecord_reads_only fs rel rid out :
  table_wf fs rel ->
  0 <= page rid < totalNumPages fs ->
  0 <= slot rid < computeMaxSlots (recordSize (mgmtData rel)) ->
  length (data out) = Z.to_nat (recordSize (mgmtData rel)) ->
  exists rc fs' rel' rec',
    getRecord fs rel rid out = (rc, fs', rel', rec') /\
    table_wf fs' rel' /\ same_table fs rel fs' rel' /\
    totalNumPages fs' = totalNumPages fs /\
    (getSlotFlag (pageView fs rel (page rid)) (slot rid) = 0 ->
     rc = RC_RM_NO_MORE_TUPLES /\ rec' = out) /\
    (getSlotFlag (pageView fs rel (page rid)) (slot rid) <> 0 ->
     rc = RC_OK /\
     rec' = {| id := rid;
               data := payloadOf (recordSize (mgmtData rel))
                         (pageView fs rel (page rid)) (slot rid) |}).
Proof.
  intros Hwf Hp Hs Hout.
  destruct (getRecord_spec fs rel rid out Hwf (proj1 Hp))
    as (fs' & rel' & Hget & Hwf' & Hsame & Htot).
  pose proof (pageView_length fs rel _ Hwf (proj1 Hp)) as Hlen.
  destruct (slot_geometry _ _ Hs) as (HR & HN & Hend).
  pose proof (page_len _ Hlen) as Hl. rewrite PAGE_SIZE_eq in *.
  destruct (getSlotFlag _ _ =? 0) eqn:E.
  - do 4 eexists. split; [exact Hget|]. split; [exact Hwf'|].
    split; [exact Hsame|]. split; [lia|].
    apply Z.eqb_eq in E. split; [auto|]. intros; congruence.
  - do 4 eexists. split; [exact Hget|]. split; [exact Hwf'|].
    split; [exact Hsame|]. split; [lia|].
    apply Z.eqb_neq in E. split; [intros; congruence|]. intros _.
    split; [reflexivity|]. destruct rid as [p s]. simpl. f_equal.
    apply memcpy_to_all; [exact Hout|].
    unfold payloadOf. apply length_memcpy_from; simpl in *; lia.
Qed.

End RecordOps.

(** * A record through the later calls of a client *)

Module HistoryFacts.
Import Storage RecordMgr StorageFacts PoolFacts Int32Facts MemFacts RecordMgrFacts PageFacts TableFacts RecordOps.
#[local] Opaque PAGE_SIZE.

Lemma RID_eqb_eq a b : RID_eqb a b = true <-> a = b.
Proof.
  unfold RID_eqb. rewrite andb_true_iff, !Z.eqb_eq.
  destruct a, b; simpl. split; [intros [-> ->]; reflexivity|].
  intros H. injection H as -> ->. auto.
Qed.

Lemma RID_eqb_false a b :
  RID_eqb a b = false -> page a = page b -> slot a <> slot b.
Proof.
  unfold RID_eqb. intros H Hp Hs. rewrite Hp, Hs, !Z.eqb_refl in H. discriminate.
Qed.

(** One call keeps the record, or replaces its bytes when it is an update
    of the record. *)
Lemma runOp_holds fuel fs rel R p s d op :
  holds fs rel R p s d ->
  0 <= p -> 0 <= s < computeMaxSlots R ->
  opKeeps R {| page := p; slot := s |} op ->
  exists fs' rel',
    runOp (S (S fuel)) fs rel op = Some (fs', rel') /\
    holds fs' rel' R p s (lastWritten {| page := p; slot := s |} d [op]).
Proof.
  intros (Hwf & Htot & HR & Hflag & Hpay) Hp Hs Hop. subst R.
  pose proof (pageView_length fs rel p Hwf Hp) as Hlen.
  destruct op as [rec|rid|rec|rid out]; simpl in Hop; cbn [lastWritten runOp].
  - (* insert *)
    destruct (insertRecord_frame fuel fs rel rec Hwf Htot ltac:(lia) Hop)
      as (fs' & rel' & p' & s' & Hins & Hrest).
    cbv zeta in Hrest.
    destruct Hrest as (Hwf' & HR' & Hmono & _ & _ & Hfree & _ & _ & _ & _ & Hframe).
    rewrite Hins. exists fs', rel'.
    split; [reflexivity|].
    destruct (Hframe p s Hp Hs) as [Hf Hv].
    { intros E. injection E as -> ->. congruence. }
    repeat split; auto; try lia; congruence.
  - (* delete of another record *)
    destruct Hop as (Hpr & Hsr & Hne).
    destruct (deleteRecord_spec fs rel rid Hwf Hpr)
      as (fs' & rel' & Hdel & Hwf' & HR' & _ & Htot' & Hcase).
    rewrite Hdel. exists fs', rel'. split; [reflexivity|].
    assert (Hview : getSlotFlag (pageView fs' rel' p) s = getSlotFlag (pageView fs rel p) s /\
                    payloadOf (recordSize (mgmtData rel)) (pageView fs' rel' p) s
                    = payloadOf (recordSize (mgmtData rel)) (pageView fs rel p) s).
    { destruct (getSlotFlag (pageView fs rel (page rid)) (slot rid) =? 1);
        destruct Hcase as (Hv & _); rewrite (Hv p Hp); [|auto].
      destruct (p =? page rid) eqn:E; [|auto].
      apply Z.eqb_eq in E. subst p.
      pose proof (RID_eqb_false _ _ Hne eq_refl) as Hsl. simpl in Hsl.
      rewrite (clearSlot_flag (recordSize (mgmtData rel)) _ Hlen) by auto.
      replace (s =? slot rid) with false by (symmetry; apply Z.eqb_neq; auto).
      split; [reflexivity|]. apply clearSlot_other; auto. }
    destruct Hview as [Hf Hv].
    repeat split; auto; try lia; congruence.
  - (* update *)
    destruct Hop as (Hpr & Hsr & Hlr).
    destruct (updateRecord_spec fs rel rec Hwf Hpr)
      as (fs' & rel' & Hupd & Hwf' & Hv & _ & _ & HR' & _ & Htot').
    rewrite Hupd. exists fs', rel'. split; [reflexivity|].
    split; [exact Hwf'|]. split; [lia|]. split; [exact HR'|].
    rewrite (Hv p Hp).
    destruct (RID_eqb (id rec) {| page := p; slot := s |}) eqn:Er.
    + apply RID_eqb_eq in Er. rewrite Er in *. simpl page in *. simpl slot in *.
      rewrite Z.eqb_refl, Hflag. simpl.
      split; [rewrite (overwriteSlot_flag _ _ Hlen) by auto; exact Hflag|].
      apply (overwriteSlot_payload _ _ Hlen); auto.
    + destruct ((p =? page (id rec))
                && negb (getSlotFlag (pageView fs rel (page (id rec))) (slot (id rec)) =? 0))
        eqn:E; [|auto].
      apply andb_true_iff in E as [E _]. apply Z.eqb_eq in E.
      pose proof (RID_eqb_false _ _ Er (eq_sym E)) as Hsl. simpl in Hsl.
      rewrite <- E.
      split; [rewrite (overwriteSlot_flag _ _ Hlen) by (rewrite ?E; auto); exact Hflag|].
      rewrite (overwriteSlot_other _ _ Hlen) by auto. exact Hpay.
  - (* get *)
    destruct Hop as (Hpr & _ & _).
    destruct (getRecord_spec fs rel rid out Hwf Hpr)
      as (fs' & rel' & Hget & Hwf' & (Hv & _ & _ & HR' & _) & Htot').
    exists fs', rel'. split.
    { rewrite Hget. now destruct (getSlotFlag _ _ =? 0). }
    rewrite <- (Hv p Hp) in Hflag, Hpay.
    repeat split; auto; try lia; congruence.
Qed.

Lemma lastWritten_cons r d op ops :
  lastWritten r d (op :: ops) = lastWritten r (lastWritten r d [op]) ops.
Proof.
  destruct op; simpl; try reflexivity.
  now destruct (RID_eqb (id record) r).
Qed.

Lemma length_lastWritten R r d ops :
  length d = Z.to_nat R -> Forall (opKeeps R r) ops ->
  length (lastWritten r d ops) = Z.to_nat R.
Proof.
  intros Hd Hops. revert d Hd.
  induction Hops as [|op ops Hop _ IH]; intros d Hd; [exact Hd|].
  destruct op; simpl; auto.
  destruct (RID_eqb (id record) r); apply IH; [apply Hop|exact Hd].
Qed.

(** A run of calls keeps the record. *)
Lemma runOps_holds fuel R p s ops : forall fs rel d,
  holds fs rel R p s d ->
  0 <= p -> 0 <= s < computeMaxSlots R ->
  Forall (opKeeps R {| page := p; slot := s |}) ops ->
  exists fs' rel',
    runOps (S (S fuel)) fs rel ops = Some (fs', rel') /\
    holds fs' rel' R p s (lastWritten {| page := p; slot := s |} d ops).
Proof.
  induction ops as [|op ops IH]; intros fs rel d Hh Hp Hs Hops.
  - exists fs, rel. split; [reflexivity|exact Hh].
  - inversion Hops as [|? ? Hop Hrest]; subst.
    destruct (runOp_holds fuel fs rel R p s d op Hh Hp Hs Hop)
      as (fs1 & rel1 & Hrun & Hh1).
    destruct (IH fs1 rel1 _ Hh1 Hp Hs Hrest) as (fs' & rel' & Hruns & Hh').
    exists fs', rel'. cbn [runOps]. rewrite Hrun, Hruns.
    split; [reflexivity|]. now rewrite lastWritten_cons.
Qed.

Lemma lastWritten_noUpdate r d ops :
  noUpdateOf r ops -> lastWritten r d ops = d.
Proof.
  induction ops as [|op ops IH]; intros Hno; [reflexivity|].
  assert (Hno' : noUpdateOf r ops) by (intros rec Hin; apply Hno; now right).
  destruct op; simpl; auto.
  rewrite (Hno record) by now left. auto.
Qed.

(** C1, as the code has it: after [insertRecord] returned ok with RID [r],
    and after any further inserts, gets, deletes and updates made with
    valid RIDs and buffers, none of them a delete of [r], every call
    returns and [getRecord] of [r] returns ok, with [r] for the id of the
    output record and, for its payload, the bytes last written to [r]:
    those of the latest [updateRecord] of [r], and the inserted ones when
    there was none.  The calls in between may evict the page of [r] from
    the pool. *)
Theorem insert_then_get_later fuel k fs rel rec out fs1 rel1 rec1 ops :
  table_wf fs rel ->
  length (data rec) = Z.to_nat (recordSize (mgmtData rel)) ->
  length (data out) = Z.to_nat (recordSize (mgmtData rel)) ->
  insertRecord fuel fs rel rec = Some (RC_OK, fs1, rel1, rec1) ->
  Forall (opKeeps (recordSize (mgmtData rel)) (id rec1)) ops ->
  exists fs2 rel2 fs3 rel3,
    runOps (S (S k)) fs1 rel1 ops = Some (fs2, rel2) /\
    getRecord fs2 rel2 (id rec1) out
    = (RC_OK, fs3, rel3,
       {| id := id rec1; data := lastWritten (id rec1) (data rec) ops |}) /\
    (noUpdateOf (id rec1) ops -> lastWritten (id rec1) (data rec) ops = data rec).
Proof.
  intros Hwf Hrec Hout Hins Hops.
  destruct (insertRecord_spec fuel fs rel rec _ Hwf Hins)
    as (fs' & rel' & p & s & Heq & Hwf' & Hp0 & _ & Hs & _ & Hview & _ & _ & HR
        & _ & _ & Hplt).
  injection Heq as <- <- ->. simpl id in *.
  pose proof (pageView_length fs rel p Hwf Hp0) as Hlen.
  assert (Hh : holds fs1 rel1 (recordSize (mgmtData rel)) p s (data rec)).
  { split; [exact Hwf'|]. split; [lia|]. split; [exact HR|].
    rewrite (Hview p Hp0), Z.eqb_refl.
    split; [rewrite (placeRecord_flag _ _ Hlen) by auto; now rewrite Z.eqb_refl|].
    apply (placeRecord_payload _ _ Hlen); auto. }
  destruct (runOps_holds k _ p s ops fs1 rel1 _ Hh Hp0 Hs Hops)
    as (fs2 & rel2 & Hrun & (Hwf2 & _ & HR2 & Hflag & Hpay)).
  destruct (getRecord_spec fs2 rel2 {| page := p; slot := s |} out Hwf2 Hp0)
    as (fs3 & rel3 & Hget & _).
  simpl page in Hget. simpl slot in Hget.
  rewrite Hflag, HR2, Hpay in Hget.
  change (1 =? 0) with false in Hget. cbv iota in Hget.
  rewrite memcpy_to_all in Hget
    by (auto; apply (length_lastWritten _ _ _ _ Hrec Hops)).
  exists fs2, rel2, fs3, rel3. split; [exact Hrun|]. split; [exact Hget|].
  apply lastWritten_noUpdate.
Qed.

End HistoryFacts.

(** * Attributes do not overlap *)

Module AttrFrame.
Import RecordMgr Int32Facts MemFacts AttrFacts.




End AttrFrame.

(** * Scans *)

Module ScanFacts.
Import Storage RecordMgr StorageFacts PoolFacts Int32Facts MemFacts RecordMgrFacts PageFacts TableFacts.
#[local] Opaque PAGE_SIZE.

(** The inner loop of [next]: from the current slot on, it stops at the
    first slot that matches, one past it; without a match it ends at the
    capacity of the page. *)
Lemma scanSlots_spec sc R d p cnd : forall n cs record,
  length d = Z.to_nat PAGE_SIZE ->
  n = Z.to_nat (computeMaxSlots R - cs) -> 0 <= cs ->
  length (data record) = Z.to_nat R ->
  exists found cs' record',
    scanSlots n d (computeMaxSlots R) R sc
      {| currentPage := p; currentSlot := cs; cond := cnd |} record
    = (found, {| currentPage := p; currentSlot := cs'; cond := cnd |}, record') /\
    length (data record') = Z.to_nat R /\
    if found
    then cs <= cs' - 1 < computeMaxSlots R /\
         scanMatch sc cnd R d p (cs' - 1) = true /\
         (forall s', cs <= s' < cs' - 1 -> scanMatch sc cnd R d p s' = false) /\
         record' = recordAt R d p (cs' - 1)
    else (forall s', cs <= s' < computeMaxSlots R ->
            scanMatch sc cnd R d p s' = false) /\
         cs' = Z.max cs (computeMaxSlots R)
.
Proof.
  induction n as [|n IH]; intros cs record Hlen Hn Hcs Hrec.
  - exists false, cs, record. simpl. split; [reflexivity|]. split; [exact Hrec|].
    split; [intros s' Hs'; lia | lia].
  - simpl scanSlots. simpl currentSlot. simpl currentPage. simpl cond.
    assert (Hlt : cs < computeMaxSlots R) by lia.
    replace (cs <? computeMaxSlots R) with true by (symmetry; apply Z.ltb_lt; lia).
    destruct (slot_geometry R cs (conj Hcs Hlt)) as (HR & HN & Hend).
    pose proof (page_len d Hlen) as Hl. rewrite PAGE_SIZE_eq in *.
    assert (Hpay : Mem.memcpy_to (data record) 0
                     (Mem.memcpy_from d (4 + computeMaxSlots R + cs * R) R) R
                   = payloadOf R d cs).
    { apply memcpy_to_all; [exact Hrec|].
      apply length_memcpy_from; lia. }
    rewrite Hpay.
    assert (Hplen : length (payloadOf R d cs) = Z.to_nat R).
    { unfold payloadOf. apply length_memcpy_from; lia. }
    fold (recordAt R d p cs).
    destruct (getSlotFlag d cs =? 1) eqn:Eflag.
    + destruct (match cnd with Some e => e (recordAt R d p cs) sc | None => true end)
        eqn:Epass.
      * exists true, (cs + 1), (recordAt R d p cs).
        split; [reflexivity|]. split; [exact Hplen|].
        replace (cs + 1 - 1) with cs by lia.
        split; [lia|]. split; [unfold scanMatch; now rewrite Eflag, Epass|].
        split; [intros s' Hs'; lia | reflexivity].
      * destruct (IH (cs + 1) (recordAt R d p cs) Hlen ltac:(lia) ltac:(lia) Hplen)
          as (found & cs' & record' & Heq & Hlen' & Hres).
        exists found, cs', record'. split; [exact Heq|]. split; [exact Hlen'|].
        assert (Hhere : scanMatch sc cnd R d p cs = false)
          by (unfold scanMatch; now rewrite Eflag, Epass).
        destruct found.
        -- destruct Hres as (Hr & Hm & Hbefore & Hrec').
           split; [lia|]. split; [exact Hm|]. split; [|exact Hrec'].
           intros s' Hs'. destruct (decide (s' = cs)) as [->|Hne]; [exact Hhere|].
           apply Hbefore. lia.
        -- destruct Hres as (Hnone & Hcs'). split; [|lia].
           intros s' Hs'. destruct (decide (s' = cs)) as [->|Hne]; [exact Hhere|].
           apply Hnone. lia.
    + destruct (IH (cs + 1) record Hlen ltac:(lia) ltac:(lia) Hrec)
        as (found & cs' & record' & Heq & Hlen' & Hres).
      exists found, cs', record'. split; [exact Heq|]. split; [exact Hlen'|].
      assert (Hhere : scanMatch sc cnd R d p cs = false)
        by (unfold scanMatch; now rewrite Eflag).
      destruct found.
      * destruct Hres as (Hr & Hm & Hbefore & Hrec').
        split; [lia|]. split; [exact Hm|]. split; [|exact Hrec'].
        intros s' Hs'. destruct (decide (s' = cs)) as [->|Hne]; [exact Hhere|].
        apply Hbefore. lia.
      * destruct Hres as (Hnone & Hcs'). split; [|lia].
        intros s' Hs'. destruct (decide (s' = cs)) as [->|Hne]; [exact Hhere|].
        apply Hnone. lia.
Qed.

Lemma next_spec fuel : forall fs rel cp cs cnd record,
  table_wf fs rel ->
  1 <= cp -> 0 <= cs ->
  length (data record) = Z.to_nat (recordSize (mgmtData rel)) ->
  (Z.to_nat (totalNumPages fs - cp) < fuel)%nat ->
  let R := recordSize (mgmtData rel) in
  let N := computeMaxSlots R in
  let matches p s := scanMatch (schema rel) cnd R (pageView fs rel p) p s in
  exists rc fs' rel' p' s' record',
    next fuel fs rel {| currentPage := cp; currentSlot := cs; cond := cnd |} record
    = Some (rc, fs', rel',
            {| currentPage := p'; currentSlot := s'; cond := cnd |}, record') /\
    table_wf fs' rel' /\ same_table fs rel fs' rel' /\
    totalNumPages fs' = Z.max (totalNumPages fs) (cp + 1) /\
    length (data record') = Z.to_nat R /\
    ((rc = RC_OK /\
      scanPosLe cp cs p' (s' - 1) /\ 0 <= s' - 1 < N /\
      matches p' (s' - 1) = true /\
      record' = recordAt R (pageView fs rel p') p' (s' - 1) /\
      forall p s, scanPosLe cp cs p s -> 0 <= s < N ->
                  ~ scanPosLe p' (s' - 1) p s -> matches p s = false)
     \/
     (rc = RC_RM_NO_MORE_TUPLES /\
      forall p s, scanPosLe cp cs p s -> 0 <= s < N -> matches p s = false)).
Proof.
  induction fuel as [|fuel IH]; intros fs rel cp cs cnd record Hwf Hcp Hcs Hrec Hfuel;
    [lia|].
  cbv zeta. simpl next. simpl currentPage. simpl currentSlot.
  replace (cp <? 1) with false by (symmetry; apply Z.ltb_ge; lia).
  unfold scanFetch. simpl currentPage.
  assert (Hcp0 : 0 <= cp) by lia.
  destruct (pinPage_wf fs (bufferPool (mgmtData rel)) BM.nullHandle cp Hwf Hcp0)
    as (fs' & bm' & idx & Hpin & Hwf' & Hat & Hv & Htot).
  rewrite Hpin. simpl rc_ok. simpl negb. cbv iota.
  destruct (view_pinned fs' bm' cp idx Hwf' Hat Hcp0) as [Hderef Hlen].
  rewrite Hderef, (Hv _ Hcp0) in *.
  fold (pageView fs rel cp) in *.
  simpl recordSize. simpl schema.
  destruct (scanSlots_spec (schema rel) (recordSize (mgmtData rel))
              (pageView fs rel cp) cp cnd
              (Z.to_nat (computeMaxSlots (recordSize (mgmtData rel)) - cs))
              cs record Hlen eq_refl Hcs Hrec)
    as (found & cs' & record' & Hscan & Hlen' & Hres).
  rewrite Hscan.
  rewrite (unpin_eq bm' cp idx Hat).
  destruct (keep_unpin fs' bm' cp idx Hwf' Hat Hcp0) as [Hw Hk].
  set (rel1 := set_tbl _ _).
  assert (Hwf1 : table_wf fs' rel1) by exact Hw.
  assert (Hsame : same_table fs rel fs' rel1).
  { split; [|simpl; auto].
    intros q Hq. unfold pageView, rel1. simpl. now rewrite Hk, Hv. }
  destruct found.
  - destruct Hres as (Hr & Hm & Hbefore & Hrec').
    exists RC_OK, fs', rel1, cp, cs', record'.
    split; [reflexivity|]. split; [exact Hwf1|]. split; [exact Hsame|].
    split; [exact Htot|]. split; [exact Hlen'|].
    left. split; [reflexivity|]. split; [right; lia|]. split; [lia|].
    split; [exact Hm|]. split; [exact Hrec'|].
    intros p s [Hp|[-> Hs]] Hsr Hnot.
    + exfalso. apply Hnot. left. exact Hp.
    + apply Hbefore. split; [exact Hs|].
      destruct (decide (s < cs' - 1)) as [H|H]; [exact H|].
      exfalso. apply Hnot. right. lia.
  - destruct Hres as (Hnone & Hcs').
    simpl currentPage. simpl cond.
    destruct (totalNumPages fs' <=? cp + 1) eqn:Eend.
    + apply Z.leb_le in Eend.
      exists RC_RM_NO_MORE_TUPLES, fs', rel1, (cp + 1), 0, record'.
      split; [reflexivity|]. split; [exact Hwf1|]. split; [exact Hsame|].
      split; [exact Htot|]. split; [exact Hlen'|].
      right. split; [reflexivity|].
      intros p s [Hp|[-> Hs]] Hsr.
      * unfold scanMatch.
        rewrite (pageView_beyond fs rel p Hwf) by lia.
        now rewrite getSlotFlag_zeroPage.
      * apply Hnone. lia.
    + apply Z.leb_gt in Eend.
      assert (Htot' : totalNumPages fs' = totalNumPages fs) by lia.
      destruct (IH fs' rel1 (cp + 1) 0 cnd record' Hwf1 ltac:(lia) ltac:(lia)
                  Hlen' ltac:(lia))
        as (rc & fs2 & rel2 & p' & s' & record2 & Heq & Hwf2 & Hsame2 & Htot2
            & Hlen2 & Hcase).
      exists rc, fs2, rel2, p', s', record2.
      split; [exact Heq|]. split; [exact Hwf2|].
      assert (Hviews : forall q, 0 <= q -> pageView fs' rel1 q = pageView fs rel q)
        by (destruct Hsame as (H & _); exact H).
      split.
      { destruct Hsame as (H1 & H2 & H3 & H4 & H5).
        destruct Hsame2 as (G1 & G2 & G3 & G4 & G5).
        split; [intros q Hq; now rewrite G1, H1|].
        repeat split; congruence. }
      split; [lia|]. split; [exact Hlen2|].
      assert (Hpos : forall p s, scanPosLe (cp + 1) 0 p s -> 0 <= p)
        by (intros p s [H|[-> _]]; lia).
      change (recordSize (mgmtData rel1)) with (recordSize (mgmtData rel)) in Hcase.
      change (schema rel1) with (schema rel) in Hcase.
      change (recordSize (mgmtData rel1)) with (recordSize (mgmtData rel)) in Hlen2.
      destruct Hcase as [(-> & Hle & Hlt & Hm & Hrec2 & Hbefore)
                        |(-> & Hnone2)].
      * left. split; [reflexivity|].
        assert (Hp' : 0 <= p') by (eapply Hpos; eauto).
        rewrite (Hviews p' Hp') in Hm, Hrec2.
        split; [left; destruct Hle as [H|[-> _]]; lia|]. split; [exact Hlt|].
        split; [exact Hm|]. split; [exact Hrec2|].
        intros p s [Hp|[-> Hs]] Hsr Hnot.
        -- rewrite <- (Hviews p) by lia.
           apply Hbefore; auto.
           destruct (decide (cp + 1 < p)) as [H|H]; [left; exact H|].
           right. split; lia.
        -- apply Hnone. lia.
      * right. split; [reflexivity|].
        intros p s [Hp|[-> Hs]] Hsr.
        -- rewrite <- (Hviews p) by lia.
           apply Hnone2; auto.
           destruct (decide (cp + 1 < p)) as [H|H]; [left; exact H|].
           right. split; lia.
        -- apply Hnone. lia.
Qed.

(** [next], given fuel for the pages of the file from the current page
    on, returns.  With [RC_OK] it hands out the record of the first slot,
    at or after the position of the scan, that is used and passes the
    condition, and moves the scan one slot past it; with
    [RC_RM_NO_MORE_TUPLES] no slot at or after the position matches.  The
    table has the pages and counters it had; the file holds the page the
    scan stood on, which [next] appends when the file ended before it.
    The record size is a non-negative [int] below [INT_MAX], so that
    [computeMaxSlots] divides by a positive [int]. *)
Theorem next_first_match fuel fs rel cp cs cnd record :
  table_wf fs rel ->
  0 <= recordSize (mgmtData rel) < Int32.max_int ->
  1 <= cp -> 0 <= cs ->
  length (data record) = Z.to_nat (recordSize (mgmtData rel)) ->
  (Z.to_nat (totalNumPages fs - cp) < fuel)%nat ->
  let R := recordSize (mgmtData rel) in
  let N := computeMaxSlots R in
  let matches p s := scanMatch (schema rel) cnd R (pageView fs rel p) p s in
  exists rc fs' rel' p' s' record',
    next fuel fs rel {| currentPage := cp; currentSlot := cs; cond := cnd |} record
    = Some (rc, fs', rel',
            {| currentPage := p'; currentSlot := s'; cond := cnd |}, record') /\
    table_wf fs' rel' /\ same_table fs rel fs' rel' /\
    totalNumPages fs' = Z.max (totalNumPages fs) (cp + 1) /\
    length (data record') = Z.to_nat R /\
    ((rc = RC_OK /\
      scanPosLe cp cs p' (s' - 1) /\ 0 <= s' - 1 < N /\
      matches p' (s' - 1) = true /\
      record' = recordAt R (pageView fs rel p') p' (s' - 1) /\
      forall p s, scanPosLe cp cs p s -> 0 <= s < N ->
                  ~ scanPosLe p' (s' - 1) p s -> matches p s = false)
     \/
     (rc = RC_RM_NO_MORE_TUPLES /\
      forall p s, scanPosLe cp cs p s -> 0 <= s < N -> matches p s = false)).
Proof. intros Hwf _. exact (next_spec fuel fs rel cp cs cnd record Hwf). Qed.

End ScanFacts.

(** * Numbers in the catalog: [sprintf] and [sscanf] of [%d] *)

Module NumberFacts.
Import RecordMgr Int32Facts.

Lemma bytes_cons c s :
  list_byte_of_string (String c s) = Ascii.byte_of_ascii c :: list_byte_of_string s.
Proof. reflexivity. Qed.

(** Evaluates the byte of a character literal. *)
Ltac eval_byte :=
  match goal with
  | |- context [Ascii.byte_of_ascii ?c] =>
      let b := eval vm_compute in (Ascii.byte_of_ascii c) in
      change (Ascii.byte_of_ascii c) with b
  end.

(** The digits of [u], read with the accumulator [acc] in front. *)
Lemma scan_digits_uint u : forall acc rest,
  match rest with [] => True | c :: _ => digit c = None end ->
  exists v,
    scan_digits acc (list_byte_of_string (NilEmpty.string_of_uint u) ++ rest)
    = (v, rest) /\
    (forall a, acc = Z.pos a -> v = Z.pos (Pos.of_uint_acc u a)) /\
    (acc = 0 -> v = Z.of_N (Pos.of_uint u)).
Proof.
  induction u as [|u IH|u IH|u IH|u IH|u IH|u IH|u IH|u IH|u IH|u IH];
    intros acc rest Hrest;
    try (simpl NilEmpty.string_of_uint; rewrite bytes_cons; eval_byte;
         cbn [app scan_digits digit];
         match goal with
         | |- context [scan_digits ?a _] =>
             destruct (IH a rest Hrest) as (v & Heq & Hpos & Hzero)
         end;
         exists v; split; [exact Heq|]; split;
         [ intros a ->; apply Hpos; lia
         | intros ->; cbn [Pos.of_uint Z.of_N];
           first [ apply Hzero; lia | apply Hpos; lia ] ]).
  simpl. exists acc. split.
  - destruct rest as [|c r]; [reflexivity|]. simpl. now rewrite Hrest.
  - split; [intros a ->; reflexivity | intros ->; reflexivity].
Qed.

Lemma uint_head u rest :
  u <> Decimal.Nil ->
  exists c r v,
    list_byte_of_string (NilEmpty.string_of_uint u) ++ rest = c :: r /\
    digit c = Some v /\ isspace c = false /\ c <> x2d /\ c <> x2b.
Proof.
  intros Hne. destruct u; [congruence|..];
    simpl NilEmpty.string_of_uint; rewrite bytes_cons; eval_byte; simpl;
    do 3 eexists; (split; [reflexivity|]); repeat split; discriminate.
Qed.

Lemma scan_d_digit c r v :
  digit c = Some v ->
  scan_d (c :: r)
  = (let '(v0, r0) := scan_digits 0 (c :: r) in Some (Int32.wrap v0, r0)).
Proof. intros H. destruct c; try discriminate; reflexivity. Qed.

Lemma scan_d_minus c r v :
  digit c = Some v ->
  scan_d (x2d :: c :: r)
  = (let '(v0, r0) := scan_digits 0 (c :: r) in Some (Int32.wrap (- v0), r0)).
Proof. intros H. destruct c; try discriminate; reflexivity. Qed.

Lemma scan_d_space s : scan_d (x20 :: s) = scan_d s.
Proof. reflexivity. Qed.

(** [sscanf] of [%d] reads back what [sprintf] of [%d] wrote for an
    [int], up to the byte that follows the number. *)
Lemma scan_d_sprintf_d z rest :
  Int32.min_int <= z <= Int32.max_int ->
  match rest with [] => True | c :: _ => digit c = None end ->
  scan_d (sprintf_d z ++ rest) = Some (z, rest).
Proof.
  intros Hz Hrest. unfold sprintf_d.
  assert (Hgo : forall p,
            scan_d (list_byte_of_string (NilEmpty.string_of_uint (Pos.to_uint p)) ++ rest)
            = Some (Int32.wrap (Z.pos p), rest) /\
            scan_d (x2d :: list_byte_of_string
                             (NilEmpty.string_of_uint (Pos.to_uint p)) ++ rest)
            = Some (Int32.wrap (- Z.pos p), rest)).
  { intros p.
    destruct (uint_head (Pos.to_uint p) rest (Unsigned.to_uint_nonnil p))
      as (c & r & v & Hhead & Hdig & _).
    destruct (scan_digits_uint (Pos.to_uint p) 0 rest Hrest) as (w & Heq & _ & Hw).
    rewrite (Hw eq_refl), DecimalPos.Unsigned.of_to in Heq. simpl Z.of_N in Heq.
    rewrite Hhead in *.
    rewrite (scan_d_digit c r v Hdig), (scan_d_minus c r v Hdig), Heq. auto. }
  destruct z as [|p|p]; simpl Z.to_int; simpl NilZero.string_of_int.
  - change (scan_d (x30 :: rest) = Some (0, rest)).
    rewrite (scan_d_digit x30 rest 0 eq_refl).
    cbn [scan_digits digit]. change (10 * 0 + 0) with 0.
    destruct rest as [|c r]; [reflexivity|]. cbn [scan_digits]. now rewrite Hrest.
  - assert (E : NilZero.string_of_uint (Pos.to_uint p)
                = NilEmpty.string_of_uint (Pos.to_uint p)).
    { pose proof (Unsigned.to_uint_nonnil p).
      destruct (Pos.to_uint p); [congruence|reflexivity..]. }
    rewrite E, (proj1 (Hgo p)). rewrite wrap_small by exact Hz. reflexivity.
  - assert (E : NilZero.string_of_uint (Pos.to_uint p)
                = NilEmpty.string_of_uint (Pos.to_uint p)).
    { pose proof (Unsigned.to_uint_nonnil p).
      destruct (Pos.to_uint p); [congruence|reflexivity..]. }
    rewrite E, bytes_cons. eval_byte.
    rewrite <- app_comm_cons, (proj2 (Hgo p)).
    rewrite wrap_small by exact Hz. reflexivity.
Qed.

Lemma uint_bytes u :
  Forall (fun c => c <> x00 /\ isspace c = false)
         (list_byte_of_string (NilEmpty.string_of_uint u)).
Proof.
  induction u; simpl NilEmpty.string_of_uint; [constructor|..];
    rewrite bytes_cons; eval_byte; (constructor; [split; [discriminate|reflexivity]|]);
    assumption.
Qed.

(** What [sprintf] of [%d] writes: at least one byte; no byte is zero or
    white space. *)
Lemma sprintf_d_bytes z :
  sprintf_d z <> [] /\
  Forall (fun c => c <> x00 /\ isspace c = false) (sprintf_d z).
Proof.
  unfold sprintf_d.
  assert (H : forall u, NilZero.string_of_uint u <> EmptyString /\
            Forall (fun c => c <> x00 /\ isspace c = false)
                   (list_byte_of_string (NilZero.string_of_uint u))).
  { intros u. destruct u; try (split; [discriminate | apply (uint_bytes (_ _))]).
    split; [discriminate|]. repeat constructor; discriminate. }
  destruct z as [|p|p]; simpl Z.to_int; simpl NilZero.string_of_int.
  - split; [discriminate|]. repeat constructor; discriminate.
  - destruct (H (Pos.to_uint p)) as [Hne Hall]. split; [|exact Hall].
    destruct (NilZero.string_of_uint (Pos.to_uint p)); [congruence|discriminate].
  - destruct (H (Pos.to_uint p)) as [Hne Hall]. split; [discriminate|].
    rewrite bytes_cons. eval_byte.
    constructor; [split; [discriminate|reflexivity]|exact Hall].
Qed.

(** White space before a number is skipped; a number does not begin with
    white space. *)
Lemma skip_ws_sprintf_d z rest : skip_ws (sprintf_d z ++ rest) = sprintf_d z ++ rest.
Proof.
  destruct (sprintf_d_bytes z) as [Hne Hall].
  destruct (sprintf_d z) as [|c r]; [congruence|].
  apply Forall_cons in Hall as [[_ Hsp] _]. simpl. now rewrite Hsp.
Qed.

End NumberFacts.

(** * The catalog page: what is written is what is read *)

Module CatalogFacts.
Import Storage RecordMgr StorageFacts PoolFacts Int32Facts MemFacts RecordMgrFacts AttrFacts TableFacts OpenFacts NumberFacts FlushFacts PoolOps Durability.
#[local] Opaque PAGE_SIZE.

Lemma cstr_id l : Forall (fun c => c <> x00) l -> cstr l = l.
Proof.
  induction 1 as [|c l Hc _ IH]; [reflexivity|]. simpl.
  destruct (Byte.eqb c x00) eqn:E.
  - apply Byte.byte_dec_bl in E. contradiction.
  - now rewrite IH.
Qed.

Lemma consumed_app l rest : consumed (l ++ rest) rest = Z.of_nat (length l).
Proof. unfold consumed. rewrite length_app. f_equal. lia. Qed.

(** *** Parsing the lines *)

Lemma sscanf_d_d_text a b rest :
  Int32.min_int <= a <= Int32.max_int ->
  Int32.min_int <= b <= Int32.max_int ->
  skip_ws rest = rest ->
  sscanf_d_d ((sprintf_d a ++ [x20] ++ sprintf_d b ++ [x0a]) ++ rest)
  = (a, b, Z.of_nat (length (sprintf_d a ++ [x20] ++ sprintf_d b ++ [x0a]))).
Proof.
  intros Ha Hb Hrest. unfold sscanf_d_d.
  set (l := sprintf_d a ++ [x20] ++ sprintf_d b ++ [x0a]).
  replace (l ++ rest) with (sprintf_d a ++ x20 :: sprintf_d b ++ x0a :: rest) at 1
    by (unfold l; now rewrite <- !app_assoc).
  rewrite scan_d_sprintf_d by (auto; reflexivity).
  rewrite scan_d_space, scan_d_sprintf_d by (auto; reflexivity).
  change (skip_ws (x0a :: rest)) with (skip_ws rest). rewrite Hrest.
  now rewrite consumed_app.
Qed.

Lemma sscanf_d_text n rest :
  Int32.min_int <= n <= Int32.max_int ->
  skip_ws rest = rest ->
  sscanf_d ((sprintf_d n ++ [x0a]) ++ rest)
  = (n, Z.of_nat (length (sprintf_d n ++ [x0a]))).
Proof.
  intros Hn Hrest. unfold sscanf_d.
  replace ((sprintf_d n ++ [x0a]) ++ rest) with (sprintf_d n ++ x0a :: rest) at 1
    by now rewrite <- app_assoc.
  rewrite scan_d_sprintf_d by (auto; reflexivity).
  change (skip_ws (x0a :: rest)) with (skip_ws rest). rewrite Hrest.
  now rewrite consumed_app.
Qed.

Lemma scan_word_name name : forall rest,
  Forall (fun c => c <> x00 /\ isspace c = false) name ->
  scan_word (name ++ x0a :: rest) = (name, x0a :: rest).
Proof.
  induction name as [|c name IH]; intros rest H; [reflexivity|].
  apply Forall_cons in H as [[_ Hsp] H]. simpl. rewrite Hsp, IH by exact H.
  reflexivity.
Qed.

Lemma scan_s_name name rest :
  name <> [] ->
  Forall (fun c => c <> x00 /\ isspace c = false) name ->
  scan_s (x20 :: name ++ x0a :: rest) = Some (name, x0a :: rest).
Proof.
  intros Hne H. unfold scan_s. change (skip_ws (x20 :: ?s)) with (skip_ws s).
  assert (Hs : skip_ws (name ++ x0a :: rest) = name ++ x0a :: rest).
  { destruct name as [|c r]; [congruence|].
    apply Forall_cons in H as [[_ Hsp] _]. simpl. now rewrite Hsp. }
  change (skip_ws (x20 :: name ++ x0a :: rest)) with (skip_ws (name ++ x0a :: rest)).
  rewrite Hs, scan_word_name by exact H.
  destruct name; [congruence|reflexivity].
Qed.

Lemma sscanf_d_d_s_text a b name rest :
  Int32.min_int <= a <= Int32.max_int ->
  Int32.min_int <= b <= Int32.max_int ->
  name <> [] ->
  Forall (fun c => c <> x00 /\ isspace c = false) name ->
  skip_ws rest = rest ->
  sscanf_d_d_s ((sprintf_d a ++ [x20] ++ sprintf_d b ++ [x20] ++ name ++ [x0a]) ++ rest)
  = (a, b, name,
     Z.of_nat (length (sprintf_d a ++ [x20] ++ sprintf_d b ++ [x20] ++ name ++ [x0a]))).
Proof.
  intros Ha Hb Hne Hname Hrest. unfold sscanf_d_d_s.
  set (l := sprintf_d a ++ [x20] ++ sprintf_d b ++ [x20] ++ name ++ [x0a]).
  replace (l ++ rest)
    with (sprintf_d a ++ x20 :: sprintf_d b ++ x20 :: name ++ x0a :: rest) at 1
    by (unfold l; now rewrite <- !app_assoc).
  rewrite scan_d_sprintf_d by (auto; reflexivity).
  rewrite scan_d_space, scan_d_sprintf_d by (auto; reflexivity).
  rewrite scan_s_name by auto.
  change (skip_ws (x0a :: rest)) with (skip_ws rest). rewrite Hrest.
  now rewrite consumed_app.
Qed.

Lemma DataType_of_to_int t : DataType_of_int (DataType_to_int t) = t.
Proof. now destruct t. Qed.

Lemma DataType_to_int_range t :
  Int32.min_int <= DataType_to_int t <= Int32.max_int.
Proof. destruct t; unfold Int32.min_int, Int32.max_int; simpl; lia. Qed.

(** The lines of the attributes from index [i] on. *)
Lemma skip_ws_lines sc n i :
  skip_ws (concat (map (attrLine sc) (seq i n)))
  = concat (map (attrLine sc) (seq i n)).
Proof.
  destruct n as [|n]; [reflexivity|]. cbn [seq map concat]. unfold attrLine at 1 3.
  rewrite <- !app_assoc. apply skip_ws_sprintf_d.
Qed.

Lemma seq_lookup_all {A} (d : A) (l : list A) : forall l0 : list A,
  map (fun k => default d ((l0 ++ l) !! k)) (seq (length l0) (length l)) = l.
Proof.
  induction l as [|x l IH]; intros l0; [reflexivity|]. simpl. f_equal.
  - rewrite lookup_app_r by lia. now rewrite Nat.sub_diag.
  - specialize (IH (l0 ++ [x])). rewrite length_app in IH. simpl in IH.
    rewrite <- app_assoc in IH. simpl in IH.
    replace (length l0 + 1)%nat with (S (length l0)) in IH by lia. exact IH.
Qed.

Lemma readAttrLines_text sc n : forall i,
  (forall k name, attrNames sc !! k = Some name -> catalogName name) ->
  (forall k l, typeLength sc !! k = Some l -> Int32.min_int <= l <= Int32.max_int) ->
  (i + n <= length (attrNames sc))%nat ->
  readAttrLines n (concat (map (attrLine sc) (seq i n)))
  = (map (fun k => default [] (attrNames sc !! k)) (seq i n),
     map (fun k => default DT_INT (dataTypes sc !! k)) (seq i n),
     map (fun k => default 0 (typeLength sc !! k)) (seq i n)).
Proof.
  induction n as [|n IH]; intros i Hnames Hlens Hi; [reflexivity|].
  cbn [seq map concat readAttrLines].
  destruct (lookup_lt_is_Some_2 (attrNames sc) i ltac:(lia)) as [name Hname].
  destruct (Hnames i name Hname) as (Hne & Hall & _).
  assert (Hc : cstr name = name).
  { apply cstr_id. eapply Forall_impl; [exact Hall|]. now intros c [H _]. }
  assert (Hl : Int32.min_int <= default 0 (typeLength sc !! i) <= Int32.max_int).
  { destruct (typeLength sc !! i) as [l|] eqn:E; simpl; [eauto|].
    unfold Int32.min_int, Int32.max_int. lia. }
  assert (Hline : attrLine sc i
            = sprintf_d (DataType_to_int (default DT_INT (dataTypes sc !! i)))
              ++ [x20] ++ sprintf_d (default 0 (typeLength sc !! i))
              ++ [x20] ++ name ++ [x0a]).
  { unfold attrLine. rewrite Hname. simpl default. now rewrite Hc. }
  rewrite Hline.
  rewrite sscanf_d_d_s_text; auto using DataType_to_int_range, skip_ws_lines.
  rewrite Nat2Z.id, drop_app_length.
  rewrite (IH (S i)) by (auto; lia).
  now rewrite DataType_of_to_int, Hname.
Qed.

(** *** The bytes of the page *)

Lemma strcpy_zeros pre src k :
  (length src < k)%nat ->
  strcpy (pre ++ replicate k x00) (Z.of_nat (length pre)) src
  = (pre ++ src) ++ replicate (k - length src) x00.
Proof.
  intros Hk. unfold strcpy, Mem.memcpy_to.
  replace (Z.of_nat (length pre) <? 0) with false by (symmetry; apply Z.ltb_ge; lia).
  rewrite Nat2Z.id.
  replace (Z.to_nat (Z.of_nat (length src) + 1)) with (length (src ++ [x00]))
    by (rewrite length_app; simpl; lia).
  rewrite firstn_all.
  rewrite <- (Nat.add_0_r (length pre)), list_inserts_app_r.
  replace (replicate k x00)
    with (replicate (length (src ++ [x00])) x00 ++ replicate (k - length src - 1) x00).
  2:{ rewrite <- replicate_add. f_equal. rewrite length_app. simpl. lia. }
  rewrite list_inserts_0_r by now rewrite length_replicate.
  rewrite <- !app_assoc. do 2 f_equal. simpl.
  destruct (k - length src)%nat as [|m] eqn:E; [lia|].
  simpl. do 2 f_equal. lia.
Qed.

Lemma writeAttrLines_text sc n : forall i pre k,
  (length (concat (map (attrLine sc) (seq i n))) < k)%nat ->
  writeAttrLines sc n i (pre ++ replicate k x00) (Z.of_nat (length pre))
  = (pre ++ concat (map (attrLine sc) (seq i n)))
    ++ replicate (k - length (concat (map (attrLine sc) (seq i n)))) x00.
Proof.
  induction n as [|n IH]; intros i pre k Hk.
  - simpl. rewrite app_nil_r, Nat.sub_0_r. reflexivity.
  - cbn [seq map concat] in *. cbn [writeAttrLines]. cbv zeta.
    rewrite length_app in Hk.
    assert (Hk1 : (length (attrLine sc i) < k)%nat) by (clear IH; lia).
    rewrite (strcpy_zeros pre (attrLine sc i) k Hk1).
    rewrite <- Nat2Z.inj_add, <- length_app.
    assert (Hk2 : (length (concat (map (attrLine sc) (seq (S i) n)))
                   < k - length (attrLine sc i))%nat) by (clear IH; lia).
    rewrite (IH (S i) (pre ++ attrLine sc i) _ Hk2). rewrite <- !app_assoc. do 2 f_equal.
    now rewrite length_app, Nat.sub_add_distr.
Qed.

(** The page [writeTableInfo] leaves: the text, then zeroes. *)
Lemma catalogPage_text d tbl sc :
  length d = Z.to_nat PAGE_SIZE ->
  Z.of_nat (length (catalogText tbl sc)) < PAGE_SIZE ->
  catalogPage d tbl sc
  = catalogText tbl sc
    ++ replicate (Z.to_nat PAGE_SIZE - length (catalogText tbl sc)) x00.
Proof.
  intros Hd Hfit. unfold catalogPage, catalogText in *.
  rewrite memset_zero by exact Hd. unfold zeroPage.
  set (k := Z.to_nat PAGE_SIZE) in *.
  set (l1 := sprintf_d (numTuples tbl) ++ [x20] ++ sprintf_d (nextFreePage tbl) ++ [x0a]) in *.
  set (l2 := sprintf_d (numAttr sc) ++ [x0a]) in *.
  set (ls := concat (map (attrLine sc) (seq 0 (Z.to_nat (numAttr sc))))) in *.
  rewrite !length_app in Hfit.
  change (replicate k x00) with ([] ++ replicate k x00).
  change 0 with (Z.of_nat (length (@nil byte))) at 1.
  rewrite strcpy_zeros by lia. simpl app at 1.
  rewrite strcpy_zeros by lia.
  rewrite <- Nat2Z.inj_add, <- length_app.
  unfold ls. rewrite writeAttrLines_text by (fold ls; lia). fold ls.
  rewrite <- !app_assoc. do 3 f_equal.
  now rewrite !length_app, !Nat.sub_add_distr.
Qed.

Lemma catalogText_no_zero tbl sc :
  Forall (fun c => c <> x00) (catalogText tbl sc).
Proof.
  assert (Hnum : forall z, Forall (fun c => c <> x00) (sprintf_d z)).
  { intros z. eapply Forall_impl; [apply sprintf_d_bytes|]. now intros c [H _]. }
  unfold catalogText. repeat (apply Forall_app; split); auto;
    try (repeat constructor; discriminate).
  apply Forall_concat, Forall_forall. intros l Hl.
  apply list_elem_of_fmap in Hl as (i & -> & _). unfold attrLine.
  repeat (apply Forall_app; split); auto; try (repeat constructor; discriminate).
  apply cstr_no_zero.
Qed.

Lemma attrOffset_stored sc n : attrOffset (storedSchema sc) n = attrOffset sc n.
Proof. induction n as [|n IH]; [reflexivity|]. simpl. now rewrite IH. Qed.

Lemma computeRecordSize_stored sc :
  computeRecordSize (storedSchema sc) = computeRecordSize sc.
Proof. apply attrOffset_stored. Qed.

(** [openTable] on a file whose page 0 holds the text of a catalog. *)
Lemma openTable_text fs0 tbl sc k :
  readBlock (ensureCapacity 1 fs0) 0 = catalogText tbl sc ++ replicate (S k) x00 ->
  catalogSchema sc ->
  Int32.min_int <= numTuples tbl <= Int32.max_int ->
  Int32.min_int <= nextFreePage tbl <= Int32.max_int ->
  openTable fs0
  = (RC_OK, ensureCapacity 1 fs0,
     Some {| schema := storedSchema sc;
             mgmtData := {| bufferPool := openedPool fs0;
                            numTuples := numTuples tbl;
                            nextFreePage := nextFreePage tbl;
                            recordSize := computeRecordSize sc |} |}).
Proof.
  intros Hblock (Hn & Hnames & Htypes & Hlens & Hcat & Hrange) HnT HnF.
  unfold openTable, readTableInfo.
  change (BM.initBufferPool 3 BM.RS_FIFO)
    with (RC_OK, snd (BM.initBufferPool 3 BM.RS_FIFO)).
  cbv beta iota. simpl rc_ok. simpl negb. cbv iota.
  rewrite pinPage_fresh. simpl rc_ok. simpl negb. cbv iota.
  change (BM.deref _ _) with (readBlock (ensureCapacity 1 fs0) 0).
  change (BM.unpinPage _ _) with (RC_OK, openedPool fs0).
  generalize (openedPool fs0). intros pool.
  rewrite Hblock. simpl replicate.
  rewrite cstr_app_zero by apply catalogText_no_zero.
  unfold catalogText.
  rewrite sscanf_d_d_text; auto.
  2:{ rewrite <- app_assoc. apply skip_ws_sprintf_d. }
  rewrite Nat2Z.id, drop_app_length.
  rewrite sscanf_d_text; auto using skip_ws_lines.
  2:{ unfold Int32.min_int. lia. }
  rewrite Nat2Z.id, drop_app_length.
  rewrite readAttrLines_text.
  2:{ intros j name Hj. eapply Forall_lookup_1; eauto. }
  2:{ intros j l Hj. eapply (Forall_lookup_1 _ _ _ _ Hrange); eauto. }
  2:{ lia. }
  cbv iota beta.
  pose proof (seq_lookup_all [] (attrNames sc) []) as E1.
  pose proof (seq_lookup_all DT_INT (dataTypes sc) []) as E2.
  pose proof (seq_lookup_all 0 (typeLength sc) []) as E3.
  simpl in E1, E2, E3. rewrite Hnames in E1. rewrite Htypes in E2. rewrite Hlens in E3.
  rewrite E1, E2, E3. fold (storedSchema sc).
  now rewrite computeRecordSize_stored.
Qed.

(** The pool of a table that was just opened shows the file. *)
Lemma openedPool_view fs q :
  0 <= q -> BM.view (ensureCapacity 1 fs) (openedPool fs) q = readBlock fs q.
Proof.
  intros Hq. unfold BM.view, BM.viewFrames, openedPool.
  destruct q as [|p|p]; [| |lia]; simpl; apply readBlock_ensureCapacity.
Qed.

Lemma openedPool_noPins fs : BM.noPins (openedPool fs).
Proof.
  intros mgmt j pf Hm Hj. injection Hm as <-. simpl in Hj.
  destruct j as [|[|[|j]]]; simpl in Hj; try discriminate; now injection Hj as <-.
Qed.

(** [createTable] followed by [openTable], for a schema the catalog holds. *)
Lemma createTable_openTable sc :
  catalogSchema sc ->
  Z.of_nat (length (catalogText
                      (freshCatalog sc (snd (BM.initBufferPool 3 BM.RS_FIFO))) sc))
  < PAGE_SIZE ->
  exists fs0 fs rel,
    createTable sc = (RC_OK, fs0) /\
    openTable fs0 = (RC_OK, fs, Some rel) /\
    schema rel = storedSchema sc /\
    numTuples (mgmtData rel) = 0 /\
    nextFreePage (mgmtData rel) = -1 /\
    recordSize (mgmtData rel) = getRecordSize sc /\
    totalNumPages fs = 1 /\
    table_wf fs rel /\ BM.noPins (bufferPool (mgmtData rel)).
Proof.
  intros Hsc Hfit.
  set (tbl := freshCatalog sc (snd (BM.initBufferPool 3 BM.RS_FIFO))) in *.
  set (d0 := readBlock (ensureCapacity 1 createPageFile) 0).
  assert (Hd0 : length d0 = Z.to_nat PAGE_SIZE) by apply length_readBlock.
  pose proof (catalogPage_text d0 tbl sc Hd0 Hfit) as Hpage.
  set (fs0 := writeBlock (ensureCapacity 1 createPageFile) 0 (catalogPage d0 tbl sc)).
  assert (Hblock : readBlock (ensureCapacity 1 fs0) 0
                   = catalogText tbl sc
                     ++ replicate (S (Z.to_nat PAGE_SIZE
                                      - length (catalogText tbl sc) - 1)) x00).
  { rewrite readBlock_ensureCapacity. unfold fs0.
    rewrite readBlock_writeBlock_eq by (try lia; now rewrite length_catalogPage).
    rewrite Hpage. do 2 f_equal. lia. }
  exists fs0, (ensureCapacity 1 fs0). eexists.
  split; [apply createTable_eq|].
  split.
  { apply (openTable_text fs0 tbl sc _ Hblock Hsc);
      unfold Int32.min_int, Int32.max_int; simpl; lia. }
  do 4 (split; [reflexivity|]). split; [|split].
  - rewrite totalNumPages_ensureCapacity. unfold fs0.
    rewrite totalNumPages_writeBlock, totalNumPages_ensureCapacity.
    change (totalNumPages createPageFile) with 1. lia.
  - apply openedPool_wf.
  - apply openedPool_noPins.
Qed.

(** [openTable] after [createTable] recovers the schema that was given,
    but for the key, which the catalog does not hold: the opened table has
    attribute 0 for its key.  It has no tuple and no free page, its file
    has the catalog page only, and no page of its pool is pinned. *)
Theorem open_after_create sc :
  catalogSchema sc ->
  Z.of_nat (length (catalogText
                      (freshCatalog sc (snd (BM.initBufferPool 3 BM.RS_FIFO))) sc))
  < PAGE_SIZE ->
  exists fs0 fs rel,
    createTable sc = (RC_OK, fs0) /\
    openTable fs0 = (RC_OK, fs, Some rel) /\
    schema rel = storedSchema sc /\
    numTuples (mgmtData rel) = 0 /\
    nextFreePage (mgmtData rel) = -1 /\
    recordSize (mgmtData rel) = getRecordSize sc /\
    totalNumPages fs = 1 /\
    table_wf fs rel /\ BM.noPins (bufferPool (mgmtData rel)).
Proof. exact (createTable_openTable sc). Qed.

End CatalogFacts.

(** * No operation of the record manager leaves a page pinned *)

Module PinFacts.
Import Storage RecordMgr StorageFacts PoolFacts Int32Facts MemFacts RecordMgrFacts TableFacts InvFacts OpenFacts PoolOps CatalogFacts.
#[local] Opaque PAGE_SIZE.

Lemma getRecord_noPins fs rel rid out rc fs' rel' rec' :
  table_wf fs rel -> BM.noPins (bufferPool (mgmtData rel)) ->
  getRecord fs rel rid out = (rc, fs', rel', rec') ->
  BM.noPins (bufferPool (mgmtData rel')).
Proof.
  intros Hwf Hno Hget. unfold getRecord in Hget.
  destruct (decide (page rid < 0)) as [Hneg|Hpos].
  { destruct (pinPage_negative fs (bufferPool (mgmtData rel)) BM.nullHandle _ Hneg)
      as (rc0 & Hrc & Hpin).
    rewrite Hpin in Hget. destruct rc0; [congruence| | | | |];
      simpl in Hget; injection Hget as _ _ <- _; exact Hno. }
  assert (Hp : 0 <= page rid) by lia.
  destruct (pinPage_wf fs (bufferPool (mgmtData rel)) BM.nullHandle (page rid) Hwf Hp)
    as (fs1 & bm1 & idx & Hpin & Hwf1 & Hat & _).
  rewrite Hpin in Hget. simpl rc_ok in Hget. simpl negb in Hget. cbv iota in Hget.
  rewrite (unpin_eq bm1 (page rid) idx Hat) in Hget.
  destruct (getSlotFlag _ _ =? 0); injection Hget as _ _ <- _; simpl;
    pins_returned Hno Hpin.
Qed.

Lemma updateRecord_noPins fs rel rec rc fs' rel' :
  table_wf fs rel -> BM.noPins (bufferPool (mgmtData rel)) ->
  updateRecord fs rel rec = (rc, fs', rel') ->
  BM.noPins (bufferPool (mgmtData rel')).
Proof.
  intros Hwf Hno Hupd. unfold updateRecord in Hupd.
  destruct (decide (page (id rec) < 0)) as [Hneg|Hpos].
  { destruct (pinPage_negative fs (bufferPool (mgmtData rel)) BM.nullHandle _ Hneg)
      as (rc0 & Hrc & Hpin).
    rewrite Hpin in Hupd. destruct rc0; [congruence| | | | |];
      simpl in Hupd; injection Hupd as _ _ <-; exact Hno. }
  assert (Hp : 0 <= page (id rec)) by lia.
  destruct (pinPage_wf fs (bufferPool (mgmtData rel)) BM.nullHandle _ Hwf Hp)
    as (fs1 & bm1 & idx & Hpin & Hwf1 & Hat & _).
  rewrite Hpin in Hupd. simpl rc_ok in Hupd. simpl negb in Hupd. cbv iota in Hupd.
  destruct (getSlotFlag _ _ =? 0).
  - rewrite (unpin_eq bm1 _ idx Hat) in Hupd. injection Hupd as _ _ <-. simpl.
    pins_returned Hno Hpin.
  - rewrite assign_eq in Hupd. simpl BM.h_data in Hupd.
    rewrite (markDirty_eq _ (page (id rec)) idx idx) in Hupd by solve_pinned.
    cbv iota beta in Hupd.
    rewrite (unpinPage_eq _ (page (id rec)) idx idx) in Hupd by solve_pinned.
    cbv iota beta in Hupd. rewrite !touch_touch in Hupd.
    injection Hupd as _ _ <-. simpl. pins_returned Hno Hpin.
Qed.

Lemma deleteRecord_noPins fs rel rid rc fs' rel' :
  table_wf fs rel -> BM.noPins (bufferPool (mgmtData rel)) ->
  deleteRecord fs rel rid = (rc, fs', rel') ->
  BM.noPins (bufferPool (mgmtData rel')).
Proof.
  intros Hwf Hno Hdel. unfold deleteRecord in Hdel.
  destruct (decide (page rid < 0)) as [Hneg|Hpos].
  { destruct (pinPage_negative fs (bufferPool (mgmtData rel)) BM.nullHandle _ Hneg)
      as (rc0 & Hrc & Hpin).
    rewrite Hpin in Hdel. destruct rc0; [congruence| | | | |];
      simpl in Hdel; injection Hdel as _ _ <-; exact Hno. }
  assert (Hp : 0 <= page rid) by lia.
  destruct (pinPage_wf fs (bufferPool (mgmtData rel)) BM.nullHandle _ Hwf Hp)
    as (fs1 & bm1 & idx & Hpin & Hwf1 & Hat & _).
  rewrite Hpin in Hdel. simpl rc_ok in Hdel. simpl negb in Hdel. cbv iota in Hdel.
  destruct (getSlotFlag _ _ =? 1).
  - rewrite assign_eq in Hdel. simpl BM.h_data in Hdel.
    rewrite (markDirty_eq _ (page rid) idx idx) in Hdel by solve_pinned.
    cbv iota beta in Hdel.
    rewrite (unpinPage_eq _ (page rid) idx idx) in Hdel by solve_pinned.
    cbv iota beta in Hdel. rewrite !touch_touch in Hdel.
    injection Hdel as _ _ <-.
    destruct (_ =? _ - 1); simpl; pins_returned Hno Hpin.
  - rewrite (markDirty_eq _ (page rid) idx idx) in Hdel by solve_pinned.
    cbv iota beta in Hdel.
    rewrite (unpinPage_eq _ (page rid) idx idx) in Hdel by solve_pinned.
    cbv iota beta in Hdel. rewrite !touch_touch in Hdel.
    injection Hdel as _ _ <-. simpl. pins_returned Hno Hpin.
Qed.

Lemma appendDataPage_noPins fs tbl rc fs' tbl' pn :
  BM.pool_wf fs (bufferPool tbl) -> BM.noPins (bufferPool tbl) ->
  appendDataPage fs tbl = (rc, fs', tbl', pn) ->
  BM.noPins (bufferPool tbl').
Proof.
  intros Hwf Hno Happ. unfold appendDataPage in Happ.
  set (p := totalNumPages fs) in *.
  assert (Hp : 0 <= p) by (unfold p, totalNumPages; lia).
  destruct (pool_wf_file fs (ensureCapacity (p + 1) fs) (bufferPool tbl) Hwf)
    as [Hwf1 _].
  { rewrite totalNumPages_ensureCapacity. lia. }
  { intros q. apply readBlock_ensureCapacity. }
  destruct (pinPage_wf _ (bufferPool tbl) BM.nullHandle p Hwf1 Hp)
    as (fs1 & bm1 & idx & Hpin & _ & Hat & _).
  rewrite Hpin in Happ. simpl rc_ok in Happ. simpl negb in Happ. cbv iota in Happ.
  rewrite assign_eq in Happ. simpl BM.h_data in Happ.
  rewrite (markDirty_eq _ p idx idx) in Happ by solve_pinned. cbv iota beta in Happ.
  rewrite (unpinPage_eq _ p idx idx) in Happ by solve_pinned. cbv iota beta in Happ.
  rewrite !touch_touch in Happ. injection Happ as _ _ <- _. simpl.
  pins_returned Hno Hpin.
Qed.

Lemma insertRecord_noPins fuel : forall fs rel rec rc fs' rel' rec',
  table_wf fs rel -> BM.noPins (bufferPool (mgmtData rel)) ->
  insertRecord fuel fs rel rec = Some (rc, fs', rel', rec') ->
  BM.noPins (bufferPool (mgmtData rel')).
Proof.
  induction fuel as [|fuel IH]; intros fs rel rec rc fs' rel' rec' Hwf Hno Hins;
    [discriminate|].
  simpl insertRecord in Hins.
  destruct (insert_prepare fs rel Hwf)
    as (fs1 & tbl1 & pn & Heq & Hnf & Hpn & Hwf1 & Hv1 & Htot1 & Hn1 & Hr1).
  assert (Hno1 : BM.noPins (bufferPool tbl1)).
  { destruct (nextFreePage (mgmtData rel) <? 1).
    - eapply (appendDataPage_noPins fs (mgmtData rel)); [exact Hwf|exact Hno|exact Heq].
    - now injection Heq as _ <- _. }
  rewrite Heq in Hins. simpl rc_ok in Hins. simpl negb in Hins. cbv iota in Hins.
  assert (Hpn0 : 0 <= pn) by (unfold totalNumPages in Hpn; lia).
  rewrite Hnf in Hins.
  destruct (pinPage_wf fs1 (bufferPool tbl1) BM.nullHandle pn Hwf1 Hpn0)
    as (fs2 & bm2 & idx & Hpin & Hwf2 & Hat & Hv & Htot).
  rewrite Hpin in Hins. simpl rc_ok in Hins. simpl negb in Hins. cbv iota in Hins.
  destruct (findFreeSlot _ _) as [s|].
  - rewrite assign_eq in Hins. simpl BM.h_data in Hins.
    rewrite (markDirty_eq _ pn idx idx) in Hins by solve_pinned. cbv iota beta in Hins.
    rewrite (unpinPage_eq _ pn idx idx) in Hins by solve_pinned. cbv iota beta in Hins.
    rewrite !touch_touch in Hins. injection Hins as _ _ <- _.
    destruct (_ =? _); simpl; pins_returned Hno1 Hpin.
  - rewrite (markDirty_eq _ pn idx idx) in Hins by solve_pinned. cbv iota beta in Hins.
    rewrite (unpinPage_eq _ pn idx idx) in Hins by solve_pinned. cbv iota beta in Hins.
    rewrite !touch_touch in Hins.
    destruct (keep_dirty_unpin fs2 bm2 pn idx Hwf2 Hat Hpn0) as [Hw _].
    refine (IH _ _ _ _ _ _ _ _ _ Hins); [exact Hw|]. simpl. pins_returned Hno1 Hpin.
Qed.

(** Every table a client reaches has no page of its pool pinned: each
    operation of the record manager gives back the pin it took. *)
Lemma reachable_noPins fs rel :
  reachable fs rel -> BM.noPins (bufferPool (mgmtData rel)).
Proof.
  induction 1 as [sc fs0 fs rel Hc Ho
                 | fs rel fuel rec rc fs' rel' rec' Hreach IH Hins
                 | fs rel rid rc fs' rel' Hreach IH Hs Hp Hdel
                 | fs rel rec rc fs' rel' Hreach IH Hs Hupd].
  - destruct (openTable_eq fs0) as (rel0 & Heq & Hpool & _).
    rewrite Heq in Ho. injection Ho as _ <-. rewrite Hpool.
    apply openedPool_noPins.
  - eapply insertRecord_noPins; [|exact IH|exact Hins].
    exact (proj1 (reachable_inv _ _ Hreach)).
  - eapply deleteRecord_noPins; [|exact IH|exact Hdel].
    exact (proj1 (reachable_inv _ _ Hreach)).
  - eapply updateRecord_noPins; [|exact IH|exact Hupd].
    exact (proj1 (reachable_inv _ _ Hreach)).
Qed.

End PinFacts.

(** * Closing a table and opening it again *)

Module CloseFacts.
Import Storage RecordMgr StorageFacts PoolFacts Int32Facts MemFacts RecordMgrFacts TableFacts InvFacts OpenFacts PoolOps Durability CatalogFacts PinFacts.
#[local] Opaque PAGE_SIZE.

Lemma noPins_fixCounts bm bm' :
  BM.getFixCounts bm' = BM.getFixCounts bm -> BM.noPins bm -> BM.noPins bm'.
Proof.
  unfold BM.getFixCounts. intros Heq Hno mgmt' j pf' Hm' Hj. rewrite Hm' in Heq.
  destruct (BM.mgmtData bm) as [mgmt|] eqn:Hm; [|discriminate].
  injection Heq as Heq.
  assert (Hf : map BM.fixCount (BM.frames mgmt') !! j = Some (BM.fixCount pf')).
  { change (map BM.fixCount (BM.frames mgmt')) with (BM.fixCount <$> BM.frames mgmt').
    now rewrite list_lookup_fmap, Hj. }
  rewrite Heq in Hf.
  change (map BM.fixCount (BM.frames mgmt)) with (BM.fixCount <$> BM.frames mgmt) in Hf.
  rewrite list_lookup_fmap in Hf.
  destruct (BM.frames mgmt !! j) as [pf|] eqn:E; [|discriminate].
  simpl in Hf. injection Hf as <-. exact (Hno mgmt j pf Hm E).
Qed.

(** [writeTableInfo] on a table in order: page 0 holds the catalog of the
    table, on the file as in the pool; nothing else changes. *)
Lemma writeTableInfo_spec fs rel :
  table_wf fs rel -> BM.noPins (bufferPool (mgmtData rel)) ->
  1 <= totalNumPages fs ->
  exists fs1 rel1,
    writeTableInfo fs rel = (RC_OK, fs1, rel1) /\
    table_wf fs1 rel1 /\ BM.noPins (bufferPool (mgmtData rel1)) /\
    totalNumPages fs1 = totalNumPages fs /\
    (forall q, 0 <= q ->
       pageView fs1 rel1 q
       = if q =? 0
         then catalogPage (pageView fs rel 0) (mgmtData rel) (schema rel)
         else pageView fs rel q) /\
    readBlock fs1 0 = catalogPage (pageView fs rel 0) (mgmtData rel) (schema rel) /\
    numTuples (mgmtData rel1) = numTuples (mgmtData rel) /\
    nextFreePage (mgmtData rel1) = nextFreePage (mgmtData rel) /\
    recordSize (mgmtData rel1) = recordSize (mgmtData rel) /\
    schema rel1 = schema rel.
Proof.
  intros Hwf Hno Htot. unfold writeTableInfo.
  destruct (pinPage_wf fs (bufferPool (mgmtData rel)) BM.nullHandle 0 Hwf ltac:(lia))
    as (fs' & bm' & idx & Hpin & Hwf' & Hat & Hv & Htot').
  rewrite Hpin. simpl rc_ok. simpl negb. cbv iota.
  destruct (view_pinned fs' bm' 0 idx Hwf' Hat ltac:(lia)) as [Hderef Hlen].
  rewrite Hderef, (Hv 0) by lia.
  change (BM.view fs (bufferPool (mgmtData rel)) 0) with (pageView fs rel 0).
  set (d := catalogPage _ _ _).
  rewrite assign_eq. simpl BM.h_data.
  rewrite (markDirty_eq _ 0 idx idx) by solve_pinned. cbv iota beta.
  rewrite (unpinPage_eq _ 0 idx idx) by solve_pinned. cbv iota beta.
  rewrite !touch_touch.
  destruct (write_dirty_unpin fs' bm' 0 idx d Hwf' Hat ltac:(lia)) as [Hw Hk].
  { unfold d. rewrite length_catalogPage. unfold pageView.
    rewrite <- (Hv 0) by lia. exact Hlen. }
  set (bmT := BM.touch _ idx bm') in *.
  assert (HatT : BM.pinned_at bmT 0 idx).
  { unfold bmT. apply pinned_at_touch; [|exact Hat].
    intros pf. unfold compose. now rewrite (proj1 (unpinFrame_keeps _)). }
  assert (HnoT : BM.noPins bmT) by (unfold bmT; pins_returned Hno Hpin).
  destruct (forcePage_spec fs' bmT 0 idx idx Hw HatT ltac:(lia))
    as (fs1 & bm1 & Hforce & Hwf1 & Hblock & _ & Hview1 & Htot1 & Hfix).
  unfold BM.setDirtyFrame in *. fold bmT. rewrite Hforce.
  exists fs1. eexists. split; [reflexivity|]. split; [exact Hwf1|].
  split; [simpl; exact (noPins_fixCounts _ _ Hfix HnoT)|].
  split; [lia|]. split; [|split; [|simpl; auto]].
  - intros q Hq. unfold pageView at 1. simpl. rewrite Hview1, Hk by exact Hq.
    destruct (q =? 0); [reflexivity|]. apply Hv. exact Hq.
  - rewrite Hblock, Hk by lia. reflexivity.
Qed.

(** [closeTable] on a table in order without a pinned page writes the
    catalog and every page to the file and releases the table;
    [openTable] on that file yields a table with the same schema (but for
    the key, which becomes attribute 0), the same counters and the same
    contents of every data page. *)
Theorem close_then_open fs rel :
  table_wf fs rel -> BM.noPins (bufferPool (mgmtData rel)) ->
  1 <= totalNumPages fs ->
  catalogSchema (schema rel) ->
  Int32.min_int <= numTuples (mgmtData rel) <= Int32.max_int ->
  Int32.min_int <= nextFreePage (mgmtData rel) <= Int32.max_int ->
  Z.of_nat (length (catalogText (mgmtData rel) (schema rel))) < PAGE_SIZE ->
  exists fs1 fs2 rel2,
    closeTable fs rel = (RC_OK, fs1, None) /\
    openTable fs1 = (RC_OK, fs2, Some rel2) /\
    schema rel2 = storedSchema (schema rel) /\
    numTuples (mgmtData rel2) = numTuples (mgmtData rel) /\
    nextFreePage (mgmtData rel2) = nextFreePage (mgmtData rel) /\
    recordSize (mgmtData rel2) = getRecordSize (schema rel) /\
    totalNumPages fs2 = totalNumPages fs /\
    table_wf fs2 rel2 /\ BM.noPins (bufferPool (mgmtData rel2)) /\
    forall q, 1 <= q -> pageView fs2 rel2 q = pageView fs rel q.
Proof.
  intros Hwf Hno Htot Hsc HnT HnF Hfit.
  destruct (writeTableInfo_spec fs rel Hwf Hno Htot)
    as (fs1 & rel1 & Hw & Hwf1 & Hno1 & Htot1 & Hview1 & _ & _ & _ & _ & _).
  destruct (shutdownBufferPool_spec fs1 (bufferPool (mgmtData rel1)) Hwf1 Hno1)
    as (fs2 & bm2 & Hshut & _ & Htot2 & Hdisk).
  pose proof (pageView_length fs rel 0 Hwf ltac:(lia)) as Hlen0.
  pose proof (catalogPage_text _ (mgmtData rel) (schema rel) Hlen0 Hfit) as Hpage.
  assert (Hblock : readBlock (ensureCapacity 1 fs2) 0
                   = catalogText (mgmtData rel) (schema rel)
                     ++ replicate (S (Z.to_nat PAGE_SIZE
                          - length (catalogText (mgmtData rel) (schema rel)) - 1)) x00).
  { rewrite readBlock_ensureCapacity, Hdisk by lia.
    fold (pageView fs1 rel1 0). rewrite Hview1 by lia.
    change (0 =? 0) with true. cbv iota.
    rewrite Hpage. do 2 f_equal. lia. }
  exists fs2, (ensureCapacity 1 fs2). eexists.
  split.
  { unfold closeTable. rewrite Hw. simpl rc_ok. simpl negb. cbv iota.
    rewrite Hshut. reflexivity. }
  split; [exact (openTable_text fs2 _ _ _ Hblock Hsc HnT HnF)|].
  do 4 (split; [reflexivity|]).
  split; [rewrite totalNumPages_ensureCapacity; lia|].
  split; [apply openedPool_wf|]. split; [apply openedPool_noPins|].
  intros q Hq. unfold pageView at 1. simpl bufferPool.
  rewrite openedPool_view, Hdisk by lia.
  fold (pageView fs1 rel1 q). rewrite Hview1 by lia.
  replace (q =? 0) with false by (symmetry; apply Z.eqb_neq; lia). reflexivity.
Qed.

(** [closeTable] on a table in order without a pinned page. *)
Lemma closeTable_ok fs rel :
  table_wf fs rel -> BM.noPins (bufferPool (mgmtData rel)) ->
  1 <= totalNumPages fs ->
  exists fs1, closeTable fs rel = (RC_OK, fs1, None).
Proof.
  intros Hwf Hno Htot.
  destruct (writeTableInfo_spec fs rel Hwf Hno Htot)
    as (fs1 & rel1 & Hw & Hwf1 & Hno1 & _).
  destruct (shutdownBufferPool_spec fs1 (bufferPool (mgmtData rel1)) Hwf1 Hno1)
    as (fs2 & bm2 & Hshut & _).
  exists fs2. unfold closeTable.
  rewrite Hw. simpl rc_ok. simpl negb. cbv iota. now rewrite Hshut.
Qed.

(** No operation of the record manager leaks a pin: in every table a
    client reaches from [createTable] no page of the pool is pinned, and
    [closeTable], which fails on a pinned page, succeeds whenever the
    catalog fits its page. *)
Theorem reachable_table_closes fs rel :
  reachable fs rel ->
  catalogSchema (schema rel) ->
  Z.of_nat (length (catalogText (mgmtData rel) (schema rel))) < PAGE_SIZE ->
  BM.noPins (bufferPool (mgmtData rel)) /\
  exists fs1, closeTable fs rel = (RC_OK, fs1, None).
Proof.
  intros Hreach _ _.
  pose proof (reachable_noPins fs rel Hreach) as Hno.
  destruct (reachable_inv fs rel Hreach) as (Hwf & Htot & _).
  split; [exact Hno|]. exact (closeTable_ok fs rel Hwf Hno Htot).
Qed.

End CloseFacts.

(** * The tests of test_assign3_2.c *)

Module TestFacts.
Import Storage RecordMgr TestAssign3 StorageFacts PoolFacts Int32Facts MemFacts RecordMgrFacts PageFacts TableFacts InvFacts OpenFacts PoolOps Durability RecordOps CatalogFacts PinFacts CloseFacts.

Lemma catalogName_letter c :
  c <> x00 -> isspace c = false -> catalogName [c].
Proof.
  intros H0 Hs. split; [discriminate|]. split; [|simpl; lia].
  constructor; [auto|constructor].
Qed.

Lemma simpleSchema_catalog : catalogSchema simpleSchema.
Proof.
  unfold catalogSchema, simpleSchema, Int32.max_int, Int32.min_int. simpl.
  split; [lia|]. do 3 (split; [reflexivity|]). split.
  - constructor; [|constructor]. apply catalogName_letter; [discriminate|reflexivity].
  - constructor; [lia|constructor].
Qed.

Lemma randSchema_catalog : catalogSchema randSchema.
Proof.
  unfold catalogSchema, randSchema, Int32.max_int, Int32.min_int. simpl.
  split; [lia|]. do 3 (split; [reflexivity|]). split.
  - constructor; [|constructor; [|constructor]];
      (apply catalogName_letter; [discriminate|reflexivity]).
  - constructor; [lia|constructor; [lia|constructor]].
Qed.

(** [getRecord] of the RID that [insertRecord] assigned. *)
Lemma insert_get fs rel rec out :
  table_wf fs rel ->
  0 < computeMaxSlots (recordSize (mgmtData rel)) ->
  length (data rec) = Z.to_nat (recordSize (mgmtData rel)) ->
  length (data out) = Z.to_nat (recordSize (mgmtData rel)) ->
  exists fs1 rel1 rid fs2 rel2,
    insertRecord 2 fs rel rec
    = Some (RC_OK, fs1, rel1, {| id := rid; data := data rec |}) /\
    getRecord fs1 rel1 rid out = (RC_OK, fs2, rel2, {| id := rid; data := data rec |}) /\
    table_wf fs1 rel1 /\ table_wf fs2 rel2 /\
    totalNumPages fs <= totalNumPages fs1 /\
    totalNumPages fs1 <= totalNumPages fs2.
Proof.
  intros Hwf HN Hrec Hout.
  destruct (insertRecord_total 0 fs rel rec Hwf HN) as [res Hins].
  destruct (insertRecord_spec _ fs rel rec res Hwf Hins)
    as (fs1 & rel1 & p & s & -> & Hwf1 & Hp0 & _ & Hs & _ & Hview & _ & _ & HR
        & _ & Htot & _).
  destruct (getRecord_spec fs1 rel1 {| page := p; slot := s |} out Hwf1 Hp0)
    as (fs2 & rel2 & Hget & Hwf2 & _ & Htot2).
  simpl page in Hget. simpl slot in Hget.
  rewrite (Hview p Hp0), Z.eqb_refl, HR in Hget.
  pose proof (pageView_length fs rel p Hwf Hp0) as Hlen.
  rewrite (placeRecord_flag _ _ Hlen) in Hget by exact Hs.
  rewrite Z.eqb_refl in Hget. simpl in Hget.
  rewrite (placeRecord_payload _ _ Hlen) in Hget by auto.
  rewrite memcpy_to_all in Hget by auto.
  exists fs1, rel1, {| page := p; slot := s |}, fs2, rel2.
  repeat split; auto. simpl page in Htot2. lia.
Qed.

(** [simpleTableTest] passes whatever value stands for 42: every
    [TEST_CHECK] succeeds, [closeTable] included, and the attribute read
    back is the value that was stored. *)
Theorem simpleTableTest_passes v :
  Int32.min_int <= v <= Int32.max_int ->
  simpleTableTest v = Some (V_INT v).
Proof.
  intros Hv. unfold simpleTableTest.
  destruct (createTable_openTable simpleSchema simpleSchema_catalog)
    as (fs0 & fs & rel & Hc & Ho & Hsch & HnT & HnF & HR & Htot & Hwf & Hno).
  { vm_compute. reflexivity. }
  rewrite Hc, Ho.
  change (getRecordSize simpleSchema) with 4 in HR.
  change (createRecord simpleSchema)
    with (RC_OK, {| id := {| page := -1; slot := -1 |};
                    data := [x00; x00; x00; x00] |}).
  cbv iota beta.
  assert (Hset : setAttr {| id := {| page := -1; slot := -1 |};
                            data := [x00; x00; x00; x00] |} simpleSchema 0 (V_INT v)
                 = (RC_OK, {| id := {| page := -1; slot := -1 |};
                              data := Int32.encode v |})).
  { unfold setAttr. simpl. reflexivity. }
  rewrite Hset.
  destruct (insert_get fs rel
              {| id := {| page := -1; slot := -1 |}; data := Int32.encode v |}
              {| id := {| page := -1; slot := -1 |}; data := [x00; x00; x00; x00] |}
              Hwf)
    as (fs1 & rel1 & rid & fs2 & rel2 & Hins & Hget & Hwf1 & Hwf2 & Ht1 & Ht2);
    try (rewrite HR; reflexivity).
  rewrite Hins. simpl id. rewrite Hget.
  assert (Hattr : getAttr {| id := rid; data := Int32.encode v |} simpleSchema 0
                  = (RC_OK, V_INT v)).
  { unfold getAttr. simpl.
    change (Mem.memcpy_from (Int32.encode v) 0 4) with (Int32.encode v).
    now rewrite decode_encode, wrap_small. }
  simpl data. rewrite Hattr.
  destruct (closeTable_ok fs2 rel2 Hwf2) as [fs3 Hclose]; [|lia|].
  - eapply getRecord_noPins; [exact Hwf1| |exact Hget].
    eapply insertRecord_noPins; [exact Hwf|exact Hno|exact Hins].
  - now rewrite Hclose.
Qed.

(** *** The insertion loop *)

Lemma randRecord_eq a b :
  randRecord randSchema a b
  = Some {| id := {| page := -1; slot := -1 |};
            data := Int32.encode a ++ Int32.encode b |}.
Proof. reflexivity. Qed.

Lemma randRecord_attrs rid a b :
  Int32.min_int <= a <= Int32.max_int ->
  Int32.min_int <= b <= Int32.max_int ->
  getAttr {| id := rid; data := Int32.encode a ++ Int32.encode b |} randSchema 0
  = (RC_OK, V_INT a) /\
  getAttr {| id := rid; data := Int32.encode a ++ Int32.encode b |} randSchema 1
  = (RC_OK, V_INT b).
Proof.
  intros Ha Hb.
  assert (E0 : getAttr {| id := rid; data := Int32.encode a ++ Int32.encode b |}
                 randSchema 0
               = (RC_OK, V_INT (Int32.decode (Int32.encode a)))) by reflexivity.
  assert (E1 : getAttr {| id := rid; data := Int32.encode a ++ Int32.encode b |}
                 randSchema 1
               = (RC_OK, V_INT (Int32.decode (Int32.encode b)))) by reflexivity.
  rewrite E0, E1. now rewrite !decode_encode, !wrap_small.
Qed.

(** The state of the slots after the loop, relative to the table it
    started on. *)
Lemma insertLoop_slots vals : forall fs table,
  table_wf fs table -> 1 <= totalNumPages fs ->
  recordSize (mgmtData table) = 8 ->
  Int32.min_int <= numTuples (mgmtData table) <= Int32.max_int ->
  exists fs' table' rids,
    insertLoop randSchema fs table vals = Some (fs', table', rids) /\
    table_wf fs' table' /\
    recordSize (mgmtData table') = 8 /\
    numTuples (mgmtData table')
    = Int32.wrap (numTuples (mgmtData table) + Z.of_nat (length vals)) /\
    (forall p s, 0 <= p -> 0 <= s < computeMaxSlots 8 ->
       getSlotFlag (pageView fs table p) s = 1 ->
       getSlotFlag (pageView fs' table' p) s = 1 /\
       payloadOf 8 (pageView fs' table' p) s = payloadOf 8 (pageView fs table p) s) /\
    Forall2 (fun rid ab =>
               0 <= page rid /\ 0 <= slot rid < computeMaxSlots 8 /\
               getSlotFlag (pageView fs table (page rid)) (slot rid) = 0 /\
               getSlotFlag (pageView fs' table' (page rid)) (slot rid) = 1 /\
               payloadOf 8 (pageView fs' table' (page rid)) (slot rid)
               = Int32.encode (fst ab) ++ Int32.encode (snd ab))
            rids vals /\
    NoDup rids.
Proof.
  assert (HN : 0 < computeMaxSlots 8) by (vm_compute; reflexivity).
  induction vals as [|[a b] vals IH]; intros fs table Hwf Htot HR HnT.
  - exists fs, table, []. split; [reflexivity|]. split; [exact Hwf|].
    split; [exact HR|]. split.
    { simpl. rewrite Z.add_0_r. symmetry. now apply wrap_small. }
    split; [auto|]. split; constructor.
  - cbn [insertLoop]. rewrite randRecord_eq.
    destruct (insertRecord_frame 0 fs table
                {| id := {| page := -1; slot := -1 |};
                   data := Int32.encode a ++ Int32.encode b |} Hwf Htot)
      as (fs1 & table1 & p & s & Hins & Hwf1 & HR1 & Hmono & Hp & Hs & Hfree
          & Hused & Hpay & _ & Hnum & Hframe);
      try (rewrite HR; (exact HN || reflexivity)).
    rewrite HR in *. simpl data in *.
    rewrite Hins.
    destruct (IH fs1 table1 Hwf1 ltac:(lia) HR1)
      as (fs' & table' & rids & Hloop & Hwf' & HR' & Hnum' & Hkeep & Hall
          & Hnodup).
    { rewrite Hnum. apply wrap_range. }
    rewrite Hloop. simpl id.
    exists fs', table', ({| page := p; slot := s |} :: rids).
    split; [reflexivity|]. split; [exact Hwf'|]. split; [exact HR'|].
    split.
    { rewrite Hnum', Hnum. unfold Int32.add. rewrite wrap_wrap_add.
      f_equal. simpl length. lia. }
    split.
    { intros q s' Hq Hs' Hone.
      assert (Hne : (q, s') <> (p, s)).
      { intros E. injection E as -> ->. congruence. }
      destruct (Hframe q s' Hq Hs' Hne) as [Hf Hp'].
      destruct (Hkeep q s' Hq Hs') as [Hf' Hp'']; [congruence|].
      split; [exact Hf'|congruence]. }
    assert (Hfresh : Forall (fun rid =>
              getSlotFlag (pageView fs1 table1 (page rid)) (slot rid) = 0) rids).
    { eapply Forall2_Forall_l; [exact Hall|]. apply Forall_forall.
      intros ab _ rid (_ & _ & Hrfree & _). exact Hrfree. }
    split; [|constructor; [|exact Hnodup]];
      [|intros Hin; apply (proj1 (Forall_forall _ _) Hfresh) in Hin;
        simpl in Hin; congruence].
    constructor.
    + simpl. destruct (Hkeep p s ltac:(lia) Hs Hused) as [Hf' Hp''].
      repeat split; try lia; auto. congruence.
    + eapply Forall2_impl; [exact Hall|].
      intros rid [a' b'] (Hrp & Hrs & Hrfree & Hrused & Hrpay). simpl in *.
      assert (Hne : (page rid, slot rid) <> (p, s)).
      { intros E. injection E as E1 E2. rewrite E1, E2 in Hrfree. congruence. }
      destruct (Hframe (page rid) (slot rid) Hrp Hrs Hne) as [Hf _].
      repeat split; auto; try lia; congruence.
Qed.

(** The insertion loop of [testRandomInsertsAndDeletes], whatever values
    the test draws: every [TEST_CHECK] succeeds; [getNumTuples] has grown
    by the number of records (the assertion of the test, for a table that
    was empty); the RIDs collected are pairwise different; and [getRecord]
    on each of them yields the two values of its record. *)
Theorem insertLoop_readback fs table vals :
  table_wf fs table -> 1 <= totalNumPages fs ->
  recordSize (mgmtData table) = getRecordSize randSchema ->
  Int32.min_int <= numTuples (mgmtData table) <= Int32.max_int ->
  Forall (fun ab => Int32.min_int <= fst ab <= Int32.max_int /\
                    Int32.min_int <= snd ab <= Int32.max_int) vals ->
  exists fs' table' rids,
    insertLoop randSchema fs table vals = Some (fs', table', rids) /\
    length rids = length vals /\
    getNumTuples table'
    = Int32.wrap (getNumTuples table + Z.of_nat (length vals)) /\
    NoDup rids /\
    forall i rid a b out,
      rids !! i = Some rid -> vals !! i = Some (a, b) ->
      length (data out) = Z.to_nat (getRecordSize randSchema) ->
      exists fs2 table2 rec,
        getRecord fs' table' rid out = (RC_OK, fs2, table2, rec) /\
        id rec = rid /\
        getAttr rec randSchema 0 = (RC_OK, V_INT a) /\
        getAttr rec randSchema 1 = (RC_OK, V_INT b).
Proof.
  change (getRecordSize randSchema) with 8.
  intros Hwf Htot HR HnT Hvals.
  destruct (insertLoop_slots vals fs table Hwf Htot HR HnT)
    as (fs' & table' & rids & Hloop & Hwf' & HR' & Hnum & _ & Hall & Hnodup).
  exists fs', table', rids. split; [exact Hloop|].
  split; [eapply Forall2_length; eauto|]. split; [exact Hnum|].
  split; [exact Hnodup|].
  - intros i rid a b out Hi Hv Hout.
    destruct (Forall2_lookup_lr _ _ _ _ _ _ Hall Hi Hv)
      as (Hp & Hs & _ & Hused & Hpay).
    pose proof (proj1 (Forall_lookup _ _) Hvals i (a, b) Hv) as [Ha Hb].
    simpl in *.
    destruct (getRecord_spec fs' table' rid out Hwf' Hp)
      as (fs2 & table2 & Hget & _).
    rewrite Hused, HR', Hpay in Hget. simpl in Hget.
    rewrite memcpy_to_all in Hget by (auto; reflexivity).
    exists fs2, table2. eexists. split; [exact Hget|].
    split; [now destruct rid|]. apply randRecord_attrs; auto.
Qed.

End TestFacts.

(** * A scan to its end *)

Module ScanCount.
Import Storage RecordMgr TestAssign3 StorageFacts PoolFacts Int32Facts MemFacts RecordMgrFacts PageFacts TableFacts InvFacts OpenFacts ScanFacts.
#[local] Opaque PAGE_SIZE.

Local Abbreviation matchAt cnd fs rel p s :=
  (scanMatch (schema rel) cnd (recordSize (mgmtData rel)) (pageView fs rel p) p s).

Local Abbreviation slotsOf rel := (computeMaxSlots (recordSize (mgmtData rel))).

Lemma sumZ_zero n f : (forall i, (i < n)%nat -> f i = 0) -> sumZ f n = 0.
Proof.
  intros H. rewrite (sumZ_tail 0 n f); [reflexivity|lia|].
  intros i Hi. apply H. lia.
Qed.

Lemma sumZ_mono f n m :
  (n <= m)%nat -> (forall i, 0 <= f i) -> sumZ f n <= sumZ f m.
Proof.
  intros Hle Hf. induction Hle as [|m Hle IH]; [lia|].
  simpl. specialize (Hf m). lia.
Qed.

Lemma slotMatches_S cnd fs rel p n :
  slotMatches cnd fs rel p (S n)
  = slotMatches cnd fs rel p n + (if matchAt cnd fs rel p (Z.of_nat n) then 1 else 0).
Proof. reflexivity. Qed.

Lemma pageMatches_S cnd fs rel n :
  pageMatches cnd fs rel (S n)
  = pageMatches cnd fs rel n
    + slotMatches cnd fs rel (Z.of_nat (S n)) (Z.to_nat (slotsOf rel)).
Proof. reflexivity. Qed.

Lemma slotMatches_tail cnd fs rel p a b :
  (a <= b)%nat ->
  (forall i, (a <= i < b)%nat -> matchAt cnd fs rel p (Z.of_nat i) = false) ->
  slotMatches cnd fs rel p b = slotMatches cnd fs rel p a.
Proof.
  intros Hle H. unfold slotMatches. apply sumZ_tail; [exact Hle|].
  intros i Hi. now rewrite H.
Qed.

Lemma pageMatches_tail cnd fs rel a b :
  (a <= b)%nat ->
  (forall i s, (a <= i < b)%nat -> 0 <= s < slotsOf rel ->
     matchAt cnd fs rel (Z.of_nat (S i)) s = false) ->
  pageMatches cnd fs rel b = pageMatches cnd fs rel a.
Proof.
  intros Hle H. unfold pageMatches. apply sumZ_tail; [exact Hle|].
  intros i Hi. unfold slotMatches. apply sumZ_zero.
  intros k Hk. rewrite H; [reflexivity|exact Hi|lia].
Qed.

Lemma slotMatches_mono cnd fs rel p a b :
  (a <= b)%nat -> slotMatches cnd fs rel p a <= slotMatches cnd fs rel p b.
Proof.
  intros Hle. unfold slotMatches. apply sumZ_mono; [exact Hle|].
  intros i. destruct (scanMatch _ _ _ _ _ _); lia.
Qed.

Lemma pageMatches_mono cnd fs rel a b :
  (a <= b)%nat -> pageMatches cnd fs rel a <= pageMatches cnd fs rel b.
Proof.
  intros Hle. unfold pageMatches. apply sumZ_mono; [exact Hle|].
  intros i. apply (slotMatches_mono cnd fs rel _ 0). lia.
Qed.

(** No slot of a page past the end of the file matches. *)
Lemma matches_beyond cnd fs rel p s :
  table_wf fs rel -> totalNumPages fs <= p -> 0 <= p ->
  matchAt cnd fs rel p s = false.
Proof.
  intros Hwf Hp Hp0. unfold scanMatch.
  rewrite (pageView_beyond fs rel p Hwf Hp Hp0).
  now rewrite getSlotFlag_zeroPage.
Qed.

(** The data pages up to a bound past the end of the file. *)
Lemma tableMatches_upto cnd fs rel n :
  table_wf fs rel -> (Z.to_nat (totalNumPages fs - 1) <= n)%nat ->
  pageMatches cnd fs rel n = tableMatches cnd fs rel.
Proof.
  intros Hwf Hn. unfold tableMatches. apply pageMatches_tail; [exact Hn|].
  intros i s Hi _. apply matches_beyond; [exact Hwf|lia|lia].
Qed.

(** A call of [next] that hands out a record moves the scan past one
    match. *)
Lemma matchesBefore_step cnd fs rel cp cs p' s' :
  1 <= cp -> 0 <= cs <= Z.max 0 (slotsOf rel) ->
  scanPosLe cp cs p' (s' - 1) -> 0 <= s' - 1 < slotsOf rel ->
  matchAt cnd fs rel p' (s' - 1) = true ->
  (forall p s, scanPosLe cp cs p s -> 0 <= s < slotsOf rel ->
               ~ scanPosLe p' (s' - 1) p s -> matchAt cnd fs rel p s = false) ->
  matchesBefore cnd fs rel p' s' = matchesBefore cnd fs rel cp cs + 1.
Proof.
  intros Hcp Hcs Hle Hs' Hm Hnone. unfold matchesBefore.
  replace (Z.to_nat s') with (S (Z.to_nat (s' - 1))) by lia.
  rewrite slotMatches_S, Z2Nat.id, Hm by lia.
  destruct Hle as [Hlt | [-> Hge]].
  - rewrite (slotMatches_tail cnd fs rel p' 0 (Z.to_nat (s' - 1))); [|lia|].
    2: { intros i Hi. apply Hnone; [left; lia|lia|intros [H|[_ H]]; lia]. }
    rewrite (pageMatches_tail cnd fs rel (S (Z.to_nat (cp - 1))) (Z.to_nat (p' - 1)));
      [|lia|].
    2: { intros i s Hi Hs. apply Hnone; [left; lia|lia|intros [H|[H _]]; lia]. }
    rewrite pageMatches_S.
    replace (Z.of_nat (S (Z.to_nat (cp - 1)))) with cp by lia.
    rewrite (slotMatches_tail cnd fs rel cp (Z.to_nat cs) (Z.to_nat (slotsOf rel)));
      [|lia|].
    2: { intros i Hi. apply Hnone; [right; lia|lia|intros [H|[H _]]; lia]. }
    change (slotMatches cnd fs rel p' 0) with 0. lia.
  - rewrite (slotMatches_tail cnd fs rel cp (Z.to_nat cs) (Z.to_nat (s' - 1)));
      [lia|lia|].
    intros i Hi. apply Hnone; [right; lia|lia|intros [H|[_ H]]; lia].
Qed.

(** A call of [next] that finds no record: the scan was past every match. *)
Lemma matchesBefore_end cnd fs rel cp cs :
  table_wf fs rel -> 1 <= cp -> 0 <= cs <= Z.max 0 (slotsOf rel) ->
  (forall p s, scanPosLe cp cs p s -> 0 <= s < slotsOf rel ->
               matchAt cnd fs rel p s = false) ->
  tableMatches cnd fs rel = matchesBefore cnd fs rel cp cs.
Proof.
  intros Hwf Hcp Hcs Hnone. unfold matchesBefore.
  set (M := Nat.max (Z.to_nat (totalNumPages fs - 1)) (S (Z.to_nat (cp - 1)))).
  rewrite <- (tableMatches_upto cnd fs rel M Hwf) by lia.
  rewrite (pageMatches_tail cnd fs rel (S (Z.to_nat (cp - 1))) M); [|lia|].
  2: { intros i s Hi Hs. apply Hnone; [left; lia|lia]. }
  rewrite pageMatches_S.
  replace (Z.of_nat (S (Z.to_nat (cp - 1)))) with cp by lia.
  rewrite (slotMatches_tail cnd fs rel cp (Z.to_nat cs) (Z.to_nat (slotsOf rel)));
    [reflexivity|lia|].
  intros i Hi. apply Hnone; [right; lia|lia].
Qed.

Lemma matchesBefore_le cnd fs rel cp cs :
  table_wf fs rel -> 1 <= cp -> 0 <= cs <= Z.max 0 (slotsOf rel) ->
  matchesBefore cnd fs rel cp cs <= tableMatches cnd fs rel.
Proof.
  intros Hwf Hcp Hcs. unfold matchesBefore.
  set (M := Nat.max (Z.to_nat (totalNumPages fs - 1)) (S (Z.to_nat (cp - 1)))).
  rewrite <- (tableMatches_upto cnd fs rel M Hwf) by lia.
  pose proof (pageMatches_mono cnd fs rel (S (Z.to_nat (cp - 1))) M ltac:(lia)) as H1.
  rewrite pageMatches_S in H1.
  replace (Z.of_nat (S (Z.to_nat (cp - 1)))) with cp in H1 by lia.
  pose proof (slotMatches_mono cnd fs rel cp (Z.to_nat cs) (Z.to_nat (slotsOf rel))
                ltac:(lia)) as H2.
  lia.
Qed.

Lemma same_table_matchAt cnd fs0 rel0 fs rel p s :
  same_table fs0 rel0 fs rel -> 0 <= p ->
  matchAt cnd fs rel p s = matchAt cnd fs0 rel0 p s.
Proof.
  intros (Hv & _ & _ & HR & Hsch) Hp. now rewrite (Hv p Hp), HR, Hsch.
Qed.

Lemma same_table_trans fs0 rel0 fs1 rel1 fs2 rel2 :
  same_table fs0 rel0 fs1 rel1 -> same_table fs1 rel1 fs2 rel2 ->
  same_table fs0 rel0 fs2 rel2.
Proof.
  intros (H1 & H2 & H3 & H4 & H5) (G1 & G2 & G3 & G4 & G5).
  split; [intros q Hq; now rewrite G1, H1|]. repeat split; congruence.
Qed.

(** The counting loop from a position of the scan: it adds the matches
    that are left. *)
Lemma countLoop_spec cnd fs0 rel0 pages : forall fuel fs rel cp cs temp c,
  table_wf fs0 rel0 -> table_wf fs rel -> same_table fs0 rel0 fs rel ->
  totalNumPages fs0 <= totalNumPages fs <= Z.max (totalNumPages fs0) 2 ->
  (Z.to_nat (Z.max (totalNumPages fs0) 2 - 1) < pages)%nat ->
  1 <= cp <= Z.max (totalNumPages fs0) 2 - 1 ->
  0 <= cs <= Z.max 0 (slotsOf rel0) ->
  length (data temp) = Z.to_nat (recordSize (mgmtData rel0)) ->
  Int32.wrap c = c ->
  (Z.to_nat (tableMatches cnd fs0 rel0 - matchesBefore cnd fs0 rel0 cp cs) < fuel)%nat ->
  exists fs' rel' scan',
    countLoop fuel pages fs rel
      {| currentPage := cp; currentSlot := cs; cond := cnd |} temp c
    = Some (Int32.wrap (c + (tableMatches cnd fs0 rel0
                             - matchesBefore cnd fs0 rel0 cp cs)),
            fs', rel', scan') /\
    table_wf fs' rel' /\ same_table fs0 rel0 fs' rel' /\
    totalNumPages fs' = Z.max (totalNumPages fs) (cp + 1).
Proof.
  induction fuel as [|fuel IH];
    intros fs rel cp cs temp c Hwf0 Hwf Hsame Htot Hpages Hcp Hcs Hlen Hc Hfuel;
    [lia|].
  cbn [countLoop].
  pose proof Hsame as (Hv & _ & _ & HR & Hsch).
  pose proof (next_spec pages fs rel cp cs cnd temp Hwf ltac:(lia) ltac:(lia)
                ltac:(now rewrite HR) ltac:(lia)) as Hn.
  cbv zeta in Hn.
  destruct Hn as (rc & fs1 & rel1 & p' & s' & temp1 & Hnext & Hwf1 & Hsame1 & Htot1
                  & Hlen1 & Hcase).
  rewrite Hnext.
  destruct Hcase as [(-> & Hle & Hs' & Hm & _ & Hnone) | (-> & Hnone)].
  - assert (Hp0 : 1 <= p') by (destruct Hle as [H|[-> _]]; lia).
    rewrite (same_table_matchAt cnd fs0 rel0 fs rel p' _ Hsame) in Hm by lia.
    assert (Hnone0 : forall p s, scanPosLe cp cs p s -> 0 <= s < slotsOf rel0 ->
                       ~ scanPosLe p' (s' - 1) p s -> matchAt cnd fs0 rel0 p s = false).
    { intros p s Hps Hs Hnot.
      rewrite <- (same_table_matchAt cnd fs0 rel0 fs rel p s Hsame)
        by (destruct Hps as [H|[-> _]]; lia).
      rewrite <- HR in Hs. now apply Hnone. }
    rewrite HR in Hs', Hlen1.
    pose proof (matchesBefore_step cnd fs0 rel0 cp cs p' s' ltac:(lia) Hcs Hle Hs'
                  Hm Hnone0) as Hstep.
    assert (Hp' : p' < totalNumPages fs0).
    { destruct (decide (p' < totalNumPages fs0)) as [H|H]; [exact H|].
      rewrite (matches_beyond cnd fs0 rel0 p' (s' - 1) Hwf0) in Hm by lia.
      discriminate. }
    pose proof (matchesBefore_le cnd fs0 rel0 p' s' Hwf0 Hp0 ltac:(lia)) as Hle'.
    destruct (IH fs1 rel1 p' s' temp1 (Int32.add c 1) Hwf0 Hwf1
                (same_table_trans _ _ _ _ _ _ Hsame Hsame1)
                ltac:(lia) Hpages ltac:(lia) ltac:(lia) Hlen1
                ltac:(apply wrap_small, wrap_range) ltac:(lia))
      as (fs' & rel' & scan' & Heq & Hwf' & Hsame' & Htot').
    exists fs', rel', scan'. rewrite Heq.
    split; [|split; [exact Hwf'|split; [exact Hsame'|lia]]].
    do 4 f_equal. unfold Int32.add. rewrite wrap_wrap_add. f_equal. lia.
  - assert (Hnone0 : forall p s, scanPosLe cp cs p s -> 0 <= s < slotsOf rel0 ->
                       matchAt cnd fs0 rel0 p s = false).
    { intros p s Hps Hs.
      rewrite <- (same_table_matchAt cnd fs0 rel0 fs rel p s Hsame)
        by (destruct Hps as [H|[-> _]]; lia).
      rewrite <- HR in Hs. now apply Hnone. }
    rewrite (matchesBefore_end cnd fs0 rel0 cp cs Hwf0 ltac:(lia) Hcs Hnone0).
    rewrite Z.sub_diag, Z.add_0_r, Hc.
    eexists. eexists. eexists. split; [reflexivity|].
    split; [exact Hwf1|].
    split; [exact (same_table_trans _ _ _ _ _ _ Hsame Hsame1)|exact Htot1].
Qed.

(** The scan of the test from [startScan] to [closeScan]. *)
Lemma countScan_spec fs rel sc cnd fuel pages :
  table_wf fs rel ->
  getRecordSize sc = recordSize (mgmtData rel) ->
  (Z.to_nat (Z.max (totalNumPages fs) 2 - 1) < pages)%nat ->
  (Z.to_nat (tableMatches cnd fs rel) < fuel)%nat ->
  exists fs' rel',
    countScan fuel pages fs rel sc cnd
    = Some (Int32.wrap (tableMatches cnd fs rel), fs', rel') /\
    table_wf fs' rel' /\ same_table fs rel fs' rel' /\
    totalNumPages fs' = Z.max (totalNumPages fs) 2.
Proof.
  intros Hwf HR Hpages Hfuel. unfold countScan, startScan, createRecord.
  assert (Hsame : same_table fs rel fs rel) by (repeat split; auto).
  destruct (countLoop_spec cnd fs rel pages fuel fs rel 1 0
              {| id := {| page := -1; slot := -1 |};
                 data := replicate (Z.to_nat (getRecordSize sc)) x00 |} 0
              Hwf Hwf Hsame ltac:(lia) Hpages ltac:(lia) ltac:(lia)
              ltac:(simpl; now rewrite length_replicate, HR)
              ltac:(reflexivity)
              ltac:(change (matchesBefore cnd fs rel 1 0) with 0;
                    now rewrite Z.sub_0_r))
    as (fs' & rel' & scan' & Heq & Hwf' & Hsame' & Htot').
  change (matchesBefore cnd fs rel 1 0) with 0 in Heq.
  rewrite Z.sub_0_r, Z.add_0_l in Heq.
  rewrite Heq. exists fs', rel'. split; [reflexivity|]. auto.
Qed.

(** A scan run to its end, as the tests run it, hands out as many records
    as the table has used slots that pass the condition, each once; the
    count is a C int.  It leaves the pages and the counters of the table
    as they were, and a file of two pages at least: on a table without a
    data page the first [next] appends page 1.  The record size is a
    non-negative [int] below [INT_MAX], so that [computeMaxSlots] divides
    by a positive [int]. *)
Theorem scan_counts_matches fs rel sc cnd fuel pages :
  table_wf fs rel ->
  0 <= recordSize (mgmtData rel) < Int32.max_int ->
  getRecordSize sc = recordSize (mgmtData rel) ->
  (Z.to_nat (Z.max (totalNumPages fs) 2 - 1) < pages)%nat ->
  (Z.to_nat (tableMatches cnd fs rel) < fuel)%nat ->
  exists fs' rel',
    countScan fuel pages fs rel sc cnd
    = Some (Int32.wrap (tableMatches cnd fs rel), fs', rel') /\
    table_wf fs' rel' /\ same_table fs rel fs' rel' /\
    totalNumPages fs' = Z.max (totalNumPages fs) 2.
Proof. intros Hwf _. exact (countScan_spec fs rel sc cnd fuel pages Hwf). Qed.

Lemma tableMatches_all fs rel :
  tableMatches None fs rel
  = dataPagesSum (usedCount (recordSize (mgmtData rel))) fs rel.
Proof.
  unfold tableMatches, pageMatches, dataPagesSum, usedCount, slotMatches.
  apply sumZ_ext. intros i _. apply sumZ_ext. intros s _.
  unfold scanMatch. now rewrite andb_true_r.
Qed.

(** In a table reached from [createTable] by inserts, deletes and updates,
    whose record size is a non-negative [int] below [INT_MAX] (so that
    [computeMaxSlots] divides by a positive [int]), a scan without a
    condition hands out exactly [getNumTuples] records. *)
Theorem scan_counts_tuples fs rel sc fuel pages :
  reachable fs rel ->
  0 <= recordSize (mgmtData rel) < Int32.max_int ->
  getRecordSize sc = recordSize (mgmtData rel) ->
  (Z.to_nat (Z.max (totalNumPages fs) 2 - 1) < pages)%nat ->
  (Z.to_nat (dataPagesSum (usedCount (recordSize (mgmtData rel))) fs rel) < fuel)%nat ->
  exists fs' rel',
    countScan fuel pages fs rel sc None = Some (getNumTuples rel, fs', rel') /\
    getNumTuples rel' = getNumTuples rel /\
    table_wf fs' rel'.
Proof.
  intros Hreach _ HR Hpages Hfuel.
  destruct (reachable_inv fs rel Hreach) as (Hwf & _ & _ & Hnum).
  rewrite <- tableMatches_all in Hfuel, Hnum.
  destruct (countScan_spec fs rel sc None fuel pages Hwf HR Hpages Hfuel)
    as (fs' & rel' & Heq & Hwf' & (_ & HnT & _) & _).
  exists fs', rel'. unfold getNumTuples. rewrite Hnum.
  split; [exact Heq|]. split; [congruence|exact Hwf'].
Qed.

End ScanCount.

(** * A pool as [initBufferPool] leaves it *)

Module FreshPool.
Import Storage BufferMgr StorageFacts BufferMgrFacts PoolFacts.
#[local] Opaque PAGE_SIZE.

Lemma findPageFrame_from_free i n pf q :
  pageNum pf <> q -> findPageFrame_from i (replicate n pf) q = None.
Proof.
  intros Hne. revert i. induction n as [|n IH]; intros i; [reflexivity|].
  simpl. destruct (pageNum pf =? q) eqn:E; [apply Z.eqb_eq in E; contradiction|].
  apply IH.
Qed.

(** Whenever [initBufferPool], called for a frame at least, returns
    [RC_OK] (the page file exists and the allocations were granted), the
    pool it has set up is in order over the file: every frame is free,
    clean and unpinned, no I/O is counted, and every page reads as the
    file has it. *)
Theorem initBufferPool_fresh fs n s bm :
  1 <= n ->
  initBufferPool n s = (RC_OK, bm) ->
  pool_wf fs bm /\ noPins bm /\
  getFrameContents bm = Some (replicate (Z.to_nat n) NO_PAGE) /\
  getDirtyFlags bm = Some (replicate (Z.to_nat n) false) /\
  getFixCounts bm = Some (replicate (Z.to_nat n) 0) /\
  getNumReadIO bm = 0 /\ getNumWriteIO bm = 0 /\
  forall q, 0 <= q -> view fs bm q = readBlock fs q.
Proof.
  intros Hn Hinit. injection Hinit as <-.
  unfold pool_wf, noPins, getFrameContents, getDirtyFlags, getFixCounts,
    getNumReadIO, getNumWriteIO, view, viewFrames, initPageFrameArray.
  cbn [mgmtData frames readIO writeIO].
  split.
  { eexists. split; [reflexivity|]. cbn [frames].
    split; [|split].
    - destruct (Z.to_nat n) eqn:E; [lia|discriminate].
    - intros i pf Hi. apply lookup_replicate_1 in Hi as [-> _].
      left. split; reflexivity.
    - intros i j pfi pfj Hi _ _ Hne.
      apply lookup_replicate_1 in Hi as [-> _]. now contradiction Hne. }
  split.
  { intros mgmt j pf Hm Hj. injection Hm as <-. cbn [frames] in Hj.
    now apply lookup_replicate_1 in Hj as [-> _]. }
  rewrite !fmap_replicate || rewrite !map_replicate.
  do 5 (split; [reflexivity|]).
  intros q Hq. rewrite findPageFrame_from_free; [reflexivity|].
  simpl. lia.
Qed.

End FreshPool.

(** * Where [insertRecord] puts a record *)

Module Placement.
Import Storage RecordMgr StorageFacts PoolFacts Int32Facts MemFacts RecordMgrFacts PageFacts TableFacts RecordOps.
#[local] Opaque PAGE_SIZE.

(** The page [insertRecord] turns to: the next free page of the catalog,
    or the page it appends when the catalog records none. *)
Lemma insertRecord_place fuel fs rel rec :
  table_wf fs rel ->
  let N := computeMaxSlots (recordSize (mgmtData rel)) in
  let p := if nextFreePage (mgmtData rel) <? 1 then totalNumPages fs
           else nextFreePage (mgmtData rel) in
  (exists s0, 0 <= s0 < N /\ getSlotFlag (pageView fs rel p) s0 = 0) ->
  exists fs' rel' s,
    insertRecord (S fuel) fs rel rec
    = Some (RC_OK, fs', rel',
            {| id := {| page := p; slot := s |}; data := data rec |}) /\
    0 <= s < N /\
    getSlotFlag (pageView fs rel p) s = 0 /\
    (forall s', 0 <= s' < s -> getSlotFlag (pageView fs rel p) s' <> 0).
Proof.
  intros Hwf N p (s0 & Hs0 & Hfree).
  simpl insertRecord.
  destruct (insert_prepare fs rel Hwf)
    as (fs1 & tbl1 & pn & Heq & Hnf & Hpn & Hwf1 & Hv1 & Htot1 & Hn1 & Hr1).
  assert (Hp : pn = p).
  { unfold p. destruct (nextFreePage (mgmtData rel) <? 1).
    - destruct (appendDataPage_spec fs (mgmtData rel) Hwf) as (fa & ta & Happ & _).
      { unfold totalNumPages. lia. }
      rewrite Happ in Heq. now injection Heq.
    - now injection Heq. }
  rewrite Heq. simpl rc_ok. simpl negb. cbv iota.
  assert (Hpn0 : 0 <= pn) by (unfold totalNumPages in Hpn; lia).
  rewrite Hnf.
  destruct (pinPage_wf fs1 (bufferPool tbl1) BM.nullHandle pn Hwf1 Hpn0)
    as (fs' & bm' & idx & Hpin & Hwf' & Hat & Hv & Htot).
  rewrite Hpin. simpl rc_ok. simpl negb. cbv iota.
  destruct (view_pinned fs' bm' pn idx Hwf' Hat Hpn0) as [Hderef Hlen].
  rewrite Hderef, (Hv _ Hpn0), (Hv1 _ Hpn0).
  fold N. rewrite Hp in *.
  destruct (findFreeSlot (pageView fs rel p) N) as [s|] eqn:Efree.
  - apply findFreeSlot_Some in Efree as (Hs & Hflag & Hmin).
    rewrite assign_eq. simpl BM.h_data.
    rewrite (markDirty_eq _ p idx idx) by solve_pinned. cbv iota beta.
    rewrite (unpinPage_eq _ p idx idx) by solve_pinned. cbv iota beta.
    eexists. eexists. exists s. split; [reflexivity|]. auto.
  - exfalso. exact (findFreeSlot_None _ _ Efree s0 Hs0 Hfree).
Qed.

(** [insertRecord] turns to the page the catalog has as its next free
    page, or, when it has none, to the page it appends at the end of the
    file; the record goes to the lowest slot of that page whose usage byte
    is 0.  No other page is looked at: free slots elsewhere stay free. *)
Theorem insertRecord_lowest_free_slot fuel fs rel rec :
  table_wf fs rel ->
  let N := computeMaxSlots (recordSize (mgmtData rel)) in
  let p := if nextFreePage (mgmtData rel) <? 1 then totalNumPages fs
           else nextFreePage (mgmtData rel) in
  (exists s0, 0 <= s0 < N /\ getSlotFlag (pageView fs rel p) s0 = 0) ->
  exists fs' rel' s,
    insertRecord (S fuel) fs rel rec
    = Some (RC_OK, fs', rel',
            {| id := {| page := p; slot := s |}; data := data rec |}) /\
    0 <= s < N /\
    getSlotFlag (pageView fs rel p) s = 0 /\
    (forall s', 0 <= s' < s -> getSlotFlag (pageView fs rel p) s' <> 0).
Proof. exact (insertRecord_place fuel fs rel rec). Qed.

(** The slot of a record deleted from a full page is the one the next
    [insertRecord] uses: the delete makes the page the next free page, and
    the new record gets the RID of the deleted one. *)
Theorem delete_then_insert_reuses_rid fuel fs rel rid rec :
  table_wf fs rel -> 1 <= page rid ->
  let N := computeMaxSlots (recordSize (mgmtData rel)) in
  0 <= slot rid < N ->
  (forall s, 0 <= s < N -> getSlotFlag (pageView fs rel (page rid)) s = 1) ->
  slotsUsedOf (pageView fs rel (page rid)) = N ->
  exists fs1 rel1 fs2 rel2,
    deleteRecord fs rel rid = (RC_OK, fs1, rel1) /\
    nextFreePage (mgmtData rel1) = page rid /\
    insertRecord (S fuel) fs1 rel1 rec
    = Some (RC_OK, fs2, rel2, {| id := rid; data := data rec |}).
Proof.
  intros Hwf Hp N Hs Hfull Hhdr.
  assert (Hp0 : 0 <= page rid) by lia.
  destruct (deleteRecord_spec fs rel rid Hwf Hp0)
    as (fs1 & rel1 & Hdel & Hwf1 & HR1 & _ & _ & Hcase).
  rewrite (Hfull _ Hs) in Hcase. change (1 =? 1) with true in Hcase. cbv iota in Hcase.
  destruct Hcase as (Hview & _ & Hnext).
  destruct (slot_geometry _ _ Hs) as (_ & HN & _). fold N in HN, Hnext.
  rewrite PAGE_SIZE_eq in HN.
  rewrite Hhdr in Hnext. unfold Int32.sub in Hnext.
  rewrite wrap_small in Hnext by (unfold Int32.min_int, Int32.max_int; lia).
  rewrite Z.eqb_refl in Hnext.
  pose proof (pageView_length fs rel (page rid) Hwf Hp0) as Hlen.
  assert (Hflags : forall s', 0 <= s' < N ->
            getSlotFlag (pageView fs1 rel1 (page rid)) s'
            = if s' =? slot rid then 0 else 1).
  { intros s' Hs'. rewrite (Hview _ Hp0), Z.eqb_refl.
    rewrite (clearSlot_flag (recordSize (mgmtData rel)) _ Hlen) by auto.
    destruct (s' =? slot rid); [reflexivity|]. now apply Hfull. }
  pose proof (insertRecord_place fuel fs1 rel1 rec Hwf1) as Hins.
  cbv zeta in Hins. rewrite Hnext, HR1 in Hins. fold N in Hins.
  replace (page rid <? 1) with false in Hins by (symmetry; apply Z.ltb_ge; lia).
  destruct Hins as (fs2 & rel2 & s & Hins & Hs2 & Hfree & _).
  { exists (slot rid). split; [exact Hs|]. rewrite Hflags by exact Hs.
    now rewrite Z.eqb_refl. }
  rewrite Hflags in Hfree by exact Hs2.
  destruct (s =? slot rid) eqn:E; [|discriminate].
  apply Z.eqb_eq in E. subst s.
  exists fs1, rel1, fs2, rel2. split; [exact Hdel|]. split; [exact Hnext|].
  rewrite Hins. now destruct rid.
Qed.

End Placement.

(** * Records as [createRecord] makes them, and RIDs no page has *)

Module RecordEdge.
Import Storage RecordMgr StorageFacts PoolFacts Int32Facts MemFacts RecordMgrFacts AttrFacts.




(** No table has a page of negative number: [getRecord], [updateRecord]
    and [deleteRecord] of such a RID return [RC_ERROR], the code of the
    failed [pinPage], and change neither the file, nor the table, nor the
    caller's record. *)
Theorem negative_page_rejected fs rel rid payload out :
  page rid < 0 ->
  getRecord fs rel rid out = (RC_ERROR, fs, rel, out) /\
  updateRecord fs rel {| id := rid; data := payload |} = (RC_ERROR, fs, rel) /\
  deleteRecord fs rel rid = (RC_ERROR, fs, rel).
Proof.
  intros Hneg.
  assert (Hpin : BM.pinPage fs (bufferPool (mgmtData rel)) BM.nullHandle (page rid)
                 = (RC_ERROR, fs, bufferPool (mgmtData rel), BM.nullHandle)).
  { unfold BM.pinPage. destruct (BM.mgmtData (bufferPool (mgmtData rel))); [|reflexivity].
    apply Z.ltb_lt in Hneg. now rewrite Hneg. }
  unfold getRecord, updateRecord, deleteRecord. cbn [id page].
  rewrite Hpin. destruct rel as [sc [bp nT nF rS]]. repeat split.
Qed.

End RecordEdge.

(** * The operations on concrete pools and tables, continued *)

Module MoreExamples.
Import Storage RecordMgr TestAssign3 StorageFacts PoolFacts RecordMgrFacts TableFacts AttrFacts InvFacts OpenFacts Examples.
Import PoolOps Durability RecordOps AttrFrame ScanFacts CatalogFacts PinFacts CloseFacts TestFacts ScanCount FreshPool Placement RecordEdge HistoryFacts.

Lemma oneRecordTable_noPins : BM.noPins (bufferPool (mgmtData (snd oneRecordTable))).
Proof. exact (reachable_noPins _ _ oneRecordTable_reachable). Qed.

Lemma oneRecordTable_totalNumPages : totalNumPages (fst oneRecordTable) = 2.
Proof. vm_compute. reflexivity. Qed.

Lemma oneRecordTable_slots :
  computeMaxSlots (recordSize (mgmtData (snd oneRecordTable))) = 818.
Proof. vm_compute. reflexivity. Qed.

Lemma oneRecordTable_schema : schema (snd oneRecordTable) = simpleSchema.
Proof. vm_compute. reflexivity. Qed.

Lemma fullPageTable_reachable :
  reachable (fst fullPageTable) (snd fullPageTable).
Proof. do 2 apply reachable_insertInto. apply reachable_openNew. Qed.

Lemma fullPageTable_wf : table_wf (fst fullPageTable) (snd fullPageTable).
Proof. exact (proj1 (reachable_inv _ _ fullPageTable_reachable)). Qed.

(** Page 1 of [oneRecordTable] pinned once more. *)
Lemma pinPage_keeps_pages_witness :
  exists fs' bm' h,
    BM.pinPage (fst oneRecordTable) (bufferPool (mgmtData (snd oneRecordTable)))
      BM.nullHandle 1
    = (RC_OK, fs', bm', h) /\
    BM.h_pageNum h = 1 /\ totalNumPages fs' = 2.
Proof.
  destruct (pinPage_keeps_pages (fst oneRecordTable)
              (bufferPool (mgmtData (snd oneRecordTable))) BM.nullHandle 1
              oneRecordTable_wf ltac:(lia))
    as (fs' & bm' & h & Heq & Hh & _ & _ & _ & _ & Htot).
  exists fs', bm', h. split; [exact Heq|]. split; [exact Hh|].
  rewrite Htot, oneRecordTable_totalNumPages. reflexivity.
Defined.

(** The pin of page 3 into a pool whose three frames hold the dirty pages
    0, 1 and 2: one read, and one write, of page 0. *)
Lemma pinPage_io_witness :
  let st := BM.threeDirtyPages createPageFile in
  let r := BM.pinPage (fst st) (snd st) BM.nullHandle 3 in
  BM.getNumReadIO (snd (fst r)) = 4 /\
  BM.getNumWriteIO (snd (fst r)) = 1 /\
  written (snd (fst (fst r))) = [0].
Proof.
  intros st r.
  pose proof (pinPage_io (fst st) (snd st) (BM.mgmtOf (snd st)) BM.nullHandle 3
                (snd (fst (fst r))) (snd (fst r)) (snd r)
                ltac:(vm_compute; reflexivity) ltac:(vm_compute; reflexivity)) as H.
  assert (E : BM.findPageFrame (BM.mgmtOf (snd st)) 3 = None)
    by (vm_compute; reflexivity).
  rewrite E in H. destruct H as (_ & Hr & victim & Hl & Hw & Hlog).
  assert (Hd : BM.dirty victim = true /\ BM.pageNum victim = 0).
  { vm_compute in Hl. injection Hl as <-. split; reflexivity. }
  destruct Hd as [Hd Hp]. rewrite Hd in Hw, Hlog. rewrite Hp in Hlog.
  rewrite Hr, Hw, Hlog. vm_compute. repeat split.
Defined.

(** A handle for page 7 on a pool that has just been made. *)
Lemma handle_not_resident_witness :
  let bm := snd (BM.initBufferPool 3 BM.RS_FIFO) in
  let h := {| BM.h_pageNum := 7; BM.h_data := 0%nat |} in
  BM.markDirty bm h = (RC_ERROR, bm) /\
  BM.unpinPage bm h = (RC_ERROR, bm) /\
  BM.forcePage createPageFile bm h = (RC_ERROR, createPageFile, bm).
Proof.
  intros bm h.
  apply (handle_not_resident createPageFile bm (BM.mgmtOf bm) h eq_refl).
  intros j pf Hj.
  destruct j as [|[|[|j]]]; vm_compute in Hj; try discriminate;
    injection Hj as <-; vm_compute; discriminate.
Defined.

(** Page 1 of [oneRecordTable] pinned and unpinned. *)
Lemma pin_unpin_balanced_witness :
  exists fs' bm' h bm'',
    BM.pinPage (fst oneRecordTable) (bufferPool (mgmtData (snd oneRecordTable)))
      BM.nullHandle 1
    = (RC_OK, fs', bm', h) /\
    BM.unpinPage bm' h = (RC_OK, bm'') /\ BM.noPins bm''.
Proof.
  destruct (pin_unpin_balanced (fst oneRecordTable)
              (bufferPool (mgmtData (snd oneRecordTable))) BM.nullHandle 1
              oneRecordTable_wf oneRecordTable_noPins ltac:(lia))
    as (fs' & bm' & h & bm'' & Hpin & Hunpin & _ & Hno & _).
  exists fs', bm', h, bm''. auto.
Defined.

(** The pool of [oneRecordTable] flushed: the file has the data page. *)
Lemma forceFlushPool_durable_witness :
  exists fs' bm',
    BM.forceFlushPool (fst oneRecordTable) (bufferPool (mgmtData (snd oneRecordTable)))
    = (RC_OK, fs', bm') /\
    readBlock fs' 1 = pageView (fst oneRecordTable) (snd oneRecordTable) 1.
Proof.
  destruct (forceFlushPool_durable (fst oneRecordTable)
              (bufferPool (mgmtData (snd oneRecordTable))) oneRecordTable_wf)
    as (fs' & bm' & Heq & _ & _ & _ & Hdisk & _).
  exists fs', bm'. split; [exact Heq|]. apply Hdisk; [lia|].
  intros mgmt j pf Hm Hj _. exact (oneRecordTable_noPins mgmt j pf Hm Hj).
Defined.

(** The pool of [oneRecordTable] shut down. *)
Lemma shutdownBufferPool_unpinned_witness :
  exists fs' bm',
    BM.shutdownBufferPool (fst oneRecordTable)
      (bufferPool (mgmtData (snd oneRecordTable)))
    = (RC_OK, fs', bm') /\
    BM.mgmtData bm' = None /\
    readBlock fs' 1 = pageView (fst oneRecordTable) (snd oneRecordTable) 1.
Proof.
  destruct (shutdownBufferPool_unpinned (fst oneRecordTable)
              (bufferPool (mgmtData (snd oneRecordTable)))
              oneRecordTable_wf oneRecordTable_noPins)
    as (fs' & bm' & Heq & Hnone & _ & Hdisk & _).
  exists fs', bm'. split; [exact Heq|]. split; [exact Hnone|].
  apply Hdisk. lia.
Defined.

(** Page 1 of [oneRecordTable], which is in frame 1, forced to the file. *)
Lemma forcePage_effect_witness :
  exists fs' bm',
    BM.forcePage (fst oneRecordTable) (bufferPool (mgmtData (snd oneRecordTable)))
      {| BM.h_pageNum := 1; BM.h_data := 1%nat |}
    = (RC_OK, fs', bm') /\
    readBlock fs' 1 = pageView (fst oneRecordTable) (snd oneRecordTable) 1.
Proof.
  destruct (forcePage_effect (fst oneRecordTable)
              (bufferPool (mgmtData (snd oneRecordTable))) 1 1%nat 1%nat
              oneRecordTable_wf)
    as (fs' & bm' & Heq & _ & Hblock & _).
  - exists (BM.mgmtOf (bufferPool (mgmtData (snd oneRecordTable)))).
    split; vm_compute; reflexivity.
  - lia.
  - exists fs', bm'. split; [exact Heq|exact Hblock].
Defined.

(** The first record of a table of [intSchema]. *)
Lemma insertRecord_effect_witness :
  exists fs' rel' p s,
    insertRecord 2 (fst (openNew intSchema)) (snd (openNew intSchema))
      (filledRecord intSchema x2a)
    = Some (RC_OK, fs', rel',
            {| id := {| page := p; slot := s |};
               data := data (filledRecord intSchema x2a) |}) /\
    getSlotFlag (pageView fs' rel' p) s = 1 /\
    numTuples (mgmtData rel') = 1.
Proof.
  destruct (insertRecord_effect 0 (fst (openNew intSchema)) (snd (openNew intSchema))
              (filledRecord intSchema x2a))
    as (fs' & rel' & p & s & Heq & Hrest).
  - apply openNew_wf.
  - vm_compute. discriminate.
  - vm_compute. reflexivity.
  - vm_compute. reflexivity.
  - cbv zeta in Hrest.
    destruct Hrest as (_ & _ & _ & _ & _ & _ & Hused & _ & _ & Hnum & _).
    exists fs', rel', p, s. split; [exact Heq|]. split; [exact Hused|].
    rewrite Hnum. vm_compute. reflexivity.
Defined.

(** A record of 5000 bytes: [insertRecord] does not return. *)
Lemma insertRecord_no_room_witness :
  insertRecord 5 (fst (openNew hugeSchema)) (snd (openNew hugeSchema))
    (filledRecord hugeSchema x00)
  = None.
Proof.
  apply insertRecord_no_room.
  - apply openNew_wf.
  - vm_compute. split; [discriminate|reflexivity].
  - vm_compute. discriminate.
Defined.

(** The record of [oneRecordTable] deleted. *)
Lemma deleted_record_is_gone_witness :
  exists fs1 rel1 fs2 rel2,
    deleteRecord (fst oneRecordTable) (snd oneRecordTable) {| page := 1; slot := 0 |}
    = (RC_OK, fs1, rel1) /\
    getRecord fs1 rel1 {| page := 1; slot := 0 |} (filledRecord intSchema x00)
    = (RC_RM_NO_MORE_TUPLES, fs2, rel2, filledRecord intSchema x00).
Proof.
  destruct (deleted_record_is_gone (fst oneRecordTable) (snd oneRecordTable)
              {| page := 1; slot := 0 |} (filledRecord intSchema x00))
    as (fs1 & rel1 & Hdel & _ & (fs2 & rel2 & Hget) & _).
  - apply oneRecordTable_wf.
  - simpl. lia.
  - rewrite oneRecordTable_slots. simpl. lia.
  - right. vm_compute. reflexivity.
  - exists fs1, rel1, fs2, rel2. split; [exact Hdel|exact Hget].
Defined.

(** The record of [oneRecordTable] updated and read back. *)
Lemma update_then_get_witness :
  let rec := {| id := {| page := 1; slot := 0 |}; data := [x01; x02; x03; x04] |} in
  exists fs1 rel1 fs2 rel2,
    updateRecord (fst oneRecordTable) (snd oneRecordTable) rec = (RC_OK, fs1, rel1) /\
    getRecord fs1 rel1 {| page := 1; slot := 0 |} (filledRecord intSchema x00)
    = (RC_OK, fs2, rel2, rec).
Proof.
  intros rec.
  apply (update_then_get (fst oneRecordTable) (snd oneRecordTable) rec
           (filledRecord intSchema x00)).
  - apply oneRecordTable_wf.
  - simpl. lia.
  - rewrite oneRecordTable_slots. simpl. lia.
  - vm_compute. discriminate.
  - vm_compute. reflexivity.
  - vm_compute. reflexivity.
Defined.

(** The record of [oneRecordTable] read. *)
Lemma getRecord_reads_only_witness :
  exists fs' rel' rec',
    getRecord (fst oneRecordTable) (snd oneRecordTable) {| page := 1; slot := 0 |}
      (filledRecord intSchema x00)
    = (RC_OK, fs', rel', rec') /\
    same_table (fst oneRecordTable) (snd oneRecordTable) fs' rel' /\
    totalNumPages fs' = 2.
Proof.
  destruct (getRecord_reads_only (fst oneRecordTable) (snd oneRecordTable)
              {| page := 1; slot := 0 |} (filledRecord intSchema x00))
    as (rc & fs' & rel' & rec' & Heq & _ & Hsame & Htot & _ & Hused).
  - apply oneRecordTable_wf.
  - rewrite oneRecordTable_totalNumPages. simpl. lia.
  - rewrite oneRecordTable_slots. simpl. lia.
  - vm_compute. reflexivity.
  - destruct Hused as [-> _]; [vm_compute; discriminate|].
    exists fs', rel', rec'. split; [exact Heq|]. split; [exact Hsame|].
    rewrite Htot. apply oneRecordTable_totalNumPages.
Defined.


(** The scan of [oneRecordTable] from its start. *)
Lemma next_first_match_witness :
  exists fs' rel' record',
    next 2 (fst oneRecordTable) (snd oneRecordTable)
      {| currentPage := 1; currentSlot := 0; cond := None |}
      (filledRecord intSchema x00)
    = Some (RC_OK, fs', rel',
            {| currentPage := 1; currentSlot := 1; cond := None |}, record') /\
    id record' = {| page := 1; slot := 0 |}.
Proof.
  pose proof (next_first_match 2 (fst oneRecordTable) (snd oneRecordTable) 1 0 None
                (filledRecord intSchema x00) oneRecordTable_wf
                ltac:(vm_compute; split; [discriminate|reflexivity])
                ltac:(lia) ltac:(lia) ltac:(vm_compute; reflexivity)
                ltac:(rewrite oneRecordTable_totalNumPages; simpl; lia)) as H.
  cbv zeta in H.
  destruct H as (rc & fs' & rel' & p' & s' & record' & Heq & _ & _ & _ & _ & Hcase).
  assert (Hfirst : scanMatch (schema (snd oneRecordTable)) None
                     (recordSize (mgmtData (snd oneRecordTable)))
                     (pageView (fst oneRecordTable) (snd oneRecordTable) 1) 1 0 = true)
    by (vm_compute; reflexivity).
  rewrite oneRecordTable_slots in Hcase.
  destruct Hcase as [(-> & Hle & Hs' & _ & Hrec & Hbefore) | (_ & Hnone)].
  - assert (Hpos : scanPosLe p' (s' - 1) 1 0).
    { destruct (decide (p' < 1)) as [H|H]; [left; exact H|].
      destruct (decide (1 = p' /\ s' - 1 <= 0)) as [H2|H2]; [right; exact H2|].
      exfalso.
      rewrite (Hbefore 1 0) in Hfirst;
        [discriminate|right; lia|lia|intros [H3|H3]; [lia|apply H2; lia]]. }
    assert (p' = 1 /\ s' = 1) as [-> ->].
    { unfold scanPosLe in *. lia. }
    exists fs', rel', record'. split; [exact Heq|]. now rewrite Hrec.
  - rewrite (Hnone 1 0) in Hfirst; [discriminate|right; lia|lia].
Defined.

(** The table of [simpleSchema] made and opened. *)
Lemma open_after_create_witness :
  exists fs0 fs rel,
    createTable simpleSchema = (RC_OK, fs0) /\
    openTable fs0 = (RC_OK, fs, Some rel) /\
    schema rel = simpleSchema /\
    recordSize (mgmtData rel) = 4 /\
    totalNumPages fs = 1.
Proof.
  destruct (open_after_create simpleSchema simpleSchema_catalog)
    as (fs0 & fs & rel & Hc & Ho & Hsch & _ & _ & HR & Htot & _).
  - vm_compute. reflexivity.
  - exists fs0, fs, rel. auto.
Defined.

(** [oneRecordTable] closed and opened again. *)
Lemma close_then_open_witness :
  exists fs1 fs2 rel2,
    closeTable (fst oneRecordTable) (snd oneRecordTable) = (RC_OK, fs1, None) /\
    openTable fs1 = (RC_OK, fs2, Some rel2) /\
    numTuples (mgmtData rel2) = 1 /\
    pageView fs2 rel2 1 = pageView (fst oneRecordTable) (snd oneRecordTable) 1.
Proof.
  destruct (close_then_open (fst oneRecordTable) (snd oneRecordTable)
              oneRecordTable_wf oneRecordTable_noPins)
    as (fs1 & fs2 & rel2 & Hc & Ho & _ & Hn & _ & _ & _ & _ & _ & Hv).
  - rewrite oneRecordTable_totalNumPages. lia.
  - rewrite oneRecordTable_schema. exact simpleSchema_catalog.
  - vm_compute. split; discriminate.
  - vm_compute. split; discriminate.
  - vm_compute. reflexivity.
  - exists fs1, fs2, rel2. split; [exact Hc|]. split; [exact Ho|].
    split; [rewrite Hn; vm_compute; reflexivity|]. apply Hv. lia.
Defined.

(** [oneRecordTable] has no pinned page and closes. *)
Lemma reachable_table_closes_witness :
  BM.noPins (bufferPool (mgmtData (snd oneRecordTable))) /\
  exists fs1, closeTable (fst oneRecordTable) (snd oneRecordTable) = (RC_OK, fs1, None).
Proof.
  apply (reachable_table_closes (fst oneRecordTable) (snd oneRecordTable)
           oneRecordTable_reachable).
  - rewrite oneRecordTable_schema. exact simpleSchema_catalog.
  - vm_compute. reflexivity.
Defined.

(** The test with the value it uses. *)
Lemma simpleTableTest_passes_witness : simpleTableTest 42 = Some (V_INT 42).
Proof. apply simpleTableTest_passes. vm_compute. split; discriminate. Defined.

(** Two records inserted into a fresh table of [randSchema]. *)
Lemma insertLoop_readback_witness :
  exists fs' table' rids,
    insertLoop randSchema (fst (openNew randSchema)) (snd (openNew randSchema))
      [(1, 2); (3, 4)]
    = Some (fs', table', rids) /\
    length rids = 2%nat /\ getNumTuples table' = 2 /\ NoDup rids.
Proof.
  destruct (insertLoop_readback (fst (openNew randSchema)) (snd (openNew randSchema))
              [(1, 2); (3, 4)])
    as (fs' & table' & rids & Heq & Hlen & Hnum & Hnodup & _).
  - apply openNew_wf.
  - vm_compute. discriminate.
  - vm_compute. reflexivity.
  - vm_compute. split; discriminate.
  - repeat constructor; vm_compute; discriminate.
  - exists fs', table', rids. split; [exact Heq|]. split; [exact Hlen|].
    split; [rewrite Hnum; vm_compute; reflexivity|exact Hnodup].
Defined.

(** The scan of [oneRecordTable] counts its record. *)
Lemma scan_counts_matches_witness :
  exists fs' rel',
    countScan 2 2 (fst oneRecordTable) (snd oneRecordTable) intSchema None
    = Some (1, fs', rel').
Proof.
  assert (E : tableMatches None (fst oneRecordTable) (snd oneRecordTable) = 1)
    by (vm_compute; reflexivity).
  destruct (scan_counts_matches (fst oneRecordTable) (snd oneRecordTable) intSchema
              None 2 2 oneRecordTable_wf)
    as (fs' & rel' & Heq & _).
  - vm_compute. split; [discriminate|reflexivity].
  - vm_compute. reflexivity.
  - rewrite oneRecordTable_totalNumPages. simpl. lia.
  - rewrite E. simpl. lia.
  - exists fs', rel'. rewrite Heq, E. reflexivity.
Defined.

(** The scan of [twoPageTable] counts its two records. *)
Lemma scan_counts_tuples_witness :
  getNumTuples (snd twoPageTable) = 2 /\
  exists fs' rel',
    countScan 3 3 (fst twoPageTable) (snd twoPageTable) wideSchema None
    = Some (2, fs', rel').
Proof.
  assert (E : getNumTuples (snd twoPageTable) = 2) by (vm_compute; reflexivity).
  split; [exact E|].
  destruct (scan_counts_tuples (fst twoPageTable) (snd twoPageTable) wideSchema 3 3
              twoPageTable_reachable)
    as (fs' & rel' & Heq & _).
  - vm_compute. split; [discriminate|reflexivity].
  - vm_compute. reflexivity.
  - rewrite twoPageTable_totalNumPages. simpl. lia.
  - assert (E2 : dataPagesSum (usedCount (recordSize (mgmtData (snd twoPageTable))))
                   (fst twoPageTable) (snd twoPageTable) = 2)
      by (vm_compute; reflexivity).
    rewrite E2. simpl. lia.
  - exists fs', rel'. rewrite Heq, E. reflexivity.
Defined.

(** A pool of three frames. *)
Lemma initBufferPool_fresh_witness :
  let bm := snd (BM.initBufferPool 3 BM.RS_FIFO) in
  BM.initBufferPool 3 BM.RS_FIFO = (RC_OK, bm) /\
  BM.getFrameContents bm = Some [BM.NO_PAGE; BM.NO_PAGE; BM.NO_PAGE] /\
  BM.getFixCounts bm = Some [0; 0; 0].
Proof.
  intros bm. split; [reflexivity|].
  destruct (initBufferPool_fresh createPageFile 3 BM.RS_FIFO bm ltac:(lia) eq_refl)
    as (_ & _ & Hc & _ & Hf & _).
  split; [exact Hc|exact Hf].
Defined.

(** In [twoPageTable] the next free page is page 1, whose slot 0 is free. *)
Lemma insertRecord_lowest_free_slot_witness :
  exists fs' rel',
    insertRecord 1 (fst twoPageTable) (snd twoPageTable) (filledRecord wideSchema x44)
    = Some (RC_OK, fs', rel',
            {| id := {| page := 1; slot := 0 |};
               data := data (filledRecord wideSchema x44) |}).
Proof.
  pose proof (insertRecord_lowest_free_slot 0 (fst twoPageTable) (snd twoPageTable)
                (filledRecord wideSchema x44) twoPageTable_wf) as H.
  cbv zeta in H.
  assert (Ep : (if nextFreePage (mgmtData (snd twoPageTable)) <? 1
                then totalNumPages (fst twoPageTable)
                else nextFreePage (mgmtData (snd twoPageTable))) = 1)
    by (vm_compute; reflexivity).
  rewrite Ep in H.
  destruct H as (fs' & rel' & s & Heq & Hs & _ & Hmin).
  - exists 0. rewrite twoPageTable_recordSize.
    split; vm_compute; [split; [discriminate|reflexivity]|reflexivity].
  - assert (E : s = 0).
    { destruct (decide (0 < s)) as [Hpos|Hneg]; [|lia].
      exfalso. apply (Hmin 0); [lia|]. vm_compute. reflexivity. }
    subst s. exists fs', rel'. exact Heq.
Defined.

(** The record of slot 0 of the full page 1 deleted, another inserted. *)
Lemma delete_then_insert_reuses_rid_witness :
  exists fs1 rel1 fs2 rel2,
    deleteRecord (fst fullPageTable) (snd fullPageTable) {| page := 1; slot := 0 |}
    = (RC_OK, fs1, rel1) /\
    insertRecord 1 fs1 rel1 (filledRecord wideSchema x44)
    = Some (RC_OK, fs2, rel2,
            {| id := {| page := 1; slot := 0 |};
               data := data (filledRecord wideSchema x44) |}).
Proof.
  assert (EN : computeMaxSlots (recordSize (mgmtData (snd fullPageTable))) = 2)
    by (vm_compute; reflexivity).
  pose proof (delete_then_insert_reuses_rid 0 (fst fullPageTable) (snd fullPageTable)
                {| page := 1; slot := 0 |} (filledRecord wideSchema x44)
                fullPageTable_wf ltac:(simpl; lia)) as H.
  cbv zeta in H. rewrite EN in H.
  destruct H as (fs1 & rel1 & fs2 & rel2 & Hdel & _ & Hins).
  - simpl. lia.
  - intros s Hs. assert (s = 0 \/ s = 1) as [-> | ->] by lia; vm_compute; reflexivity.
  - vm_compute. reflexivity.
  - exists fs1, rel1, fs2, rel2. split; [exact Hdel|exact Hins].
Defined.


(** A delete at page -1 of [oneRecordTable]. *)
Lemma negative_page_rejected_witness :
  deleteRecord (fst oneRecordTable) (snd oneRecordTable) {| page := -1; slot := 0 |}
  = (RC_ERROR, fst oneRecordTable, snd oneRecordTable).
Proof.
  exact (proj2 (proj2 (negative_page_rejected (fst oneRecordTable) (snd oneRecordTable)
                         {| page := -1; slot := 0 |} []
                         (filledRecord intSchema x00) ltac:(simpl; lia)))).
Defined.

(** The record of [oneRecordTable], RID (1, 0), after a second insert, the
    delete of the second record, and reads at pages 0, 2 and 3 that make
    the pool replace the page of the record. *)
Lemma insert_then_get_later_witness :
  let r := {| page := 1; slot := 0 |} in
  let out := filledRecord intSchema x00 in
  let ops :=
    [ OpInsert (filledRecord intSchema x2b); OpDelete {| page := 1; slot := 1 |} ]
    ++ replicate 4 (OpGet {| page := 0; slot := 0 |} out)
    ++ replicate 5 (OpGet {| page := 2; slot := 0 |} out)
    ++ [ OpGet {| page := 3; slot := 0 |} out ] in
  exists fs2 rel2 fs3 rel3,
    runOps 2 (fst oneRecordTable) (snd oneRecordTable) ops = Some (fs2, rel2) /\
    BM.getFrameContents (bufferPool (mgmtData rel2)) = Some [0; 3; 2] /\
    getRecord fs2 rel2 r out
    = (RC_OK, fs3, rel3, {| id := r; data := data (filledRecord intSchema x2a) |}).
Proof.
  intros r out ops.
  destruct (insert_then_get_later 2 0 (fst (openNew intSchema)) (snd (openNew intSchema))
              (filledRecord intSchema x2a) out
              (fst oneRecordTable) (snd oneRecordTable)
              {| id := r; data := data (filledRecord intSchema x2a) |} ops)
    as (fs2 & rel2 & fs3 & rel3 & Hrun & Hget & _).
  - apply openNew_wf.
  - vm_compute. reflexivity.
  - vm_compute. reflexivity.
  - vm_compute. reflexivity.
  - unfold ops. repeat (apply Forall_app; split);
      try apply Forall_replicate; repeat (apply Forall_cons; split);
      try apply Forall_nil;
      try (vm_compute; repeat split; solve [discriminate | reflexivity]).
  - cbn [id] in Hget.
    assert (E : lastWritten r (data (filledRecord intSchema x2a)) ops
                = data (filledRecord intSchema x2a)) by (vm_compute; reflexivity).
    rewrite E in Hget.
    exists fs2, rel2, fs3, rel3. split; [exact Hrun|]. split; [|exact Hget].
    assert (E2 : option_map (fun st => BM.getFrameContents (bufferPool (mgmtData (snd st))))
                   (runOps 2 (fst oneRecordTable) (snd oneRecordTable) ops)
                 = Some (Some [0; 3; 2])) by (vm_compute; reflexivity).
    rewrite Hrun in E2. now injection E2.
Defined.

(** C1, as stated, fails: in [oneRecordTable] the record inserted with the
    bytes 2a 2a 2a 2a has RID (1, 0); after [updateRecord] of that RID with
    the bytes 01 02 03 04, and no delete, [getRecord] returns ok with the
    bytes of the update, not the inserted ones. *)
Lemma update_before_get :
  let r := {| page := 1; slot := 0 |} in
  let st := openNew intSchema in
  let i := insertRecord 2 (fst st) (snd st) (filledRecord intSchema x2a) in
  let u := updateRecord (fst oneRecordTable) (snd oneRecordTable)
             {| id := r; data := [x01; x02; x03; x04] |} in
  let g := getRecord (snd (fst u)) (snd u) r (filledRecord intSchema x00) in
  i = Some (RC_OK, fst oneRecordTable, snd oneRecordTable,
            {| id := r; data := [x2a; x2a; x2a; x2a] |}) /\
  fst (fst u) = RC_OK /\
  fst (fst (fst g)) = RC_OK /\
  id (snd g) = r /\
  data (snd g) = [x01; x02; x03; x04] /\
  data (snd g) <> [x2a; x2a; x2a; x2a].
Proof. vm_compute. repeat split. discriminate. Qed.

End MoreExamples.
